(** * QMarkdownTextEdit: the Markdown highlighter (markdownhighlighter.cpp)

    A shallow embedding of [MarkdownHighlighter] and of the parts of Qt it
    drives (QString, QTextBlock states, QSyntaxHighlighter::setFormat), followed
    by the properties of the highlighter that are checked against it.

    Conventions.
    - A [QString] is a [string] of Latin-1 characters; a C++ [int] is a [Z]
      (line lengths stay far from the 32-bit limits).
    - Highlighter states are the integers of the [HighlighterState] enum, as
      Qt stores them in [QTextBlock::userState].
    - Code that talks to the document or to the format table is written in the
      monad [Prog]; a read outside a string ends a program with [OutOfRange],
      a loop that exceeds its bound with [OutOfFuel]. *)

From Stdlib Require Import ZArith QArith List String Ascii Bool Lia.
Import ListNotations.
Local Open Scope string_scope.
Local Open Scope list_scope.
Local Open Scope Z_scope.

(* ------------------------------------------------------------------------- *)
(** ** QChar *)

Module QChar.

Definition unicode (c : ascii) : Z := Z.of_N (N_of_ascii c).

Definition inRange (lo hi : Z) (c : ascii) : bool :=
  (lo <=? unicode c) && (unicode c <=? hi).

(** Unicode categories L*, restricted to Latin-1. *)
Definition isLetter (c : ascii) : bool :=
  inRange 65 90 c || inRange 97 122 c || inRange 170 170 c ||
  inRange 181 181 c || inRange 186 186 c || inRange 192 214 c ||
  inRange 216 246 c || inRange 248 255 c.

(** Unicode categories Nd, Nl, No, restricted to Latin-1. *)
Definition isNumber (c : ascii) : bool :=
  inRange 48 57 c || inRange 178 179 c || inRange 185 185 c || inRange 188 190 c.

Definition isSpace (c : ascii) : bool :=
  inRange 32 32 c || inRange 9 13 c || inRange 133 133 c || inRange 160 160 c.

Definition isNull (c : ascii) : bool := unicode c =? 0.

Definition toLower (c : ascii) : ascii :=
  if inRange 65 90 c || inRange 192 214 c || inRange 216 222 c
  then ascii_of_N (N_of_ascii c + 32) else c.

(** The default-constructed [QChar]. *)
Definition null : ascii := "000"%char.
Definition dquote : ascii := "034"%char.
Definition squote : ascii := "039"%char.
Definition backslash : ascii := "092"%char.
Definition tab : ascii := "009"%char.
Definition newline : ascii := "010"%char.

End QChar.

(** [isOctal] and [isHex] of markdownhighlighter.h. *)
Definition isOctal (c : ascii) : bool := QChar.inRange 48 55 c.

Definition isHex (c : ascii) : bool :=
  QChar.inRange 48 57 c || QChar.inRange 97 102 c || QChar.inRange 65 70 c.

(* ------------------------------------------------------------------------- *)
(** ** QString *)

Module QString.

Definition length (s : string) : Z := Z.of_nat (String.length s).

Definition isEmpty (s : string) : bool :=
  match s with EmptyString => true | String _ _ => false end.

(** [QString::at] and the const [operator[]]: defined inside the string only. *)
Definition charAt (s : string) (i : Z) : option ascii :=
  if i <? 0 then None else String.get (Z.to_nat i) s.

Fixpoint drop (n : nat) (s : string) : string :=
  match n, s with
  | O, _ => s
  | S m, String _ r => drop m r
  | S _, EmptyString => EmptyString
  end.

Fixpoint take (n : nat) (s : string) : string :=
  match n, s with
  | O, _ => EmptyString
  | S m, String a r => String a (take m r)
  | S _, EmptyString => EmptyString
  end.

(** [QString::mid(position, n)], with the clipping of
    [QContainerImplHelper::mid]. *)
Definition mid (s : string) (position n : Z) : string :=
  let len := length s in
  if len <? position then EmptyString
  else if position <? 0 then
    if (n <? 0) || (len <=? n + position) then s
    else if n + position <=? 0 then EmptyString
    else take (Z.to_nat (n + position)) s
  else if (n <? 0) || (len - position <? n) then drop (Z.to_nat position) s
  else take (Z.to_nat n) (drop (Z.to_nat position) s).

Fixpoint findChar (c : ascii) (s : string) (i : Z) : Z :=
  match s with
  | EmptyString => -1
  | String a r => if Ascii.eqb a c then i else findChar c r (i + 1)
  end.

(** [QString::indexOf(QChar, from)]. *)
Definition indexOfChar (s : string) (c : ascii) (from : Z) : Z :=
  let len := length s in
  let from := if from <? 0 then Z.max (from + len) 0 else from in
  if from <? len then findChar c (drop (Z.to_nat from) s) from else -1.

Fixpoint findString (needle s : string) (i : Z) : Z :=
  if String.prefix needle s then i
  else match s with
       | EmptyString => -1
       | String _ r => findString needle r (i + 1)
       end.

(** [QString::indexOf(QLatin1String)] from the start of the string. *)
Definition indexOf (s needle : string) : Z := findString needle s 0.

Definition contains (s needle : string) : bool := negb (indexOf s needle =? -1).

Fixpoint lastChar (c : ascii) (s : string) (i acc : Z) : Z :=
  match s with
  | EmptyString => acc
  | String a r => lastChar c r (i + 1) (if Ascii.eqb a c then i else acc)
  end.

(** [QString::lastIndexOf(QChar, from)]: the search runs backwards from
    [from]; a negative [from] counts from the end. *)
Definition lastIndexOfChar (s : string) (c : ascii) (from : Z) : Z :=
  let len := length s in
  let from := if from <? 0 then from + len else from in
  if (from <? 0) || (len <=? from) then -1
  else lastChar c (take (Z.to_nat (from + 1)) s) 0 (-1).

Definition startsWith (s p : string) : bool := String.prefix p s.

Definition endsWith (s p : string) : bool :=
  let ls := String.length s in
  let lp := String.length p in
  if (lp <=? ls)%nat then String.eqb (drop (ls - lp) s) p else false.

Fixpoint trimLeft (s : string) : string :=
  match s with
  | EmptyString => EmptyString
  | String a r => if QChar.isSpace a then trimLeft r else s
  end.

Definition reverse (s : string) : string :=
  string_of_list_ascii (List.rev (list_ascii_of_string s)).

Definition trimmed (s : string) : string :=
  reverse (trimLeft (reverse (trimLeft s))).

Fixpoint toLower (s : string) : string :=
  match s with
  | EmptyString => EmptyString
  | String a r => String (QChar.toLower a) (toLower r)
  end.

Definition single (c : ascii) : string := String c EmptyString.

End QString.

(* ------------------------------------------------------------------------- *)
(** ** The [HighlighterState] enum (markdownhighlighter.h) *)

Module HighlighterState.

Definition NoState : Z := -1.
Definition Link : Z := 0.
Definition Image : Z := 3.
Definition CodeBlock : Z := 4.
Definition CodeBlockComment : Z := 5.
Definition Italic : Z := 7.
Definition Bold : Z := 8.
Definition List : Z := 9.
Definition Comment : Z := 11.
Definition H1 : Z := 12.
Definition H2 : Z := 13.
Definition H3 : Z := 14.
Definition H4 : Z := 15.
Definition H5 : Z := 16.
Definition H6 : Z := 17.
Definition BlockQuote : Z := 18.
Definition HorizontalRuler : Z := 21.
Definition Table : Z := 22.
Definition InlineCodeBlock : Z := 23.
Definition MaskedSyntax : Z := 24.
Definition CurrentLineBackgroundColor : Z := 25.
Definition BrokenLink : Z := 26.
Definition FrontmatterBlock : Z := 27.
Definition TrailingSpace : Z := 28.
Definition CheckBoxUnChecked : Z := 29.
Definition CheckBoxChecked : Z := 30.

(* code highlighting *)
Definition CodeKeyWord : Z := 1000.
Definition CodeString : Z := 1001.
Definition CodeComment : Z := 1002.
Definition CodeType : Z := 1003.
Definition CodeOther : Z := 1004.
Definition CodeNumLiteral : Z := 1005.
Definition CodeBuiltIn : Z := 1006.

(* internal *)
Definition CodeBlockEnd : Z := 100.
Definition HeadlineEnd : Z := 101.
Definition FrontmatterBlockEnd : Z := 102.

(* languages: an even value, the next one being its comment state *)
Definition CodeCpp : Z := 200.
Definition CodeCppComment : Z := 201.
Definition CodeJs : Z := 202.
Definition CodeJsComment : Z := 203.
Definition CodeC : Z := 204.
Definition CodeCComment : Z := 205.
Definition CodeBash : Z := 206.
Definition CodePHP : Z := 208.
Definition CodePHPComment : Z := 209.
Definition CodeQML : Z := 210.
Definition CodeQMLComment : Z := 211.
Definition CodePython : Z := 212.
Definition CodeRust : Z := 214.
Definition CodeRustComment : Z := 215.
Definition CodeJava : Z := 216.
Definition CodeJavaComment : Z := 217.
Definition CodeCSharp : Z := 218.
Definition CodeCSharpComment : Z := 219.
Definition CodeGo : Z := 220.
Definition CodeGoComment : Z := 221.
Definition CodeV : Z := 222.
Definition CodeVComment : Z := 223.
Definition CodeSQL : Z := 224.
Definition CodeJSON : Z := 226.
Definition CodeXML : Z := 228.
Definition CodeCSS : Z := 230.
Definition CodeCSSComment : Z := 231.
Definition CodeTypeScript : Z := 232.
Definition CodeTypeScriptComment : Z := 233.
Definition CodeYAML : Z := 234.
Definition CodeINI : Z := 236.
Definition CodeTaggerScript : Z := 238.
Definition CodeVex : Z := 240.
Definition CodeVexComment : Z := 241.

End HighlighterState.
Import HighlighterState.

(* ------------------------------------------------------------------------- *)
(** ** Character formats and annotations *)

Inductive UnderlineStyle : Type :=
| NoUnderline | SingleUnderline | DotLine | WaveUnderline.

(** Colours are kept as the expressions the code builds them from; what Qt
    makes of one (validity, lightness) is asked of the environment. *)
Inductive QColor : Type :=
| ColorName (name : string)
| ColorRgb (r g b : Z)
| ColorLighter (c : QColor) (factor : Z)
| ColorDarker (c : QColor) (factor : Z).

(** A [QTextCharFormat], with the attributes the highlighter reads or writes.
    [styleId] is the key of [_formats] the format was taken from ([None] for a
    default-constructed format): it is the annotation's semantic style. *)
Record QTextCharFormat : Type := mkFormat {
  styleId : option Z;
  fontPointSize : Q;
  fontItalic : bool;
  foreground : option QColor;
  background : option QColor;
  underlineStyle : UnderlineStyle;
  underlineColor : option QColor
}.

Definition defaultFormat : QTextCharFormat :=
  mkFormat None 0%Q false None None NoUnderline None.

Definition setStyleId (f : QTextCharFormat) (k : option Z) : QTextCharFormat :=
  mkFormat k (fontPointSize f) (fontItalic f) (foreground f) (background f)
           (underlineStyle f) (underlineColor f).

Definition setFontPointSize (f : QTextCharFormat) (sz : Q) : QTextCharFormat :=
  mkFormat (styleId f) sz (fontItalic f) (foreground f) (background f)
           (underlineStyle f) (underlineColor f).

Definition setFontItalic (f : QTextCharFormat) (b : bool) : QTextCharFormat :=
  mkFormat (styleId f) (fontPointSize f) b (foreground f) (background f)
           (underlineStyle f) (underlineColor f).

Definition setForeground (f : QTextCharFormat) (c : QColor) : QTextCharFormat :=
  mkFormat (styleId f) (fontPointSize f) (fontItalic f) (Some c) (background f)
           (underlineStyle f) (underlineColor f).

Definition setBackground (f : QTextCharFormat) (c : QColor) : QTextCharFormat :=
  mkFormat (styleId f) (fontPointSize f) (fontItalic f) (foreground f) (Some c)
           (underlineStyle f) (underlineColor f).

Definition setUnderlineStyle (f : QTextCharFormat) (u : UnderlineStyle)
  : QTextCharFormat :=
  mkFormat (styleId f) (fontPointSize f) (fontItalic f) (foreground f)
           (background f) u (underlineColor f).

Definition setUnderlineColor (f : QTextCharFormat) (c : QColor)
  : QTextCharFormat :=
  mkFormat (styleId f) (fontPointSize f) (fontItalic f) (foreground f)
           (background f) (underlineStyle f) (Some c).

(** [QBrush::color] of a format's background; an unset brush is black. *)
Definition backgroundColor (f : QTextCharFormat) : QColor :=
  match background f with Some c => c | None => ColorName "black" end.

(** One call [setFormat(start, count, format)]. *)
Record Annotation : Type := mkAnnotation {
  annStart : Z;
  annCount : Z;
  annFormat : QTextCharFormat
}.

(** The table [_formats]: a [QHash] read with [operator[]], so that a missing
    key gives a default-constructed format. *)
Definition FormatTable : Type := list (Z * QTextCharFormat).

Fixpoint lookupFormat (t : FormatTable) (k : Z) : QTextCharFormat :=
  match t with
  | [] => defaultFormat
  | (k', f) :: r => if k' =? k then f else lookupFormat r k
  end.

Definition formatOf (t : FormatTable) (k : Z) : QTextCharFormat :=
  setStyleId (lookupFormat t k) (Some k).

Definition insertFormat (t : FormatTable) (k : Z) (f : QTextCharFormat)
  : FormatTable := (k, f) :: t.

(** [initTextFormats]: the default theme.  Font weight and family are left
    out (nothing in the highlighter reads them); [fixedFontSize] is the point
    size of the system's fixed font, which [setFont] copies into a format. *)
Definition initTextFormats (defaultFontSize : Z) (fixedFontSize : Q)
  : FormatTable :=
  let size (tenths : Z) : Q := Qred (inject_Z defaultFontSize * (tenths # 10)) in
  let heading (tenths : Z) :=
    setFontPointSize (setForeground defaultFormat (ColorRgb 2 69 150)) (size tenths) in
  let fixed (c : option QColor) :=
    mkFormat None fixedFontSize false c None NoUnderline None in
  [ (H1, heading 16); (H2, heading 15); (H3, heading 14);
    (H4, heading 13); (H5, heading 12); (H6, heading 11);
    (HorizontalRuler,
       setBackground (setForeground defaultFormat (ColorName "darkGray"))
                     (ColorName "lightGray"));
    (List, setForeground defaultFormat (ColorRgb 163 0 123));
    (Link, setUnderlineStyle (setForeground defaultFormat (ColorRgb 0 128 255))
                             SingleUnderline);
    (Image, setBackground (setForeground defaultFormat (ColorRgb 0 191 0))
                          (ColorRgb 228 255 228));
    (CodeBlock, fixed None);
    (InlineCodeBlock, fixed None);
    (Italic, setFontItalic defaultFormat true);
    (Bold, defaultFormat);
    (Comment, setForeground defaultFormat (ColorName "gray"));
    (MaskedSyntax, setForeground defaultFormat (ColorName "#cccccc"));
    (Table, fixed (Some (ColorName "#649449")));
    (BlockQuote, setForeground defaultFormat (ColorName "darkRed"));
    (HeadlineEnd, defaultFormat);
    (NoState, defaultFormat);
    (CodeKeyWord, fixed (Some (ColorName "#F92672")));
    (CodeString, fixed (Some (ColorName "#a39b4e")));
    (CodeComment, fixed (Some (ColorName "#75715E")));
    (CodeType, fixed (Some (ColorName "#54aebf")));
    (CodeOther, fixed (Some (ColorName "#db8744")));
    (CodeNumLiteral, fixed (Some (ColorName "#AE81FF")));
    (CodeBuiltIn, fixed (Some (ColorName "#018a0f"))) ].

(* ------------------------------------------------------------------------- *)
(** ** Highlighting rules *)

(** [struct HighlightingRule]; [shouldContain] is its array of three. *)
Record HighlightingRule : Type := mkRule {
  pattern : string;
  state : Z;
  shouldContain0 : string;
  shouldContain1 : string;
  shouldContain2 : string;
  capturingGroup : Z;
  maskedGroup : Z;
  useStateAsCurrentBlockState : bool;
  disableIfCurrentStateIsSet : bool
}.

(** [HighlightingRule rule(state_)]. *)
Definition newRule (state_ : Z) : HighlightingRule :=
  mkRule EmptyString state_ EmptyString EmptyString EmptyString 0 0 false false.

Definition setPattern (r : HighlightingRule) (p : string) : HighlightingRule :=
  mkRule p (state r) (shouldContain0 r) (shouldContain1 r) (shouldContain2 r)
         (capturingGroup r) (maskedGroup r) (useStateAsCurrentBlockState r)
         (disableIfCurrentStateIsSet r).

Definition setShouldContain (r : HighlightingRule) (i : nat) (s : string)
  : HighlightingRule :=
  mkRule (pattern r) (state r)
         (match i with 0%nat => s | _ => shouldContain0 r end)
         (match i with 1%nat => s | _ => shouldContain1 r end)
         (match i with 2%nat => s | _ => shouldContain2 r end)
         (capturingGroup r) (maskedGroup r) (useStateAsCurrentBlockState r)
         (disableIfCurrentStateIsSet r).

Definition setCapturingGroup (r : HighlightingRule) (g : Z) : HighlightingRule :=
  mkRule (pattern r) (state r) (shouldContain0 r) (shouldContain1 r)
         (shouldContain2 r) g (maskedGroup r) (useStateAsCurrentBlockState r)
         (disableIfCurrentStateIsSet r).

Definition setUseStateAsCurrentBlockState (r : HighlightingRule) (b : bool)
  : HighlightingRule :=
  mkRule (pattern r) (state r) (shouldContain0 r) (shouldContain1 r)
         (shouldContain2 r) (capturingGroup r) (maskedGroup r) b
         (disableIfCurrentStateIsSet r).

Definition setDisableIfCurrentStateIsSet (r : HighlightingRule) (b : bool)
  : HighlightingRule :=
  mkRule (pattern r) (state r) (shouldContain0 r) (shouldContain1 r)
         (shouldContain2 r) (capturingGroup r) (maskedGroup r)
         (useStateAsCurrentBlockState r) b.

(** [initHighlightingRules]: the vectors [_highlightingRulesPre] and
    [_highlightingRulesAfter], in the order of the [append] calls.  A rule
    object that is appended twice keeps the fields it was not given anew. *)
Definition initHighlightingRulesPre (fullyHighlightedBlockQuote : bool)
  : list HighlightingRule :=
  (* the reference of reference links *)
  let reference :=
    setShouldContain (setPattern (newRule MaskedSyntax) "^\[.+?\]: \w+://.+$")
                     0 "://" in
  (* unordered, then ordered lists *)
  let unordered :=
    setUseStateAsCurrentBlockState
      (setShouldContain
         (setShouldContain
            (setShouldContain (setPattern (newRule List) "^\s*[-*+]\s") 0 "- ")
            1 "* ")
         2 "+ ")
      true in
  let ordered := setPattern unordered "^\s*\d+\.\s" in
  (* checked and unchecked checkboxes *)
  let checked :=
    setCapturingGroup
      (setShouldContain
         (setShouldContain
            (setShouldContain
               (setPattern (newRule CheckBoxChecked) "^\s*[+|\-|\*] (\[x\])(\s+)")
               0 "- [x]")
            1 "* [x]")
         2 "+ [x]")
      1 in
  let unchecked :=
    setCapturingGroup
      (setShouldContain
         (setShouldContain
            (setShouldContain
               (setPattern (newRule CheckBoxUnChecked)
                           "^\s*[+|\-|\*] (\[( |)\])(\s+)")
               0 "- [")
            1 "* [")
         2 "+ [")
      1 in
  (* block quotes *)
  let quote :=
    setShouldContain
      (setPattern (newRule BlockQuote)
                  (if fullyHighlightedBlockQuote
                   then "^\s*(>\s*.+)" else "^\s*(>\s*)+"))
      0 "> " in
  (* horizontal rulers *)
  let ruler :=
    setShouldContain
      (setShouldContain
         (setShouldContain
            (setPattern (newRule HorizontalRuler) "^([*\-_]\s?){3,}$") 0 "---")
         1 "***")
      2 "+++" in
  [reference; unordered; ordered; checked; unchecked; quote; ruler].

Definition initHighlightingRulesAfter : list HighlightingRule :=
  (* italic; the second pattern is appended before its substring is set *)
  let italic1 :=
    setCapturingGroup
      (setShouldContain
         (setPattern (newRule Italic)
                     "(?:^|[^\*\b])(?:\*([^\* ][^\*]*?)\*)(?:[^\*\b]|$)")
         0 "*")
      1 in
  let italic2 := setPattern italic1 "\b_([^_]+)_\b" in
  (* bold *)
  let bold1 :=
    setCapturingGroup
      (setShouldContain (setPattern (newRule Bold) "\B\*{2}(.+?)\*{2}\B") 0 "**")
      1 in
  let bold2 := setShouldContain (setPattern bold1 "\b__(.+?)__\b") 0 "__" in
  (* strike through *)
  let strike :=
    setCapturingGroup
      (setShouldContain (setPattern (newRule MaskedSyntax) "\~{2}(.+?)\~{2}") 0 "~")
      1 in
  (* urls *)
  let url1 :=
    setShouldContain
      (setCapturingGroup (setPattern (newRule Link) "\b\w+?:\/\/[^\s>]+") 0)
      0 "://" in
  let url2 :=
    setShouldContain
      (setCapturingGroup (setPattern url1 "<(\w+?:\/\/[^\s]+)>") 1) 0 "://" in
  let url3 :=
    setShouldContain
      (setCapturingGroup (setPattern url2 "<([^\s`][^`]*?\.[^`]*?[^\s`])>") 1)
      0 "<" in
  let url4 :=
    setShouldContain (setPattern url3 "\[([^\[\]]+)\]\((\S+|.+?)\)\B") 0 "](" in
  let url5 := setShouldContain (setPattern url4 "\[\]\((.+?)\)") 0 "[](" in
  let url6 := setShouldContain (setPattern url5 "<(.+?@.+?)>") 0 "@" in
  let url7 := setShouldContain (setPattern url6 "\[(.+?)\]\[.+?\]") 0 "[" in
  (* images *)
  let image1 :=
    setCapturingGroup
      (setShouldContain (setPattern (newRule Image) "!\[(.+?)\]\(.+?\)") 0 "![")
      1 in
  let image2 := setShouldContain (setPattern image1 "!\[\]\((.+?)\)") 0 "![]" in
  (* image links *)
  let imageLink1 :=
    setCapturingGroup
      (setShouldContain
         (setPattern (newRule Link) "\[!\[(.+?)\]\(.+?\)\]\(.+?\)") 0 "[![")
      1 in
  let imageLink2 :=
    setShouldContain (setPattern imageLink1 "\[!\[\]\(.+?\)\]\((.+?)\)")
                     0 "[![](" in
  (* trailing spaces: the substring is a space followed by a newline *)
  let trailing :=
    setCapturingGroup
      (setShouldContain (setPattern (newRule TrailingSpace) "( +)$")
                        0 (String " " (QString.single QChar.newline)))
      1 in
  (* inline code *)
  let inlineCode :=
    setCapturingGroup
      (setShouldContain (setPattern (newRule InlineCodeBlock) "`(.+?)`") 0 "`")
      1 in
  (* code blocks with four spaces or tabs in front of them *)
  let indented :=
    setDisableIfCurrentStateIsSet
      (setShouldContain (setPattern (newRule CodeBlock) "^((\t)|( {4,})).+$")
                        0 (QString.single QChar.tab))
      true in
  (* inline comments *)
  let comment1 :=
    setCapturingGroup
      (setShouldContain (setPattern (newRule Comment) "<!\-\-(.+?)\-\->") 0 "<!--")
      1 in
  let comment2 :=
    setShouldContain (setPattern comment1 "^\[.+?\]: # \(.+?\)$") 0 "]: # (" in
  (* tables with starting | *)
  let table :=
    setPattern (setShouldContain (newRule Table) 0 "|") "^\|.+?\|$" in
  [italic1; italic2; bold1; bold2; strike;
   url1; url2; url3; url4; url5; url6; url7;
   image1; image2; imageLink1; imageLink2;
   trailing; inlineCode; indented; comment1; comment2; table].

(* ------------------------------------------------------------------------- *)
(** ** The language registry *)

(** [initCodeLangs]: the static hash [_langStringToEnum]. *)
Definition initCodeLangs : list (string * Z) :=
  [ ("bash", CodeBash);
    ("c", CodeC);
    ("cpp", CodeCpp);
    ("cxx", CodeCpp);
    ("c++", CodeCpp);
    ("c#", CodeCSharp);
    ("csharp", CodeCSharp);
    ("css", CodeCSS);
    ("go", CodeCSharp);
    ("html", CodeXML);
    ("ini", CodeINI);
    ("java", CodeJava);
    ("javascript", CodeJava);
    ("js", CodeJs);
    ("json", CodeJSON);
    ("php", CodePHP);
    ("py", CodePython);
    ("python", CodePython);
    ("qml", CodeQML);
    ("rust", CodeRust);
    ("sh", CodeBash);
    ("sql", CodeSQL);
    ("taggerscript", CodeTaggerScript);
    ("ts", CodeTypeScript);
    ("typescript", CodeTypeScript);
    ("v", CodeV);
    ("vex", CodeVex);
    ("xml", CodeXML);
    ("yml", CodeYAML);
    ("yaml", CodeYAML) ].

Definition _langStringToEnum : list (string * Z) := initCodeLangs.

(** [QHash::value(key)]: the value stored under [key], or a
    default-constructed one (the enumerator 0) when the key is absent. *)
Fixpoint value (h : list (string * Z)) (key : string) : Z :=
  match h with
  | [] => 0
  | (k, v) :: r => if String.eqb k key then v else value r key
  end.

(* ------------------------------------------------------------------------- *)
(** ** What the highlighter is given from outside *)

(** The data sets of qownlanguagedata.h, one per [load...Data] function. *)
Inductive Language : Type :=
| Cpp | JS | Shell | PHP | QML | Python | Rust | Java | CSharp | Go | V
| SQL | JSON | CSS | Typescript | YAML | VEX.

(** A [QMultiHash<char, QLatin1String>], as the list of its entries. *)
Definition WordTable : Type := list (ascii * string).

Definition tableContains (t : WordTable) (c : ascii) : bool :=
  existsb (fun e => Ascii.eqb (fst e) c) t.

Definition tableValues (t : WordTable) (c : ascii) : list string :=
  map snd (filter (fun e => Ascii.eqb (fst e) c) t).

Record LanguageData : Type := mkLanguageData {
  types : WordTable;
  keywords : WordTable;
  builtin : WordTable;
  literals : WordTable;
  others : WordTable
}.

Definition noLanguageData : LanguageData := mkLanguageData [] [] [] [] [].

(** One match of a regular expression: the start and length of each group,
    group 0 being the whole match. *)
Record QRegularExpressionMatch : Type := mkMatch {
  captures : list (Z * Z)
}.

Definition capturedStart (m : QRegularExpressionMatch) (g : Z) : Z :=
  if g <? 0 then -1 else fst (nth (Z.to_nat g) (captures m) (-1, 0)).

Definition capturedLength (m : QRegularExpressionMatch) (g : Z) : Z :=
  if g <? 0 then 0 else snd (nth (Z.to_nat g) (captures m) (-1, 0)).

(** The collaborators that are not part of the highlighter: the regular
    expression engine ([QRegularExpression::globalMatch], by pattern and
    subject), the language data of qownlanguagedata.h, and the parts of
    [QColor] and [QStringRef::toInt] the CSS highlighter calls. *)
Record Environment : Type := mkEnvironment {
  globalMatch : string -> string -> list QRegularExpressionMatch;
  loadData : Language -> LanguageData;
  colorIsValid : QColor -> bool;
  colorLightness : QColor -> Z;
  toInt : string -> Z
}.

(* ------------------------------------------------------------------------- *)
(** ** The document, the highlighter object, and programs over them *)

(** A [QTextBlock]: its text, its [userState] (the state Qt keeps per line),
    and the formats the last highlighting pass left on it. *)
Record QTextBlock : Type := mkBlock {
  blockText : string;
  userState : Z;
  layoutFormats : list Annotation
}.

(** The state of a [MarkdownHighlighter] and of its document.
    [currentBlockNumber] and [formatChanges] are QSyntaxHighlighter's current
    block and the formats set on it so far. *)
Record Highlighter : Type := mkHighlighter {
  document : list QTextBlock;
  currentBlockNumber : Z;
  formatChanges : list Annotation;
  _highlightingRulesPre : list HighlightingRule;
  _highlightingRulesAfter : list HighlightingRule;
  _formats : FormatTable;
  _dirtyTextBlocks : list Z;
  _highlightingFinished : bool
}.

(** The blocks a highlighting pass names: [currentBlock()], its [previous()]
    and [next()], and [document()->firstBlock()]. *)
Inductive BlockRef : Type := Current | Previous | Next | First.

(** What a program asks of the highlighter object. *)
Inductive Call : Type :=
| BlockText (b : BlockRef)
| BlockUserState (b : BlockRef)
| BlockSetUserState (b : BlockRef) (s : Z)
| FirstBlockIsCurrent
| Formats (k : Z)
| FormatsSetFontPointSize (k : Z) (size : Q)
| SetFormat (start count : Z) (format : QTextCharFormat)
| HighlightingRulesPre
| HighlightingRulesAfter
| DirtyTextBlocksContains (b : BlockRef)
| DirtyTextBlocksAppend (b : BlockRef)
| SetHighlightingFinished (b : bool).

Definition Answer (c : Call) : Type :=
  match c with
  | BlockText _ => string
  | BlockUserState _ => Z
  | BlockSetUserState _ _ => unit
  | FirstBlockIsCurrent => bool
  | Formats _ => QTextCharFormat
  | FormatsSetFontPointSize _ _ => unit
  | SetFormat _ _ _ => unit
  | HighlightingRulesPre => list HighlightingRule
  | HighlightingRulesAfter => list HighlightingRule
  | DirtyTextBlocksContains _ => bool
  | DirtyTextBlocksAppend _ => unit
  | SetHighlightingFinished _ => unit
  end.

(** A program: it returns, reads outside a string, runs out of loop fuel, or
    makes a call and goes on with the answer. *)
Inductive Prog (A : Type) : Type :=
| Ret (a : A)
| OutOfRange
| OutOfFuel
| Do (c : Call) (k : Answer c -> Prog A).

Arguments Ret {A} a.
Arguments OutOfRange {A}.
Arguments OutOfFuel {A}.
Arguments Do {A} c k.

Fixpoint bind {A B : Type} (p : Prog A) (f : A -> Prog B) : Prog B :=
  match p with
  | Ret a => f a
  | OutOfRange => OutOfRange
  | OutOfFuel => OutOfFuel
  | Do c k => Do c (fun x => bind (k x) f)
  end.

Definition call (c : Call) : Prog (Answer c) := Do c (fun x => Ret x).

Declare Scope prog_scope.
Delimit Scope prog_scope with prog.
Notation "x <- p ;; q" := (bind p (fun x => q))
  (at level 61, p at next level, right associativity) : prog_scope.
Notation "p ;; q" := (bind p (fun _ => q))
  (at level 61, right associativity) : prog_scope.
Local Open Scope prog_scope.

(** [text.at(i)] and [text[i]] on a const string. *)
Definition charAt (text : string) (i : Z) : Prog ascii :=
  match QString.charAt text i with
  | Some c => Ret c
  | None => OutOfRange
  end.

(** How a run of a program ended. *)
Inductive Outcome (A : Type) : Type :=
| Done (a : A)
| ReadOutOfRange
| Unfinished.

Arguments Done {A} a.
Arguments ReadOutOfRange {A}.
Arguments Unfinished {A}.

(** *** The calls, on the highlighter state *)

Definition blockAt (doc : list QTextBlock) (n : Z) : option QTextBlock :=
  if n <? 0 then None else nth_error doc (Z.to_nat n).

Definition isValidBlock (doc : list QTextBlock) (n : Z) : bool :=
  match blockAt doc n with Some _ => true | None => false end.

(** The number of the block a reference names, -1 for an invalid block
    (as [QTextBlock::blockNumber]). *)
Definition blockNumber (h : Highlighter) (b : BlockRef) : Z :=
  let cur := currentBlockNumber h in
  let n := match b with
           | Current => cur
           | Previous => if isValidBlock (document h) cur then cur - 1 else -1
           | Next => if isValidBlock (document h) cur then cur + 1 else -1
           | First => 0
           end in
  if isValidBlock (document h) n then n else -1.

Definition textOfBlock (doc : list QTextBlock) (n : Z) : string :=
  match blockAt doc n with Some b => blockText b | None => EmptyString end.

Definition userStateOfBlock (doc : list QTextBlock) (n : Z) : Z :=
  match blockAt doc n with Some b => userState b | None => -1 end.

Fixpoint updateNth {A : Type} (l : list A) (n : nat) (f : A -> A) : list A :=
  match l, n with
  | [], _ => []
  | x :: r, O => f x :: r
  | x :: r, S m => x :: updateNth r m f
  end.

Definition updateBlock (doc : list QTextBlock) (n : Z) (f : QTextBlock -> QTextBlock)
  : list QTextBlock :=
  if n <? 0 then doc else updateNth doc (Z.to_nat n) f.

Definition setUserStateOfBlock (doc : list QTextBlock) (n : Z) (s : Z)
  : list QTextBlock :=
  updateBlock doc n (fun b => mkBlock (blockText b) s (layoutFormats b)).

Definition withDocument (h : Highlighter) (doc : list QTextBlock) : Highlighter :=
  mkHighlighter doc (currentBlockNumber h) (formatChanges h)
                (_highlightingRulesPre h) (_highlightingRulesAfter h)
                (_formats h) (_dirtyTextBlocks h) (_highlightingFinished h).

Definition withCurrentBlockNumber (h : Highlighter) (n : Z) : Highlighter :=
  mkHighlighter (document h) n (formatChanges h)
                (_highlightingRulesPre h) (_highlightingRulesAfter h)
                (_formats h) (_dirtyTextBlocks h) (_highlightingFinished h).

Definition withFormatChanges (h : Highlighter) (l : list Annotation) : Highlighter :=
  mkHighlighter (document h) (currentBlockNumber h) l
                (_highlightingRulesPre h) (_highlightingRulesAfter h)
                (_formats h) (_dirtyTextBlocks h) (_highlightingFinished h).

Definition withFormats (h : Highlighter) (t : FormatTable) : Highlighter :=
  mkHighlighter (document h) (currentBlockNumber h) (formatChanges h)
                (_highlightingRulesPre h) (_highlightingRulesAfter h)
                t (_dirtyTextBlocks h) (_highlightingFinished h).

Definition withDirtyTextBlocks (h : Highlighter) (q : list Z) : Highlighter :=
  mkHighlighter (document h) (currentBlockNumber h) (formatChanges h)
                (_highlightingRulesPre h) (_highlightingRulesAfter h)
                (_formats h) q (_highlightingFinished h).

Definition withHighlightingFinished (h : Highlighter) (b : bool) : Highlighter :=
  mkHighlighter (document h) (currentBlockNumber h) (formatChanges h)
                (_highlightingRulesPre h) (_highlightingRulesAfter h)
                (_formats h) (_dirtyTextBlocks h) b.

(** One call: the new state and the answer. *)
Definition perform (c : Call) (h : Highlighter) : Highlighter * Answer c :=
  match c return Highlighter * Answer c with
  | BlockText b => (h, textOfBlock (document h) (blockNumber h b))
  | BlockUserState b => (h, userStateOfBlock (document h) (blockNumber h b))
  | BlockSetUserState b s =>
      (withDocument h (setUserStateOfBlock (document h) (blockNumber h b) s), tt)
  | FirstBlockIsCurrent => (h, blockNumber h First =? blockNumber h Current)
  | Formats k => (h, formatOf (_formats h) k)
  | FormatsSetFontPointSize k size =>
      (withFormats h (insertFormat (_formats h) k
                       (setFontPointSize (lookupFormat (_formats h) k) size)), tt)
  | SetFormat start count format =>
      (withFormatChanges h (formatChanges h ++ [mkAnnotation start count format]), tt)
  | HighlightingRulesPre => (h, _highlightingRulesPre h)
  | HighlightingRulesAfter => (h, _highlightingRulesAfter h)
  | DirtyTextBlocksContains b =>
      (h, existsb (Z.eqb (blockNumber h b)) (_dirtyTextBlocks h))
  | DirtyTextBlocksAppend b =>
      (withDirtyTextBlocks h (_dirtyTextBlocks h ++ [blockNumber h b]), tt)
  | SetHighlightingFinished b => (withHighlightingFinished h b, tt)
  end.

Fixpoint run {A : Type} (p : Prog A) (h : Highlighter) : Highlighter * Outcome A :=
  match p with
  | Ret a => (h, Done a)
  | OutOfRange => (h, ReadOutOfRange)
  | OutOfFuel => (h, Unfinished)
  | Do c k => let (h', x) := perform c h in run (k x) h'
  end.

(** *** QSyntaxHighlighter's own members *)

Definition currentBlockState : Prog Z := call (BlockUserState Current).

Definition previousBlockState : Prog Z := call (BlockUserState Previous).

Definition setCurrentBlockState (newState : Z) : Prog unit :=
  call (BlockSetUserState Current newState).

Definition setFormat (start count : Z) (format : QTextCharFormat) : Prog unit :=
  call (SetFormat start count format).

(** The format a character ends up with: [setFormat] ignores a start outside
    the line and clips the range to it; later calls overwrite earlier ones. *)
Definition covers (len : Z) (a : Annotation) (pos : Z) : bool :=
  (0 <=? annStart a) && (annStart a <? len) &&
  (annStart a <=? pos) && (pos <? Z.min (annStart a + annCount a) len).

Definition formatAt (len : Z) (l : list Annotation) (pos : Z) : QTextCharFormat :=
  fold_left (fun f a => if covers len a pos then annFormat a else f) l defaultFormat.

(* ------------------------------------------------------------------------- *)
(** ** The code scanners *)

Section WithEnvironment.

Variable env : Environment.

(** The bound given to every loop over a line: a loop whose position runs
    through the line needs fewer rounds than this. *)
Definition loopBound (text : string) : nat := (2 * String.length text + 4)%nat.

Definition isOneOf (c : ascii) (chars : string) : bool :=
  existsb (Ascii.eqb c) (list_ascii_of_string chars).

(** [setFormat(start, count, _formats[k])]. *)
Definition setFormatOf (start count k : Z) : Prog unit :=
  f <- call (Formats k) ;;
  setFormat start count f.

(** *** String literals *)

(** The [switch] of [highlightStringLiterals]: the length of the escape
    sequence at the backslash in position [i], whose next character is [c1];
    0 when there is none. *)
Definition escapeLength (text : string) (i : Z) (c1 : ascii) : Prog Z :=
  if isOneOf c1 "abefnrtv?" || Ascii.eqb c1 QChar.squote ||
     Ascii.eqb c1 QChar.dquote || Ascii.eqb c1 QChar.backslash
  then Ret 2
  else if isOctal c1 then
    if i + 4 <=? QString.length text then
      c2 <- charAt text (i + 2) ;;
      if negb (isOctal c2) then Ret 0
      else
        c3 <- charAt text (i + 3) ;;
        if negb (isOctal c3) then Ret 0 else Ret 4
    else Ret 0
  else if Ascii.eqb c1 "x" then
    if i + 3 <=? QString.length text then
      c2 <- charAt text (i + 2) ;;
      if negb (isHex c2) then Ret 0
      else
        c3 <- charAt text (i + 3) ;;
        if negb (isHex c3) then Ret 0 else Ret 4
    else Ret 0
  else Ret 0.

Fixpoint stringLiteralLoop (fuel : nat) (strType : ascii) (text : string) (i : Z)
  : Prog Z :=
  match fuel with
  | O => OutOfFuel
  | S fuel' =>
      if i <? QString.length text then
        c <- charAt text i ;;
        (* look for string end, make sure it's not an escape seq *)
        isEnd <- (if Ascii.eqb c strType
                  then p <- charAt text (i - 1) ;;
                       Ret (negb (Ascii.eqb p QChar.backslash))
                  else Ret false) ;;
        if isEnd then
          setFormatOf i 1 CodeString ;;
          Ret (i + 1)
        else if Ascii.eqb c QChar.backslash && (i + 1 <? QString.length text) then
          c1 <- charAt text (i + 1) ;;
          len <- escapeLength text i c1 ;;
          if len =? 0 then
            setFormatOf i 1 CodeString ;;
            stringLiteralLoop fuel' strType text (i + 1)
          else
            setFormatOf i len CodeNumLiteral ;;
            stringLiteralLoop fuel' strType text (i + len)
        else
          setFormatOf i 1 CodeString ;;
          stringLiteralLoop fuel' strType text (i + 1)
      else Ret i
  end.

Definition highlightStringLiterals (strType : ascii) (text : string) (i : Z)
  : Prog Z :=
  setFormatOf i 1 CodeString ;;
  stringLiteralLoop (loopBound text) strType text (i + 1).

(** *** Numeric literals *)

(** [while (i < text.length()) { if (!isNumber && != '.') break; ++i; }] *)
Fixpoint digitsLoop (fuel : nat) (text : string) (i : Z) : Prog Z :=
  match fuel with
  | O => OutOfFuel
  | S fuel' =>
      if i <? QString.length text then
        c <- charAt text i ;;
        if negb (QChar.isNumber c) && negb (Ascii.eqb c ".") then Ret i
        else digitsLoop fuel' text (i + 1)
      else Ret i
  end.

Definition highlightNumericLiterals (text : string) (i : Z) : Prog Z :=
  isPreAllowed <- (if i =? 0 then Ret true
                   else c <- charAt text (i - 1) ;;
                        Ret (isOneOf c "[({ ,=+-*/%<>")) ;;
  if negb isPreAllowed then Ret (i + 1)
  else
    let start := i in
    if i + 1 >=? QString.length text then
      setFormatOf i 1 CodeNumLiteral ;;
      Ret (i + 1)
    else
      let i := i + 1 in
      (* hex numbers highlighting (only if there's a preceding zero) *)
      c <- charAt text i ;;
      isHexPrefix <- (if Ascii.eqb c "x"
                      then p <- charAt text (i - 1) ;; Ret (Ascii.eqb p "0")
                      else Ret false) ;;
      let i := if isHexPrefix then i + 1 else i in
      i <- digitsLoop (loopBound text) text i ;;
      let i := i - 1 in
      post <- (if i + 1 =? QString.length text then Ret (true, i)
               else
                 c <- charAt text (i + 1) ;;
                 if isOneOf c "])} ,=+-*/%><;" then Ret (true, i)
                 else if isOneOf c "ulfULF" then Ret (true, i + 1)
                 else Ret (false, i)) ;;
      let isPostAllowed := fst post in
      let i := snd post in
      if isPostAllowed then
        let end_ := i + 1 in
        setFormatOf start (end_ - start) CodeNumLiteral ;;
        Ret end_
      else Ret i.

(** *** The generic scanner *)

(** How a loop of a scanner is left: by falling out of it, or by a [return]
    of the enclosing function. *)
Inductive Control (A : Type) : Type :=
| FallThrough (a : A)
| Return.

#[global] Arguments FallThrough {A} a.
#[global] Arguments Return {A}.

(** The loop over one bucket of a table, in [applyCodeFormat] and in the
    block for [others]: [shift] is 1 where the format starts one character
    early (the '#' of a preprocessor word in C and C++). *)
Fixpoint applyWords (words : list string) (text : string)
         (fmt : QTextCharFormat) (shift : Z) (i : Z) : Prog Z :=
  match words with
  | [] => Ret i
  | word :: rest =>
      let size := QString.length word in
      if String.eqb word (QString.mid text i size) then
        (* at the end of text, or a complete word *)
        complete <- (if i + size =? QString.length text then Ret true
                     else c <- charAt text (i + size) ;;
                          Ret (negb (QChar.isLetter c))) ;;
        if complete then
          setFormat (i - shift) (size + shift) fmt ;;
          applyWords rest text fmt shift (i + size)
        else applyWords rest text fmt shift i
      else applyWords rest text fmt shift i
  end.

(** The condition under which a table is consulted at [i], and the
    consultation. *)
Definition applyTable (i : Z) (data : WordTable) (text : string)
           (fmt : QTextCharFormat) (shift : Z) : Prog Z :=
  startOfWord <- (if i =? 0 then Ret true
                  else p <- charAt text (i - 1) ;;
                       Ret (negb (QChar.isLetter p))) ;;
  if startOfWord then
    c <- charAt text i ;;
    if tableContains data c
    then applyWords (tableValues data c) text fmt shift i
    else Ret i
  else Ret i.

(** The lambda [applyCodeFormat] of [highlightSyntax]. *)
Definition applyCodeFormat (i : Z) (data : WordTable) (text : string)
           (fmt : QTextCharFormat) : Prog Z :=
  applyTable i data text fmt 0.

(** [i == textLen || !text[i].isLetter()] *)
Definition notAtLetter (text : string) (i : Z) : Prog bool :=
  if i =? QString.length text then Ret true
  else c <- charAt text i ;; Ret (negb (QChar.isLetter c)).

Fixpoint countLetters (s : string) : Z :=
  match s with
  | EmptyString => 0
  | String a r => if QChar.isLetter a then 1 + countLetters r else 0
  end.

(** [while (cnt < textLen) { if (!text[cnt].isLetter()) break; ++cnt; }] *)
Definition skipLetters (text : string) (i : Z) : Z :=
  if (i <? 0) || (QString.length text <=? i) then i
  else i + countLetters (QString.drop (Z.to_nat i) text).

(** Where the inner loop of [highlightSyntax] is entered: at its condition,
    or at the label [Comment] inside its body. *)
Inductive Entry : Type := AtCondition | AtComment.

(** The inner loop [while (i < textLen && !text[i].isLetter())]. *)
Fixpoint skipNonLetters (fuel : nat) (text : string) (comment : ascii)
         (formatComment : QTextCharFormat) (entry : Entry) (i : Z)
  : Prog (Control Z) :=
  match fuel with
  | O => OutOfFuel
  | S fuel' =>
      let textLen := QString.length text in
      let again (i : Z) :=
        skipNonLetters fuel' text comment formatComment AtCondition i in
      (* the end of the body: [if (i >= textLen) break; ++i;] *)
      let endOfBody (i : Z) :=
        if i >=? textLen then Ret (FallThrough i) else again (i + 1) in
      (* from the label [Comment] on *)
      let commentBlock (i : Z) :=
        let next := QString.indexOf text "*/" in
        if next =? -1 then
          (* no comment end: are we already in a comment block? *)
          cbs <- currentBlockState ;;
          (if Z.rem cbs 2 =? 0
           then cbs' <- currentBlockState ;; setCurrentBlockState (cbs' + 1)
           else Ret tt) ;;
          setFormat i textLen formatComment ;;
          Ret Return
        else
          cbs <- currentBlockState ;;
          (if negb (Z.rem cbs 2 =? 0)
           then cbs' <- currentBlockState ;; setCurrentBlockState (cbs' - 1)
           else Ret tt) ;;
          let next := next + 2 in
          setFormat i (next - i) formatComment ;;
          let i := next in
          if i >=? textLen then Ret Return else endOfBody i in
      match entry with
      | AtComment => commentBlock i
      | AtCondition =>
          if i <? textLen then
            c <- charAt text i ;;
            if QChar.isLetter c then Ret (FallThrough i)
            else if QChar.isSpace c then
              let i := i + 1 in
              (* make sure we don't cross the bound *)
              if i =? textLen then Ret (FallThrough i)
              else
                c' <- charAt text i ;;
                if QChar.isLetter c' then Ret (FallThrough i) else again i
            else if QChar.isNull comment && Ascii.eqb c "/" then
              (* inline comment *)
              if i + 1 <? textLen then
                c1 <- charAt text (i + 1) ;;
                if Ascii.eqb c1 "/" then
                  setFormat i textLen formatComment ;;
                  Ret Return
                else if Ascii.eqb c1 "*" then commentBlock i
                else endOfBody i
              else endOfBody i
            else if Ascii.eqb c comment then
              setFormat i textLen formatComment ;;
              Ret (FallThrough textLen)
            else if QChar.isNumber c then
              i <- highlightNumericLiterals text i ;;
              endOfBody i
            else if Ascii.eqb c QChar.dquote then
              i <- highlightStringLiterals QChar.dquote text i ;;
              endOfBody i
            else if Ascii.eqb c QChar.squote then
              i <- highlightStringLiterals QChar.squote text i ;;
              endOfBody i
            else endOfBody i
          else Ret (FallThrough i)
      end
  end.

(** The formats bound to references before the loop of [highlightSyntax]. *)
Record CodeFormats : Type := mkCodeFormats {
  formatType : QTextCharFormat;
  formatKeyword : QTextCharFormat;
  formatComment : QTextCharFormat;
  formatNumLit : QTextCharFormat;
  formatBuiltIn : QTextCharFormat;
  formatOther : QTextCharFormat
}.

(** The loop [for (int i = 0; i < textLen; ++i)] of [highlightSyntax]. *)
Fixpoint syntaxLoop (fuel : nat) (text : string) (comment : ascii)
         (data : LanguageData) (f : CodeFormats) (i : Z) : Prog (Control unit) :=
  match fuel with
  | O => OutOfFuel
  | S fuel' =>
      let textLen := QString.length text in
      (* [continue], and the end of the body: [++i] and the next round *)
      let next (i : Z) := syntaxLoop fuel' text comment data f (i + 1) in
      if i <? textLen then
        cbs <- currentBlockState ;;
        r <- skipNonLetters (loopBound text) text comment (formatComment f)
                            (if negb (Z.rem cbs 2 =? 0) then AtComment
                             else AtCondition) i ;;
        match r with
        | Return => Ret Return
        | FallThrough i =>
            let pos := i in
            stop <- notAtLetter text i ;;
            if stop then next i else
            (* Highlight Types *)
            i <- applyCodeFormat i (types data) text (formatType f) ;;
            stop <- notAtLetter text i ;;
            if stop then next i else
            (* Highlight Keywords *)
            i <- applyCodeFormat i (keywords data) text (formatKeyword f) ;;
            stop <- notAtLetter text i ;;
            if stop then next i else
            (* Highlight Literals (true/false/NULL,nullptr) *)
            i <- applyCodeFormat i (literals data) text (formatNumLit f) ;;
            stop <- notAtLetter text i ;;
            if stop then next i else
            (* Highlight Builtin library stuff *)
            i <- applyCodeFormat i (builtin data) text (formatBuiltIn f) ;;
            stop <- notAtLetter text i ;;
            if stop then next i else
            (* Highlight other stuff (preprocessor etc.) *)
            cbs <- currentBlockState ;;
            i <- applyTable i (others data) text (formatOther f)
                            (if (cbs =? CodeCpp) || (cbs =? CodeC) then 1 else 0) ;;
            (* we were unable to find any match, lets skip this word *)
            let i := if pos =? i then skipLetters text i else i in
            next i
        end
      else Ret (FallThrough tt)
  end.

(** *** The Tagger Script highlighter *)

Definition red : QColor := ColorName "red".

Fixpoint taggerScriptLoop (fuel : nat) (text : string) (i : Z) : Prog unit :=
  match fuel with
  | O => OutOfFuel
  | S fuel' =>
      if i <? QString.length text then
        (* highlight functions, unless it's a comment function *)
        c <- charAt text i ;;
        r <- (if Ascii.eqb c "$" && negb (String.eqb (QString.mid text i 5) "$noop")
              then
                let next := QString.indexOfChar text "(" i in
                if next =? -1 then Ret None
                else setFormatOf i (next - i) CodeKeyWord ;; Ret (Some next)
              else Ret (Some i)) ;;
        match r with
        | None => Ret tt
        | Some i =>
            (* highlight variables *)
            c <- charAt text i ;;
            i <- (if Ascii.eqb c "%" then
                    let next := QString.indexOfChar text "%" (i + 1) in
                    let start := i in
                    let i := i + 1 in
                    if negb (next =? -1) then
                      setFormatOf start (next - start + 1) CodeType ;;
                      Ret next
                    else
                      (* error highlighting *)
                      noStateFormat <- call (Formats NoState) ;;
                      let errorFormat :=
                        setUnderlineStyle (setUnderlineColor noStateFormat red)
                                          WaveUnderline in
                      setFormat start 1 errorFormat ;;
                      Ret i
                  else Ret i) ;;
            (* highlight comments *)
            r <- (if String.eqb (QString.mid text i 5) "$noop" then
                    let next := QString.indexOfChar text ")" i in
                    if next =? -1 then Ret None
                    else setFormatOf i (next - i + 1) CodeComment ;; Ret (Some next)
                  else Ret (Some i)) ;;
            match r with
            | None => Ret tt
            | Some i =>
                (* highlight escape chars *)
                c <- charAt text i ;;
                i <- (if Ascii.eqb c QChar.backslash
                      then setFormatOf i 2 CodeOther ;; Ret (i + 1)
                      else Ret i) ;;
                taggerScriptLoop fuel' text (i + 1)
            end
        end
      else Ret tt
  end.

Definition taggerScriptHighlighter (text : string) : Prog unit :=
  if QString.isEmpty text then Ret tt
  else taggerScriptLoop (loopBound text) text 0.

(** *** The YAML highlighter *)

Fixpoint ymlLoop (fuel : nat) (text : string) (colonNotFound : bool) (i : Z)
  : Prog unit :=
  match fuel with
  | O => OutOfFuel
  | S fuel' =>
      let textLen := QString.length text in
      let next (colonNotFound : bool) (i : Z) :=
        ymlLoop fuel' text colonNotFound (i + 1) in
      if i <? textLen then
        c <- charAt text i ;;
        if negb (QChar.isLetter c) then next colonNotFound i
        else if colonNotFound && negb (Ascii.eqb c "h") then next colonNotFound i
        else
          (* we found a string literal, skip it *)
          afterDquote <- (if negb (i =? 0)
                          then p <- charAt text (i - 1) ;;
                               Ret (Ascii.eqb p QChar.dquote)
                          else Ret false) ;;
          if afterDquote then
            let found := QString.indexOfChar text QChar.dquote i in
            if found =? -1 then Ret tt else next colonNotFound found
          else
            afterSquote <- (if negb (i =? 0)
                            then p <- charAt text (i - 1) ;;
                                 Ret (Ascii.eqb p QChar.squote)
                            else Ret false) ;;
            if afterSquote then
              let found := QString.indexOfChar text QChar.squote i in
              if found =? -1 then Ret tt else next colonNotFound found
            else
              let colon := QString.indexOfChar text ":" i in
              (* if colon isn't found, we set this true *)
              let colonNotFound := if colon =? -1 then true else colonNotFound in
              r <- (if negb colonNotFound then
                      (* if the line ends here, format and return *)
                      if colon + 1 =? textLen then
                        setFormatOf i (colon - i) CodeKeyWord ;;
                        Ret Return
                      else
                        (* colon is found, check if it isn't some path *)
                        a <- charAt text (colon + 1) ;;
                        b <- charAt text (colon + 1) ;;
                        (if negb (Ascii.eqb a QChar.backslash && Ascii.eqb b "/")
                         then setFormatOf i (colon - i) CodeKeyWord
                         else Ret tt) ;;
                        Ret (FallThrough tt)
                    else Ret (FallThrough tt)) ;;
              match r with
              | Return => Ret tt
              | FallThrough _ =>
                  (* underlined links *)
                  c <- charAt text i ;;
                  if Ascii.eqb c "h" &&
                     (String.eqb (QString.mid text i 5) "https" ||
                      String.eqb (QString.mid text i 4) "http")
                  then
                    let space := QString.indexOfChar text " " i in
                    let space := if space =? -1 then textLen else space in
                    codeString <- call (Formats CodeString) ;;
                    setFormat i (space - i)
                              (setUnderlineStyle codeString SingleUnderline) ;;
                    next colonNotFound space
                  else next colonNotFound i
              end
      else Ret tt
  end.

Definition ymlHighlighter (text : string) : Prog unit :=
  if QString.isEmpty text then Ret tt
  else
    (* if this is a comment don't do anything and just return *)
    c <- charAt (QString.trimmed text) 0 ;;
    if Ascii.eqb c "#" then Ret tt
    else ymlLoop (loopBound text) text false 0.

(** *** The INI highlighter *)

Fixpoint iniLoop (fuel : nat) (text : string) (i : Z) : Prog unit :=
  match fuel with
  | O => OutOfFuel
  | S fuel' =>
      let textLen := QString.length text in
      let next (i : Z) := iniLoop fuel' text (i + 1) in
      if i <? textLen then
        c <- charAt text i ;;
        (* start of a [section] *)
        if Ascii.eqb c "[" then
          sectionFormat <- call (Formats CodeType) ;;
          let sectionEnd := QString.indexOfChar text "]" i in
          (* if an end bracket isn't found, we apply red underline *)
          let sectionFormat :=
            if sectionEnd =? -1
            then setUnderlineColor (setUnderlineStyle sectionFormat DotLine) red
            else sectionFormat in
          let sectionEnd := if sectionEnd =? -1 then textLen else sectionEnd in
          let sectionEnd := sectionEnd + 1 in
          setFormat i (sectionEnd - i) sectionFormat ;;
          let i := sectionEnd in
          if i >=? textLen then Ret tt else next i
        (* comment ';' *)
        else if Ascii.eqb c ";" then
          setFormatOf i textLen CodeComment
        (* key-val *)
        else if QChar.isLetter c then
          format <- call (Formats CodeKeyWord) ;;
          let equalsPos := QString.indexOfChar text "=" i in
          let format :=
            if equalsPos =? -1
            then setUnderlineStyle (setUnderlineColor format red) DotLine
            else format in
          let equalsPos := if equalsPos =? -1 then textLen else equalsPos in
          setFormat i (equalsPos - i) format ;;
          let i := equalsPos - 1 in
          if i >=? textLen then Ret tt else next i
        (* skip everything after '=' (except comment) *)
        else if Ascii.eqb c "=" then
          let findComment := QString.indexOfChar text ";" i in
          if findComment =? -1 then Ret tt else next (findComment - 1)
        else next i
      else Ret tt
  end.

Definition iniHighlighter (text : string) : Prog unit :=
  if QString.isEmpty text then Ret tt
  else iniLoop (loopBound text) text 0.

(** *** The CSS highlighter *)

(** [while (i < textLen) { if (!text[i].isSpace()) break; i++; }] *)
Fixpoint cssSkipSpaces (fuel : nat) (text : string) (i : Z) : Prog Z :=
  match fuel with
  | O => OutOfFuel
  | S fuel' =>
      if i <? QString.length text then
        c <- charAt text i ;;
        if negb (QChar.isSpace c) then Ret i
        else cssSkipSpaces fuel' text (i + 1)
      else Ret i
  end.

(** The foreground chosen against a background of lightness [l]. *)
Definition contrastingForeground (c : QColor) (l : Z) : QColor :=
  if l <=? 20 then ColorName "white"
  else if (20 <? l) && (l <=? 51) then ColorName "#ccc"
  else if (51 <? l) && (l <=? 78) then ColorName "#bbb"
  else if (78 <? l) && (l <=? 110) then ColorName "#bbb"
  else if 127 <? l then ColorDarker c (l + 100)
  else ColorLighter c (l + 100).

Fixpoint cssLoop (fuel : nat) (text : string) (i : Z) : Prog unit :=
  match fuel with
  | O => OutOfFuel
  | S fuel' =>
      let textLen := QString.length text in
      let next (i : Z) := cssLoop fuel' text (i + 1) in
      if i <? textLen then
        c <- charAt text i ;;
        if Ascii.eqb c "." || Ascii.eqb c "#" then
          if i + 1 >=? textLen then Ret tt
          else
            c1 <- charAt text (i + 1) ;;
            if QChar.isSpace c1 || QChar.isNumber c1 then next i
            else
              let space := QString.indexOfChar text " " i in
              let space :=
                if space <? 0 then
                  let brace := QString.indexOfChar text "{" 0 in
                  if brace <? 0 then textLen else brace
                else space in
              setFormatOf i (space - i) CodeKeyWord ;;
              next space
        else if Ascii.eqb c "c" then
          if String.eqb (QString.mid text i 5) "color" then
            let i := i + 5 in
            let colon := QString.indexOfChar text ":" i in
            if colon <? 0 then next i
            else
              let i := colon + 1 in
              i <- cssSkipSpaces (loopBound text) text i ;;
              let semicolon := QString.indexOfChar text ";" 0 in
              let semicolon := if semicolon <? 0 then textLen else semicolon in
              let color := QString.mid text i (semicolon - i) in
              f <- call (Formats CodeBlock) ;;
              c <- (if QString.startsWith color "rgb" then
                      let t := QString.indexOfChar text "(" i in
                      let rPos := QString.indexOfChar text "," t in
                      let gPos := QString.indexOfChar text "," (rPos + 1) in
                      let bPos := QString.indexOfChar text ")" gPos in
                      if (-1 <? rPos) && (-1 <? gPos) && (-1 <? bPos) then
                        let r := QString.mid text (t + 1) (rPos - (t + 1)) in
                        let g := QString.mid text (rPos + 1) (gPos - (rPos + 1)) in
                        let b := QString.mid text (gPos + 1) (bPos - (gPos + 1)) in
                        Ret (ColorRgb (toInt env r) (toInt env g) (toInt env b))
                      else
                        noStateFormat <- call (Formats NoState) ;;
                        Ret (backgroundColor noStateFormat)
                    else Ret (ColorName color)) ;;
              if negb (colorIsValid env c) then next i
              else
                let foreground := contrastingForeground c (colorLightness env c) in
                let f := setForeground (setBackground f c) foreground in
                (* clear prev format *)
                setFormat i (semicolon - i) defaultFormat ;;
                setFormat i (semicolon - i) f ;;
                next semicolon
          else next i
        else next i
      else Ret tt
  end.

Definition cssHighlighter (text : string) : Prog unit :=
  if QString.isEmpty text then Ret tt
  else cssLoop (loopBound text) text 0.

(** *** The XML highlighter *)

(** The loop over a quoted span: it returns the position and the count. *)
Fixpoint xmlStringLoop (fuel : nat) (text : string) (i cnt : Z) : Prog (Z * Z) :=
  match fuel with
  | O => OutOfFuel
  | S fuel' =>
      let textLen := QString.length text in
      if i <? textLen then
        c <- charAt text i ;;
        if Ascii.eqb c QChar.dquote then Ret (i + 1, cnt + 1)
        else
          let i := i + 1 in
          let cnt := cnt + 1 in
          (* bound check *)
          if i + 1 >=? textLen then Ret (i, cnt + 1)
          else xmlStringLoop fuel' text i cnt
      else Ret (i, cnt)
  end.

Fixpoint xmlLoop (fuel : nat) (text : string) (i : Z) : Prog unit :=
  match fuel with
  | O => OutOfFuel
  | S fuel' =>
      let textLen := QString.length text in
      let next (i : Z) := xmlLoop fuel' text (i + 1) in
      if i <? textLen then
        c <- charAt text i ;;
        isTag <- (if Ascii.eqb c "<"
                  then c1 <- charAt text (i + 1) ;; Ret (negb (Ascii.eqb c1 "!"))
                  else Ret false) ;;
        i <- (if isTag then
                let found := QString.indexOfChar text ">" i in
                if 0 <? found then
                  let i := i + 1 in
                  c <- charAt text i ;;
                  let i := if Ascii.eqb c "/" then i + 1 else i in
                  setFormatOf i (found - i) CodeKeyWord ;;
                  Ret i
                else Ret i
              else Ret i) ;;
        c <- charAt text i ;;
        (if Ascii.eqb c "=" then
           let lastSpace := QString.lastIndexOfChar text " " i in
           let lastSpace :=
             if lastSpace =? i - 1
             then QString.lastIndexOfChar text " " (i - 2) else lastSpace in
           if 0 <? lastSpace
           then setFormatOf lastSpace (i - lastSpace) CodeBuiltIn
           else Ret tt
         else Ret tt) ;;
        c <- charAt text i ;;
        if Ascii.eqb c QChar.dquote then
          let pos := i in
          let i := i + 1 in
          (* bound check *)
          if i + 1 >=? textLen then Ret tt
          else
            r <- xmlStringLoop (loopBound text) text i 1 ;;
            setFormatOf pos (snd r) CodeString ;;
            next (fst r)
        else next i
      else Ret tt
  end.

Definition xmlHighlighter (text : string) : Prog unit :=
  if QString.isEmpty text then Ret tt
  else
    setFormatOf 0 (QString.length text) CodeBlock ;;
    xmlLoop (loopBound text) text 0.

(** *** [highlightSyntax] *)

(** What the [switch] on the block state selects: a highlighter of its own,
    or the generic scanner with a comment character (null for C-style
    comments), the two post-processor flags and a language's data. *)
Inductive Selection : Type :=
| SelectXml
| SelectIni
| SelectTaggerScript
| SelectGeneric (comment : ascii) (isCSS isYAML : bool) (data : LanguageData).

Definition isState (s a b : Z) : bool := (s =? a) || (s =? b).

Definition selectSyntax (s : Z) : Selection :=
  let generic := SelectGeneric QChar.null false false in
  if isState s CodeCpp CodeCppComment then generic (loadData env Cpp)
  else if isState s CodeJs CodeJsComment then generic (loadData env JS)
  else if isState s CodeC CodeCComment then generic (loadData env Cpp)
  else if s =? CodeBash then SelectGeneric "#" false false (loadData env Shell)
  else if isState s CodePHP CodePHPComment then generic (loadData env PHP)
  else if isState s CodeQML CodeQMLComment then generic (loadData env QML)
  else if s =? CodePython then SelectGeneric "#" false false (loadData env Python)
  else if isState s CodeRust CodeRustComment then generic (loadData env Rust)
  else if isState s CodeJava CodeJavaComment then generic (loadData env Java)
  else if isState s CodeCSharp CodeCSharpComment then generic (loadData env CSharp)
  else if isState s CodeGo CodeGoComment then generic (loadData env Go)
  else if isState s CodeV CodeVComment then generic (loadData env V)
  else if s =? CodeSQL then generic (loadData env SQL)
  else if s =? CodeJSON then generic (loadData env JSON)
  else if s =? CodeXML then SelectXml
  else if isState s CodeCSS CodeCSSComment
       then SelectGeneric QChar.null true false (loadData env CSS)
  else if isState s CodeTypeScript CodeTypeScriptComment
       then generic (loadData env Typescript)
  else if s =? CodeYAML then SelectGeneric "#" false true (loadData env YAML)
  else if s =? CodeINI then SelectIni
  else if s =? CodeTaggerScript then SelectTaggerScript
  else if s =? CodeVex then generic (loadData env VEX)
  else generic noLanguageData.

Definition highlightSyntax (text : string) : Prog unit :=
  if QString.isEmpty text then Ret tt
  else
    let textLen := QString.length text in
    cbs <- currentBlockState ;;
    match selectSyntax cbs with
    | SelectXml => xmlHighlighter text
    | SelectIni => iniHighlighter text
    | SelectTaggerScript => taggerScriptHighlighter text
    | SelectGeneric comment isCSS isYAML data =>
        (* keep the default code block format *)
        setFormatOf 0 textLen CodeBlock ;;
        fType <- call (Formats CodeType) ;;
        fKeyword <- call (Formats CodeKeyWord) ;;
        fComment <- call (Formats CodeComment) ;;
        fNumLit <- call (Formats CodeNumLiteral) ;;
        fBuiltIn <- call (Formats CodeBuiltIn) ;;
        fOther <- call (Formats CodeOther) ;;
        r <- syntaxLoop (loopBound text) text comment data
                        (mkCodeFormats fType fKeyword fComment fNumLit
                                       fBuiltIn fOther) 0 ;;
        match r with
        | Return => Ret tt
        | FallThrough _ =>
            (* post processors *)
            (if isCSS then cssHighlighter text else Ret tt) ;;
            (if isYAML then ymlHighlighter text else Ret tt)
        end
    end.

(* ------------------------------------------------------------------------- *)
(** ** The Markdown highlighter *)

(** [addDirtyBlock]: adds a dirty block to the list if it doesn't already
    exist. *)
Definition addDirtyBlock (block : BlockRef) : Prog unit :=
  known <- call (DirtyTextBlocksContains block) ;;
  if negb known then call (DirtyTextBlocksAppend block) else Ret tt.

(** [setCurrentBlockMargin] returns at once (its body is disabled). *)
Definition setCurrentBlockMargin (state : Z) : Prog unit := Ret tt.

Definition highlightSubHeadline (text : string) (state : Z) : Prog unit :=
  maskedFormat <- call (Formats MaskedSyntax) ;;
  previousText <- call (BlockText Previous) ;;
  let prevTextLen := QString.length previousText in
  pbs <- previousBlockState ;;
  if ((pbs =? state) || (pbs =? NoState)) && (0 <? prevTextLen) then
    (* set the font size from the current rule's font format *)
    stateFormat <- call (Formats state) ;;
    let currentMaskedFormat :=
      setFontPointSize maskedFormat (fontPointSize stateFormat) in
    setFormat 0 (QString.length text) currentMaskedFormat ;;
    setCurrentBlockState HeadlineEnd ;;
    call (BlockSetUserState Previous state) ;;
    (* set a margin for the current block *)
    setCurrentBlockMargin state ;;
    (* we want to re-highlight the previous block *)
    pbs <- previousBlockState ;;
    if negb (pbs =? state) then addDirtyBlock Previous else Ret tt
  else Ret tt.

(** The lambda [hasOnlyHeadChars]. *)
Fixpoint allChars (c : ascii) (txt : string) : bool :=
  match txt with
  | EmptyString => true
  | String a r => Ascii.eqb a c && allChars c r
  end.

Definition hasOnlyHeadChars (txt : string) (c : ascii) : bool :=
  if QString.isEmpty txt then false else allChars c txt.

(** [while (i < text.length() && text.at(i) == '#' && i < 6) ++i;] *)
Fixpoint headingMarks (fuel : nat) (text : string) (i : Z) : Prog Z :=
  match fuel with
  | O => OutOfFuel
  | S fuel' =>
      if i <? QString.length text then
        c <- charAt text i ;;
        if Ascii.eqb c "#" && (i <? 6) then headingMarks fuel' text (i + 1)
        else Ret i
      else Ret i
  end.

Definition highlightHeadline (text : string) : Prog unit :=
  c <- charAt text 0 ;;
  let headingFound := Ascii.eqb c "#" in
  (* the heading level, or [Return] where the function returns early *)
  r <- (if headingFound then
          let i := 1 in
          if i >=? QString.length text then Ret Return
          else
            i <- headingMarks 6 text i ;;
            if i <? QString.length text then
              c <- charAt text i ;;
              Ret (FallThrough (if Ascii.eqb c " " then i else 0))
            else Ret (FallThrough 0)
        else Ret (FallThrough 0)) ;;
  match r with
  | Return => Ret tt
  | FallThrough headingLevel =>
      if 0 <? headingLevel then
        let state := H1 + headingLevel - 1 in
        setFormatOf 0 (QString.length text) state ;;
        (* set a margin for the current block *)
        setCurrentBlockMargin state ;;
        setCurrentBlockState state
      (* take care of ==== and ---- headlines *)
      else if hasOnlyHeadChars text "=" then highlightSubHeadline text H1
      else if hasOnlyHeadChars text "-" then highlightSubHeadline text H2
      else
        (* check next block for ==== *)
        nextBlockText <- call (BlockText Next) ;;
        (if hasOnlyHeadChars nextBlockText "=" then
           setFormatOf 0 (QString.length text) H1 ;;
           setCurrentBlockState H1 ;;
           call (BlockSetUserState Current H1)
         else Ret tt) ;;
        (* check next block for ---- *)
        (if hasOnlyHeadChars nextBlockText "-" then
           setFormatOf 0 (QString.length text) H2 ;;
           setCurrentBlockState H2 ;;
           call (BlockSetUserState Current H2)
         else Ret tt)
  end.

(** Whether a block state is one of a code block. *)
Definition isCodeBlockState (s : Z) : bool :=
  (s =? CodeBlock) || (s =? CodeBlockComment) || (s >=? CodeCpp).

Definition highlightCodeBlock (text : string) : Prog unit :=
  if QString.startsWith text "```" then
    pbs <- previousBlockState ;;
    (if negb (pbs =? CodeBlock) && negb (pbs =? CodeBlockComment) &&
        (pbs <? CodeCpp)
     then
       let lang := QString.toLower (QString.mid text 3 (QString.length text)) in
       let progLang := value _langStringToEnum lang in
       if progLang >=? CodeCpp then setCurrentBlockState progLang
       else setCurrentBlockState CodeBlock
     else if isCodeBlockState pbs then setCurrentBlockState CodeBlockEnd
     else Ret tt) ;;
    (* set the font size from the current rule's font format *)
    codeBlockFormat <- call (Formats CodeBlock) ;;
    call (FormatsSetFontPointSize MaskedSyntax (fontPointSize codeBlockFormat)) ;;
    maskedFormat <- call (Formats MaskedSyntax) ;;
    setFormat 0 (QString.length text) maskedFormat
  else
    pbs <- previousBlockState ;;
    if isCodeBlockState pbs then
      setCurrentBlockState pbs ;;
      highlightSyntax text
    else Ret tt.

Definition highlightFrontmatterBlock (text : string) : Prog unit :=
  (* return if there is no frontmatter in this document *)
  firstText <- call (BlockText First) ;;
  if negb (String.eqb firstText "---") then Ret tt
  else if String.eqb text "---" then
    pbs <- previousBlockState ;;
    let foundEnd := pbs =? FrontmatterBlock in
    (* there just can be one frontmatter block *)
    firstIsCurrent <- call FirstBlockIsCurrent ;;
    if negb foundEnd && negb firstIsCurrent then Ret tt
    else
      setCurrentBlockState
        (if foundEnd then FrontmatterBlockEnd else FrontmatterBlock) ;;
      setFormatOf 0 (QString.length text) MaskedSyntax
  else
    pbs <- previousBlockState ;;
    if pbs =? FrontmatterBlock then
      setCurrentBlockState FrontmatterBlock ;;
      setFormatOf 0 (QString.length text) MaskedSyntax
    else Ret tt.

Definition highlightCommentBlock (text : string) : Prog unit :=
  let text := QString.trimmed text in
  let startText := "<!--" in
  let endText := "-->" in
  (* an inline comment is left to the rules *)
  if QString.startsWith text startText && QString.contains text endText
  then Ret tt
  else
    pbs <- previousBlockState ;;
    highlight <-
      (if QString.startsWith text startText ||
          (negb (QString.endsWith text endText) && (pbs =? Comment))
       then setCurrentBlockState Comment ;; Ret true
       else if QString.endsWith text endText then Ret true
       else Ret false) ;;
    if highlight then setFormatOf 0 (QString.length text) Comment
    else Ret tt.

(** Format italics, bolds and links in headings (h1-h6). *)
Definition setHeadingStyles (rule : Z) (m : QRegularExpressionMatch)
           (capturedGroup : Z) : Prog unit :=
  state <- currentBlockState ;;
  f <- call (Formats state) ;;
  if rule =? Italic then
    setFormat (capturedStart m capturedGroup) (capturedLength m capturedGroup)
              (setFontItalic f true)
  else if rule =? Bold then
    setFormat (capturedStart m capturedGroup) (capturedLength m capturedGroup) f
  else if rule =? Link then
    link <- call (Formats Link) ;;
    let link := setFontPointSize link (fontPointSize f) in
    if capturedGroup =? 1 then
      setFormat (capturedStart m capturedGroup) (capturedLength m capturedGroup)
                link
    else Ret tt
  else Ret tt.

Definition isHeadingState (s : Z) : bool := (H1 <=? s) && (s <=? H6).

(** The loop over the matches of one rule; [format] is [_formats[rule.state]]. *)
Fixpoint formatMatches (rule : HighlightingRule)
         (maskedFormat format : QTextCharFormat)
         (matches : list QRegularExpressionMatch) : Prog unit :=
  match matches with
  | [] => Ret tt
  | m :: rest =>
      (* with a capturing group, first highlight everything as MaskedSyntax *)
      (if 0 <? capturingGroup rule then
         (* set the font size from the current rule's font format *)
         let currentMaskedFormat :=
           if negb (Qle_bool (fontPointSize format) 0)
           then setFontPointSize maskedFormat (fontPointSize format)
           else maskedFormat in
         cbs <- currentBlockState ;;
         if isHeadingState cbs && negb (state rule =? InlineCodeBlock) then Ret tt
         else setFormat (capturedStart m (maskedGroup rule))
                        (capturedLength m (maskedGroup rule)) currentMaskedFormat
       else Ret tt) ;;
      cbs <- currentBlockState ;;
      (if isHeadingState cbs && negb (state rule =? InlineCodeBlock)
       then setHeadingStyles (state rule) m (capturingGroup rule)
       else setFormat (capturedStart m (capturingGroup rule))
                      (capturedLength m (capturingGroup rule)) format) ;;
      formatMatches rule maskedFormat format rest
  end.

(** The substrings one of which a line must contain for a rule to be tried. *)
Definition ruleMayMatch (rule : HighlightingRule) (text : string) : bool :=
  QString.contains text (shouldContain0 rule) ||
  (negb (QString.isEmpty (shouldContain1 rule)) &&
   QString.contains text (shouldContain1 rule)) ||
  (negb (QString.isEmpty (shouldContain2 rule)) &&
   QString.contains text (shouldContain2 rule)).

(** Highlights the rules of a list. *)
Fixpoint highlightRules (rules : list HighlightingRule)
         (maskedFormat : QTextCharFormat) (text : string) : Prog unit :=
  match rules with
  | [] => Ret tt
  | rule :: rest =>
      cbs <- currentBlockState ;;
      (if disableIfCurrentStateIsSet rule && negb (cbs =? NoState) then Ret tt
       else if negb (ruleMayMatch rule text) then Ret tt
       else
         let matches := globalMatch env (pattern rule) text in
         format <- call (Formats (state rule)) ;;
         (* store the current block state if useStateAsCurrentBlockState is set *)
         (if negb (Nat.eqb (List.length matches) 0) &&
             useStateAsCurrentBlockState rule
          then setCurrentBlockState (state rule) else Ret tt) ;;
         (* find and format all occurrences *)
         formatMatches rule maskedFormat format matches) ;;
      highlightRules rest maskedFormat text
  end.

Definition highlightAdditionalRules (rules : list HighlightingRule) (text : string)
  : Prog unit :=
  maskedFormat <- call (Formats MaskedSyntax) ;;
  highlightRules rules maskedFormat text.

Definition highlightMarkdown (text : string) : Prog unit :=
  (if negb (QString.isEmpty text) then
     pre <- call HighlightingRulesPre ;;
     highlightAdditionalRules pre text ;;
     (* needs to be called after the horizontal ruler highlighting *)
     highlightHeadline text ;;
     after <- call HighlightingRulesAfter ;;
     highlightAdditionalRules after text
   else Ret tt) ;;
  highlightCommentBlock text ;;
  highlightCodeBlock text ;;
  highlightFrontmatterBlock text.

(** Does the markdown highlighting. *)
Definition highlightBlock (text : string) : Prog unit :=
  setCurrentBlockState NoState ;;
  call (BlockSetUserState Current NoState) ;;
  highlightMarkdown text ;;
  call (SetHighlightingFinished true).

(* ------------------------------------------------------------------------- *)
(** ** The highlighter as Qt drives it *)

(** [QSyntaxHighlighterPrivate::reformatBlock]: one pass over a block, whose
    formats are then laid on the block. *)
Definition applyFormatChanges (h : Highlighter) : Highlighter :=
  withDocument h
    (updateBlock (document h) (currentBlockNumber h)
       (fun b => mkBlock (blockText b) (userState b) (formatChanges h))).

Definition reformatBlock (block : Z) (h : Highlighter) : Highlighter * Outcome unit :=
  let h := withFormatChanges (withCurrentBlockNumber h block) [] in
  let (h, r) := run (highlightBlock (textOfBlock (document h) block)) h in
  (withCurrentBlockNumber (applyFormatChanges h) (-1), r).

(** [reformatBlocks]: the block is highlighted, and so is each following
    block for as long as the block before it changed its state. *)
Fixpoint reformatBlocks (count : nat) (block : Z) (h : Highlighter)
  : Highlighter * Outcome unit :=
  match count with
  | O => (h, Done tt)
  | S count' =>
      if isValidBlock (document h) block then
        let stateBeforeHighlight := userStateOfBlock (document h) block in
        let (h', r) := reformatBlock block h in
        match r with
        | Done _ =>
            if userStateOfBlock (document h') block =? stateBeforeHighlight
            then (h', Done tt)
            else reformatBlocks count' (block + 1) h'
        | _ => (h', r)
        end
      else (h, Done tt)
  end.

(** [QSyntaxHighlighter::rehighlightBlock]. *)
Definition rehighlightBlock (block : Z) (h : Highlighter)
  : Highlighter * Outcome unit :=
  let (h', r) := reformatBlocks (List.length (document h)) block h in
  (withFormatChanges h' [], r).

(** What [reHighlightDirtyBlocks] does to the queue, in the order it does it. *)
Inductive QueueEvent : Type :=
| Rehighlighted (block : Z)
| RemovedFirst (block : Z).

(** [removeFirst] of the vector of dirty blocks. *)
Definition removeFirst (h : Highlighter) : Highlighter :=
  withDirtyTextBlocks h (List.tl (_dirtyTextBlocks h)).

(** Re-highlights all dirty blocks. *)
Fixpoint reHighlightDirtyBlocks (fuel : nat) (h : Highlighter)
  : list QueueEvent * (Highlighter * Outcome unit) :=
  match fuel with
  | O => ([], (h, Unfinished))
  | S fuel' =>
      match _dirtyTextBlocks h with
      | [] => ([], (h, Done tt))
      | block :: _ =>
          let (h1, r) := rehighlightBlock block h in
          match r with
          | Done _ =>
              let removed := List.hd (-1) (_dirtyTextBlocks h1) in
              let (events, result) := reHighlightDirtyBlocks fuel' (removeFirst h1) in
              (Rehighlighted block :: RemovedFirst removed :: events, result)
          | _ => ([Rehighlighted block], (h1, r))
          end
      end
  end.

(** Clears the dirty blocks vector. *)
Definition clearDirtyBlocks (h : Highlighter) : Highlighter :=
  withDirtyTextBlocks h [].

(** Does jobs every second: the queue is emptied, and the signal
    [highlightingFinished] is emitted (the flag in the result) if some
    highlighting was done. *)
Definition timerTick (fuel : nat) (h : Highlighter)
  : bool * (Highlighter * Outcome unit) :=
  let (_, res) := reHighlightDirtyBlocks fuel h in
  let (h', r) := res in
  match r with
  | Done _ =>
      if _highlightingFinished h'
      then (true, (withHighlightingFinished h' false, r))
      else (false, (h', r))
  | _ => (false, (h', r))
  end.

(** [setTextFormat] and [setTextFormats]. *)
Definition setTextFormat (state : Z) (format : QTextCharFormat) (h : Highlighter)
  : Highlighter :=
  withFormats h (insertFormat (_formats h) state format).

Definition setTextFormats (formats : FormatTable) (h : Highlighter) : Highlighter :=
  withFormats h formats.

(** The highlighting of a line as the specification presents it: the block
    [text] is highlighted in the state [h] and yields the formats set on it,
    its new state, and how the pass ended. *)
Definition highlightCurrentBlock (h : Highlighter)
  : list Annotation * Z * Outcome unit :=
  let text := textOfBlock (document h) (blockNumber h Current) in
  let (h', r) := run (highlightBlock text) (withFormatChanges h []) in
  (formatChanges h', userStateOfBlock (document h') (blockNumber h' Current), r).

End WithEnvironment.

(** The constructor: rules, formats, an empty queue of dirty blocks. *)
Definition newHighlighter (doc : list QTextBlock)
           (fullyHighlightedBlockQuote : bool) (fixedFontSize : Q) : Highlighter :=
  mkHighlighter doc (-1) []
                (initHighlightingRulesPre fullyHighlightedBlockQuote)
                initHighlightingRulesAfter
                (initTextFormats 12 fixedFontSize) [] false.

(** A document of lines that were never highlighted. *)
Definition plainDocument (lines : list string) : list QTextBlock :=
  map (fun t => mkBlock t (-1) []) lines.

(* ------------------------------------------------------------------------- *)
(** ** Vocabulary of the proofs *)

(** A discipline on the calls of a program: which calls it may make, what
    is known of an answer, and whether it may end in a fault. *)
Record Discipline : Type := mkDiscipline {
  callOk : Call -> Prop;
  answerOk : forall c : Call, Answer c -> Prop;
  faultOk : Prop
}.

(** A program obeys a discipline, with results in [Q], when every call on
    every path is permitted and every result is in [Q]. *)
Fixpoint obeysTo (d : Discipline) {A : Type} (Q : A -> Prop) (p : Prog A) : Prop :=
  match p with
  | Ret a => Q a
  | OutOfRange => faultOk d
  | OutOfFuel => faultOk d
  | Do c k => callOk d c /\ forall x : Answer c, answerOk d c x -> obeysTo d Q (k x)
  end.

Definition obeys (d : Discipline) {A : Type} (p : Prog A) : Prop :=
  obeysTo d (fun _ => True) p.

(** What is known of the answer of a call whatever the state: a format read
    from [_formats[k]] carries the style [k]. *)
Definition answerOfCall (c : Call) : Answer c -> Prop :=
  match c return Answer c -> Prop with
  | Formats k => fun f => styleId f = Some k
  | _ => fun _ => True
  end.

Definition discipline (ok : Call -> Prop) (faults : Prop) : Discipline :=
  mkDiscipline ok answerOfCall faults.

(** The state of no block but the current one is set. *)
Definition setsCurrentStateOnly (c : Call) : Prop :=
  match c with
  | BlockSetUserState Current _ => True
  | BlockSetUserState _ _ => False
  | _ => True
  end.

(** The state of no block is set. *)
Definition keepsStates (c : Call) : Prop :=
  match c with
  | BlockSetUserState _ _ => False
  | _ => True
  end.

(** The format table is not written. *)
Definition keepsFormats (c : Call) : Prop :=
  match c with
  | FormatsSetFontPointSize _ _ => False
  | _ => True
  end.

(** The queue of dirty blocks is not written. *)
Definition keepsQueue (c : Call) : Prop :=
  match c with
  | DirtyTextBlocksAppend _ => False
  | _ => True
  end.

(** The calls of a pass over a line that are answered alike in two documents
    that agree around the line: everything but the queue of dirty blocks and
    the states of the next and of the first block. *)
Definition contextCall (c : Call) : Prop :=
  match c with
  | BlockUserState Next | BlockUserState First => False
  | BlockSetUserState Next _ | BlockSetUserState First _ => False
  | DirtyTextBlocksContains _ => False
  | DirtyTextBlocksAppend _ => False
  | _ => True
  end.

Definition isTrailingSpaceFormat (f : QTextCharFormat) : Prop :=
  styleId f = Some TrailingSpace.

(** No format of the style [TrailingSpace] is set. *)
Definition setsNoTrailingSpace (c : Call) : Prop :=
  match c with
  | SetFormat _ _ f => ~ isTrailingSpaceFormat f
  | _ => True
  end.

(** The calls of the rules engine. *)
Definition markupCall (c : Call) : Prop :=
  setsCurrentStateOnly c /\ keepsFormats c /\ keepsQueue c /\ contextCall c.

(** The calls of the code scanners. *)
Definition scannerCall (c : Call) : Prop :=
  markupCall c /\ setsNoTrailingSpace c.

(** The calls of the block machine for code fences. *)
Definition fenceCall (c : Call) : Prop :=
  setsCurrentStateOnly c /\ keepsQueue c /\ contextCall c /\
  setsNoTrailingSpace c.

(** The disciplines used below. *)
Definition markup : Discipline := discipline markupCall False.

Definition markupKeepingStates : Discipline :=
  discipline (fun c => markupCall c /\ keepsStates c) False.

Definition plainMarkup : Discipline := discipline scannerCall False.

Definition scanner : Discipline := discipline scannerCall True.

Definition fence : Discipline := discipline fenceCall True.

Definition noTrailingSpaceSet : Discipline := discipline setsNoTrailingSpace True.

Definition inContext : Discipline := discipline contextCall True.

Definition queueKept : Discipline := discipline keepsQueue True.

(** The formats of the generic scanner are those of the code styles. *)
Definition codeStyles (f : CodeFormats) : Prop :=
  ~ isTrailingSpaceFormat (formatType f) /\
  ~ isTrailingSpaceFormat (formatKeyword f) /\
  ~ isTrailingSpaceFormat (formatComment f) /\
  ~ isTrailingSpaceFormat (formatNumLit f) /\
  ~ isTrailingSpaceFormat (formatBuiltIn f) /\
  ~ isTrailingSpaceFormat (formatOther f).

Definition noTrailingSpace (l : list Annotation) : Prop :=
  Forall (fun a => ~ isTrailingSpaceFormat (annFormat a)) l.

(** A program keeps a property of the state. *)
Definition keeps (J : Highlighter -> Prop) {A : Type} (p : Prog A) : Prop :=
  forall h, J h -> J (fst (run p h)).

(** No format of the style [TrailingSpace] was set so far, and the rule
    tables are [pre] and [after]. *)
Definition trailingFree (pre after : list HighlightingRule) (h : Highlighter) : Prop :=
  noTrailingSpace (formatChanges h) /\
  _highlightingRulesPre h = pre /\
  _highlightingRulesAfter h = after.

(** A rule that is tried on [text] is not the rule of trailing spaces. *)
Definition passesNoTrailingRule (text : string) (r : HighlightingRule) : Prop :=
  ruleMayMatch r text = true -> state r <> TrailingSpace.

(** A rule of the state [TrailingSpace] is tried on no line but one that
    contains a space followed by a newline. *)
Definition trailingRuleGuarded (r : HighlightingRule) : bool :=
  negb (state r =? TrailingSpace) ||
  (String.eqb (shouldContain0 r) (String " " (QString.single QChar.newline)) &&
   QString.isEmpty (shouldContain1 r) && QString.isEmpty (shouldContain2 r)).

(** The states of the blocks other than number [cur], the current one. *)
Definition otherStates (cur : Z) (doc : list QTextBlock) (h : Highlighter) : Prop :=
  currentBlockNumber h = cur /\
  forall n, n <> cur ->
            userStateOfBlock (document h) n = userStateOfBlock doc n.

(** *** What a pass keeps of a state *)

(** All a run can ever change is the states of blocks, the format table, the
    formats set on the line, the queue and the flag: the texts, the current
    block and the rules stay. *)
Definition sameTexts (d1 d2 : list QTextBlock) : Prop :=
  map blockText d1 = map blockText d2.

Record Extends (h h' : Highlighter) : Prop := mkExtends {
  ext_texts : sameTexts (document h) (document h');
  ext_current : currentBlockNumber h' = currentBlockNumber h;
  ext_pre : _highlightingRulesPre h' = _highlightingRulesPre h;
  ext_after : _highlightingRulesAfter h' = _highlightingRulesAfter h;
  ext_formats : exists l, formatChanges h' = formatChanges h ++ l
}.

(** *** Two states that agree around the current line *)

Definition textOf (h : Highlighter) (b : BlockRef) : string :=
  textOfBlock (document h) (blockNumber h b).

Definition stateOf (h : Highlighter) (b : BlockRef) : Z :=
  userStateOfBlock (document h) (blockNumber h b).

Definition isValidRef (h : Highlighter) (b : BlockRef) : bool :=
  isValidBlock (document h) (blockNumber h b).

(** The state after [setUserState(s)] on a block. *)
Definition setState (b : BlockRef) (s : Z) (h : Highlighter) : Highlighter :=
  fst (perform (BlockSetUserState b s) h).

(** [highlightSubHeadline] without its last statement, the re-queueing of the
    previous block (which is shown below never to happen). *)
Definition highlightSubHeadlineDirect (text : string) (state : Z) : Prog unit :=
  (maskedFormat <- call (Formats MaskedSyntax) ;;
   previousText <- call (BlockText Previous) ;;
   let prevTextLen := QString.length previousText in
   pbs <- previousBlockState ;;
   if ((pbs =? state) || (pbs =? NoState)) && (0 <? prevTextLen) then
     stateFormat <- call (Formats state) ;;
     let currentMaskedFormat :=
       setFontPointSize maskedFormat (fontPointSize stateFormat) in
     setFormat 0 (QString.length text) currentMaskedFormat ;;
     setCurrentBlockState HeadlineEnd ;;
     call (BlockSetUserState Previous state)
   else Ret tt)%prog.

(** The context of a line: what [highlightBlock] can see of the document and
    of the highlighter when it is given the line. *)
Record LineContext : Type := mkLineContext {
  ctxText : string;
  ctxValid : bool;
  ctxHasPrevious : bool;
  ctxPreviousState : Z;
  ctxPreviousText : string;
  ctxNextText : string;
  ctxFirstText : string;
  ctxFirstIsCurrent : bool;
  ctxFormats : FormatTable;
  ctxRulesPre : list HighlightingRule;
  ctxRulesAfter : list HighlightingRule
}.

Definition lineContext (h : Highlighter) : LineContext :=
  mkLineContext (textOf h Current) (isValidRef h Current) (isValidRef h Previous)
                (stateOf h Previous) (textOf h Previous) (textOf h Next)
                (textOf h First)
                (blockNumber h First =? blockNumber h Current)
                (_formats h) (_highlightingRulesPre h)
                (_highlightingRulesAfter h).

(** Agreement in the course of a pass: the contexts, the state of the current
    block and the formats set so far. *)
Definition Agree (h1 h2 : Highlighter) : Prop :=
  lineContext h1 = lineContext h2 /\
  stateOf h1 Current = stateOf h2 Current /\
  formatChanges h1 = formatChanges h2.

(** Two runs of a program from states that agree end alike, in states that
    agree. *)
Definition related {A : Type} (p : Prog A) : Prop :=
  forall h1 h2, Agree h1 h2 ->
    Agree (fst (run p h1)) (fst (run p h2)) /\
    snd (run p h1) = snd (run p h2).

(** *** What a pass over a line may do *)

(** The states a pass sets: that of the current block, and that of the
    previous block to [H1] or [H2] (below an underline). *)
Definition lineCall (c : Call) : Prop :=
  match c with
  | BlockSetUserState Current _ => True
  | BlockSetUserState Previous s => s = H1 \/ s = H2
  | BlockSetUserState _ _ => False
  | _ => True
  end.

(** The one entry of the format table a pass writes is the point size of
    [MaskedSyntax]. *)
Definition writesMaskedSizeOnly (c : Call) : Prop :=
  match c with
  | FormatsSetFontPointSize k _ => k = MaskedSyntax
  | _ => True
  end.

(** The calls of a pass outside [highlightCodeBlock]. *)
Definition passCall (c : Call) : Prop := lineCall c /\ keepsFormats c.

Definition pass : Discipline := discipline passCall False.

Definition lineOrFault : Discipline := discipline lineCall True.

Definition maskedSizeOnly : Discipline := discipline writesMaskedSizeOnly True.

(** The states of the blocks other than number [cur] and the one before. *)
Definition statesBeyond (cur : Z) (doc : list QTextBlock) (h : Highlighter) : Prop :=
  currentBlockNumber h = cur /\
  forall n, n <> cur -> n <> cur - 1 ->
            userStateOfBlock (document h) n = userStateOfBlock doc n.

(** The entries of the format table other than that of [MaskedSyntax]. *)
Definition formatsBeyondMasked (t : FormatTable) (h : Highlighter) : Prop :=
  forall k, k <> MaskedSyntax -> lookupFormat (_formats h) k = lookupFormat t k.

(** The previous line is in no code block. *)
Definition outsideCode (h : Highlighter) : Prop :=
  isCodeBlockState (stateOf h Previous) = false.

(** The format table is [t]. *)
Definition formatsAre (t : FormatTable) (h : Highlighter) : Prop := _formats h = t.

(** *** Total correctness of a program *)

(** From a state in [P] the program ends with a result, in a state and with
    a result in [Q]. *)
Definition hoare {A : Type} (P : Highlighter -> Prop) (p : Prog A)
           (Q : A -> Highlighter -> Prop) : Prop :=
  forall h, P h -> exists a, snd (run p h) = Done a /\ Q a (fst (run p h)).

(** The state [h] in the course of a pass that started in [h0] and has set
    the state of no block but the current one. *)
Definition around (h0 h : Highlighter) : Prop :=
  Extends h0 h /\ stateOf h Previous = stateOf h0 Previous.

(** The format set last covers the whole of [text] and is of the style
    [MaskedSyntax]. *)
Definition endsWithMasked (text : string) (h : Highlighter) : Prop :=
  exists l f,
    formatChanges h = l ++ [mkAnnotation 0 (QString.length text) f] /\
    styleId f = Some MaskedSyntax.

(** The line is inside a front matter: the document starts with [---] and
    the previous line is in the state [FrontmatterBlock]. *)
Definition inFrontmatter (h : Highlighter) : bool :=
  String.eqb (textOf h First) "---" && (stateOf h Previous =? FrontmatterBlock).

(** A format of the style [style] was set on the range [start, start + count). *)
Definition hasAnnotation (start count style : Z) (l : list Annotation) : Prop :=
  exists f, In (mkAnnotation start count f) l /\ styleId f = Some style.

(** In the course of a pass that started in [h0]: the current line is in
    the state [state], with a format of that style over its [count]
    characters. *)
Definition headed (h0 : Highlighter) (state count : Z) (h : Highlighter) : Prop :=
  around h0 h /\ stateOf h Current = state /\
  hasAnnotation 0 count state (formatChanges h).

(** A line of [k] marks [#], a space, and [rest]. *)
Fixpoint hashes (k : nat) : string :=
  match k with
  | O => EmptyString
  | S k' => String "#" (hashes k')
  end.

Definition headingText (k : nat) (rest : string) : string :=
  String.append (hashes k) (String " " rest).

(** The state of a heading of level [k]. *)
Definition headingState (k : nat) : Z := H1 + Z.of_nat k - 1.

(** The state [highlightCodeBlock] gives the line [text] of a fence in a
    document and with a previous line as in [h0]. *)
Definition codeStateOfFence (h0 : Highlighter) (text : string) : Z :=
  if isCodeBlockState (stateOf h0 Previous) then CodeBlockEnd
  else
    let progLang :=
      value _langStringToEnum
            (QString.toLower (QString.mid text 3 (QString.length text))) in
    if progLang >=? CodeCpp then progLang else CodeBlock.

(** *** Lines without markup *)

(** No rule of the list is tried on [text]: the line contains none of the
    substrings the rules look for. *)
Definition rejectsAll (rules : list HighlightingRule) (text : string) : bool :=
  forallb (fun r => negb (ruleMayMatch r text)) rules.

(** The line is no heading, no underline, no fence, and neither starts nor
    ends a comment. *)
Definition plainText (text : string) : bool :=
  negb (QString.startsWith text "#") &&
  negb (hasOnlyHeadChars text "=") && negb (hasOnlyHeadChars text "-") &&
  negb (QString.startsWith (QString.trimmed text) "<!--") &&
  negb (QString.endsWith (QString.trimmed text) "-->") &&
  negb (QString.startsWith text "```").

(** The line stands above no underline, and below no comment, no code block
    and no line of a front matter. *)
Definition plainContext (h : Highlighter) : bool :=
  negb (hasOnlyHeadChars (textOf h Next) "=") &&
  negb (hasOnlyHeadChars (textOf h Next) "-") &&
  negb (stateOf h Previous =? Comment) &&
  negb (isCodeBlockState (stateOf h Previous)) &&
  negb (inFrontmatter h).

(** *** Lines of code *)

(** The calls of the scanners that set the state of no block. *)
Definition quiet : Discipline := discipline keepsStates True.

(** The other of the two states of a language: the state inside a comment
    for the state outside of it, and conversely ([CodeCpp] is 200 and
    [CodeCppComment] is 201). *)
Definition partnerState (s : Z) : Z := if Z.even s then s + 1 else s - 1.

Definition sameLanguage (s s' : Z) : bool :=
  (s' =? s) || (s' =? partnerState s).

(** Below a line in the state [s], the current line is in a state of the
    language of [s]. *)
Definition inLanguage (s : Z) (h : Highlighter) : Prop :=
  stateOf h Previous = s /\ sameLanguage s (stateOf h Current) = true.

(** From a state in [P] the program ends, with a result or in a fault, in a
    state in [Q]. *)
Definition leads {A : Type} (P : Highlighter -> Prop) (p : Prog A)
           (Q : Highlighter -> Prop) : Prop :=
  forall h, P h -> Q (fst (run p h)).

(** *** Lines of a comment and of a front matter *)

(** The format set last is of the style [style], on the range
    [start, start + count). *)
Definition endsWithAnnotation (start count style : Z) (h : Highlighter) : Prop :=
  exists l f,
    formatChanges h = l ++ [mkAnnotation start count f] /\
    styleId f = Some style.

(** The state of a line inside a front matter: the line [---] closes it. *)
Definition frontmatterState (text : string) : Z :=
  if String.eqb text "---" then FrontmatterBlockEnd else FrontmatterBlock.

(** A program that reads inside its strings only and whose loops end within
    their bounds, whatever the calls answer. *)
Definition faultless : Discipline := discipline (fun _ => True) False.

(** A position of the line [text], or none: what a step of a scanner hands
    to the next when it has not left the line nor gone back before [i]. *)
Definition positionFrom (text : string) (i : Z) (r : option Z) : Prop :=
  match r with
  | None => True
  | Some j => i <= j < QString.length text
  end.

(** *** Underlines *)

(** The state an underline gives the line above: [H1] for a line of [=],
    [H2] for a line of [-]. *)
Definition underlineState (text : string) : option Z :=
  if hasOnlyHeadChars text "=" then Some H1
  else if hasOnlyHeadChars text "-" then Some H2
  else None.

(** The format of an underline: that of [MaskedSyntax], at the size of the
    heading. *)
Definition underlineFormat (t : FormatTable) (state : Z) : QTextCharFormat :=
  setFontPointSize (formatOf t MaskedSyntax) (fontPointSize (formatOf t state)).

(** In the course of a pass over an underline: the line above is in the
    state [state], and the format [a] was set. *)
Definition underlined (state : Z) (a : Annotation) (h : Highlighter) : Prop :=
  stateOf h Previous = state /\ In a (formatChanges h).

(** The line stands below no comment, no code block and no line of a front
    matter. *)
Definition outsideBlocks (h : Highlighter) : bool :=
  negb (stateOf h Previous =? Comment) &&
  negb (isCodeBlockState (stateOf h Previous)) &&
  negb (inFrontmatter h).

(** No rule of the list sets the state of the line. *)
Definition rulesKeepState (rules : list HighlightingRule) : Prop :=
  Forall (fun r => useStateAsCurrentBlockState r = false) rules.

(** In the course of a pass that started in [h0] and has set no state but
    that of the current block, and has left the format table. *)
Definition aroundWithFormats (h0 h : Highlighter) : Prop :=
  around h0 h /\ _formats h = _formats h0.

(** *** The language registry as the specification gives it *)

(** The table of section 6 of the specification, tag by tag. *)
Definition languageRegistryOfSpec : list (string * Z) :=
  [ ("bash", CodeBash); ("sh", CodeBash); ("c", CodeC);
    ("cpp", CodeCpp); ("cxx", CodeCpp); ("c++", CodeCpp);
    ("c#", CodeCSharp); ("csharp", CodeCSharp); ("css", CodeCSS);
    ("go", CodeGo);
    ("html", CodeXML); ("xml", CodeXML); ("ini", CodeINI);
    ("java", CodeJava); ("javascript", CodeJava); ("js", CodeJs);
    ("json", CodeJSON);
    ("php", CodePHP); ("py", CodePython); ("python", CodePython);
    ("qml", CodeQML); ("rust", CodeRust); ("sql", CodeSQL);
    ("taggerscript", CodeTaggerScript);
    ("ts", CodeTypeScript); ("typescript", CodeTypeScript);
    ("v", CodeV); ("vex", CodeVex);
    ("yml", CodeYAML); ("yaml", CodeYAML) ].

(** The terminal state the specification gives a fence that opens a block. *)
Definition fenceStateOfSpec (tag : string) : Z :=
  let language := value languageRegistryOfSpec tag in
  if language >=? CodeCpp then language else CodeBlock.

(** *** The queue of dirty blocks *)

(** The events of a drain that re-highlights the blocks [blocks] one after
    the other: each is re-highlighted, then removed from the queue. *)
Definition eventsOf (blocks : list Z) : list QueueEvent :=
  flat_map (fun b => [Rehighlighted b; RemovedFirst b]) blocks.

(** The blocks [blocks] are re-highlighted one after the other from the state
    [h], each being removed from the head of the queue when its
    re-highlighting has ended, and every one of these re-highlightings ends
    well. *)
Fixpoint rehighlightsFinish (env : Environment) (blocks : list Z)
         (h : Highlighter) : Prop :=
  match blocks with
  | [] => True
  | block :: rest =>
      snd (rehighlightBlock env block h) = Done tt /\
      rehighlightsFinish env rest
                         (removeFirst (fst (rehighlightBlock env block h)))
  end.

(** The state they leave. *)
Fixpoint afterRehighlights (env : Environment) (blocks : list Z)
         (h : Highlighter) : Highlighter :=
  match blocks with
  | [] => h
  | block :: rest =>
      afterRehighlights env rest
                        (removeFirst (fst (rehighlightBlock env block h)))
  end.

(** The result [res] of a drain that started in the state [h]: a prefix
    [finished] of the queue was worked through in order, each of its blocks
    re-highlighted and then removed, and the rest is the queue that is left.
    A drain that ends well leaves nothing, in the state those re-highlightings
    leave; a drain ends otherwise only as the re-highlighting of the first
    block of what is left ends, in the state that leaves, and this block is
    not removed. *)
Definition drainedInOrder (env : Environment) (h : Highlighter)
           (res : list QueueEvent * (Highlighter * Outcome unit)) : Prop :=
  exists finished : list Z,
    _dirtyTextBlocks h = finished ++ _dirtyTextBlocks (fst (snd res)) /\
    rehighlightsFinish env finished h /\
    match snd (snd res) with
    | Done _ =>
        _dirtyTextBlocks (fst (snd res)) = [] /\
        fst (snd res) = afterRehighlights env finished h /\
        fst res = eventsOf finished
    | fault =>
        exists block,
          List.hd_error (_dirtyTextBlocks (afterRehighlights env finished h)) =
          Some block /\
          rehighlightBlock env block (afterRehighlights env finished h) =
          (fst (snd res), fault) /\
          fst res = eventsOf finished ++ [Rehighlighted block]
    end.

(** *** Documents without code *)

(** The block holds no fence and is in no state of a code block. *)
Definition blockOutsideCode (b : QTextBlock) : bool :=
  negb (QString.startsWith (blockText b) "```") &&
  negb (isCodeBlockState (userState b)).

(** The rule sets no state of a code block on a line. *)
Definition ruleOutsideCode (r : HighlightingRule) : bool :=
  negb (useStateAsCurrentBlockState r) || negb (isCodeBlockState (state r)).

(** A document without code: no line starts with three backquotes, no block
    is in the state of a code block, and no rule of the two tables sets such
    a state. *)
Definition codeFree (h : Highlighter) : bool :=
  forallb blockOutsideCode (document h) &&
  forallb ruleOutsideCode (_highlightingRulesPre h) &&
  forallb ruleOutsideCode (_highlightingRulesAfter h).

(** The calls that set no state of a code block. *)
Definition noCodeCall (c : Call) : Prop :=
  match c with
  | BlockSetUserState _ s => isCodeBlockState s = false
  | _ => True
  end.

Definition outsideOfCode : Discipline := discipline noCodeCall True.

(** *** Data of the examples *)

(** The matches of the pattern of inline code, a backquote, one character or
    more and as few as can be, a backquote: from an opening backquote the
    match ends at the nearest backquote two characters on or later, and the
    search goes on behind it.  Group 1 is what stands between the two. *)
Fixpoint inlineCodeMatches (fuel : nat) (text : string) (from : Z)
  : list QRegularExpressionMatch :=
  match fuel with
  | O => []
  | S fuel' =>
      let opening := QString.indexOfChar text "`" from in
      if opening =? -1 then []
      else
        let closing := QString.indexOfChar text "`" (opening + 2) in
        if closing =? -1 then []
        else mkMatch [(opening, closing - opening + 1);
                      (opening + 1, closing - opening - 1)]
               :: inlineCodeMatches fuel' text (closing + 1)
  end.

(** An environment for the examples: a regular expression engine that knows
    the pattern of inline code and finds no match of any other pattern (but
    for their backquotes, the example lines contain none of the substrings
    the rules look for, or nothing the pattern matches), no colours, and a
    sample of the C++ data, in which [int] is a type and [include] a
    preprocessor word. *)
Definition sampleCppData : LanguageData :=
  mkLanguageData [("i"%char, "int")] [] [] [] [("i"%char, "include")].

Definition sampleGlobalMatch (pattern text : string)
  : list QRegularExpressionMatch :=
  if String.eqb pattern "`(.+?)`"
  then inlineCodeMatches (String.length text) text 0
  else [].

Definition sampleEnvironment : Environment :=
  mkEnvironment sampleGlobalMatch
                (fun l => match l with Cpp => sampleCppData | _ => noLanguageData end)
                (fun _ => false) (fun _ => 0) (fun _ => 0).

(** The highlighter of a document given with the states of its lines, about
    to highlight line [current]. *)
Definition highlighterAt (lines : list (string * Z)) (current : Z) : Highlighter :=
  withCurrentBlockNumber
    (newHighlighter (map (fun l => mkBlock (fst l) (snd l) []) lines) false (10 # 1))
    current.

(** The two lines [Title] and [=====], never highlighted, with the second and
    then the first in the queue. *)
Definition queuedUnderline : Highlighter :=
  withDirtyTextBlocks (highlighterAt [("Title", -1); ("=====", -1)] (-1)) [1; 0].

(** Four lines without code, never highlighted: a heading, a paragraph, a
    title and its underline; three of them are in the queue. *)
Definition queuedNotes : Highlighter :=
  withDirtyTextBlocks
    (highlighterAt [("# Notes", -1); ("some *text*", -1); ("Title", -1);
                    ("=====", -1)] (-1))
    [3; 0; 1].

(** The ranges and styles of a list of annotations. *)
Definition styles (l : list Annotation) : list (Z * Z * option Z) :=
  map (fun a => (annStart a, annCount a, styleId (annFormat a))) l.

(** The result of a pass, with the ranges and styles of its formats. *)
Definition summary (res : list Annotation * Z * Outcome unit)
  : list (Z * Z * option Z) * Z * Outcome unit :=
  (styles (fst (fst res)), snd (fst res), snd res).

(** *** The rules on the line of a heading *)

(** The styles the rules give on the line of a heading in the state [s]: the
    heading's own, for bold and italics, and that of links; with a rule of
    inline code, also the style of inline code and that of its marks. *)
Definition headingRuleStyle (s : Z) (inlineCode : bool) (f : QTextCharFormat)
  : Prop :=
  styleId f = Some s \/ styleId f = Some Link \/
  (inlineCode = true /\
   (styleId f = Some InlineCodeBlock \/ styleId f = Some MaskedSyntax)).

Definition hasInlineCodeRule (rules : list HighlightingRule) : bool :=
  existsb (fun r => state r =? InlineCodeBlock) rules.

(** In the course of the rules on a heading: the line is in the state [s],
    and the formats set since [formats] are of those styles. *)
Definition inHeading (s : Z) (inlineCode : bool) (formats : list Annotation)
           (h : Highlighter) : Prop :=
  stateOf h Current = s /\
  exists l, formatChanges h = formats ++ l /\
            Forall (fun a => headingRuleStyle s inlineCode (annFormat a)) l.

(** The calls that keep it. *)
Definition headingCall (s : Z) (inlineCode : bool) (c : Call) : Prop :=
  match c with
  | SetFormat _ _ f => headingRuleStyle s inlineCode f
  | BlockSetUserState _ _ => False
  | _ => True
  end.

(** The sample engine with a match of three characters, whose first group
    is the second of them, for every pattern. *)
Definition eagerEnvironment : Environment :=
  mkEnvironment (fun _ _ => [mkMatch [(2, 3); (3, 1)]])
                (fun l => match l with Cpp => sampleCppData | _ => noLanguageData end)
                (fun _ => false) (fun _ => 0) (fun _ => 0).

(** A line of XML: a closing tag, and a tag with an attribute whose string
    is left open. *)
Definition sampleXmlLine : string :=
  String.append "</a> <b c = " (String QChar.dquote "d>").

(** *** The rule of italics between underscores *)

(** The pattern of the second rule of italics. *)
Definition underscoreItalic : string := "\b_([^_]+)_\b".

(** Two engines of regular expressions that agree on every pattern but
    [p]. *)
Definition agreeBut (p : string) (env1 env2 : Environment) : Prop :=
  forall q text, q <> p -> globalMatch env1 q text = globalMatch env2 q text.

(** A rule that has the pattern [p] is tried on no line but one that holds
    [needle]. *)
Definition patternGuarded (p needle : string) (r : HighlightingRule) : bool :=
  negb (String.eqb (pattern r) p) ||
  (String.eqb (shouldContain0 r) needle &&
   QString.isEmpty (shouldContain1 r) && QString.isEmpty (shouldContain2 r)).

(** An engine that finds italics between underscores at the start of every
    line, and is the engine of the examples otherwise. *)
Definition underscoreEnvironment : Environment :=
  mkEnvironment
    (fun p text => if String.eqb p underscoreItalic
                   then [mkMatch [(0, 3); (1, 1)]]
                   else sampleGlobalMatch p text)
    (fun l => match l with Cpp => sampleCppData | _ => noLanguageData end)
    (fun _ => false) (fun _ => 0) (fun _ => 0).

(* ------------------------------------------------------------------------- *)
(** ** Programs and their runs *)

Lemma run_bind {A B : Type} (p : Prog A) (f : A -> Prog B) (h : Highlighter) :
  run (bind p f) h =
  match run p h with
  | (h1, Done a) => run (f a) h1
  | (h1, ReadOutOfRange) => (h1, ReadOutOfRange)
  | (h1, Unfinished) => (h1, Unfinished)
  end.
Proof.
  revert h; induction p as [a | | | c k IH]; intros h; simpl; auto.
  destruct (perform c h) as [h' x]. apply IH.
Qed.

Lemma run_Do {A : Type} (c : Call) (k : Answer c -> Prog A) (h : Highlighter) :
  run (Do c k) h = run (k (snd (perform c h))) (fst (perform c h)).
Proof. simpl. destruct (perform c h); reflexivity. Qed.

Lemma run_bind_done {A B : Type} (p : Prog A) (f : A -> Prog B) h h1 a :
  run p h = (h1, Done a) -> run (bind p f) h = run (f a) h1.
Proof. intros E. rewrite run_bind, E. reflexivity. Qed.

Lemma obeysTo_bind (d : Discipline) {A B : Type} (Q : A -> Prop) (R : B -> Prop)
      (p : Prog A) (f : A -> Prog B) :
  obeysTo d Q p -> (forall a, Q a -> obeysTo d R (f a)) -> obeysTo d R (bind p f).
Proof.
  induction p as [a | | | c k IH]; simpl; intros Hp Hf; auto.
  destruct Hp as [Hc Hk]. split; auto.
Qed.

Lemma obeysTo_weaken (d d' : Discipline) {A : Type} (Q Q' : A -> Prop) (p : Prog A) :
  (forall c, callOk d c -> callOk d' c) ->
  (forall c x, answerOk d' c x -> answerOk d c x) ->
  (faultOk d -> faultOk d') ->
  (forall a, Q a -> Q' a) ->
  obeysTo d Q p -> obeysTo d' Q' p.
Proof.
  intros Hc Ha Hf HQ. induction p as [a | | | c k IH]; simpl; auto.
  intros [H1 H2]. split; auto.
Qed.

Lemma obeys_of_obeysTo (d : Discipline) {A : Type} (Q : A -> Prop) (p : Prog A) :
  obeysTo d Q p -> obeys d p.
Proof. apply obeysTo_weaken; auto. Qed.

Lemma obeys_bind (d : Discipline) {A B : Type} (p : Prog A) (f : A -> Prog B) :
  obeys d p -> (forall a, obeys d (f a)) -> obeys d (bind p f).
Proof.
  intros Hp Hf. unfold obeys.
  apply (obeysTo_bind d (fun _ => True) (fun _ => True) p f Hp).
  intros a _. apply Hf.
Qed.

Lemma obeys_weaken (d d' : Discipline) {A : Type} (p : Prog A) :
  (forall c, callOk d c -> callOk d' c) ->
  (forall c x, answerOk d' c x -> answerOk d c x) ->
  (faultOk d -> faultOk d') ->
  obeys d p -> obeys d' p.
Proof. intros Hc Ha Hf. apply obeysTo_weaken; auto. Qed.

(** Between disciplines built by [discipline], only the calls and the faults
    are to be compared. *)
Lemma obeys_discipline (ok ok' : Call -> Prop) (faults faults' : Prop)
      {A : Type} (p : Prog A) :
  (forall c, ok c -> ok' c) -> (faults -> faults') ->
  obeys (discipline ok faults) p -> obeys (discipline ok' faults') p.
Proof. intros Hc Hf. apply obeys_weaken; simpl; auto. Qed.

Lemma obeys_call (d : Discipline) (c : Call) : callOk d c -> obeys d (call c).
Proof. intros H. unfold obeys. simpl. split; auto. Qed.

Lemma obeys_bind_call (d : Discipline) {B : Type} (c : Call)
      (f : Answer c -> Prog B) :
  callOk d c -> (forall x, answerOk d c x -> obeys d (f x)) ->
  obeys d (bind (call c) f).
Proof. intros H1 H2. unfold obeys. simpl. split; auto. Qed.

Lemma obeys_charAt (d : Discipline) (text : string) (i : Z) :
  faultOk d -> obeys d (charAt text i).
Proof.
  intros H. unfold obeys, charAt. destruct (QString.charAt text i); simpl; auto.
Qed.

Lemma answerOfCall_perform (c : Call) (h : Highlighter) :
  answerOfCall c (snd (perform c h)).
Proof. destruct c; simpl; auto. Qed.

(** A property of states that every permitted call keeps is kept by a run;
    a result of the run is a result the discipline admits. *)
Lemma obeysTo_run (ok : Call -> Prop) (faults : Prop) (I : Highlighter -> Prop) :
  (forall c h, ok c -> I h -> I (fst (perform c h))) ->
  forall (A : Type) (Q : A -> Prop) (p : Prog A) (h : Highlighter),
    obeysTo (discipline ok faults) Q p -> I h ->
    I (fst (run p h)) /\ forall a, snd (run p h) = Done a -> Q a.
Proof.
  intros Hc A Q p. induction p as [a | | | c k IH]; simpl; intros h Hp Hi.
  - split; auto. intros a' E. inversion E; subst; auto.
  - split; auto. discriminate.
  - split; auto. discriminate.
  - destruct Hp as [H1 H2].
    specialize (Hc c h H1 Hi). pose proof (answerOfCall_perform c h) as Ha.
    destruct (perform c h) as [h' x]. simpl in *. apply IH; auto.
Qed.

Lemma obeys_keeps (ok : Call -> Prop) (faults : Prop) (I : Highlighter -> Prop) :
  (forall c h, ok c -> I h -> I (fst (perform c h))) ->
  forall (A : Type) (p : Prog A), obeys (discipline ok faults) p -> keeps I p.
Proof.
  intros Hc A p Hp h Hi.
  exact (proj1 (obeysTo_run ok faults I Hc A _ p h Hp Hi)).
Qed.

(** A program whose discipline admits no fault ends with a result. *)
Lemma obeys_done (ok : Call -> Prop) :
  forall (A : Type) (p : Prog A) (h : Highlighter),
    obeys (discipline ok False) p -> exists a, snd (run p h) = Done a.
Proof.
  intros A p. unfold obeys.
  induction p as [a | | | c k IH]; simpl; intros h Hp.
  - exists a; reflexivity.
  - contradiction.
  - contradiction.
  - destruct Hp as [H1 H2]. pose proof (answerOfCall_perform c h) as Ha.
    destruct (perform c h) as [h' x]. simpl in *. apply IH; auto.
Qed.

Lemma keeps_bind (J : Highlighter -> Prop) {A B : Type} (p : Prog A)
      (f : A -> Prog B) :
  keeps J p -> (forall a, keeps J (f a)) -> keeps J (bind p f).
Proof.
  intros Hp Hf h Hj. rewrite run_bind. specialize (Hp h Hj).
  destruct (run p h) as [h1 [a | |]]; simpl in *; auto.
  apply Hf; auto.
Qed.

Lemma keeps_bind_at (J : Highlighter -> Prop) {A B : Type} (p : Prog A)
      (f : A -> Prog B) (h : Highlighter) :
  J (fst (run p h)) -> (forall a, keeps J (f a)) -> J (fst (run (bind p f) h)).
Proof.
  intros Hp Hf. rewrite run_bind.
  destruct (run p h) as [h1 [a | |]]; simpl in *; auto.
  apply Hf; auto.
Qed.

Lemma keeps_ret (J : Highlighter -> Prop) {A : Type} (a : A) : keeps J (Ret a).
Proof. intros h Hj. exact Hj. Qed.

(* ------------------------------------------------------------------------- *)
(** ** Blocks of a document *)

Lemma nth_error_updateNth_same {A : Type} (l : list A) (n : nat) (f : A -> A) :
  nth_error (updateNth l n f) n = option_map f (nth_error l n).
Proof.
  revert n; induction l as [| x r IH]; intros [| n]; simpl; auto.
Qed.

Lemma nth_error_updateNth_other {A : Type} (l : list A) (n m : nat) (f : A -> A) :
  n <> m -> nth_error (updateNth l n f) m = nth_error l m.
Proof.
  revert n m; induction l as [| x r IH]; intros [| n] [| m] H; simpl; auto;
    try congruence.
Qed.

Lemma map_updateNth {A B : Type} (g : A -> B) (l : list A) (n : nat) (f : A -> A) :
  (forall x, g (f x) = g x) -> map g (updateNth l n f) = map g l.
Proof.
  intros H. revert n; induction l as [| x r IH]; intros [| n]; simpl; auto.
  - rewrite H. reflexivity.
  - rewrite IH. reflexivity.
Qed.

Lemma blockAt_setUserState_same (doc : list QTextBlock) (n s : Z) :
  blockAt (setUserStateOfBlock doc n s) n =
  option_map (fun b => mkBlock (blockText b) s (layoutFormats b)) (blockAt doc n).
Proof.
  unfold setUserStateOfBlock, updateBlock, blockAt.
  destruct (n <? 0) eqn:E; simpl; auto.
  apply nth_error_updateNth_same.
Qed.

Lemma blockAt_setUserState_other (doc : list QTextBlock) (n m s : Z) :
  n <> m -> blockAt (setUserStateOfBlock doc n s) m = blockAt doc m.
Proof.
  intros H. unfold setUserStateOfBlock, updateBlock, blockAt.
  destruct (n <? 0) eqn:En; auto.
  destruct (m <? 0) eqn:Em; auto.
  apply nth_error_updateNth_other.
  apply Z.ltb_ge in En. apply Z.ltb_ge in Em. intro E. apply H.
  apply Z2Nat.inj; auto.
Qed.

Lemma isValidBlock_setUserState (doc : list QTextBlock) (n m s : Z) :
  isValidBlock (setUserStateOfBlock doc n s) m = isValidBlock doc m.
Proof.
  unfold isValidBlock. destruct (Z.eq_dec n m) as [E | E].
  - subst. rewrite blockAt_setUserState_same. destruct (blockAt doc m); reflexivity.
  - rewrite blockAt_setUserState_other by auto. reflexivity.
Qed.

Lemma textOfBlock_setUserState (doc : list QTextBlock) (n m s : Z) :
  textOfBlock (setUserStateOfBlock doc n s) m = textOfBlock doc m.
Proof.
  unfold textOfBlock. destruct (Z.eq_dec n m) as [E | E].
  - subst. rewrite blockAt_setUserState_same. destruct (blockAt doc m); reflexivity.
  - rewrite blockAt_setUserState_other by auto. reflexivity.
Qed.

Lemma userStateOfBlock_setUserState_other (doc : list QTextBlock) (n m s : Z) :
  n <> m ->
  userStateOfBlock (setUserStateOfBlock doc n s) m = userStateOfBlock doc m.
Proof.
  intros H. unfold userStateOfBlock. rewrite blockAt_setUserState_other by auto.
  reflexivity.
Qed.

Lemma userStateOfBlock_setUserState_same (doc : list QTextBlock) (n s : Z) :
  userStateOfBlock (setUserStateOfBlock doc n s) n =
  if isValidBlock doc n then s else -1.
Proof.
  unfold userStateOfBlock, isValidBlock. rewrite blockAt_setUserState_same.
  destruct (blockAt doc n); reflexivity.
Qed.

Lemma sameTexts_setUserState (doc : list QTextBlock) (n s : Z) :
  sameTexts doc (setUserStateOfBlock doc n s).
Proof.
  unfold sameTexts, setUserStateOfBlock, updateBlock.
  destruct (n <? 0); auto. symmetry. apply map_updateNth. reflexivity.
Qed.

Lemma blockAt_invalid (doc : list QTextBlock) : blockAt doc (-1) = None.
Proof. reflexivity. Qed.

Lemma blockNumber_setUserState (h : Highlighter) (n s : Z) (b : BlockRef) :
  blockNumber (withDocument h (setUserStateOfBlock (document h) n s)) b =
  blockNumber h b.
Proof.
  unfold blockNumber; simpl. rewrite !isValidBlock_setUserState. reflexivity.
Qed.

Lemma sameTexts_valid (d1 d2 : list QTextBlock) (n : Z) :
  sameTexts d1 d2 -> isValidBlock d1 n = isValidBlock d2 n.
Proof.
  unfold sameTexts, isValidBlock, blockAt. intros H.
  destruct (n <? 0); auto.
  assert (E : nth_error (map blockText d1) (Z.to_nat n) =
              nth_error (map blockText d2) (Z.to_nat n)) by (rewrite H; auto).
  rewrite !nth_error_map in E.
  destruct (nth_error d1 (Z.to_nat n)), (nth_error d2 (Z.to_nat n));
    simpl in E; congruence.
Qed.

Lemma sameTexts_text (d1 d2 : list QTextBlock) (n : Z) :
  sameTexts d1 d2 -> textOfBlock d1 n = textOfBlock d2 n.
Proof.
  unfold sameTexts, textOfBlock, blockAt. intros H.
  destruct (n <? 0); auto.
  assert (E : nth_error (map blockText d1) (Z.to_nat n) =
              nth_error (map blockText d2) (Z.to_nat n)) by (rewrite H; auto).
  rewrite !nth_error_map in E.
  destruct (nth_error d1 (Z.to_nat n)), (nth_error d2 (Z.to_nat n));
    simpl in E; congruence.
Qed.

(* ------------------------------------------------------------------------- *)
(** ** What every run keeps *)

Lemma Extends_refl (h : Highlighter) : Extends h h.
Proof.
  constructor; auto; try reflexivity. exists []. rewrite app_nil_r. reflexivity.
Qed.

Lemma Extends_trans (h1 h2 h3 : Highlighter) :
  Extends h1 h2 -> Extends h2 h3 -> Extends h1 h3.
Proof.
  intros [T1 C1 P1 A1 [l1 F1]] [T2 C2 P2 A2 [l2 F2]].
  constructor.
  - unfold sameTexts in *. rewrite T1. exact T2.
  - rewrite C2. exact C1.
  - rewrite P2. exact P1.
  - rewrite A2. exact A1.
  - exists (l1 ++ l2). rewrite F2, F1, app_assoc. reflexivity.
Qed.

Lemma perform_Extends (c : Call) (h : Highlighter) : Extends h (fst (perform c h)).
Proof.
  destruct c; simpl; try apply Extends_refl.
  - constructor; simpl; auto.
    + apply sameTexts_setUserState.
    + exists []. rewrite app_nil_r. reflexivity.
  - constructor; simpl; auto; try reflexivity.
    exists []. rewrite app_nil_r. reflexivity.
  - constructor; simpl; auto; try reflexivity.
    eexists; reflexivity.
  - constructor; simpl; auto; try reflexivity.
    exists []. rewrite app_nil_r. reflexivity.
  - constructor; simpl; auto; try reflexivity.
    exists []. rewrite app_nil_r. reflexivity.
Qed.

Lemma run_Extends {A : Type} (p : Prog A) (h : Highlighter) :
  Extends h (fst (run p h)).
Proof.
  revert h; induction p as [a | | | c k IH]; intros h; simpl;
    try apply Extends_refl.
  pose proof (perform_Extends c h) as E.
  destruct (perform c h) as [h' x]. simpl in E.
  eapply Extends_trans; eauto.
Qed.

Lemma Extends_blockNumber (h h' : Highlighter) (b : BlockRef) :
  Extends h h' -> blockNumber h' b = blockNumber h b.
Proof.
  intros [T C _ _ _]. unfold blockNumber. rewrite C.
  rewrite <- !(sameTexts_valid _ _ _ T). reflexivity.
Qed.

Lemma Extends_textOf (h h' : Highlighter) (b : BlockRef) :
  Extends h h' -> textOf h' b = textOf h b.
Proof.
  intros E. unfold textOf. rewrite (Extends_blockNumber _ _ _ E).
  symmetry. apply sameTexts_text. apply E.
Qed.

Lemma Extends_isValidRef (h h' : Highlighter) (b : BlockRef) :
  Extends h h' -> isValidRef h' b = isValidRef h b.
Proof.
  intros E. unfold isValidRef. rewrite (Extends_blockNumber _ _ _ E).
  symmetry. apply sameTexts_valid. apply E.
Qed.

(* ------------------------------------------------------------------------- *)
(** ** What the permitted calls keep *)

Lemma perform_keepsQueue (q : list Z) (c : Call) (h : Highlighter) :
  keepsQueue c -> _dirtyTextBlocks h = q ->
  _dirtyTextBlocks (fst (perform c h)) = q.
Proof. destruct c; simpl; auto; contradiction. Qed.

Lemma perform_keepsFormats (t : FormatTable) (c : Call) (h : Highlighter) :
  keepsFormats c -> _formats h = t -> _formats (fst (perform c h)) = t.
Proof. destruct c; simpl; auto; contradiction. Qed.

Lemma perform_keepsStates (doc : list QTextBlock) (c : Call) (h : Highlighter) :
  keepsStates c -> document h = doc -> document (fst (perform c h)) = doc.
Proof. destruct c; simpl; auto; contradiction. Qed.

Lemma perform_setsCurrentStateOnly (cur : Z) (doc : list QTextBlock)
      (c : Call) (h : Highlighter) :
  setsCurrentStateOnly c -> otherStates cur doc h ->
  otherStates cur doc (fst (perform c h)).
Proof.
  intros Hc [Hcur Hs]. destruct c; simpl; auto; try (split; assumption).
  destruct b; simpl in Hc; try contradiction.
  split; simpl; auto. intros n Hn.
  unfold blockNumber. rewrite Hcur.
  destruct (isValidBlock (document h) cur).
  - rewrite userStateOfBlock_setUserState_other by congruence. auto.
  - unfold setUserStateOfBlock, updateBlock. simpl. auto.
Qed.

Lemma perform_setsNoTrailingSpace (c : Call) (h : Highlighter) :
  setsNoTrailingSpace c -> noTrailingSpace (formatChanges h) ->
  noTrailingSpace (formatChanges (fst (perform c h))).
Proof.
  destruct c; simpl; auto. intros Hf Hl.
  apply Forall_app. split; auto.
Qed.

(** A state is kept when the state in question rests on no more than a run
    may not touch. *)
Lemma obeys_keeps_queue (ok : Call -> Prop) (faults : Prop) {A : Type}
      (p : Prog A) (h : Highlighter) :
  (forall c, ok c -> keepsQueue c) ->
  obeys (discipline ok faults) p ->
  _dirtyTextBlocks (fst (run p h)) = _dirtyTextBlocks h.
Proof.
  intros Hok Hp.
  apply (obeys_keeps ok faults (fun h' => _dirtyTextBlocks h' = _dirtyTextBlocks h))
    with (p := p); auto.
  intros c h' Hc. apply perform_keepsQueue. auto.
Qed.

Lemma obeys_keeps_formats (ok : Call -> Prop) (faults : Prop) {A : Type}
      (p : Prog A) (h : Highlighter) :
  (forall c, ok c -> keepsFormats c) ->
  obeys (discipline ok faults) p ->
  _formats (fst (run p h)) = _formats h.
Proof.
  intros Hok Hp.
  apply (obeys_keeps ok faults (fun h' => _formats h' = _formats h))
    with (p := p); auto.
  intros c h' Hc. apply perform_keepsFormats. auto.
Qed.

Lemma obeys_keeps_document (ok : Call -> Prop) (faults : Prop) {A : Type}
      (p : Prog A) (h : Highlighter) :
  (forall c, ok c -> keepsStates c) ->
  obeys (discipline ok faults) p ->
  document (fst (run p h)) = document h.
Proof.
  intros Hok Hp.
  apply (obeys_keeps ok faults (fun h' => document h' = document h))
    with (p := p); auto.
  intros c h' Hc. apply perform_keepsStates. auto.
Qed.

Lemma obeys_keeps_otherStates (ok : Call -> Prop) (faults : Prop) {A : Type}
      (p : Prog A) (h : Highlighter) (n : Z) :
  (forall c, ok c -> setsCurrentStateOnly c) ->
  obeys (discipline ok faults) p ->
  n <> currentBlockNumber h ->
  userStateOfBlock (document (fst (run p h))) n = userStateOfBlock (document h) n.
Proof.
  intros Hok Hp Hn.
  assert (H : otherStates (currentBlockNumber h) (document h) (fst (run p h))).
  { apply (obeys_keeps ok faults (otherStates (currentBlockNumber h) (document h)))
      with (p := p); auto.
    - intros c h' Hc. apply perform_setsCurrentStateOnly. auto.
    - split; auto. }
  destruct H as [_ H]. apply H. exact Hn.
Qed.

Lemma obeys_keeps_noTrailingSpace (ok : Call -> Prop) (faults : Prop) {A : Type}
      (p : Prog A) :
  (forall c, ok c -> setsNoTrailingSpace c) ->
  obeys (discipline ok faults) p ->
  keeps (fun h => noTrailingSpace (formatChanges h)) p.
Proof.
  intros Hok Hp. apply (obeys_keeps ok faults); auto.
  intros c h' Hc. apply perform_setsNoTrailingSpace. auto.
Qed.

(** The state of the previous block, under a pass that sets the state of the
    current block only. *)
Lemma blockNumber_Previous_not_current (h : Highlighter) :
  isValidRef h Current = true -> blockNumber h Previous <> currentBlockNumber h.
Proof.
  unfold isValidRef, blockNumber. intros H.
  destruct (isValidBlock (document h) (currentBlockNumber h)) eqn:E.
  - destruct (isValidBlock (document h) (currentBlockNumber h - 1)); [lia |].
    unfold isValidBlock, blockAt in E.
    destruct (currentBlockNumber h <? 0) eqn:E0; [discriminate |].
    apply Z.ltb_ge in E0. lia.
  - unfold isValidBlock, blockAt in H. simpl in H. discriminate.
Qed.

Lemma obeys_keeps_previousState (ok : Call -> Prop) (faults : Prop) {A : Type}
      (p : Prog A) (h : Highlighter) :
  (forall c, ok c -> setsCurrentStateOnly c) ->
  obeys (discipline ok faults) p ->
  stateOf (fst (run p h)) Previous = stateOf h Previous.
Proof.
  intros Hok Hp. unfold stateOf.
  rewrite (Extends_blockNumber _ _ _ (run_Extends p h)).
  destruct (isValidRef h Current) eqn:E.
  - apply (obeys_keeps_otherStates ok faults); auto.
    apply blockNumber_Previous_not_current. exact E.
  - assert (N : blockNumber h Previous = -1).
    { unfold isValidRef, blockNumber in *.
      destruct (isValidBlock (document h) (currentBlockNumber h)) eqn:V;
        simpl in *.
      - congruence.
      - reflexivity. }
    rewrite N. reflexivity.
Qed.

(* ------------------------------------------------------------------------- *)
(** ** The discipline of the code scanners *)

Lemma styleId_not_trailing (f : QTextCharFormat) (k : Z) :
  styleId f = Some k -> k <> TrailingSpace -> ~ isTrailingSpaceFormat f.
Proof.
  unfold isTrailingSpaceFormat. intros H1 H2 E. rewrite H1 in E. congruence.
Qed.

Create HintDb scan.

(** A call is permitted: the conjuncts are read off the call, and a format
    that is set has a style other than [TrailingSpace]. *)
Ltac not_trailing :=
  repeat match goal with
         | |- context [if ?b then _ else _] => destruct b
         end;
  first
    [ assumption
    | unfold isTrailingSpaceFormat;
      cbn [styleId setUnderlineColor setUnderlineStyle setFontPointSize
           setFontItalic setForeground setBackground defaultFormat];
      first
        [ discriminate
        | match goal with
          | H : styleId ?f = Some ?k |- ~ (styleId ?f = _) =>
              rewrite H; vm_compute; discriminate
          end ] ].

Ltac call_ok :=
  unfold scannerCall, markupCall, fenceCall; simpl; repeat split; simpl; auto;
  try not_trailing.

Ltac scan_unfold :=
  unfold setFormatOf, currentBlockState, previousBlockState,
         setCurrentBlockState, setFormat, setCurrentBlockMargin.

(** One step through a program written with [bind]. *)
Ltac scan_step :=
  match goal with
  | |- obeys _ (Ret _) => exact I
  | |- obeys _ OutOfFuel => exact I
  | |- obeys _ OutOfRange => exact I
  | |- obeys _ (bind (Ret _) _) => cbn [bind]
  | |- obeys _ (bind (call _) _) =>
      apply obeys_bind_call; [ call_ok | intros ? ?; simpl answerOk in * ]
  | |- obeys _ (call _) => apply obeys_call; call_ok
  | |- obeys _ (bind (charAt _ _) _) =>
      apply obeys_bind; [ apply obeys_charAt; exact I | intros ? ]
  | |- obeys _ (charAt _ _) => apply obeys_charAt; exact I
  | |- obeys _ (bind (if _ then _ else _) _) => apply obeys_bind; [ | intros ? ]
  | |- obeys _ (bind (bind _ _) _) => apply obeys_bind; [ | intros ? ]
  | |- obeys _ (bind _ _) =>
      apply obeys_bind; [ solve [eauto 10 with scan] | intros ? ]
  | |- obeys _ (if ?b then _ else _) => destruct b
  | |- obeys _ (match ?x with _ => _ end) => destruct x
  | |- obeys _ _ => solve [eauto 10 with scan]
  end.

Ltac scan := repeat first [ progress scan_unfold | scan_step ].

Section ScannerDiscipline.

Variable env : Environment.

Lemma escapeLength_scanner text i c1 : obeys scanner (escapeLength text i c1).
Proof. unfold escapeLength. scan. Qed.

#[local] Hint Resolve escapeLength_scanner : scan.

Lemma stringLiteralLoop_scanner fuel strType text i :
  obeys scanner (stringLiteralLoop fuel strType text i).
Proof.
  revert i; induction fuel as [| fuel IH]; intros i; cbn [stringLiteralLoop].
  - exact I.
  - scan.
Qed.

#[local] Hint Resolve stringLiteralLoop_scanner : scan.

Lemma highlightStringLiterals_scanner strType text i :
  obeys scanner (highlightStringLiterals strType text i).
Proof. unfold highlightStringLiterals. scan. Qed.

Lemma digitsLoop_scanner fuel text i : obeys scanner (digitsLoop fuel text i).
Proof.
  revert i; induction fuel as [| fuel IH]; intros i; cbn [digitsLoop].
  - exact I.
  - scan.
Qed.

#[local] Hint Resolve digitsLoop_scanner : scan.

Lemma highlightNumericLiterals_scanner text i :
  obeys scanner (highlightNumericLiterals text i).
Proof. unfold highlightNumericLiterals. scan. Qed.

#[local] Hint Resolve highlightNumericLiterals_scanner
  highlightStringLiterals_scanner : scan.

Lemma applyWords_scanner words text fmt shift i :
  ~ isTrailingSpaceFormat fmt ->
  obeys scanner (applyWords words text fmt shift i).
Proof.
  intros H. revert i; induction words as [| word rest IH]; intros i;
    cbn [applyWords].
  - exact I.
  - scan.
Qed.

#[local] Hint Resolve applyWords_scanner : scan.

Lemma applyTable_scanner i data text fmt shift :
  ~ isTrailingSpaceFormat fmt ->
  obeys scanner (applyTable i data text fmt shift).
Proof. intros H. unfold applyTable. scan. Qed.

#[local] Hint Resolve applyTable_scanner : scan.

Lemma applyCodeFormat_scanner i data text fmt :
  ~ isTrailingSpaceFormat fmt ->
  obeys scanner (applyCodeFormat i data text fmt).
Proof. intros H. unfold applyCodeFormat. auto with scan. Qed.

Lemma notAtLetter_scanner text i : obeys scanner (notAtLetter text i).
Proof. unfold notAtLetter. scan. Qed.

#[local] Hint Resolve applyCodeFormat_scanner notAtLetter_scanner : scan.

Lemma skipNonLetters_scanner fuel text comment fc entry i :
  ~ isTrailingSpaceFormat fc ->
  obeys scanner (skipNonLetters fuel text comment fc entry i).
Proof.
  intros H. revert entry i; induction fuel as [| fuel IH]; intros entry i;
    cbn [skipNonLetters].
  - exact I.
  - scan.
Qed.

#[local] Hint Resolve skipNonLetters_scanner : scan.

Lemma syntaxLoop_scanner fuel text comment data f i :
  codeStyles f -> obeys scanner (syntaxLoop fuel text comment data f i).
Proof.
  intros (H1 & H2 & H3 & H4 & H5 & H6).
  revert i; induction fuel as [| fuel IH]; intros i; cbn [syntaxLoop].
  - exact I.
  - scan.
Qed.

Lemma codeStyles_formats t k c n b o :
  styleId t = Some CodeType -> styleId k = Some CodeKeyWord ->
  styleId c = Some CodeComment -> styleId n = Some CodeNumLiteral ->
  styleId b = Some CodeBuiltIn -> styleId o = Some CodeOther ->
  codeStyles (mkCodeFormats t k c n b o).
Proof.
  intros Ht Hk Hc Hn Hb Ho. unfold codeStyles; simpl.
  repeat split; not_trailing.
Qed.

#[local] Hint Resolve codeStyles_formats : scan.

Lemma taggerScriptLoop_scanner fuel text i :
  obeys scanner (taggerScriptLoop fuel text i).
Proof.
  revert i; induction fuel as [| fuel IH]; intros i; cbn [taggerScriptLoop].
  - exact I.
  - scan.
Qed.

Lemma ymlLoop_scanner fuel text colonNotFound i :
  obeys scanner (ymlLoop fuel text colonNotFound i).
Proof.
  revert colonNotFound i; induction fuel as [| fuel IH]; intros colonNotFound i;
    cbn [ymlLoop].
  - exact I.
  - scan.
Qed.

Lemma iniLoop_scanner fuel text i : obeys scanner (iniLoop fuel text i).
Proof.
  revert i; induction fuel as [| fuel IH]; intros i; cbn [iniLoop].
  - exact I.
  - scan.
Qed.

Lemma cssSkipSpaces_scanner fuel text i : obeys scanner (cssSkipSpaces fuel text i).
Proof.
  revert i; induction fuel as [| fuel IH]; intros i; cbn [cssSkipSpaces].
  - exact I.
  - scan.
Qed.

#[local] Hint Resolve cssSkipSpaces_scanner : scan.

Lemma cssLoop_scanner fuel text i : obeys scanner (cssLoop env fuel text i).
Proof.
  revert i; induction fuel as [| fuel IH]; intros i; cbn [cssLoop].
  - exact I.
  - scan.
Qed.

Lemma xmlStringLoop_scanner fuel text i cnt :
  obeys scanner (xmlStringLoop fuel text i cnt).
Proof.
  revert i cnt; induction fuel as [| fuel IH]; intros i cnt; cbn [xmlStringLoop].
  - exact I.
  - scan.
Qed.

#[local] Hint Resolve xmlStringLoop_scanner : scan.

Lemma xmlLoop_scanner fuel text i : obeys scanner (xmlLoop fuel text i).
Proof.
  revert i; induction fuel as [| fuel IH]; intros i; cbn [xmlLoop].
  - exact I.
  - scan.
Qed.

#[local] Hint Resolve syntaxLoop_scanner taggerScriptLoop_scanner ymlLoop_scanner
  iniLoop_scanner cssLoop_scanner xmlLoop_scanner : scan.

Lemma taggerScriptHighlighter_scanner text :
  obeys scanner (taggerScriptHighlighter text).
Proof. unfold taggerScriptHighlighter. scan. Qed.

Lemma ymlHighlighter_scanner text : obeys scanner (ymlHighlighter text).
Proof. unfold ymlHighlighter. scan. Qed.

Lemma iniHighlighter_scanner text : obeys scanner (iniHighlighter text).
Proof. unfold iniHighlighter. scan. Qed.

Lemma cssHighlighter_scanner text : obeys scanner (cssHighlighter env text).
Proof. unfold cssHighlighter. scan. Qed.

Lemma xmlHighlighter_scanner text : obeys scanner (xmlHighlighter text).
Proof. unfold xmlHighlighter. scan. Qed.

#[local] Hint Resolve taggerScriptHighlighter_scanner ymlHighlighter_scanner
  iniHighlighter_scanner cssHighlighter_scanner xmlHighlighter_scanner : scan.

Lemma highlightSyntax_scanner text : obeys scanner (highlightSyntax env text).
Proof. unfold highlightSyntax. scan. Qed.

End ScannerDiscipline.

(* ------------------------------------------------------------------------- *)
(** ** The discipline of the rules engine and of the block machine *)

Section MarkupDiscipline.

Variable env : Environment.

Lemma setHeadingStyles_markup rule m g :
  obeys markupKeepingStates (setHeadingStyles rule m g).
Proof. unfold setHeadingStyles. scan. Qed.

#[local] Hint Resolve setHeadingStyles_markup : scan.

Lemma formatMatches_markup rule masked format matches :
  obeys markupKeepingStates (formatMatches rule masked format matches).
Proof.
  induction matches as [| m rest IH]; cbn [formatMatches].
  - exact I.
  - scan.
Qed.

#[local] Hint Resolve formatMatches_markup : scan.

Lemma markupKeepingStates_markup {A : Type} (p : Prog A) :
  obeys markupKeepingStates p -> obeys markup p.
Proof. apply obeys_discipline; tauto. Qed.

Lemma highlightRules_markup rules masked text :
  obeys markup (highlightRules env rules masked text).
Proof.
  induction rules as [| rule rest IH]; cbn [highlightRules].
  - exact I.
  - scan. apply markupKeepingStates_markup. apply formatMatches_markup.
Qed.

Lemma highlightRules_keepingStates rules masked text :
  Forall (fun r => useStateAsCurrentBlockState r = false) rules ->
  obeys markupKeepingStates (highlightRules env rules masked text).
Proof.
  induction 1 as [| rule rest Hr Hrest IH]; cbn [highlightRules].
  - exact I.
  - rewrite Hr, andb_false_r. scan.
Qed.

Lemma highlightAdditionalRules_markup rules text :
  obeys markup (highlightAdditionalRules env rules text).
Proof.
  unfold highlightAdditionalRules. scan. apply highlightRules_markup.
Qed.

Lemma highlightAdditionalRules_keepingStates rules text :
  Forall (fun r => useStateAsCurrentBlockState r = false) rules ->
  obeys markupKeepingStates (highlightAdditionalRules env rules text).
Proof.
  intros H. unfold highlightAdditionalRules. scan.
  apply highlightRules_keepingStates. exact H.
Qed.

Lemma highlightCommentBlock_plain text : obeys plainMarkup (highlightCommentBlock text).
Proof. unfold highlightCommentBlock. scan. Qed.

Lemma highlightFrontmatterBlock_plain text :
  obeys plainMarkup (highlightFrontmatterBlock text).
Proof. unfold highlightFrontmatterBlock. scan. Qed.

Lemma scanner_fence {A : Type} (p : Prog A) : obeys scanner p -> obeys fence p.
Proof.
  apply obeys_discipline; auto.
  unfold scannerCall, markupCall, fenceCall. tauto.
Qed.

Lemma highlightCodeBlock_fence text : obeys fence (highlightCodeBlock env text).
Proof.
  unfold highlightCodeBlock. scan.
  apply scanner_fence. apply highlightSyntax_scanner.
Qed.

End MarkupDiscipline.

(* ------------------------------------------------------------------------- *)
(** ** Setting the state of a block, seen from the current line *)

Lemma blockNumber_setState (b r : BlockRef) (s : Z) (h : Highlighter) :
  blockNumber (setState b s h) r = blockNumber h r.
Proof. unfold setState; simpl. apply blockNumber_setUserState. Qed.

Lemma textOf_setState (b r : BlockRef) (s : Z) (h : Highlighter) :
  textOf (setState b s h) r = textOf h r.
Proof.
  unfold textOf. rewrite blockNumber_setState. unfold setState; simpl.
  apply textOfBlock_setUserState.
Qed.

Lemma isValidRef_setState (b r : BlockRef) (s : Z) (h : Highlighter) :
  isValidRef (setState b s h) r = isValidRef h r.
Proof.
  unfold isValidRef. rewrite blockNumber_setState. unfold setState; simpl.
  apply isValidBlock_setUserState.
Qed.

Lemma stateOf_setState_same (b : BlockRef) (s : Z) (h : Highlighter) :
  stateOf (setState b s h) b = if isValidRef h b then s else -1.
Proof.
  unfold stateOf. rewrite blockNumber_setState. unfold setState; simpl.
  apply userStateOfBlock_setUserState_same.
Qed.

Lemma stateOf_invalid (h : Highlighter) (b : BlockRef) :
  blockNumber h b = -1 -> stateOf h b = -1.
Proof. unfold stateOf. intros E. rewrite E. reflexivity. Qed.

Lemma blockNumber_Current (h : Highlighter) :
  blockNumber h Current =
  if isValidRef h Current then currentBlockNumber h else -1.
Proof.
  unfold isValidRef, blockNumber.
  destruct (isValidBlock (document h) (currentBlockNumber h)) eqn:E.
  - rewrite E. reflexivity.
  - reflexivity.
Qed.

Lemma isValidRef_Current (h : Highlighter) :
  isValidRef h Current = isValidBlock (document h) (currentBlockNumber h).
Proof.
  unfold isValidRef, blockNumber.
  destruct (isValidBlock (document h) (currentBlockNumber h)) eqn:E; auto.
Qed.

Lemma blockNumber_Previous_invalid (h : Highlighter) :
  isValidRef h Current = false -> blockNumber h Previous = -1.
Proof.
  rewrite isValidRef_Current. unfold blockNumber. intros E. rewrite E.
  reflexivity.
Qed.

Lemma setState_invalid (b : BlockRef) (s : Z) (h : Highlighter) :
  blockNumber h b = -1 -> document (setState b s h) = document h.
Proof. unfold setState; simpl. intros E. rewrite E. reflexivity. Qed.

Lemma stateOf_setState_Current_Previous (s : Z) (h : Highlighter) :
  stateOf (setState Current s h) Previous = stateOf h Previous.
Proof.
  unfold stateOf. rewrite blockNumber_setState.
  destruct (isValidRef h Current) eqn:E.
  - unfold setState; simpl. apply userStateOfBlock_setUserState_other.
    rewrite blockNumber_Current, E.
    intro N. symmetry in N. revert N.
    apply blockNumber_Previous_not_current. exact E.
  - rewrite setState_invalid; auto. rewrite blockNumber_Current, E. reflexivity.
Qed.

Lemma stateOf_setState_Previous_Current (s : Z) (h : Highlighter) :
  stateOf (setState Previous s h) Current = stateOf h Current.
Proof.
  unfold stateOf. rewrite blockNumber_setState.
  destruct (isValidRef h Current) eqn:E.
  - unfold setState; simpl. apply userStateOfBlock_setUserState_other.
    rewrite blockNumber_Current, E.
    apply blockNumber_Previous_not_current. exact E.
  - rewrite setState_invalid; auto. apply blockNumber_Previous_invalid. exact E.
Qed.

(* ------------------------------------------------------------------------- *)
(** ** Runs from states that agree around the line *)

Lemma lineContext_setState (b : BlockRef) (s : Z) (h : Highlighter) :
  lineContext (setState b s h) =
  mkLineContext (textOf h Current) (isValidRef h Current) (isValidRef h Previous)
                (stateOf (setState b s h) Previous) (textOf h Previous)
                (textOf h Next) (textOf h First)
                (blockNumber h First =? blockNumber h Current)
                (_formats h) (_highlightingRulesPre h)
                (_highlightingRulesAfter h).
Proof.
  unfold lineContext.
  rewrite !textOf_setState, !isValidRef_setState, !blockNumber_setState.
  reflexivity.
Qed.

Lemma Agree_fields (h1 h2 : Highlighter) :
  Agree h1 h2 ->
  (forall b, textOf h1 b = textOf h2 b) /\
  isValidRef h1 Current = isValidRef h2 Current /\
  isValidRef h1 Previous = isValidRef h2 Previous /\
  stateOf h1 Previous = stateOf h2 Previous /\
  (blockNumber h1 First =? blockNumber h1 Current) =
  (blockNumber h2 First =? blockNumber h2 Current) /\
  _formats h1 = _formats h2 /\
  _highlightingRulesPre h1 = _highlightingRulesPre h2 /\
  _highlightingRulesAfter h1 = _highlightingRulesAfter h2.
Proof.
  intros [C _]. unfold lineContext in C. inversion C.
  repeat split; auto. intros []; auto.
Qed.

Lemma Agree_setState (b : BlockRef) (s : Z) (h1 h2 : Highlighter) :
  b = Current \/ b = Previous ->
  Agree h1 h2 -> Agree (setState b s h1) (setState b s h2).
Proof.
  intros Hb A. pose proof (Agree_fields _ _ A) as (T & VC & VP & SP & F & FM & RP & RA).
  destruct A as (C & SC & FC).
  assert (SP' : stateOf (setState b s h1) Previous =
                stateOf (setState b s h2) Previous).
  { destruct Hb; subst b.
    - rewrite !stateOf_setState_Current_Previous. exact SP.
    - rewrite !stateOf_setState_same, VP. reflexivity. }
  assert (SC' : stateOf (setState b s h1) Current =
                stateOf (setState b s h2) Current).
  { destruct Hb; subst b.
    - rewrite !stateOf_setState_same, VC. reflexivity.
    - rewrite !stateOf_setState_Previous_Current. exact SC. }
  split; [| split]; auto.
  rewrite !lineContext_setState, !T, VC, VP, SP', F, FM, RP, RA. reflexivity.
Qed.

(** A call of the context is answered alike in two states that agree, and
    leaves them in agreement. *)
Lemma perform_Agree (c : Call) (h1 h2 : Highlighter) :
  contextCall c -> Agree h1 h2 ->
  Agree (fst (perform c h1)) (fst (perform c h2)) /\
  snd (perform c h1) = snd (perform c h2).
Proof.
  intros Hc A. pose proof (Agree_fields _ _ A) as (T & VC & VP & SP & F & FM & RP & RA).
  destruct c; simpl in Hc; try contradiction.
  - (* BlockText *) split; auto. apply T.
  - (* BlockUserState *)
    destruct b; try contradiction; split; auto. apply A.
  - (* BlockSetUserState *)
    destruct b; try contradiction; split; auto;
      apply (Agree_setState _ s h1 h2); auto.
  - (* FirstBlockIsCurrent *) split; auto.
  - (* Formats *) split; auto. simpl. rewrite FM. reflexivity.
  - (* FormatsSetFontPointSize *)
    split; auto. destruct A as (C & SC & FC).
    unfold Agree, lineContext, stateOf, textOf, isValidRef, blockNumber in *.
    simpl. inversion C. repeat split; try congruence.
  - (* SetFormat *)
    split; auto. destruct A as (C & SC & FC).
    unfold Agree, lineContext, stateOf, textOf, isValidRef, blockNumber in *.
    simpl. inversion C. repeat split; try congruence.
  - (* HighlightingRulesPre *) split; auto.
  - (* HighlightingRulesAfter *) split; auto.
  - (* SetHighlightingFinished *) split; auto.
Qed.

Lemma related_obeys {A : Type} (p : Prog A) : obeys inContext p -> related p.
Proof.
  unfold obeys, related.
  induction p as [a | | | c k IH]; simpl; intros Hp h1 h2 Ha; auto.
  destruct Hp as [Hc Hk].
  destruct (perform_Agree c h1 h2 Hc Ha) as [Ha' Hx].
  pose proof (answerOfCall_perform c h1) as Hans.
  destruct (perform c h1) as [h1' x1]. destruct (perform c h2) as [h2' x2].
  simpl in *. subst x2. apply IH; auto.
Qed.

Lemma related_bind {A B : Type} (p : Prog A) (f : A -> Prog B) :
  related p -> (forall a, related (f a)) -> related (bind p f).
Proof.
  intros Hp Hf h1 h2 Ha. rewrite !run_bind.
  destruct (Hp h1 h2 Ha) as [Ha' Hr].
  destruct (run p h1) as [h1' r1]. destruct (run p h2) as [h2' r2].
  simpl in *. subst r2. destruct r1 as [a | |]; simpl; auto.
  apply Hf. exact Ha'.
Qed.

Lemma related_run_eq {A : Type} (p q : Prog A) :
  (forall h, run p h = run q h) -> related q -> related p.
Proof. intros E Hq h1 h2 Ha. rewrite !E. apply Hq; auto. Qed.

(* ------------------------------------------------------------------------- *)
(** ** The underline of a headline, and the queue of dirty blocks *)

(** Running a program call by call; the state after [setUserState] is kept
    folded. *)
Ltac fold_setState :=
  repeat (progress change (fst (perform (BlockSetUserState ?b ?s) ?h))
            with (setState b s h)).

Ltac fold_stateOf :=
  repeat (progress change (userStateOfBlock (document ?x) (blockNumber ?x ?b))
            with (stateOf x b));
  repeat (progress change (textOfBlock (document ?x) (blockNumber ?x ?b))
            with (textOf x b)).

Ltac run_steps :=
  cbn [bind call];
  repeat (rewrite run_Do; fold_setState);
  cbn [perform fst snd run];
  fold_stateOf.

Lemma textOf_valid (h : Highlighter) (b : BlockRef) :
  (0 <? QString.length (textOf h b)) = true -> isValidRef h b = true.
Proof.
  unfold textOf, isValidRef, textOfBlock, isValidBlock.
  destruct (blockAt (document h) (blockNumber h b)); auto; simpl;
    try discriminate.
Qed.

(** Once the state of the previous block is set to [state], the test
    [previousBlockState() != state] that follows finds them equal: nothing is
    queued. *)
Lemma highlightSubHeadline_run (text : string) (state : Z) (h : Highlighter) :
  run (highlightSubHeadline text state) h =
  run (highlightSubHeadlineDirect text state) h.
Proof.
  unfold highlightSubHeadline, highlightSubHeadlineDirect.
  unfold previousBlockState, setCurrentBlockState, setFormat, setCurrentBlockMargin.
  run_steps.
  match goal with
  | |- (run (if ?c then _ else _) _) = _ => destruct c eqn:C
  end; [| reflexivity].
  apply andb_true_iff in C. destruct C as [_ C].
  run_steps.
  rewrite stateOf_setState_same, isValidRef_setState.
  match goal with
  | |- context [isValidRef (withFormatChanges h ?l) Previous] =>
      change (isValidRef (withFormatChanges h l) Previous)
        with (isValidRef h Previous)
  end.
  rewrite (textOf_valid h Previous C), Z.eqb_refl.
  reflexivity.
Qed.

Lemma highlightSubHeadlineDirect_discipline (text : string) (state : Z) :
  obeys (discipline (fun c => keepsQueue c /\ contextCall c /\ keepsFormats c) False)
        (highlightSubHeadlineDirect text state).
Proof. unfold highlightSubHeadlineDirect. scan. Qed.

Lemma highlightSubHeadline_related (text : string) (state : Z) :
  related (highlightSubHeadline text state).
Proof.
  apply (related_run_eq _ (highlightSubHeadlineDirect text state)).
  - apply highlightSubHeadline_run.
  - apply related_obeys. unfold inContext.
    eapply obeys_discipline;
      [ | | apply highlightSubHeadlineDirect_discipline ].
    + intros c H. apply H.
    + intros [].
Qed.

(** [highlightSubHeadline] never changes the queue of dirty blocks. *)
Lemma highlightSubHeadline_queue (text : string) (state : Z) (h : Highlighter) :
  _dirtyTextBlocks (fst (run (highlightSubHeadline text state) h)) =
  _dirtyTextBlocks h.
Proof.
  rewrite highlightSubHeadline_run.
  eapply obeys_keeps_queue.
  2: apply highlightSubHeadlineDirect_discipline.
  simpl. tauto.
Qed.

Lemma highlightSubHeadline_formats (text : string) (state : Z) (h : Highlighter) :
  _formats (fst (run (highlightSubHeadline text state) h)) = _formats h.
Proof.
  rewrite highlightSubHeadline_run.
  eapply obeys_keeps_formats.
  2: apply highlightSubHeadlineDirect_discipline.
  simpl. tauto.
Qed.

Lemma highlightSubHeadline_done (text : string) (state : Z) (h : Highlighter) :
  snd (run (highlightSubHeadline text state) h) = Done tt.
Proof.
  rewrite highlightSubHeadline_run.
  destruct (obeys_done _ _ _ h (highlightSubHeadlineDirect_discipline text state))
    as [[] E].
  exact E.
Qed.

(* ------------------------------------------------------------------------- *)
(** ** A pass over a line sees the context of the line only *)

Lemma markup_inContext {A : Type} (p : Prog A) :
  obeys markup p -> obeys inContext p.
Proof.
  apply obeys_discipline; [| tauto]. unfold markupCall. tauto.
Qed.

Lemma plain_inContext {A : Type} (p : Prog A) :
  obeys plainMarkup p -> obeys inContext p.
Proof.
  apply obeys_discipline; [| tauto]. unfold scannerCall, markupCall. tauto.
Qed.

Lemma fence_inContext {A : Type} (p : Prog A) :
  obeys fence p -> obeys inContext p.
Proof.
  apply obeys_discipline; [| tauto]. unfold fenceCall. tauto.
Qed.

Lemma headingMarks_inContext fuel text i : obeys inContext (headingMarks fuel text i).
Proof.
  revert i; induction fuel as [| fuel IH]; intros i; cbn [headingMarks].
  - exact I.
  - scan.
Qed.

(** One step through a program, for [related]. *)
Ltac related_step :=
  match goal with
  | |- related (highlightSubHeadline _ _) => apply highlightSubHeadline_related
  | |- related (bind _ _) => apply related_bind; [ | intros ? ]
  | |- related (if ?b then _ else _) => destruct b
  | |- related (match ?x with _ => _ end) => destruct x
  | |- related _ => apply related_obeys; solve [scan]
  end.

Section ContextOfALine.

Variable env : Environment.

#[local] Hint Resolve headingMarks_inContext : scan.

Lemma highlightHeadline_related text : related (highlightHeadline text).
Proof. unfold highlightHeadline. repeat related_step. Qed.

Lemma highlightAdditionalRules_related rules text :
  related (highlightAdditionalRules env rules text).
Proof.
  apply related_obeys, markup_inContext, highlightAdditionalRules_markup.
Qed.

Lemma highlightCommentBlock_related text : related (highlightCommentBlock text).
Proof. apply related_obeys, plain_inContext, highlightCommentBlock_plain. Qed.

Lemma highlightFrontmatterBlock_related text :
  related (highlightFrontmatterBlock text).
Proof. apply related_obeys, plain_inContext, highlightFrontmatterBlock_plain. Qed.

Lemma highlightCodeBlock_related text : related (highlightCodeBlock env text).
Proof. apply related_obeys, fence_inContext, highlightCodeBlock_fence. Qed.

Lemma highlightMarkdown_related text : related (highlightMarkdown env text).
Proof.
  unfold highlightMarkdown.
  apply related_bind; [| intros _; apply related_bind; [| intros _;
    apply related_bind; [| intros _ ] ] ].
  - destruct (negb (QString.isEmpty text)); [| apply related_obeys; exact I].
    apply related_bind; [apply related_obeys; scan | intros pre].
    apply related_bind; [apply highlightAdditionalRules_related | intros _].
    apply related_bind; [apply highlightHeadline_related | intros _].
    apply related_bind; [apply related_obeys; scan | intros after].
    apply highlightAdditionalRules_related.
  - apply highlightCommentBlock_related.
  - apply highlightCodeBlock_related.
  - apply highlightFrontmatterBlock_related.
Qed.

Lemma highlightBlock_related text : related (highlightBlock env text).
Proof.
  unfold highlightBlock.
  apply related_bind; [apply related_obeys; scan | intros _].
  apply related_bind; [apply related_obeys; scan | intros _].
  apply related_bind; [apply highlightMarkdown_related | intros _].
  apply related_obeys; scan.
Qed.

End ContextOfALine.

(* ------------------------------------------------------------------------- *)
(** ** No pass over a line changes the queue of dirty blocks *)

Lemma keeps_queue_obeys (q : list Z) (ok : Call -> Prop) (faults : Prop)
      {A : Type} (p : Prog A) :
  (forall c, ok c -> keepsQueue c) ->
  obeys (discipline ok faults) p ->
  keeps (fun h => _dirtyTextBlocks h = q) p.
Proof.
  intros Hok Hp. apply (obeys_keeps ok faults); auto.
  intros c h Hc. apply perform_keepsQueue. auto.
Qed.

Lemma keeps_queue_markup (q : list Z) {A : Type} (p : Prog A) :
  obeys markup p -> keeps (fun h => _dirtyTextBlocks h = q) p.
Proof. apply keeps_queue_obeys. unfold markupCall. tauto. Qed.

Lemma keeps_queue_plain (q : list Z) {A : Type} (p : Prog A) :
  obeys plainMarkup p -> keeps (fun h => _dirtyTextBlocks h = q) p.
Proof. apply keeps_queue_obeys. unfold scannerCall, markupCall. tauto. Qed.

Lemma keeps_queue_fence (q : list Z) {A : Type} (p : Prog A) :
  obeys fence p -> keeps (fun h => _dirtyTextBlocks h = q) p.
Proof. apply keeps_queue_obeys. unfold fenceCall. tauto. Qed.

Lemma keeps_queue_kept (q : list Z) {A : Type} (p : Prog A) :
  obeys queueKept p -> keeps (fun h => _dirtyTextBlocks h = q) p.
Proof. apply keeps_queue_obeys. auto. Qed.

Lemma highlightSubHeadline_keeps_queue (q : list Z) text state :
  keeps (fun h => _dirtyTextBlocks h = q) (highlightSubHeadline text state).
Proof. intros h E. rewrite highlightSubHeadline_queue. exact E. Qed.

Lemma headingMarks_queueKept fuel text i : obeys queueKept (headingMarks fuel text i).
Proof.
  revert i; induction fuel as [| fuel IH]; intros i; cbn [headingMarks].
  - exact I.
  - scan.
Qed.

(** One step through a program, for [keeps]; [leaf] closes what is not a
    composition. *)
Ltac keeps_step leaf :=
  match goal with
  | |- keeps _ (bind _ _) => apply keeps_bind; [ | intros ? ]
  | |- keeps _ (Ret _) => apply keeps_ret
  | |- keeps _ (if ?b then _ else _) => destruct b
  | |- keeps _ (match ?x with _ => _ end) => destruct x
  | |- keeps _ _ => leaf
  end.

Section QueueOfDirtyBlocks.

Variable env : Environment.

#[local] Hint Resolve headingMarks_queueKept : scan.

Lemma highlightHeadline_keeps_queue (q : list Z) text :
  keeps (fun h => _dirtyTextBlocks h = q) (highlightHeadline text).
Proof.
  unfold highlightHeadline.
  repeat keeps_step
         ltac:(first [ apply highlightSubHeadline_keeps_queue
                     | apply keeps_queue_kept; solve [scan] ]).
Qed.

Lemma highlightMarkdown_keeps_queue (q : list Z) text :
  keeps (fun h => _dirtyTextBlocks h = q) (highlightMarkdown env text).
Proof.
  unfold highlightMarkdown.
  repeat keeps_step
         ltac:(first [ apply highlightHeadline_keeps_queue
                     | apply keeps_queue_markup, highlightAdditionalRules_markup
                     | apply keeps_queue_plain, highlightCommentBlock_plain
                     | apply keeps_queue_plain, highlightFrontmatterBlock_plain
                     | apply keeps_queue_fence, highlightCodeBlock_fence
                     | apply keeps_queue_kept; solve [scan] ]).
Qed.

Lemma highlightBlock_keeps_queue (q : list Z) text :
  keeps (fun h => _dirtyTextBlocks h = q) (highlightBlock env text).
Proof.
  unfold highlightBlock.
  repeat keeps_step
         ltac:(first [ apply highlightMarkdown_keeps_queue
                     | apply keeps_queue_kept; solve [scan] ]).
Qed.

(** Whatever the line and the document, [highlightBlock] leaves the queue of
    dirty blocks as it found it. *)
Lemma highlightBlock_queue text h :
  _dirtyTextBlocks (fst (run (highlightBlock env text) h)) = _dirtyTextBlocks h.
Proof. apply (highlightBlock_keeps_queue (_dirtyTextBlocks h)). reflexivity. Qed.

Lemma reformatBlock_queue block h :
  _dirtyTextBlocks (fst (reformatBlock env block h)) = _dirtyTextBlocks h.
Proof.
  unfold reformatBlock.
  pose proof (highlightBlock_queue
                (textOfBlock
                   (document (withFormatChanges (withCurrentBlockNumber h block) []))
                   block)
                (withFormatChanges (withCurrentBlockNumber h block) [])) as E.
  destruct (run _ (withFormatChanges (withCurrentBlockNumber h block) []))
    as [h' r].
  simpl in *. exact E.
Qed.

Lemma reformatBlocks_queue count block h :
  _dirtyTextBlocks (fst (reformatBlocks env count block h)) = _dirtyTextBlocks h.
Proof.
  revert block h; induction count as [| count IH]; intros block h; simpl; auto.
  destruct (isValidBlock (document h) block); auto.
  pose proof (reformatBlock_queue block h) as E.
  destruct (reformatBlock env block h) as [h' r].
  destruct r as [[] | |]; simpl in *; auto.
  destruct (userStateOfBlock (document h') block =?
            userStateOfBlock (document h) block); simpl; auto.
  rewrite IH. exact E.
Qed.

Lemma rehighlightBlock_queue block h :
  _dirtyTextBlocks (fst (rehighlightBlock env block h)) = _dirtyTextBlocks h.
Proof.
  unfold rehighlightBlock.
  pose proof (reformatBlocks_queue (List.length (document h)) block h) as E.
  destruct (reformatBlocks env (List.length (document h)) block h) as [h' r].
  simpl in *. exact E.
Qed.

End QueueOfDirtyBlocks.

(* ------------------------------------------------------------------------- *)
(** ** No format of the style [TrailingSpace] *)

Lemma run_bind_currentBlockState {B : Type} (f : Z -> Prog B) (h : Highlighter) :
  run (bind currentBlockState f) h = run (f (stateOf h Current)) h.
Proof. reflexivity. Qed.

Lemma run_bind_previousBlockState {B : Type} (f : Z -> Prog B) (h : Highlighter) :
  run (bind previousBlockState f) h = run (f (stateOf h Previous)) h.
Proof. reflexivity. Qed.

Lemma run_bind_Formats {B : Type} (k : Z) (f : QTextCharFormat -> Prog B)
      (h : Highlighter) :
  run (bind (call (Formats k)) f) h = run (f (formatOf (_formats h) k)) h.
Proof. reflexivity. Qed.

Lemma run_bind_rulesPre {B : Type} (f : list HighlightingRule -> Prog B)
      (h : Highlighter) :
  run (bind (call HighlightingRulesPre) f) h = run (f (_highlightingRulesPre h)) h.
Proof. reflexivity. Qed.

Lemma run_bind_rulesAfter {B : Type} (f : list HighlightingRule -> Prog B)
      (h : Highlighter) :
  run (bind (call HighlightingRulesAfter) f) h =
  run (f (_highlightingRulesAfter h)) h.
Proof. reflexivity. Qed.

Lemma styleId_formatOf (t : FormatTable) (k : Z) : styleId (formatOf t k) = Some k.
Proof. reflexivity. Qed.

Lemma perform_trailingFree pre after (c : Call) (h : Highlighter) :
  setsNoTrailingSpace c -> trailingFree pre after h ->
  trailingFree pre after (fst (perform c h)).
Proof.
  intros Hc [N [P A]]. pose proof (perform_Extends c h) as E.
  split; [| split].
  - apply perform_setsNoTrailingSpace; auto.
  - rewrite (ext_pre _ _ E). exact P.
  - rewrite (ext_after _ _ E). exact A.
Qed.

Lemma obeys_trailingFree pre after (ok : Call -> Prop) (faults : Prop)
      {A : Type} (p : Prog A) :
  (forall c, ok c -> setsNoTrailingSpace c) ->
  obeys (discipline ok faults) p -> keeps (trailingFree pre after) p.
Proof.
  intros Hok Hp. apply (obeys_keeps ok faults); auto.
  intros c h Hc. apply perform_trailingFree. auto.
Qed.

Lemma noTrailingSpaceSet_keeps pre after {A : Type} (p : Prog A) :
  obeys noTrailingSpaceSet p -> keeps (trailingFree pre after) p.
Proof. apply obeys_trailingFree. auto. Qed.

Lemma plain_keeps_trailingFree pre after {A : Type} (p : Prog A) :
  obeys plainMarkup p -> keeps (trailingFree pre after) p.
Proof. apply obeys_trailingFree. unfold scannerCall. tauto. Qed.

Lemma fence_keeps_trailingFree pre after {A : Type} (p : Prog A) :
  obeys fence p -> keeps (trailingFree pre after) p.
Proof. apply obeys_trailingFree. unfold fenceCall. tauto. Qed.

Lemma isHeadingState_not_trailing (s : Z) :
  isHeadingState s = true -> s <> TrailingSpace.
Proof.
  unfold isHeadingState. intros H. apply andb_true_iff in H. destruct H as [_ H].
  apply Z.leb_le in H. intros E. subst. vm_compute in H. apply H. reflexivity.
Qed.

(** The headings' styles: the format is read from [_formats] at the state of
    the line, which is a heading's. *)
Lemma setHeadingStyles_heading (s rule : Z) (m : QRegularExpressionMatch) (g : Z) :
  isHeadingState s = true ->
  obeys noTrailingSpaceSet
        (f <- call (Formats s) ;;
         if rule =? Italic then
           setFormat (capturedStart m g) (capturedLength m g) (setFontItalic f true)
         else if rule =? Bold then
           setFormat (capturedStart m g) (capturedLength m g) f
         else if rule =? Link then
           link <- call (Formats Link) ;;
           let link := setFontPointSize link (fontPointSize f) in
           if g =? 1 then setFormat (capturedStart m g) (capturedLength m g) link
           else Ret tt
         else Ret tt)%prog.
Proof.
  intros H. pose proof (isHeadingState_not_trailing s H) as N.
  apply obeys_bind_call; [exact I | intros f Hf; simpl in Hf].
  assert (F : ~ isTrailingSpaceFormat f) by (eapply styleId_not_trailing; eauto).
  destruct (rule =? Italic); [apply obeys_call; exact F |].
  destruct (rule =? Bold); [apply obeys_call; exact F |].
  destruct (rule =? Link); [| exact I].
  apply obeys_bind_call; [exact I | intros link Hl; simpl in Hl].
  cbv zeta. destruct (g =? 1); [| exact I].
  apply obeys_call. simpl. unfold isTrailingSpaceFormat. simpl. rewrite Hl.
  vm_compute. discriminate.
Qed.

Section NoTrailingSpace.

Variable env : Environment.
Variables pre after : list HighlightingRule.

Lemma formatMatches_trailingFree rule masked format matches :
  ~ isTrailingSpaceFormat masked -> ~ isTrailingSpaceFormat format ->
  keeps (trailingFree pre after) (formatMatches rule masked format matches).
Proof.
  intros M F. induction matches as [| m rest IH]; cbn [formatMatches].
  - apply keeps_ret.
  - apply keeps_bind; [| intros _].
    + apply noTrailingSpaceSet_keeps.
      destruct (0 <? capturingGroup rule); [| exact I].
      cbv zeta. unfold currentBlockState.
      apply obeys_bind_call; [exact I | intros cbs _].
      destruct (isHeadingState cbs && _); [exact I |].
      apply obeys_call. simpl.
      destruct (negb _); auto.
    + intros h Hj. rewrite run_bind_currentBlockState.
      apply keeps_bind_at; [| intros _; exact IH].
      destruct (isHeadingState (stateOf h Current) &&
                negb (state rule =? InlineCodeBlock)) eqn:E.
      * apply andb_true_iff in E. destruct E as [E _].
        unfold setHeadingStyles. rewrite run_bind_currentBlockState.
        apply (noTrailingSpaceSet_keeps pre after); [| exact Hj].
        apply setHeadingStyles_heading. exact E.
      * apply (noTrailingSpaceSet_keeps pre after); [| exact Hj].
        apply obeys_call. exact F.
Qed.

Lemma highlightRules_trailingFree rules masked text :
  Forall (passesNoTrailingRule text) rules ->
  ~ isTrailingSpaceFormat masked ->
  keeps (trailingFree pre after) (highlightRules env rules masked text).
Proof.
  intros R M. induction R as [| rule rest Hr Hrest IH]; cbn [highlightRules].
  - apply keeps_ret.
  - intros h Hj. rewrite run_bind_currentBlockState.
    apply keeps_bind_at; [| intros _; exact IH].
    destruct (disableIfCurrentStateIsSet rule && _); [exact Hj |].
    destruct (ruleMayMatch rule text) eqn:T; [| exact Hj].
    cbn [negb]. cbv zeta. rewrite run_bind_Formats.
    apply keeps_bind; [| intros _ | exact Hj].
    + apply noTrailingSpaceSet_keeps.
      destruct (_ && _); [| exact I].
      unfold setCurrentBlockState. apply obeys_call. exact I.
    + apply formatMatches_trailingFree; auto.
      apply (styleId_not_trailing _ (state rule)); auto using styleId_formatOf.
Qed.

Lemma highlightAdditionalRules_trailingFree rules text :
  Forall (passesNoTrailingRule text) rules ->
  keeps (trailingFree pre after) (highlightAdditionalRules env rules text).
Proof.
  intros R h Hj. unfold highlightAdditionalRules. rewrite run_bind_Formats.
  apply highlightRules_trailingFree; auto.
  apply (styleId_not_trailing _ MaskedSyntax); [apply styleId_formatOf |].
  vm_compute. discriminate.
Qed.

End NoTrailingSpace.

(* ------------------------------------------------------------------------- *)
(** ** C4: what the result of [highlightBlock] is a function of *)

Lemma Agree_setState_Current (s : Z) (h1 h2 : Highlighter) :
  lineContext h1 = lineContext h2 ->
  formatChanges h1 = formatChanges h2 ->
  Agree (setState Current s h1) (setState Current s h2).
Proof.
  intros C FC.
  assert (F : (forall b, textOf h1 b = textOf h2 b) /\
              isValidRef h1 Current = isValidRef h2 Current /\
              isValidRef h1 Previous = isValidRef h2 Previous /\
              stateOf h1 Previous = stateOf h2 Previous /\
              (blockNumber h1 First =? blockNumber h1 Current) =
              (blockNumber h2 First =? blockNumber h2 Current) /\
              _formats h1 = _formats h2 /\
              _highlightingRulesPre h1 = _highlightingRulesPre h2 /\
              _highlightingRulesAfter h1 = _highlightingRulesAfter h2).
  { unfold lineContext in C. inversion C. repeat split; auto. intros []; auto. }
  destruct F as (T & VC & VP & SP & F & FM & RP & RA).
  split; [| split].
  - rewrite !lineContext_setState, !stateOf_setState_Current_Previous.
    rewrite !T, VC, VP, SP, F, FM, RP, RA. reflexivity.
  - rewrite !stateOf_setState_same, VC. reflexivity.
  - exact FC.
Qed.

Section FunctionOfTheContext.

Variable env : Environment.

Lemma run_highlightBlock (text : string) (h : Highlighter) :
  run (highlightBlock env text) h =
  run (bind (call (BlockSetUserState Current NoState))
            (fun _ => bind (highlightMarkdown env text)
                           (fun _ => call (SetHighlightingFinished true))))
      (setState Current NoState h).
Proof.
  unfold highlightBlock, setCurrentBlockState. cbn [bind call].
  rewrite run_Do. reflexivity.
Qed.

(** C4 (as amended).  The formats set on a line, its new state and the way
    the pass ends are a function of the context of the line: its text, the
    state and the text of the previous line (and whether there is one), the
    text of the next line, the text of the first line of the document and
    whether the line is that first line, and the highlighter's format and
    rule tables. *)
Theorem highlightBlock_function_of_context (h1 h2 : Highlighter) :
  lineContext h1 = lineContext h2 ->
  highlightCurrentBlock env h1 = highlightCurrentBlock env h2.
Proof.
  intros C. unfold highlightCurrentBlock.
  assert (T : textOfBlock (document h1) (blockNumber h1 Current) =
              textOfBlock (document h2) (blockNumber h2 Current)).
  { unfold lineContext in C. inversion C. assumption. }
  rewrite T.
  set (text := textOfBlock (document h2) (blockNumber h2 Current)).
  assert (R : related
                (bind (call (BlockSetUserState Current NoState))
                      (fun _ => bind (highlightMarkdown env text)
                                     (fun _ => call (SetHighlightingFinished true))))).
  { apply related_bind; [apply related_obeys; scan | intros _].
    apply related_bind; [apply highlightMarkdown_related | intros _].
    apply related_obeys; scan. }
  assert (A : Agree (setState Current NoState (withFormatChanges h1 []))
                    (setState Current NoState (withFormatChanges h2 []))).
  { apply Agree_setState_Current; auto. }
  destruct (R _ _ A) as [[_ [SC FC]] O].
  rewrite !run_highlightBlock.
  destruct (run _ (setState Current NoState (withFormatChanges h1 [])))
    as [h1' r1].
  destruct (run _ (setState Current NoState (withFormatChanges h2 [])))
    as [h2' r2].
  simpl in *. unfold stateOf in SC. rewrite SC, FC, O. reflexivity.
Qed.

End FunctionOfTheContext.

(** C4, witness: the line [Title] followed by an underline, in two documents
    that differ after the underline. *)
Lemma highlightBlock_function_of_context_witness :
  highlightCurrentBlock sampleEnvironment
    (highlighterAt [("intro", -1); ("Title", -1); ("=====", -1);
                    ("more", -1); ("text", -1)] 1) =
  highlightCurrentBlock sampleEnvironment
    (highlighterAt [("intro", -1); ("Title", -1); ("=====", -1)] 1).
Proof.
  apply (highlightBlock_function_of_context sampleEnvironment).
  vm_compute. reflexivity.
Defined.

(** C4, counterexample: the same text [Title] with the same previous state
    (there is no previous line) is given the state [H1] and a format when an
    underline follows, and neither when the line stands alone; this holds
    whatever the environment. *)
Lemma highlightBlock_not_function_of_text_and_state :
  exists h1 h2 : Highlighter,
    textOf h1 Current = textOf h2 Current /\
    stateOf h1 Previous = stateOf h2 Previous /\
    _formats h1 = _formats h2 /\
    forall env, highlightCurrentBlock env h1 = ([], NoState, Done tt) /\
                highlightCurrentBlock env h2 =
                ([mkAnnotation 0 5 (formatOf (_formats h2) H1)], H1, Done tt).
Proof.
  exists (highlighterAt [("Title", -1)] 0).
  exists (highlighterAt [("Title", -1); ("=====", -1)] 0).
  split; [vm_compute; reflexivity |].
  split; [vm_compute; reflexivity |].
  split; [vm_compute; reflexivity |].
  intros env. split; vm_compute; reflexivity.
Qed.

(* ------------------------------------------------------------------------- *)
(** ** C9: the queue of dirty blocks and its drain *)

Lemma addDirtyBlock_queue (b : BlockRef) (h : Highlighter) :
  _dirtyTextBlocks (fst (run (addDirtyBlock b) h)) =
  if existsb (Z.eqb (blockNumber h b)) (_dirtyTextBlocks h)
  then _dirtyTextBlocks h
  else _dirtyTextBlocks h ++ [blockNumber h b].
Proof.
  unfold addDirtyBlock. cbn [bind call]. rewrite run_Do. cbn [perform fst snd].
  destruct (existsb (Z.eqb (blockNumber h b)) (_dirtyTextBlocks h)); reflexivity.
Qed.

Lemma NoDup_append_new (n : Z) (q : list Z) :
  NoDup q -> existsb (Z.eqb n) q = false -> NoDup (q ++ [n]).
Proof.
  intros N E. induction N as [| x q Hx N IH]; simpl in *.
  - constructor; [intros [] | constructor].
  - apply orb_false_iff in E. destruct E as [E1 E2].
    constructor; auto.
    rewrite in_app_iff. intros [H | [H | []]]; auto.
    subst. rewrite Z.eqb_refl in E1. discriminate.
Qed.

Lemma NoDup_suffix (l1 l2 : list Z) : NoDup (l1 ++ l2) -> NoDup l2.
Proof.
  induction l1 as [| x l1 IH]; simpl; auto. intros N. inversion N; auto.
Qed.

Section DrainOfTheQueue.

Variable env : Environment.

(** The queue after a block was re-highlighted and removed. *)
Lemma removeFirst_rehighlightBlock (block : Z) (q : list Z) (h : Highlighter) :
  _dirtyTextBlocks h = block :: q ->
  _dirtyTextBlocks (removeFirst (fst (rehighlightBlock env block h))) = q.
Proof.
  intros Q. unfold removeFirst.
  change (_dirtyTextBlocks (withDirtyTextBlocks ?x ?l)) with l.
  rewrite rehighlightBlock_queue, Q. reflexivity.
Qed.

(** A drain with more fuel than the queue is long: its events, the state it
    leaves and how it ends. *)
Lemma reHighlightDirtyBlocks_drains (fuel : nat) :
  forall h, (List.length (_dirtyTextBlocks h) < fuel)%nat ->
            drainedInOrder env h (reHighlightDirtyBlocks env fuel h).
Proof.
  induction fuel as [| fuel IH]; intros h L; [lia |].
  cbn [reHighlightDirtyBlocks].
  destruct (_dirtyTextBlocks h) as [| block q] eqn:Q.
  - exists []. cbn [fst snd app rehighlightsFinish afterRehighlights eventsOf
                    flat_map].
    rewrite Q. auto.
  - pose proof (rehighlightBlock_queue env block h) as E. rewrite Q in E.
    pose proof (removeFirst_rehighlightBlock block q h Q) as Q'.
    destruct (rehighlightBlock env block h) as [h1 r] eqn:R.
    cbn [fst] in E, Q'. cbn [List.length] in L.
    destruct r as [[] | |].
    + rewrite E. cbn [List.hd].
      assert (L' : (List.length (_dirtyTextBlocks (removeFirst h1)) < fuel)%nat)
        by (rewrite Q'; lia).
      specialize (IH (removeFirst h1) L').
      destruct (reHighlightDirtyBlocks env fuel (removeFirst h1))
        as [events [h' r']].
      destruct IH as [finished [F [G M]]]. cbn [fst snd] in F, M |- *.
      rewrite Q' in F.
      exists (block :: finished).
      cbn [rehighlightsFinish afterRehighlights]. rewrite R. cbn [fst snd].
      split; [rewrite Q, F; reflexivity |].
      split; [split; [reflexivity | exact G] |].
      destruct r' as [[] | |].
      * destruct M as [M1 [M2 M3]]. repeat split; [exact M1 | exact M2 |].
        rewrite M3. reflexivity.
      * destruct M as [b [M1 [M2 M3]]]. exists b.
        repeat split; [exact M1 | exact M2 |]. rewrite M3. reflexivity.
      * destruct M as [b [M1 [M2 M3]]]. exists b.
        repeat split; [exact M1 | exact M2 |]. rewrite M3. reflexivity.
    + exists []. cbn [fst snd app rehighlightsFinish afterRehighlights eventsOf
                      flat_map].
      rewrite E. split; [exact Q | split; [exact I |]].
      exists block. rewrite Q. repeat split. exact R.
    + exists []. cbn [fst snd app rehighlightsFinish afterRehighlights eventsOf
                      flat_map].
      rewrite E. split; [exact Q | split; [exact I |]].
      exists block. rewrite Q. repeat split. exact R.
Qed.

(** When every re-highlighting ends well, so does the drain, and it has
    worked through the whole queue. *)
Lemma reHighlightDirtyBlocks_all (fuel : nat) :
  forall h, (List.length (_dirtyTextBlocks h) < fuel)%nat ->
            rehighlightsFinish env (_dirtyTextBlocks h) h ->
            reHighlightDirtyBlocks env fuel h =
            (eventsOf (_dirtyTextBlocks h),
             (afterRehighlights env (_dirtyTextBlocks h) h, Done tt)).
Proof.
  induction fuel as [| fuel IH]; intros h L F; [lia |].
  cbn [reHighlightDirtyBlocks].
  destruct (_dirtyTextBlocks h) as [| block q] eqn:Q; [reflexivity |].
  pose proof (rehighlightBlock_queue env block h) as E. rewrite Q in E.
  pose proof (removeFirst_rehighlightBlock block q h Q) as Q'.
  cbn [rehighlightsFinish afterRehighlights] in F |- *.
  destruct F as [D F].
  destruct (rehighlightBlock env block h) as [h1 r]. cbn [fst snd] in *.
  subst r. rewrite E. cbn [List.hd List.length] in *.
  rewrite (IH (removeFirst h1)), Q'; [reflexivity | rewrite Q'; lia |].
  rewrite Q'. exact F.
Qed.

(** C9 (as amended).  A queue without repetition stays so when a block is
    added, when a line is highlighted (which leaves the queue as it is) and
    when the queue is drained.  A drain with more fuel than the queue is long
    works through the queue from its head: each entry is re-highlighted
    first and removed from the queue afterwards, then the next one is taken;
    the drain stops before the end of the queue only when the re-highlighting
    of an entry does not end well, with that entry still in the queue; and
    when every re-highlighting ends well the drain ends well, after all
    entries were re-highlighted and removed in the order of the queue. *)
Theorem dirty_queue_drained_in_order (h : Highlighter) :
  NoDup (_dirtyTextBlocks h) ->
  (forall b, NoDup (_dirtyTextBlocks (fst (run (addDirtyBlock b) h)))) /\
  (forall text,
      _dirtyTextBlocks (fst (run (highlightBlock env text) h)) = _dirtyTextBlocks h) /\
  forall fuel, (List.length (_dirtyTextBlocks h) < fuel)%nat ->
    drainedInOrder env h (reHighlightDirtyBlocks env fuel h) /\
    NoDup (_dirtyTextBlocks (fst (snd (reHighlightDirtyBlocks env fuel h)))) /\
    (rehighlightsFinish env (_dirtyTextBlocks h) h ->
     fst (reHighlightDirtyBlocks env fuel h) = eventsOf (_dirtyTextBlocks h) /\
     _dirtyTextBlocks (fst (snd (reHighlightDirtyBlocks env fuel h))) = [] /\
     snd (snd (reHighlightDirtyBlocks env fuel h)) = Done tt).
Proof.
  intros N. split; [| split].
  - intros b. rewrite addDirtyBlock_queue.
    destruct (existsb _ _) eqn:E; auto using NoDup_append_new.
  - intros text. apply highlightBlock_queue.
  - intros fuel L. pose proof (reHighlightDirtyBlocks_drains fuel h L) as D.
    split; [exact D | split].
    + destruct D as [finished [F _]]. rewrite F in N.
      exact (NoDup_suffix _ _ N).
    + intros F. pose proof D as [finished [Q [_ M]]].
      rewrite (reHighlightDirtyBlocks_all fuel h L F) in Q, M |- *.
      cbn [fst snd] in *. destruct M as [M _]. auto.
Qed.

End DrainOfTheQueue.

(** C9, witness: the queue [1; 0] of a document of two lines. *)
Lemma dirty_queue_drained_in_order_witness :
  (forall b, NoDup (_dirtyTextBlocks (fst (run (addDirtyBlock b) queuedUnderline)))) /\
  (forall text,
      _dirtyTextBlocks (fst (run (highlightBlock sampleEnvironment text)
                                 queuedUnderline)) =
      _dirtyTextBlocks queuedUnderline) /\
  drainedInOrder sampleEnvironment queuedUnderline
                 (reHighlightDirtyBlocks sampleEnvironment 3 queuedUnderline) /\
  NoDup (_dirtyTextBlocks
           (fst (snd (reHighlightDirtyBlocks sampleEnvironment 3 queuedUnderline)))) /\
  fst (reHighlightDirtyBlocks sampleEnvironment 3 queuedUnderline) =
  eventsOf (_dirtyTextBlocks queuedUnderline) /\
  _dirtyTextBlocks
    (fst (snd (reHighlightDirtyBlocks sampleEnvironment 3 queuedUnderline))) = [] /\
  snd (snd (reHighlightDirtyBlocks sampleEnvironment 3 queuedUnderline)) = Done tt.
Proof.
  assert (N : NoDup (_dirtyTextBlocks queuedUnderline)).
  { vm_compute. repeat constructor; simpl; intuition discriminate. }
  destruct (dirty_queue_drained_in_order sampleEnvironment queuedUnderline N)
    as [A [B C]].
  split; [exact A | split; [exact B |]].
  assert (L : (List.length (_dirtyTextBlocks queuedUnderline) < 3)%nat)
    by (vm_compute; lia).
  destruct (C 3%nat L) as [C1 [C2 C3]].
  split; [exact C1 | split; [exact C2 |]].
  apply C3. vm_compute. repeat split.
Defined.

(** C9, counterexample: in the drain of the queue [1; 0] each block is removed
    from the queue after it was re-highlighted, not before; and the queue is
    empty at the end. *)
Lemma entry_removed_after_rehighlight :
  _dirtyTextBlocks queuedUnderline = [1; 0] /\
  forall env,
    fst (reHighlightDirtyBlocks env 3 queuedUnderline) =
    [Rehighlighted 1; RemovedFirst 1; Rehighlighted 0; RemovedFirst 0] /\
    _dirtyTextBlocks (fst (snd (reHighlightDirtyBlocks env 3 queuedUnderline))) = [] /\
    snd (snd (reHighlightDirtyBlocks env 3 queuedUnderline)) = Done tt.
Proof.
  split; [vm_compute; reflexivity |].
  intros env.
  split; [vm_compute; reflexivity |].
  split; vm_compute; reflexivity.
Qed.

(* ------------------------------------------------------------------------- *)
(** ** C10: the rule of trailing spaces is never tried on a line *)

Lemma findString_newline (s : string) :
  forall i, 0 <= i ->
            QString.findString (QString.single QChar.newline) s i = -1 ->
            QString.findString (String " " (QString.single QChar.newline)) s i = -1.
Proof.
  induction s as [| a r IH]; intros i Hi; cbn [QString.findString].
  - simpl. auto.
  - unfold QString.single. cbn [String.prefix].
    destruct (ascii_dec QChar.newline a) as [E | E].
    + destruct r; simpl; intros; lia.
    + intros F. destruct (ascii_dec " " a) as [S | S].
      * destruct r as [| b r']; [simpl in *; auto |].
        destruct (ascii_dec QChar.newline b) as [E' | E'].
        -- cbn [QString.findString String.prefix] in F. unfold QString.single in F.
           cbn [String.prefix] in F.
           destruct (ascii_dec QChar.newline b); [| contradiction].
           destruct r'; simpl in F; lia.
        -- cbn [String.prefix].
           destruct (ascii_dec QChar.newline b); [contradiction |].
           apply IH; [lia | exact F].
      * apply IH; [lia | exact F].
Qed.

Lemma contains_space_newline (text : string) :
  QString.contains text (QString.single QChar.newline) = false ->
  QString.contains text (String " " (QString.single QChar.newline)) = false.
Proof.
  unfold QString.contains, QString.indexOf. intros H.
  apply negb_false_iff in H. apply Z.eqb_eq in H.
  rewrite (findString_newline text 0); [reflexivity | lia | exact H].
Qed.

Lemma trailingRuleGuarded_passes (text : string) (r : HighlightingRule) :
  QString.contains text (QString.single QChar.newline) = false ->
  trailingRuleGuarded r = true -> passesNoTrailingRule text r.
Proof.
  intros N G M. unfold trailingRuleGuarded in G.
  apply orb_true_iff in G. destruct G as [G | G].
  - apply negb_true_iff in G. apply Z.eqb_neq in G. exact G.
  - apply andb_true_iff in G. destruct G as [G G2].
    apply andb_true_iff in G. destruct G as [G0 G1].
    apply String.eqb_eq in G0. unfold ruleMayMatch in M.
    rewrite G0, G1, G2, (contains_space_newline text N) in M. discriminate.
Qed.

Lemma guarded_rules_pass (text : string) (rules : list HighlightingRule) :
  QString.contains text (QString.single QChar.newline) = false ->
  forallb trailingRuleGuarded rules = true ->
  Forall (passesNoTrailingRule text) rules.
Proof.
  intros N G. apply Forall_forall. intros r Hr.
  apply trailingRuleGuarded_passes; auto.
  rewrite forallb_forall in G. auto.
Qed.

Lemma initHighlightingRulesPre_guarded (flag : bool) :
  forallb trailingRuleGuarded (initHighlightingRulesPre flag) = true.
Proof. destruct flag; vm_compute; reflexivity. Qed.

Lemma initHighlightingRulesAfter_guarded :
  forallb trailingRuleGuarded initHighlightingRulesAfter = true.
Proof. vm_compute. reflexivity. Qed.

Lemma headingMarks_bound (fuel : nat) (text : string) :
  forall i, 1 <= i <= 6 ->
            obeysTo noTrailingSpaceSet (fun r => 1 <= r <= 6)
                    (headingMarks fuel text i).
Proof.
  induction fuel as [| fuel IH]; intros i Hi; cbn [headingMarks].
  - exact I.
  - destruct (i <? QString.length text); [| exact Hi].
    apply (obeysTo_bind _ (fun _ => True)); [apply obeys_charAt; exact I |].
    intros c _. destruct (Ascii.eqb c "#" && (i <? 6)) eqn:E; [| exact Hi].
    apply IH. apply andb_true_iff in E. destruct E as [_ E].
    apply Z.ltb_lt in E. lia.
Qed.

Lemma addDirtyBlock_noTrailingSpaceSet (b : BlockRef) :
  obeys noTrailingSpaceSet (addDirtyBlock b).
Proof. unfold addDirtyBlock. scan. Qed.

Lemma highlightSubHeadline_noTrailingSpaceSet (text : string) (state : Z) :
  obeys noTrailingSpaceSet (highlightSubHeadline text state).
Proof.
  pose proof addDirtyBlock_noTrailingSpaceSet.
  unfold highlightSubHeadline. scan.
Qed.

Lemma highlightHeadline_noTrailingSpaceSet (text : string) :
  obeys noTrailingSpaceSet (highlightHeadline text).
Proof.
  unfold highlightHeadline.
  apply obeys_bind; [apply obeys_charAt; exact I | intros c].
  apply (obeysTo_bind _ (fun r => match r with
                                  | Return => True
                                  | FallThrough l => l <= 6
                                  end)).
  - destruct (Ascii.eqb c "#"); [| simpl; lia].
    cbv zeta. destruct (1 >=? QString.length text); [exact I |].
    apply (obeysTo_bind _ (fun r => 1 <= r <= 6));
      [apply headingMarks_bound; lia | intros i Hi].
    destruct (i <? QString.length text); [| simpl; lia].
    apply (obeysTo_bind _ (fun _ => True)); [apply obeys_charAt; exact I |].
    intros c' _. simpl. destruct (Ascii.eqb c' " "); lia.
  - intros [l |] Hl; [simpl in Hl | exact I].
    pose proof highlightSubHeadline_noTrailingSpaceSet.
    destruct (0 <? l) eqn:L.
    + apply Z.ltb_lt in L. cbv zeta. unfold setFormatOf.
      apply obeys_bind; [| intros _; scan].
      apply obeys_bind_call; [exact I | intros f Hf].
      change (styleId f = Some (H1 + l - 1)) in Hf.
      apply obeys_call. simpl. unfold isTrailingSpaceFormat. rewrite Hf.
      unfold H1, TrailingSpace. intros E.
      assert (E' : 12 + l - 1 = 28) by congruence. lia.
    + fold (obeys noTrailingSpaceSet
                  (if hasOnlyHeadChars text "="
                   then highlightSubHeadline text H1
                   else if hasOnlyHeadChars text "-"
                        then highlightSubHeadline text H2
                        else (nextBlockText <- call (BlockText Next) ;;
                              (if hasOnlyHeadChars nextBlockText "=" then
                                 setFormatOf 0 (QString.length text) H1 ;;
                                 setCurrentBlockState H1 ;;
                                 call (BlockSetUserState Current H1)
                               else Ret tt) ;;
                              (if hasOnlyHeadChars nextBlockText "-" then
                                 setFormatOf 0 (QString.length text) H2 ;;
                                 setCurrentBlockState H2 ;;
                                 call (BlockSetUserState Current H2)
                               else Ret tt))%prog)).
      scan.
Qed.

Section TrailingSpaceNeverSet.

Variable env : Environment.
Variables pre after : list HighlightingRule.

Lemma highlightMarkdown_trailingFree (text : string) :
  Forall (passesNoTrailingRule text) pre ->
  Forall (passesNoTrailingRule text) after ->
  keeps (trailingFree pre after) (highlightMarkdown env text).
Proof.
  intros P A. unfold highlightMarkdown.
  apply keeps_bind; [| intros _; apply keeps_bind; [| intros _;
    apply keeps_bind; [| intros _ ] ] ].
  - destruct (negb (QString.isEmpty text)); [| apply keeps_ret].
    intros h Hj. rewrite run_bind_rulesPre.
    rewrite (proj1 (proj2 Hj)).
    apply keeps_bind; [| intros _ | exact Hj].
    + apply highlightAdditionalRules_trailingFree. exact P.
    + apply keeps_bind; [| intros _].
      * apply noTrailingSpaceSet_keeps, highlightHeadline_noTrailingSpaceSet.
      * intros h' Hj'. rewrite run_bind_rulesAfter.
        rewrite (proj2 (proj2 Hj')).
        apply highlightAdditionalRules_trailingFree; auto.
  - apply plain_keeps_trailingFree, highlightCommentBlock_plain.
  - apply fence_keeps_trailingFree, highlightCodeBlock_fence.
  - apply plain_keeps_trailingFree, highlightFrontmatterBlock_plain.
Qed.

Lemma highlightBlock_trailingFree (text : string) :
  Forall (passesNoTrailingRule text) pre ->
  Forall (passesNoTrailingRule text) after ->
  keeps (trailingFree pre after) (highlightBlock env text).
Proof.
  intros P A. unfold highlightBlock.
  apply keeps_bind; [apply noTrailingSpaceSet_keeps; scan | intros _].
  apply keeps_bind; [apply noTrailingSpaceSet_keeps; scan | intros _].
  apply keeps_bind; [apply highlightMarkdown_trailingFree; auto | intros _].
  apply noTrailingSpaceSet_keeps; scan.
Qed.

End TrailingSpaceNeverSet.

(** C10.  With the rule tables of the constructor, a pass over a line that
    contains no newline sets no format of the style [TrailingSpace], whatever
    the line (spaces at its end included), the document around it and the
    environment; every rule of that style in the tables has the one substring
    of a space and a newline, and is not tried on the line. *)
Theorem highlightBlock_sets_no_trailing_space
        (env : Environment) (flag : bool) (text : string) (h : Highlighter) :
  _highlightingRulesPre h = initHighlightingRulesPre flag ->
  _highlightingRulesAfter h = initHighlightingRulesAfter ->
  QString.contains text (QString.single QChar.newline) = false ->
  noTrailingSpace
    (formatChanges (fst (run (highlightBlock env text) (withFormatChanges h [])))) /\
  (exists r, In r (_highlightingRulesAfter h) /\ state r = TrailingSpace) /\
  forall r, In r (_highlightingRulesPre h ++ _highlightingRulesAfter h) ->
            state r = TrailingSpace ->
            shouldContain0 r = String " " (QString.single QChar.newline) /\
            shouldContain1 r = "" /\ shouldContain2 r = "" /\
            ruleMayMatch r text = false.
Proof.
  intros P A N.
  assert (GP := guarded_rules_pass text _ N (initHighlightingRulesPre_guarded flag)).
  assert (GA := guarded_rules_pass text _ N initHighlightingRulesAfter_guarded).
  split; [| split].
  - apply (highlightBlock_trailingFree env _ _ text GP GA).
    split; [constructor | split; assumption].
  - rewrite A. exists (nth 16 initHighlightingRulesAfter (newRule NoState)).
    split; [vm_compute; tauto | reflexivity].
  - intros r Hr S. rewrite P, A in Hr.
    assert (G : trailingRuleGuarded r = true).
    { apply in_app_or in Hr. destruct Hr as [Hr | Hr].
      - pose proof (initHighlightingRulesPre_guarded flag) as F.
        rewrite forallb_forall in F. auto.
      - pose proof initHighlightingRulesAfter_guarded as F.
        rewrite forallb_forall in F. auto. }
    unfold trailingRuleGuarded in G. rewrite S, Z.eqb_refl in G. simpl in G.
    apply andb_true_iff in G. destruct G as [G G2].
    apply andb_true_iff in G. destruct G as [G0 G1].
    apply String.eqb_eq in G0.
    assert (E1 : shouldContain1 r = "") by (destruct (shouldContain1 r); auto; discriminate).
    assert (E2 : shouldContain2 r = "") by (destruct (shouldContain2 r); auto; discriminate).
    repeat split; auto.
    unfold ruleMayMatch. rewrite G0, E1, E2, (contains_space_newline text N).
    reflexivity.
Qed.

(** C10, witness: a line that ends in spaces, in a document of its own. *)
Lemma highlightBlock_sets_no_trailing_space_witness :
  noTrailingSpace
    (formatChanges
       (fst (run (highlightBlock sampleEnvironment "ends in spaces   ")
                 (withFormatChanges (highlighterAt [("ends in spaces   ", -1)] 0)
                                    [])))) /\
  (exists r, In r (_highlightingRulesAfter
                     (highlighterAt [("ends in spaces   ", -1)] 0)) /\
             state r = TrailingSpace) /\
  forall r, In r (_highlightingRulesPre (highlighterAt [("ends in spaces   ", -1)] 0)
                  ++ _highlightingRulesAfter
                       (highlighterAt [("ends in spaces   ", -1)] 0)) ->
            state r = TrailingSpace ->
            shouldContain0 r = String " " (QString.single QChar.newline) /\
            shouldContain1 r = "" /\ shouldContain2 r = "" /\
            ruleMayMatch r "ends in spaces   " = false.
Proof.
  apply (highlightBlock_sets_no_trailing_space sampleEnvironment false).
  - reflexivity.
  - reflexivity.
  - vm_compute. reflexivity.
Defined.

(* ------------------------------------------------------------------------- *)
(** ** Programs that end with a result *)

Lemma hoare_bind {A B : Type} (P : Highlighter -> Prop)
      (Q : A -> Highlighter -> Prop) (R : B -> Highlighter -> Prop)
      (p : Prog A) (f : A -> Prog B) :
  hoare P p Q -> (forall a, hoare (Q a) (f a) R) -> hoare P (bind p f) R.
Proof.
  intros Hp Hf h Ph. rewrite run_bind.
  destruct (Hp h Ph) as [a [E Qa]].
  destruct (run p h) as [h1 r]. simpl in E, Qa. subst r.
  apply Hf. exact Qa.
Qed.

Lemma hoare_ret {A : Type} (P : Highlighter -> Prop) (a : A) :
  hoare P (Ret a) (fun _ => P).
Proof. intros h Ph. exists a. split; [reflexivity | exact Ph]. Qed.

Lemma hoare_consequence {A : Type} (P P' : Highlighter -> Prop)
      (Q Q' : A -> Highlighter -> Prop) (p : Prog A) :
  (forall h, P' h -> P h) -> (forall a h, Q a h -> Q' a h) ->
  hoare P p Q -> hoare P' p Q'.
Proof.
  intros HP HQ Hp h Ph. destruct (Hp h (HP h Ph)) as [a [E Qa]].
  exists a. split; auto.
Qed.

(** A program that obeys a discipline without faults keeps what each of its
    calls keeps, and ends with a result. *)
Lemma hoare_obeys (ok : Call -> Prop) (I : Highlighter -> Prop) {A : Type}
      (p : Prog A) :
  (forall c h, ok c -> I h -> I (fst (perform c h))) ->
  obeys (discipline ok False) p -> hoare I p (fun _ => I).
Proof.
  intros Hc Hp h Ih. destruct (obeys_done ok A p h Hp) as [a E].
  exists a. split; [exact E |].
  apply (obeys_keeps ok False I Hc A p Hp h Ih).
Qed.

Lemma run_call (c : Call) (h : Highlighter) :
  run (call c) h = (fst (perform c h), Done (snd (perform c h))).
Proof. unfold call. simpl. destruct (perform c h); reflexivity. Qed.

Lemma perform_around (h0 : Highlighter) (c : Call) (h : Highlighter) :
  setsCurrentStateOnly c -> around h0 h -> around h0 (fst (perform c h)).
Proof.
  intros Hc [E S]. split.
  - eapply Extends_trans; [exact E | apply perform_Extends].
  - rewrite <- S.
    pose proof (obeys_keeps_previousState setsCurrentStateOnly False (call c) h
                  (fun c H => H)
                  (obeys_call (discipline setsCurrentStateOnly False) c Hc)) as K.
    rewrite run_call in K. exact K.
Qed.

Lemma markup_around (h0 : Highlighter) {A : Type} (p : Prog A) :
  obeys markup p -> hoare (around h0) p (fun _ => around h0).
Proof.
  apply hoare_obeys. intros c h Hc. apply perform_around. apply Hc.
Qed.

Lemma plain_markup {A : Type} (p : Prog A) : obeys plainMarkup p -> obeys markup p.
Proof. apply obeys_discipline; auto. unfold scannerCall. tauto. Qed.

Lemma around_refl (h : Highlighter) : around h h.
Proof. split; [apply Extends_refl | reflexivity]. Qed.

(** What a state [around] the first one has in common with it. *)
Lemma around_textOf (h0 h : Highlighter) (b : BlockRef) :
  around h0 h -> textOf h b = textOf h0 b.
Proof. intros [E _]. apply Extends_textOf. exact E. Qed.

Lemma around_isValidRef (h0 h : Highlighter) (b : BlockRef) :
  around h0 h -> isValidRef h b = isValidRef h0 b.
Proof. intros [E _]. apply Extends_isValidRef. exact E. Qed.

Lemma around_blockNumber (h0 h : Highlighter) (b : BlockRef) :
  around h0 h -> blockNumber h b = blockNumber h0 b.
Proof. intros [E _]. apply Extends_blockNumber. exact E. Qed.

(** The state of the current block is that of the last [setUserState]. *)
Lemma stateOf_perform_SetFormat (h : Highlighter) (b : BlockRef) start count f :
  stateOf (fst (perform (SetFormat start count f) h)) b = stateOf h b.
Proof. reflexivity. Qed.

Lemma stateOf_perform_FormatsSetFontPointSize (h : Highlighter) (b : BlockRef) k s :
  stateOf (fst (perform (FormatsSetFontPointSize k s) h)) b = stateOf h b.
Proof. reflexivity. Qed.

Lemma stateOf_perform_SetHighlightingFinished (h : Highlighter) (b : BlockRef) v :
  stateOf (fst (perform (SetHighlightingFinished v) h)) b = stateOf h b.
Proof. reflexivity. Qed.

Lemma startsWith_fence (text : string) :
  QString.startsWith text "```" = true ->
  exists rest, text = String "`" (String "`" (String "`" rest)).
Proof.
  unfold QString.startsWith. intros H.
  destruct text as [| a text]; cbn [String.prefix] in H; [discriminate |].
  destruct (ascii_dec "`" a); [| discriminate].
  destruct text as [| b text]; cbn [String.prefix] in H; [discriminate |].
  destruct (ascii_dec "`" b); [| discriminate].
  destruct text as [| c text]; cbn [String.prefix] in H; [discriminate |].
  destruct (ascii_dec "`" c); [| discriminate].
  subst. exists text. reflexivity.
Qed.

(** A line that starts with a backquote is no headline of its own; it may
    stand above an underline. *)
Lemma highlightHeadline_backquote (rest : string) :
  obeys markup (highlightHeadline (String "`" rest)).
Proof.
  unfold highlightHeadline.
  change (charAt (String "`" rest) 0) with (Ret (A := ascii) "`"%char).
  cbn [bind]. change (Ascii.eqb "`" "#") with false. cbv iota. cbn [bind].
  change (0 <? 0) with false. cbv iota.
  change (hasOnlyHeadChars (String "`" rest) "=") with false.
  change (hasOnlyHeadChars (String "`" rest) "-") with false.
  cbv iota. scan.
Qed.

(* ------------------------------------------------------------------------- *)
(** ** C5: the line of a code fence *)

Lemma not_code_block_state (s : Z) :
  negb (s =? CodeBlock) && negb (s =? CodeBlockComment) && (s <? CodeCpp) =
  negb (isCodeBlockState s).
Proof.
  unfold isCodeBlockState. rewrite !negb_orb. f_equal.
  unfold Z.geb, Z.ltb. destruct (s ?= CodeCpp); reflexivity.
Qed.

Lemma formatChanges_perform_SetFormat (h : Highlighter) start count f :
  formatChanges (fst (perform (SetFormat start count f) h)) =
  formatChanges h ++ [mkAnnotation start count f].
Proof. reflexivity. Qed.

Lemma formatChanges_perform_SetHighlightingFinished (h : Highlighter) v :
  formatChanges (fst (perform (SetHighlightingFinished v) h)) = formatChanges h.
Proof. reflexivity. Qed.

Lemma eqb_fence_dashes (rest : string) :
  String.eqb (String "`" (String "`" (String "`" rest))) "---" = false.
Proof. reflexivity. Qed.

Section FenceLine.

Variable env : Environment.
Variable h0 : Highlighter.
Variable text : string.

Hypothesis current_valid : isValidRef h0 Current = true.
Hypothesis fence_text : QString.startsWith text "```" = true.

Lemma rules_and_headline_markup :
  obeys markup
        (if negb (QString.isEmpty text) then
           pre <- call HighlightingRulesPre ;;
           highlightAdditionalRules env pre text ;;
           highlightHeadline text ;;
           after <- call HighlightingRulesAfter ;;
           highlightAdditionalRules env after text
         else Ret tt)%prog.
Proof.
  destruct (startsWith_fence text fence_text) as [rest E]. rewrite E.
  cbn [QString.isEmpty negb].
  pose proof (highlightHeadline_backquote (String "`" (String "`" rest))).
  pose proof (highlightAdditionalRules_markup env).
  scan.
Qed.

Lemma stateOf_after_set (s : Z) (h : Highlighter) :
  around h0 h -> stateOf (setState Current s h) Current = s.
Proof.
  intros I. rewrite stateOf_setState_same.
  rewrite (around_isValidRef h0 h Current I), current_valid. reflexivity.
Qed.

Lemma highlightCodeBlock_fence_state :
  hoare (around h0) (highlightCodeBlock env text)
        (fun _ h => around h0 h /\ stateOf h Current = codeStateOfFence h0 text /\
                    endsWithMasked text h).
Proof.
  intros h I. unfold highlightCodeBlock. rewrite fence_text.
  rewrite run_bind_previousBlockState. rewrite (proj2 I).
  rewrite not_code_block_state. unfold codeStateOfFence.
  assert (Step : forall s : Z,
             exists a,
               snd (run (setCurrentBlockState s ;;
                         codeBlockFormat <- call (Formats CodeBlock) ;;
                         call (FormatsSetFontPointSize
                                 MaskedSyntax (fontPointSize codeBlockFormat)) ;;
                         maskedFormat <- call (Formats MaskedSyntax) ;;
                         setFormat 0 (QString.length text) maskedFormat)%prog h)
               = Done a /\
               around h0 (fst (run (setCurrentBlockState s ;;
                         codeBlockFormat <- call (Formats CodeBlock) ;;
                         call (FormatsSetFontPointSize
                                 MaskedSyntax (fontPointSize codeBlockFormat)) ;;
                         maskedFormat <- call (Formats MaskedSyntax) ;;
                         setFormat 0 (QString.length text) maskedFormat)%prog h)) /\
               stateOf (fst (run (setCurrentBlockState s ;;
                         codeBlockFormat <- call (Formats CodeBlock) ;;
                         call (FormatsSetFontPointSize
                                 MaskedSyntax (fontPointSize codeBlockFormat)) ;;
                         maskedFormat <- call (Formats MaskedSyntax) ;;
                         setFormat 0 (QString.length text) maskedFormat)%prog h))
                       Current = s /\
               endsWithMasked text
                 (fst (run (setCurrentBlockState s ;;
                         codeBlockFormat <- call (Formats CodeBlock) ;;
                         call (FormatsSetFontPointSize
                                 MaskedSyntax (fontPointSize codeBlockFormat)) ;;
                         maskedFormat <- call (Formats MaskedSyntax) ;;
                         setFormat 0 (QString.length text) maskedFormat)%prog h))).
  { intros s. unfold setCurrentBlockState, setFormat, call. cbn [bind].
    rewrite !run_Do. fold_setState. cbn [run fst snd].
    exists tt. split; [reflexivity |]. split; [| split].
    - repeat (apply perform_around; [exact Logic.I |]). exact I.
    - rewrite stateOf_perform_SetFormat.
      change (stateOf (fst (perform (Formats MaskedSyntax) ?x)) Current)
        with (stateOf x Current).
      rewrite stateOf_perform_FormatsSetFontPointSize.
      change (stateOf (fst (perform (Formats CodeBlock) ?x)) Current)
        with (stateOf x Current).
      apply stateOf_after_set. exact I.
    - eexists. eexists. split.
      + apply formatChanges_perform_SetFormat.
      + reflexivity. }
  destruct (isCodeBlockState (stateOf h0 Previous)); cbn [negb].
  - apply Step.
  - cbv zeta. destruct (value _ _ >=? CodeCpp); apply Step.
Qed.

Lemma highlightFrontmatterBlock_fence_state (s : Z) :
  hoare (fun h => around h0 h /\ stateOf h Current = s /\ endsWithMasked text h)
        (highlightFrontmatterBlock text)
        (fun _ h => stateOf h Current =
                    (if inFrontmatter h0 then FrontmatterBlock else s) /\
                    endsWithMasked text h).
Proof.
  intros h (I & S & M). unfold highlightFrontmatterBlock, inFrontmatter.
  cbn [bind call]. rewrite run_Do. cbn [perform fst snd]. fold_stateOf.
  rewrite (around_textOf h0 h First I).
  destruct (String.eqb (textOf h0 First) "---"); cbn [negb andb].
  - destruct (startsWith_fence text fence_text) as [rest E].
    assert (D : String.eqb text "---" = false) by (rewrite E; reflexivity).
    rewrite D. rewrite run_bind_previousBlockState. rewrite (proj2 I).
    destruct (stateOf h0 Previous =? FrontmatterBlock).
    + unfold setCurrentBlockState, setFormatOf, setFormat, call. cbn [bind].
      rewrite !run_Do. fold_setState. cbn [run fst snd].
      exists tt. split; [reflexivity |]. split.
      * rewrite stateOf_perform_SetFormat.
        change (stateOf (fst (perform (Formats MaskedSyntax) ?x)) Current)
          with (stateOf x Current).
        apply stateOf_after_set. exact I.
      * eexists. eexists. split.
        -- apply formatChanges_perform_SetFormat.
        -- reflexivity.
    + exists tt. cbn [run fst snd]. auto.
  - exists tt. cbn [run fst snd]. auto.
Qed.

(** The pass over the line of a fence, from the state [h0]. *)
Lemma highlightBlock_fence :
  hoare (fun h => h = h0) (highlightBlock env text)
        (fun _ h => stateOf h Current =
                    (if inFrontmatter h0 then FrontmatterBlock
                     else codeStateOfFence h0 text) /\
                    endsWithMasked text h).
Proof.
  unfold highlightBlock.
  apply (hoare_bind _ (fun _ => around h0)).
  { apply (hoare_consequence (around h0) _ (fun _ => around h0)).
    - intros h E. subst. apply around_refl.
    - auto.
    - apply markup_around. scan. }
  intros _. apply (hoare_bind _ (fun _ => around h0));
    [apply markup_around; scan | intros _].
  apply (hoare_bind _ (fun _ h => stateOf h Current =
                                  (if inFrontmatter h0 then FrontmatterBlock
                                   else codeStateOfFence h0 text) /\
                                  endsWithMasked text h)).
  - unfold highlightMarkdown.
    apply (hoare_bind _ (fun _ => around h0));
      [apply markup_around, rules_and_headline_markup | intros _].
    apply (hoare_bind _ (fun _ => around h0));
      [apply markup_around, plain_markup, highlightCommentBlock_plain | intros _].
    apply (hoare_bind _ (fun _ h => around h0 h /\ stateOf h Current = codeStateOfFence h0 text /\
                                    endsWithMasked text h));
      [apply highlightCodeBlock_fence_state | intros _].
    apply highlightFrontmatterBlock_fence_state.
  - intros _ h [S M]. unfold call. rewrite run_Do. cbn [run fst snd]. exists tt.
    split; [reflexivity |].
    rewrite stateOf_perform_SetHighlightingFinished. split; [exact S |].
    destruct M as [l [f [M1 M2]]]. exists l, f.
    rewrite formatChanges_perform_SetHighlightingFinished. auto.
Qed.

End FenceLine.

(** The result of the pass over the line of a fence. *)
Lemma highlightCurrentBlock_fence (env : Environment) (h : Highlighter) :
  isValidRef h Current = true ->
  QString.startsWith (textOf h Current) "```" = true ->
  exists before masked,
    styleId masked = Some MaskedSyntax /\
    highlightCurrentBlock env h =
    (before ++ [mkAnnotation 0 (QString.length (textOf h Current)) masked],
     (if inFrontmatter h then FrontmatterBlock
      else if isCodeBlockState (stateOf h Previous) then CodeBlockEnd
      else if value _langStringToEnum
                    (QString.toLower
                       (QString.mid (textOf h Current) 3
                                    (QString.length (textOf h Current))))
              >=? CodeCpp
           then value _langStringToEnum
                      (QString.toLower
                         (QString.mid (textOf h Current) 3
                                      (QString.length (textOf h Current))))
           else CodeBlock),
     Done tt).
Proof.
  intros V F. unfold highlightCurrentBlock.
  destruct (highlightBlock_fence env (withFormatChanges h []) (textOf h Current)
              V F (withFormatChanges h []) eq_refl)
    as [[] [E [S [l [f [M1 M2]]]]]].
  change (textOfBlock (document h) (blockNumber h Current))
    with (textOf h Current).
  destruct (run (highlightBlock env (textOf h Current)) (withFormatChanges h []))
    as [h' r].
  cbn [fst snd] in E, S, M1. subst r. exists l, f. split; [exact M2 |].
  rewrite M1. unfold stateOf in S at 1. rewrite S. reflexivity.
Qed.

(** C5 (as amended).  A line that itself starts with three backquotes (the
    line is not trimmed first) ends the pass with a format of the style
    [MaskedSyntax] over the whole line set last, and in the state
    - [FrontmatterBlock], inside a front matter;
    - else [CodeBlockEnd], when the previous line is in a code block state;
    - else the state registered for what follows the backquotes, in lower
      case, or [CodeBlock] when nothing is registered for it. *)
Theorem fence_line_state (env : Environment) (h : Highlighter) :
  isValidRef h Current = true ->
  QString.startsWith (textOf h Current) "```" = true ->
  exists before masked,
    styleId masked = Some MaskedSyntax /\
    highlightCurrentBlock env h =
    (before ++ [mkAnnotation 0 (QString.length (textOf h Current)) masked],
     (if inFrontmatter h then FrontmatterBlock
      else if isCodeBlockState (stateOf h Previous) then CodeBlockEnd
      else if value _langStringToEnum
                    (QString.toLower
                       (QString.mid (textOf h Current) 3
                                    (QString.length (textOf h Current))))
              >=? CodeCpp
           then value _langStringToEnum
                      (QString.toLower
                         (QString.mid (textOf h Current) 3
                                      (QString.length (textOf h Current))))
           else CodeBlock),
     Done tt).
Proof. apply highlightCurrentBlock_fence. Qed.

(** C5, witness: the fence that opens a block of C++ at the start of a
    document. *)
Lemma fence_line_state_witness :
  exists before masked,
    styleId masked = Some MaskedSyntax /\
    highlightCurrentBlock sampleEnvironment (highlighterAt [("```cpp", NoState)] 0) =
    (before ++ [mkAnnotation 0 6 masked], CodeCpp, Done tt).
Proof.
  apply (fence_line_state sampleEnvironment (highlighterAt [("```cpp", NoState)] 0)).
  - vm_compute. reflexivity.
  - vm_compute. reflexivity.
Defined.

(** C5, counterexample: a fence behind a space is no fence to the block
    machine, though the trimmed line starts with three backquotes: as the
    first line it opens no block (the state stays [NoState], and no format
    covers the line), and inside a block of C++ it closes none (the state
    stays [CodeCpp]); and a fence inside a front matter leaves the line in
    the state [FrontmatterBlock]. *)
Lemma indented_fence_is_no_fence :
  QString.startsWith (QString.trimmed " ```cpp") "```" = true /\
  summary (highlightCurrentBlock sampleEnvironment
             (highlighterAt [(" ```cpp", NoState)] 0)) =
  ([(1, 3, Some MaskedSyntax); (2, 1, Some InlineCodeBlock)], NoState, Done tt) /\
  QString.startsWith (QString.trimmed " ```") "```" = true /\
  summary (highlightCurrentBlock sampleEnvironment
             (highlighterAt [("```cpp", CodeCpp); ("int x;", CodeCpp);
                             (" ```", NoState)] 2)) =
  ([(1, 3, Some MaskedSyntax); (2, 1, Some InlineCodeBlock);
    (0, 4, Some CodeBlock)], CodeCpp, Done tt) /\
  summary (highlightCurrentBlock sampleEnvironment
             (highlighterAt [("---", FrontmatterBlock); ("```cpp", NoState)] 1)) =
  ([(0, 3, Some MaskedSyntax); (1, 1, Some InlineCodeBlock);
    (0, 6, Some MaskedSyntax); (0, 6, Some MaskedSyntax)],
   FrontmatterBlock, Done tt).
Proof.
  split; [vm_compute; reflexivity |].
  split; [vm_compute; reflexivity |].
  split; [vm_compute; reflexivity |].
  split; vm_compute; reflexivity.
Qed.

(* ------------------------------------------------------------------------- *)
(** ** C1: the tag [go] in the language registry *)

Lemma toLower_backquote (c : ascii) :
  QChar.toLower c = "`"%char -> c = "`"%char.
Proof.
  destruct c as [[] [] [] [] [] [] [] []]; vm_compute; intros H;
    first [reflexivity | discriminate].
Qed.

Lemma go_fence_text (text : string) :
  QString.toLower text = "```go" ->
  QString.startsWith text "```" = true /\
  QString.toLower (QString.mid text 3 (QString.length text)) = "go".
Proof.
  intros H.
  destruct text as [| a [| b [| c [| d [| e [| f r]]]]]]; simpl in H;
    try discriminate.
  injection H as Ha Hb Hc Hd He.
  apply toLower_backquote in Ha, Hb, Hc. subst a b c.
  split; [reflexivity |].
  change (QString.mid (String "`" (String "`" (String "`" (String d (String e "")))))
                      3 (QString.length
                           (String "`" (String "`" (String "`"
                              (String d (String e "")))))))
    with (String d (String e "")).
  simpl. rewrite Hd, He. reflexivity.
Qed.

Lemma registry_but_for_go (tag : string) :
  value _langStringToEnum tag =
  if String.eqb "go" tag then CodeCSharp else value languageRegistryOfSpec tag.
Proof.
  unfold _langStringToEnum, initCodeLangs, languageRegistryOfSpec.
  cbn [value].
  repeat match goal with
         | |- context [String.eqb ?k tag] =>
             let E := fresh "E" in
             destruct (String.eqb k tag) eqn:E;
             [apply String.eqb_eq in E; subst tag; vm_compute; reflexivity |]
         end.
  reflexivity.
Qed.

(** C1.  A fence with the tag [go], in any case of its letters, that opens a
    block leaves its line in the state [CodeCSharp], where the table of the
    specification has [CodeGo]; on every other tag the registry and the
    table of the specification agree. *)
Theorem go_fence_state_is_CSharp (env : Environment) (h : Highlighter) :
  isValidRef h Current = true ->
  QString.toLower (textOf h Current) = "```go" ->
  isCodeBlockState (stateOf h Previous) = false ->
  inFrontmatter h = false ->
  snd (fst (highlightCurrentBlock env h)) = CodeCSharp /\
  fenceStateOfSpec "go" = CodeGo /\
  CodeGo <> CodeCSharp /\
  forall tag,
    value _langStringToEnum tag =
    if String.eqb "go" tag then CodeCSharp else value languageRegistryOfSpec tag.
Proof.
  intros V T P F. destruct (go_fence_text _ T) as [S G].
  split; [| split; [reflexivity | split; [discriminate | apply registry_but_for_go]]].
  destruct (highlightCurrentBlock_fence env h V S) as [before [masked [_ E]]].
  rewrite E, F, P, G. reflexivity.
Qed.

(** C1, witness: the fence [```GO] at the start of a document. *)
Lemma go_fence_state_is_CSharp_witness :
  snd (fst (highlightCurrentBlock sampleEnvironment
              (highlighterAt [("```GO", NoState)] 0))) = CodeCSharp /\
  fenceStateOfSpec "go" = CodeGo /\
  CodeGo <> CodeCSharp /\
  forall tag,
    value _langStringToEnum tag =
    if String.eqb "go" tag then CodeCSharp else value languageRegistryOfSpec tag.
Proof.
  apply (go_fence_state_is_CSharp sampleEnvironment
           (highlighterAt [("```GO", NoState)] 0)).
  - vm_compute. reflexivity.
  - vm_compute. reflexivity.
  - vm_compute. reflexivity.
  - vm_compute. reflexivity.
Defined.

(* ------------------------------------------------------------------------- *)
(** ** C2: a hexadecimal literal *)

(** C2.  On the line [int x = 0x2A;] the scanner of numeric literals, at the
    [0] of [0x2A], skips [0x] and stops at [2A;] without a format: the loop
    over the digits admits no letter, and after it the character [A] is none
    of those that may follow a number.  In a block of C++ the line gets the
    format of the block and that of the type [int], and none for [0x2A];
    the literal [0x20], of decimal digits, gets one. *)
Theorem hex_literal_is_no_numeric_literal :
  (forall h, run (highlightNumericLiterals "int x = 0x2A;" 8) h = (h, Done 10)) /\
  summary (highlightCurrentBlock sampleEnvironment
             (highlighterAt [("```cpp", CodeCpp); ("int x = 0x2A;", NoState)] 1)) =
  ([(0, 13, Some CodeBlock); (0, 3, Some CodeType)], CodeCpp, Done tt) /\
  summary (highlightCurrentBlock sampleEnvironment
             (highlighterAt [("```cpp", CodeCpp); ("int x = 0x20;", NoState)] 1)) =
  ([(0, 13, Some CodeBlock); (0, 3, Some CodeType); (8, 4, Some CodeNumLiteral)],
   CodeCpp, Done tt).
Proof.
  split; [intros h; vm_compute; reflexivity |].
  split; vm_compute; reflexivity.
Qed.

(* ------------------------------------------------------------------------- *)
(** ** C3: reads outside the line *)

(** C3.  In a block of YAML a line that is one space makes [ymlHighlighter]
    read the character 0 of the empty, trimmed line: the pass over the line
    ends in a read out of range, whatever the environment.  So does a line
    [<] in a block of XML, where the character behind the [<] is read.  And
    the comment [// c] at index 2 of a line of 6 characters in a block of C++
    is given a format of the length of the whole line, which ends behind
    the line. *)
Theorem yaml_blank_line_read_out_of_range :
  QString.charAt (QString.trimmed " ") 0 = None /\
  (forall h, snd (run (ymlHighlighter " ") h) = ReadOutOfRange) /\
  (forall env,
      summary (highlightCurrentBlock env
                 (highlighterAt [("```yaml", CodeYAML); (" ", NoState)] 1)) =
      ([(0, 1, Some CodeBlock)], CodeYAML, ReadOutOfRange)) /\
  summary (highlightCurrentBlock sampleEnvironment
             (highlighterAt [("```xml", CodeXML); ("<", NoState)] 1)) =
  ([(0, 1, Some CodeBlock)], CodeXML, ReadOutOfRange) /\
  summary (highlightCurrentBlock sampleEnvironment
             (highlighterAt [("```cpp", CodeCpp); ("x // c", NoState)] 1)) =
  ([(0, 6, Some CodeBlock); (2, 6, Some CodeComment)], CodeCpp, Done tt) /\
  QString.length "x // c" < 2 + 6.
Proof.
  split; [vm_compute; reflexivity |].
  split; [intros h; vm_compute; reflexivity |].
  split; [intros env; vm_compute; reflexivity |].
  split; [vm_compute; reflexivity |].
  split; vm_compute; reflexivity.
Qed.

(* ------------------------------------------------------------------------- *)
(** ** C7: the line above an underline *)

(** C7.  No pass over a line changes the queue of dirty blocks.  With the
    lines [Title] and [=====], the pass over the underline sets one format
    of the style [MaskedSyntax] and the size of [H1] over it, ends in the
    state [HeadlineEnd] and sets the state of the line above to [H1]; that
    line is given no format and is not queued, and the next tick finds
    nothing to do. *)
Theorem underline_never_requeues_title :
  (forall env text h,
      _dirtyTextBlocks (fst (run (highlightBlock env text) h)) = _dirtyTextBlocks h) /\
  forall env,
    highlightCurrentBlock env (highlighterAt [("Title", NoState); ("=====", NoState)] 1) =
    ([mkAnnotation 0 5
        (setFontPointSize
           (formatOf (initTextFormats 12 (10 # 1)) MaskedSyntax)
           (fontPointSize (formatOf (initTextFormats 12 (10 # 1)) H1)))],
     HeadlineEnd, Done tt) /\
    map userState
        (document (fst (rehighlightBlock env 1
                          (highlighterAt [("Title", NoState); ("=====", NoState)]
                                         (-1))))) = [H1; HeadlineEnd] /\
    map (fun b => styles (layoutFormats b))
        (document (fst (rehighlightBlock env 1
                          (highlighterAt [("Title", NoState); ("=====", NoState)]
                                         (-1))))) =
    [[]; [(0, 5, Some MaskedSyntax)]] /\
    _dirtyTextBlocks (fst (rehighlightBlock env 1
                             (highlighterAt [("Title", NoState); ("=====", NoState)]
                                            (-1)))) = [] /\
    fst (reHighlightDirtyBlocks env 1
           (fst (rehighlightBlock env 1
                   (highlighterAt [("Title", NoState); ("=====", NoState)] (-1))))) = [].
Proof.
  split; [intros env text h; apply highlightBlock_queue |].
  intros env.
  split; [vm_compute; reflexivity |].
  split; [vm_compute; reflexivity |].
  split; [vm_compute; reflexivity |].
  split; vm_compute; reflexivity.
Qed.

(* ------------------------------------------------------------------------- *)
(** ** C8: a colon in a path, in YAML *)

(** C8.  The test for a path behind a colon asks one character to be both a
    backslash and a slash, which none is: the word before the colon of
    [C:\x] and of [C:/x] is given the format of a keyword like any other. *)
Theorem yaml_path_colon_is_keyword :
  (forall c, Ascii.eqb c QChar.backslash && Ascii.eqb c "/" = false) /\
  (forall h,
      styles (formatChanges
                (fst (run (ymlHighlighter "C:\x") (withFormatChanges h [])))) =
      [(0, 1, Some CodeKeyWord)]) /\
  (forall h,
      styles (formatChanges
                (fst (run (ymlHighlighter "C:/x") (withFormatChanges h [])))) =
      [(0, 1, Some CodeKeyWord)]) /\
  summary (highlightCurrentBlock sampleEnvironment
             (highlighterAt [("```yaml", CodeYAML); ("C:\x", NoState)] 1)) =
  ([(0, 4, Some CodeBlock); (0, 1, Some CodeKeyWord)], CodeYAML, Done tt) /\
  summary (highlightCurrentBlock sampleEnvironment
             (highlighterAt [("```yaml", CodeYAML); ("C:/x", NoState)] 1)) =
  ([(0, 4, Some CodeBlock); (0, 1, Some CodeKeyWord)], CodeYAML, Done tt).
Proof.
  split.
  { intros c. destruct (Ascii.eqb c QChar.backslash) eqn:E; [| reflexivity].
    apply Ascii.eqb_eq in E. subst c. reflexivity. }
  split; [intros h; vm_compute; reflexivity |].
  split; [intros h; vm_compute; reflexivity |].
  split; vm_compute; reflexivity.
Qed.

(* ------------------------------------------------------------------------- *)
(** ** C6: the line of a heading *)

Lemma QString_length_nonneg (s : string) : 0 <= QString.length s.
Proof. unfold QString.length. lia. Qed.

Lemma length_headingText (k : nat) (rest : string) :
  QString.length (headingText k rest) = Z.of_nat k + 1 + QString.length rest.
Proof.
  unfold QString.length, headingText.
  induction k as [| k IH]; cbn [hashes String.append String.length].
  - lia.
  - lia.
Qed.

Lemma get_headingText_hash (k : nat) (rest : string) :
  forall n, (n < k)%nat -> String.get n (headingText k rest) = Some "#"%char.
Proof.
  unfold headingText. induction k as [| k IH]; intros n L; [lia |].
  destruct n as [| n]; cbn [hashes String.append String.get]; auto.
  apply IH. lia.
Qed.

Lemma get_headingText_space (k : nat) (rest : string) :
  String.get k (headingText k rest) = Some " "%char.
Proof.
  unfold headingText. induction k as [| k IH];
    cbn [hashes String.append String.get]; auto.
Qed.

Lemma charAt_headingText_hash (k : nat) (rest : string) (i : Z) :
  0 <= i < Z.of_nat k -> charAt (headingText k rest) i = Ret "#"%char.
Proof.
  intros L. unfold charAt, QString.charAt.
  destruct (i <? 0) eqn:E; [apply Z.ltb_lt in E; lia |].
  rewrite get_headingText_hash by lia. reflexivity.
Qed.

Lemma charAt_headingText_space (k : nat) (rest : string) :
  charAt (headingText k rest) (Z.of_nat k) = Ret " "%char.
Proof.
  unfold charAt, QString.charAt.
  destruct (Z.of_nat k <? 0) eqn:E; [apply Z.ltb_lt in E; lia |].
  rewrite Nat2Z.id, get_headingText_space. reflexivity.
Qed.

Lemma headingMarks_headingText (k : nat) (rest : string) (fuel : nat) :
  forall i, 1 <= i <= Z.of_nat k -> Z.of_nat k <= 6 ->
            6 - i < Z.of_nat fuel ->
            headingMarks fuel (headingText k rest) i = Ret (Z.of_nat k).
Proof.
  induction fuel as [| fuel IH]; intros i Hi K F; [lia |].
  cbn [headingMarks].
  pose proof (QString_length_nonneg rest) as R.
  destruct (i <? QString.length (headingText k rest)) eqn:L;
    [| apply Z.ltb_ge in L; rewrite length_headingText in L; lia].
  destruct (Z.eq_dec i (Z.of_nat k)) as [E | E].
  - subst i. rewrite charAt_headingText_space. reflexivity.
  - rewrite charAt_headingText_hash by lia. cbn [bind].
    change (Ascii.eqb "#" "#") with true. cbn [andb].
    destruct (i <? 6) eqn:S; [| apply Z.ltb_ge in S; lia].
    apply IH; lia.
Qed.

(** [trimmed] keeps the mark that starts a line. *)
Lemma string_of_list_ascii_snoc (l : list ascii) (c : ascii) :
  exists s, forall l', string_of_list_ascii (l ++ c :: l') =
                       String.append s (String c (string_of_list_ascii l')).
Proof.
  induction l as [| a l [s IH]].
  - exists EmptyString. reflexivity.
  - exists (String a s). intros l'. simpl. rewrite IH. reflexivity.
Qed.

Lemma trimLeft_before_hash (l : list ascii) :
  exists l', QString.trimLeft (string_of_list_ascii (l ++ ["#"%char])) =
             string_of_list_ascii (l' ++ ["#"%char]).
Proof.
  induction l as [| a l [l' IH]].
  - exists []. reflexivity.
  - cbn [app string_of_list_ascii QString.trimLeft].
    destruct (QChar.isSpace a).
    + exists l'. exact IH.
    + exists (a :: l). reflexivity.
Qed.

Lemma trimmed_hash (r : string) :
  exists r', QString.trimmed (String "#" r) = String "#" r'.
Proof.
  unfold QString.trimmed.
  change (QString.trimLeft (String "#" r)) with (String "#" r).
  unfold QString.reverse at 2. cbn [list_ascii_of_string rev].
  destruct (trimLeft_before_hash (rev (list_ascii_of_string r))) as [l' E].
  rewrite E. unfold QString.reverse.
  rewrite list_ascii_of_string_of_list_ascii, rev_app_distr.
  eexists. reflexivity.
Qed.

Lemma headingText_hash (k : nat) (rest : string) :
  (1 <= k)%nat -> exists r, headingText k rest = String "#" r.
Proof.
  intros K. destruct k as [| k]; [lia |]. eexists. reflexivity.
Qed.

Lemma formatChanges_setState (b : BlockRef) (s : Z) (h : Highlighter) :
  formatChanges (setState b s h) = formatChanges h.
Proof. reflexivity. Qed.

Lemma perform_headed (h0 : Highlighter) (state count : Z) (c : Call)
      (h : Highlighter) :
  markupCall c /\ keepsStates c ->
  headed h0 state count h -> headed h0 state count (fst (perform c h)).
Proof.
  intros [M K] (Ar & S & [f [F1 F2]]).
  pose proof (perform_Extends c h) as E.
  split; [| split].
  - apply perform_around; [apply M | exact Ar].
  - unfold stateOf. rewrite (Extends_blockNumber _ _ _ E).
    rewrite (perform_keepsStates (document h) c h K eq_refl). exact S.
  - exists f. split; [| exact F2].
    destruct (ext_formats _ _ E) as [l L]. rewrite L.
    apply in_or_app. left. exact F1.
Qed.

Lemma keepingStates_headed (h0 : Highlighter) (state count : Z) {A : Type}
      (p : Prog A) :
  obeys markupKeepingStates p ->
  hoare (headed h0 state count) p (fun _ => headed h0 state count).
Proof. apply hoare_obeys. intros c h. apply perform_headed. Qed.

Lemma initHighlightingRulesAfter_keep_state :
  Forall (fun r => useStateAsCurrentBlockState r = false) initHighlightingRulesAfter.
Proof. repeat constructor. Qed.

Section HeadingLine.

Variable env : Environment.
Variable h0 : Highlighter.
Variable k : nat.
Variable rest : string.
Variable text : string.

Hypothesis text_heading : text = headingText k rest.
Hypothesis level : (1 <= k <= 6)%nat.
Hypothesis current_valid : isValidRef h0 Current = true.
Hypothesis rules_after : _highlightingRulesAfter h0 = initHighlightingRulesAfter.
Hypothesis previous_no_comment : stateOf h0 Previous <> Comment.
Hypothesis previous_no_code : isCodeBlockState (stateOf h0 Previous) = false.
Hypothesis no_frontmatter : inFrontmatter h0 = false.

Lemma highlightHeadline_heading :
  hoare (around h0) (highlightHeadline text)
        (fun _ => headed h0 (headingState k) (QString.length text)).
Proof.
  intros h Ar. unfold highlightHeadline. rewrite !text_heading.
  pose proof (QString_length_nonneg rest) as R.
  pose proof (length_headingText k rest) as L.
  rewrite (charAt_headingText_hash k rest 0) by lia.
  cbn [bind]. cbv beta zeta. change (Ascii.eqb "#" "#") with true. cbv iota.
  destruct (1 >=? QString.length (headingText k rest)) eqn:G;
    [apply Z.geb_le in G; lia |].
  rewrite (headingMarks_headingText k rest 6 1) by lia.
  cbn [bind].
  destruct (Z.of_nat k <? QString.length (headingText k rest)) eqn:G';
    [| apply Z.ltb_ge in G'; lia].
  rewrite charAt_headingText_space. cbn [bind].
  change (Ascii.eqb " " " ") with true. cbv iota.
  destruct (0 <? Z.of_nat k) eqn:G''; [| apply Z.ltb_ge in G''; lia].
  unfold setFormatOf, setFormat, setCurrentBlockMargin, setCurrentBlockState, call.
  cbn [bind]. rewrite !run_Do. fold_setState. cbn [run fst snd].
  exists tt. split; [reflexivity |]. fold (headingState k).
  assert (Ar' : around h0 (fst (perform
                                  (SetFormat 0 (QString.length (headingText k rest))
                                             (snd (perform (Formats (headingState k)) h)))
                                  (fst (perform (Formats (headingState k)) h))))).
  { repeat (apply perform_around; [exact Logic.I |]). exact Ar. }
  split; [| split].
  - apply (perform_around h0 (BlockSetUserState Current (headingState k)) _
                          Logic.I Ar').
  - apply (stateOf_after_set h0 current_valid). exact Ar'.
  - rewrite formatChanges_setState.
    exists (snd (perform (Formats (headingState k)) h)). split; [| reflexivity].
    rewrite formatChanges_perform_SetFormat. apply in_or_app. right. left.
    reflexivity.
Qed.

Lemma rules_and_headline_heading :
  hoare (around h0)
        (if negb (QString.isEmpty text) then
           pre <- call HighlightingRulesPre ;;
           highlightAdditionalRules env pre text ;;
           highlightHeadline text ;;
           after <- call HighlightingRulesAfter ;;
           highlightAdditionalRules env after text
         else Ret tt)%prog
        (fun _ => headed h0 (headingState k) (QString.length text)).
Proof.
  destruct (headingText_hash k rest (proj1 level)) as [r E].
  assert (N : QString.isEmpty text = false) by (rewrite text_heading, E; reflexivity).
  rewrite N. cbn [negb].
  apply (hoare_bind _ (fun _ => around h0)); [apply markup_around; scan | intros pre].
  apply (hoare_bind _ (fun _ => around h0));
    [apply markup_around, highlightAdditionalRules_markup | intros _].
  apply (hoare_bind _ (fun _ => headed h0 (headingState k) (QString.length text)));
    [apply highlightHeadline_heading | intros _].
  intros h Hd. rewrite run_bind_rulesAfter.
  rewrite (ext_after _ _ (proj1 (proj1 Hd))), rules_after.
  apply (keepingStates_headed h0 (headingState k) (QString.length text)); [| exact Hd].
  apply highlightAdditionalRules_keepingStates.
  apply initHighlightingRulesAfter_keep_state.
Qed.

Lemma highlightCommentBlock_heading :
  hoare (headed h0 (headingState k) (QString.length text)) (highlightCommentBlock text)
        (fun _ => headed h0 (headingState k) (QString.length text)).
Proof.
  intros h Hd. unfold highlightCommentBlock. cbv zeta.
  destruct (headingText_hash k rest (proj1 level)) as [r E].
  destruct (trimmed_hash r) as [r' T].
  assert (S : QString.startsWith (QString.trimmed text) "<!--" = false)
    by (rewrite text_heading, E, T; reflexivity).
  rewrite S. cbn [andb orb]. rewrite run_bind_previousBlockState.
  rewrite (proj2 (proj1 Hd)).
  destruct (stateOf h0 Previous =? Comment) eqn:C;
    [apply Z.eqb_eq in C; contradiction |].
  rewrite andb_false_r.
  apply (keepingStates_headed h0 (headingState k) (QString.length text)); [| exact Hd].
  scan.
Qed.

Lemma highlightCodeBlock_heading :
  hoare (headed h0 (headingState k) (QString.length text)) (highlightCodeBlock env text)
        (fun _ => headed h0 (headingState k) (QString.length text)).
Proof.
  intros h Hd. unfold highlightCodeBlock.
  destruct (headingText_hash k rest (proj1 level)) as [r E].
  assert (F : QString.startsWith text "```" = false)
    by (rewrite text_heading, E; reflexivity).
  rewrite F. rewrite run_bind_previousBlockState.
  rewrite (proj2 (proj1 Hd)), previous_no_code.
  exists tt. split; [reflexivity | exact Hd].
Qed.

Lemma highlightFrontmatterBlock_heading :
  hoare (headed h0 (headingState k) (QString.length text)) (highlightFrontmatterBlock text)
        (fun _ => headed h0 (headingState k) (QString.length text)).
Proof.
  intros h Hd. unfold highlightFrontmatterBlock.
  cbn [bind call]. rewrite run_Do. cbn [perform fst snd]. fold_stateOf.
  rewrite (around_textOf h0 h First (proj1 Hd)).
  unfold inFrontmatter in no_frontmatter.
  destruct (String.eqb (textOf h0 First) "---"); cbn [negb andb] in *.
  - destruct (headingText_hash k rest (proj1 level)) as [r E].
    assert (D : String.eqb text "---" = false)
      by (rewrite text_heading, E; reflexivity).
    rewrite D. rewrite run_bind_previousBlockState.
    rewrite (proj2 (proj1 Hd)), no_frontmatter.
    exists tt. split; [reflexivity | exact Hd].
  - exists tt. split; [reflexivity | exact Hd].
Qed.

(** The pass over the line of a heading, from the state [h0]. *)
Lemma highlightBlock_heading :
  hoare (fun h => h = h0) (highlightBlock env text)
        (fun _ => headed h0 (headingState k) (QString.length text)).
Proof.
  unfold highlightBlock.
  apply (hoare_bind _ (fun _ => around h0)).
  { apply (hoare_consequence (around h0) _ (fun _ => around h0)).
    - intros h E. subst. apply around_refl.
    - auto.
    - apply markup_around. scan. }
  intros _. apply (hoare_bind _ (fun _ => around h0));
    [apply markup_around; scan | intros _].
  apply (hoare_bind _ (fun _ => headed h0 (headingState k) (QString.length text))).
  - unfold highlightMarkdown.
    apply (hoare_bind _ (fun _ => headed h0 (headingState k) (QString.length text)));
      [apply rules_and_headline_heading | intros _].
    apply (hoare_bind _ (fun _ => headed h0 (headingState k) (QString.length text)));
      [apply highlightCommentBlock_heading | intros _].
    apply (hoare_bind _ (fun _ => headed h0 (headingState k) (QString.length text)));
      [apply highlightCodeBlock_heading | intros _].
    apply highlightFrontmatterBlock_heading.
  - intros _. apply keepingStates_headed. scan.
Qed.

End HeadingLine.

(** C6 (as amended).  A line of [k] marks [#] and a space, with [k] from 1
    to 6, whose previous line is neither in a comment nor in a code block and
    which is not inside a front matter, ends the pass in the state of the
    heading of level [k], with a format of that style over the whole line;
    the rules that follow the headline are those of the constructor. *)
Theorem heading_line_state (env : Environment) (h : Highlighter)
        (k : nat) (rest : string) :
  (1 <= k <= 6)%nat ->
  isValidRef h Current = true ->
  textOf h Current = headingText k rest ->
  _highlightingRulesAfter h = initHighlightingRulesAfter ->
  stateOf h Previous <> Comment ->
  isCodeBlockState (stateOf h Previous) = false ->
  inFrontmatter h = false ->
  exists anns,
    highlightCurrentBlock env h = (anns, H1 + Z.of_nat k - 1, Done tt) /\
    hasAnnotation 0 (QString.length (headingText k rest)) (H1 + Z.of_nat k - 1) anns.
Proof.
  intros K V T R C P F. unfold highlightCurrentBlock.
  change (textOfBlock (document h) (blockNumber h Current))
    with (textOf h Current).
  rewrite T.
  destruct (highlightBlock_heading env (withFormatChanges h []) k rest
              (headingText k rest) eq_refl K V R C P F
              (withFormatChanges h []) eq_refl)
    as [[] [E (Ar & S & A)]].
  destruct (run (highlightBlock env (headingText k rest)) (withFormatChanges h []))
    as [h' r].
  cbn [fst snd] in E, S, A. subst r. exists (formatChanges h').
  split; [| exact A]. unfold stateOf in S. rewrite S. reflexivity.
Qed.

(** C6, witness: a heading of the second level at the start of a document. *)
Lemma heading_line_state_witness :
  exists anns,
    highlightCurrentBlock sampleEnvironment
      (highlighterAt [("## Heading two", NoState)] 0) = (anns, H2, Done tt) /\
    hasAnnotation 0 14 H2 anns.
Proof.
  apply (heading_line_state sampleEnvironment
           (highlighterAt [("## Heading two", NoState)] 0) 2 "Heading two").
  - lia.
  - vm_compute. reflexivity.
  - vm_compute. reflexivity.
  - vm_compute. reflexivity.
  - vm_compute. discriminate.
  - vm_compute. reflexivity.
  - vm_compute. reflexivity.
Defined.

(** C6, counterexample: the line [# Heading one] is given one format, that
    of [H1] over its 13 characters, and none of the style [MaskedSyntax] on
    its mark, whatever the environment; and below a line in the state
    [Comment] the same line ends in the state [Comment]. *)
Lemma heading_mark_is_not_masked :
  (forall env,
      summary (highlightCurrentBlock env
                 (highlighterAt [("# Heading one", NoState)] 0)) =
      ([(0, 13, Some H1)], H1, Done tt)) /\
  H1 <> MaskedSyntax /\
  (forall env,
      summary (highlightCurrentBlock env
                 (highlighterAt [("<!--", Comment); ("# Heading one", NoState)] 1)) =
      ([(0, 13, Some H1); (0, 13, Some Comment)], Comment, Done tt)).
Proof.
  split; [intros env; vm_compute; reflexivity |].
  split; [discriminate |].
  intros env. vm_compute. reflexivity.
Qed.

(* ------------------------------------------------------------------------- *)
(** ** What a pass over a line does to the document and to the tables *)

Lemma get_in_range (s : string) :
  forall n, (n < String.length s)%nat -> exists c, String.get n s = Some c.
Proof.
  induction s as [| a r IH]; intros n L; simpl in L; [lia |].
  destruct n as [| n]; simpl; [eauto |]. apply IH. lia.
Qed.

Lemma charAt_in_range (text : string) (i : Z) :
  0 <= i < QString.length text -> exists c, charAt text i = Ret c.
Proof.
  intros L. unfold charAt, QString.charAt. unfold QString.length in L.
  destruct (i <? 0) eqn:E; [apply Z.ltb_lt in E; lia |].
  destruct (get_in_range text (Z.to_nat i)) as [c G]; [lia |].
  rewrite G. eauto.
Qed.

Lemma length_not_empty (text : string) :
  QString.isEmpty text = false -> 0 < QString.length text.
Proof. destruct text; [discriminate |]. unfold QString.length. simpl. lia. Qed.

(** The loop over the marks of a heading ends within its six rounds. *)
Lemma headingMarks_total (text : string) (fuel : nat) :
  forall i, 1 <= i <= 6 -> 6 - i < Z.of_nat fuel ->
            exists r, headingMarks fuel text i = Ret r /\ i <= r <= 6.
Proof.
  induction fuel as [| fuel IH]; intros i Hi F; [lia |].
  cbn [headingMarks].
  destruct (i <? QString.length text) eqn:L; [| exists i; split; [reflexivity | lia]].
  apply Z.ltb_lt in L.
  destruct (charAt_in_range text i) as [c C]; [lia |]. rewrite C. cbn [bind].
  destruct (Ascii.eqb c "#" && (i <? 6)) eqn:E;
    [| exists i; split; [reflexivity | lia]].
  apply andb_true_iff in E. destruct E as [_ E]. apply Z.ltb_lt in E.
  destruct (IH (i + 1)) as [r [R1 R2]]; [lia | lia |].
  exists r. split; [exact R1 | lia].
Qed.

Lemma setsCurrentStateOnly_lineCall (c : Call) : setsCurrentStateOnly c -> lineCall c.
Proof. destruct c as [| | [] s | | | | | | | | |]; simpl; auto; intros []. Qed.

Lemma markup_pass {A : Type} (p : Prog A) : obeys markup p -> obeys pass p.
Proof.
  apply obeys_discipline; [| tauto]. unfold markupCall, passCall.
  intros c H. split; [apply setsCurrentStateOnly_lineCall |]; tauto.
Qed.

Lemma pass_lineOrFault {A : Type} (p : Prog A) : obeys pass p -> obeys lineOrFault p.
Proof. apply obeys_discipline; [| tauto]. unfold passCall. tauto. Qed.

Lemma pass_maskedSizeOnly {A : Type} (p : Prog A) :
  obeys pass p -> obeys maskedSizeOnly p.
Proof.
  apply obeys_discipline; [| tauto]. unfold passCall.
  intros c [_ H]. destruct c; simpl in *; auto; contradiction.
Qed.

Lemma fence_lineOrFault {A : Type} (p : Prog A) : obeys fence p -> obeys lineOrFault p.
Proof.
  apply obeys_discipline; [| tauto]. unfold fenceCall.
  intros c H. apply setsCurrentStateOnly_lineCall. tauto.
Qed.

Lemma scanner_maskedSizeOnly {A : Type} (p : Prog A) :
  obeys scanner p -> obeys maskedSizeOnly p.
Proof.
  apply obeys_discipline; [| tauto]. unfold scannerCall, markupCall.
  intros c H. destruct c; simpl in *; auto; tauto.
Qed.

Lemma addDirtyBlock_pass (b : BlockRef) : obeys pass (addDirtyBlock b).
Proof. unfold addDirtyBlock, pass, passCall. scan. Qed.

Lemma highlightSubHeadline_pass (text : string) (state : Z) :
  state = H1 \/ state = H2 -> obeys pass (highlightSubHeadline text state).
Proof.
  intros S. pose proof addDirtyBlock_pass.
  unfold highlightSubHeadline, pass, passCall. scan.
Qed.

(** What follows the search for the marks of a heading, in [highlightHeadline]. *)
Lemma afterHeadingMarks_pass (text : string) (r : Control Z) :
  obeys pass
        (match r with
         | Return => Ret tt
         | FallThrough headingLevel =>
             if 0 <? headingLevel then
               let state := H1 + headingLevel - 1 in
               setFormatOf 0 (QString.length text) state ;;
               setCurrentBlockMargin state ;;
               setCurrentBlockState state
             else if hasOnlyHeadChars text "=" then highlightSubHeadline text H1
             else if hasOnlyHeadChars text "-" then highlightSubHeadline text H2
             else
               nextBlockText <- call (BlockText Next) ;;
               (if hasOnlyHeadChars nextBlockText "=" then
                  setFormatOf 0 (QString.length text) H1 ;;
                  setCurrentBlockState H1 ;;
                  call (BlockSetUserState Current H1)
                else Ret tt) ;;
               (if hasOnlyHeadChars nextBlockText "-" then
                  setFormatOf 0 (QString.length text) H2 ;;
                  setCurrentBlockState H2 ;;
                  call (BlockSetUserState Current H2)
                else Ret tt)
         end)%prog.
Proof.
  pose proof (highlightSubHeadline_pass text H1 (or_introl eq_refl)).
  pose proof (highlightSubHeadline_pass text H2 (or_intror eq_refl)).
  unfold pass, passCall in *. destruct r as [l |]; [| exact I].
  destruct (0 <? l); [cbv zeta; scan |].
  destruct (hasOnlyHeadChars text "="); [assumption |].
  destruct (hasOnlyHeadChars text "-"); [assumption |].
  scan.
Qed.

(** On a line that is not empty [highlightHeadline] reads inside the line. *)
Lemma highlightHeadline_pass (text : string) :
  QString.isEmpty text = false -> obeys pass (highlightHeadline text).
Proof.
  intros N. pose proof (length_not_empty text N) as L.
  unfold highlightHeadline.
  destruct (charAt_in_range text 0) as [c C]; [lia |]. rewrite C. cbn [bind].
  cbv zeta. apply obeys_bind; [| intros r; apply afterHeadingMarks_pass].
  destruct (Ascii.eqb c "#"); [| exact I].
  destruct (1 >=? QString.length text); [exact I |].
  destruct (headingMarks_total text 6 1) as [r [R1 R2]]; [lia | lia |].
  rewrite R1. cbn [bind].
  destruct (r <? QString.length text) eqn:E; [| exact I].
  apply Z.ltb_lt in E.
  destruct (charAt_in_range text r) as [c' C']; [lia |]. rewrite C'. exact I.
Qed.

Section PassOverALine.

Variable env : Environment.

(** The rules and the headline, on any line. *)
Lemma rules_and_headline_pass (text : string) :
  obeys pass
        (if negb (QString.isEmpty text) then
           pre <- call HighlightingRulesPre ;;
           highlightAdditionalRules env pre text ;;
           highlightHeadline text ;;
           after <- call HighlightingRulesAfter ;;
           highlightAdditionalRules env after text
         else Ret tt)%prog.
Proof.
  destruct (QString.isEmpty text) eqn:N; cbn [negb]; [exact I |].
  pose proof (highlightHeadline_pass text N).
  pose proof (fun rules => markup_pass _ (highlightAdditionalRules_markup env rules text)).
  unfold pass, passCall in *. scan.
Qed.

Lemma highlightCommentBlock_pass (text : string) :
  obeys pass (highlightCommentBlock text).
Proof. apply markup_pass, plain_markup, highlightCommentBlock_plain. Qed.

Lemma highlightFrontmatterBlock_pass (text : string) :
  obeys pass (highlightFrontmatterBlock text).
Proof. apply markup_pass, plain_markup, highlightFrontmatterBlock_plain. Qed.

(** The whole pass, but for the faults of the code scanners. *)
Lemma highlightBlock_lineOrFault (text : string) :
  obeys lineOrFault (highlightBlock env text).
Proof.
  pose proof (pass_lineOrFault _ (rules_and_headline_pass text)).
  pose proof (pass_lineOrFault _ (highlightCommentBlock_pass text)).
  pose proof (pass_lineOrFault _ (highlightFrontmatterBlock_pass text)).
  pose proof (fence_lineOrFault _ (highlightCodeBlock_fence env text)).
  unfold highlightBlock, highlightMarkdown.
  apply obeys_bind; [unfold lineOrFault; scan | intros _].
  apply obeys_bind; [unfold lineOrFault; scan | intros _].
  apply obeys_bind; [| intros _; unfold lineOrFault; scan].
  repeat (apply obeys_bind; [assumption | intros _]). assumption.
Qed.

Lemma highlightCodeBlock_maskedSizeOnly (text : string) :
  obeys maskedSizeOnly (highlightCodeBlock env text).
Proof.
  pose proof (scanner_maskedSizeOnly _ (highlightSyntax_scanner env text)).
  unfold highlightCodeBlock, maskedSizeOnly in *. scan.
Qed.

Lemma highlightBlock_maskedSizeOnly (text : string) :
  obeys maskedSizeOnly (highlightBlock env text).
Proof.
  pose proof (pass_maskedSizeOnly _ (rules_and_headline_pass text)).
  pose proof (pass_maskedSizeOnly _ (highlightCommentBlock_pass text)).
  pose proof (pass_maskedSizeOnly _ (highlightFrontmatterBlock_pass text)).
  pose proof (highlightCodeBlock_maskedSizeOnly text).
  unfold highlightBlock, highlightMarkdown.
  apply obeys_bind; [unfold maskedSizeOnly; scan | intros _].
  apply obeys_bind; [unfold maskedSizeOnly; scan | intros _].
  apply obeys_bind; [| intros _; unfold maskedSizeOnly; scan].
  repeat (apply obeys_bind; [assumption | intros _]). assumption.
Qed.

End PassOverALine.

(* ------------------------------------------------------------------------- *)
(** ** The states and the formats a pass leaves alone *)

Lemma perform_statesBeyond (cur : Z) (doc : list QTextBlock) (c : Call)
      (h : Highlighter) :
  lineCall c -> statesBeyond cur doc h -> statesBeyond cur doc (fst (perform c h)).
Proof.
  intros Hc [Hcur Hs]. destruct c; simpl; auto; try (split; assumption).
  split; [exact Hcur |]. simpl. intros n N1 N2.
  assert (B : blockNumber h b = -1 \/ blockNumber h b = cur \/
              blockNumber h b = cur - 1 \/ False).
  { unfold blockNumber. rewrite Hcur.
    destruct b; simpl in Hc; try contradiction;
      repeat match goal with
             | |- context [if ?x then _ else _] => destruct x
             end; auto. }
  destruct B as [B | [B | [B | []]]]; rewrite B.
  - unfold setUserStateOfBlock, updateBlock. simpl. auto.
  - rewrite userStateOfBlock_setUserState_other by congruence. auto.
  - rewrite userStateOfBlock_setUserState_other by congruence. auto.
Qed.

Lemma lookupFormat_insertFormat_other (t : FormatTable) (k k' : Z)
      (f : QTextCharFormat) :
  k' <> k -> lookupFormat (insertFormat t k f) k' = lookupFormat t k'.
Proof.
  intros N. unfold insertFormat. simpl.
  destruct (k =? k') eqn:E; [apply Z.eqb_eq in E; congruence | reflexivity].
Qed.

Lemma lookupFormat_insertFormat_same (t : FormatTable) (k : Z)
      (f : QTextCharFormat) :
  lookupFormat (insertFormat t k f) k = f.
Proof. unfold insertFormat. simpl. rewrite Z.eqb_refl. reflexivity. Qed.

Lemma perform_formatsBeyondMasked (t : FormatTable) (c : Call) (h : Highlighter) :
  writesMaskedSizeOnly c -> formatsBeyondMasked t h ->
  formatsBeyondMasked t (fst (perform c h)).
Proof.
  intros Hc Hf. destruct c; try exact Hf.
  simpl in Hc. subst k. intros k' N.
  change (_formats (fst (perform (FormatsSetFontPointSize MaskedSyntax size) h)))
    with (insertFormat (_formats h) MaskedSyntax
            (setFontPointSize (lookupFormat (_formats h) MaskedSyntax) size)).
  rewrite lookupFormat_insertFormat_other by exact N. apply Hf. exact N.
Qed.

Lemma headingMarks_obeys (d : Discipline) (fuel : nat) (text : string) :
  faultOk d -> forall i, obeys d (headingMarks fuel text i).
Proof.
  intros F. induction fuel as [| fuel IH]; intros i; cbn [headingMarks].
  - exact F.
  - destruct (i <? QString.length text); [| exact I].
    apply obeys_bind; [apply obeys_charAt; exact F | intros c].
    destruct (Ascii.eqb c "#" && (i <? 6)); [apply IH | exact I].
Qed.

(** A line that is no underline leaves the state of the previous line. *)
Lemma highlightHeadline_currentOnly (text : string) :
  hasOnlyHeadChars text "=" = false -> hasOnlyHeadChars text "-" = false ->
  obeys (discipline (fun c => setsCurrentStateOnly c /\ keepsFormats c) True)
        (highlightHeadline text).
Proof.
  intros E1 E2.
  pose proof (headingMarks_obeys
                (discipline (fun c => setsCurrentStateOnly c /\ keepsFormats c) True)
                6 text Logic.I).
  unfold highlightHeadline. rewrite E1, E2. scan.
Qed.

Section FramesOfAPass.

Variable env : Environment.

Lemma highlightBlock_currentOnly (text : string) :
  hasOnlyHeadChars text "=" = false -> hasOnlyHeadChars text "-" = false ->
  obeys (discipline setsCurrentStateOnly True) (highlightBlock env text).
Proof.
  intros E1 E2.
  assert (W : forall (A : Type) (p : Prog A),
             obeys markup p -> obeys (discipline setsCurrentStateOnly True) p).
  { intros A p. apply obeys_discipline; [| tauto]. unfold markupCall. tauto. }
  assert (Hd : obeys (discipline setsCurrentStateOnly True) (highlightHeadline text)).
  { eapply obeys_discipline; [| | apply (highlightHeadline_currentOnly text E1 E2)];
      simpl; tauto. }
  assert (Hr := fun rules => W _ _ (highlightAdditionalRules_markup env rules text)).
  assert (Hc := W _ _ (plain_markup _ (highlightCommentBlock_plain text))).
  assert (Hf := W _ _ (plain_markup _ (highlightFrontmatterBlock_plain text))).
  assert (Hk : obeys (discipline setsCurrentStateOnly True)
                     (highlightCodeBlock env text)).
  { eapply obeys_discipline; [| | apply (highlightCodeBlock_fence env text)];
      [unfold fenceCall; tauto | tauto]. }
  unfold highlightBlock, highlightMarkdown. scan.
Qed.

Lemma highlightCodeBlock_keepsFormats (text : string) :
  QString.startsWith text "```" = false ->
  obeys (discipline keepsFormats True) (highlightCodeBlock env text).
Proof.
  intros F.
  assert (S : obeys (discipline keepsFormats True) (highlightSyntax env text)).
  { eapply obeys_discipline; [| | apply (highlightSyntax_scanner env text)];
      [unfold scannerCall, markupCall; tauto | tauto]. }
  unfold highlightCodeBlock. rewrite F. scan.
Qed.

Lemma pass_keepsFormats {A : Type} (p : Prog A) :
  obeys pass p -> obeys (discipline keepsFormats True) p.
Proof. apply obeys_discipline; [unfold passCall; tauto | tauto]. Qed.

Lemma highlightBlock_keepsFormats (text : string) :
  QString.startsWith text "```" = false ->
  obeys (discipline keepsFormats True) (highlightBlock env text).
Proof.
  intros F.
  pose proof (pass_keepsFormats _ (rules_and_headline_pass env text)).
  pose proof (pass_keepsFormats _ (highlightCommentBlock_pass text)).
  pose proof (pass_keepsFormats _ (highlightFrontmatterBlock_pass text)).
  pose proof (highlightCodeBlock_keepsFormats text F).
  unfold highlightBlock, highlightMarkdown.
  apply obeys_bind; [scan | intros _].
  apply obeys_bind; [scan | intros _].
  apply obeys_bind; [| intros _; scan].
  repeat (apply obeys_bind; [assumption | intros _]). assumption.
Qed.

(** X1.  A pass over a line sets the state of no block but the current one
    and the one before it, however it ends. *)
Theorem highlightBlock_keeps_other_states (text : string) (h : Highlighter) (n : Z) :
  n <> currentBlockNumber h -> n <> currentBlockNumber h - 1 ->
  userStateOfBlock (document (fst (run (highlightBlock env text) h))) n =
  userStateOfBlock (document h) n.
Proof.
  intros N1 N2.
  assert (K : statesBeyond (currentBlockNumber h) (document h)
                           (fst (run (highlightBlock env text) h))).
  { apply (obeys_keeps lineCall True
                       (statesBeyond (currentBlockNumber h) (document h)))
      with (p := highlightBlock env text).
    - intros c h' Hc. apply perform_statesBeyond. exact Hc.
    - apply highlightBlock_lineOrFault.
    - split; auto. }
  destruct K as [_ K]. apply K; assumption.
Qed.

(** X2.  A pass over a line that is not made of [=] alone nor of [-] alone
    leaves the state of the previous line as it is, however it ends. *)
Theorem highlightBlock_keeps_previous_state (text : string) (h : Highlighter) :
  hasOnlyHeadChars text "=" = false -> hasOnlyHeadChars text "-" = false ->
  stateOf (fst (run (highlightBlock env text) h)) Previous = stateOf h Previous.
Proof.
  intros E1 E2.
  apply (obeys_keeps_previousState setsCurrentStateOnly True).
  - auto.
  - apply highlightBlock_currentOnly; assumption.
Qed.

(** X3.  A pass leaves every entry of the format table as it is, but for
    the entry of [MaskedSyntax] on a line that starts with three backquotes;
    this is so however the pass ends. *)
Theorem highlightBlock_keeps_formats (text : string) (h : Highlighter) (k : Z) :
  k <> MaskedSyntax \/ QString.startsWith text "```" = false ->
  lookupFormat (_formats (fst (run (highlightBlock env text) h))) k =
  lookupFormat (_formats h) k.
Proof.
  intros [N | F].
  - assert (K : formatsBeyondMasked (_formats h)
                                    (fst (run (highlightBlock env text) h))).
    { apply (obeys_keeps writesMaskedSizeOnly True
                         (formatsBeyondMasked (_formats h)))
        with (p := highlightBlock env text).
      - intros c h' Hc. apply perform_formatsBeyondMasked. exact Hc.
      - apply highlightBlock_maskedSizeOnly.
      - intros k' _. reflexivity. }
    apply K. exact N.
  - rewrite (obeys_keeps_formats keepsFormats True (highlightBlock env text) h);
      auto.
    apply highlightBlock_keepsFormats. exact F.
Qed.

End FramesOfAPass.

(** X1, witness: the third line of a document, in a pass over the first. *)
Lemma highlightBlock_keeps_other_states_witness :
  userStateOfBlock
    (document (fst (run (highlightBlock sampleEnvironment "Title")
                        (highlighterAt [("Title", NoState); ("=====", H6);
                                        ("text", Comment)] 0)))) 2 =
  userStateOfBlock
    (document (highlighterAt [("Title", NoState); ("=====", H6);
                              ("text", Comment)] 0)) 2.
Proof.
  apply (highlightBlock_keeps_other_states sampleEnvironment).
  - vm_compute. discriminate.
  - vm_compute. discriminate.
Defined.

(** X2, witness: a line of text below a line in the state [H3]. *)
Lemma highlightBlock_keeps_previous_state_witness :
  stateOf (fst (run (highlightBlock sampleEnvironment "text")
                    (highlighterAt [("### Title", H3); ("text", NoState)] 1)))
          Previous =
  stateOf (highlighterAt [("### Title", H3); ("text", NoState)] 1) Previous.
Proof.
  apply (highlightBlock_keeps_previous_state sampleEnvironment).
  - reflexivity.
  - reflexivity.
Defined.

(** X3, witness: the entry of [CodeBlock] over a fence, and that of
    [MaskedSyntax] over a line of text. *)
Lemma highlightBlock_keeps_formats_witness :
  lookupFormat
    (_formats (fst (run (highlightBlock sampleEnvironment "```cpp")
                        (highlighterAt [("```cpp", NoState)] 0)))) CodeBlock =
  lookupFormat (_formats (highlighterAt [("```cpp", NoState)] 0)) CodeBlock.
Proof.
  apply (highlightBlock_keeps_formats sampleEnvironment).
  left. vm_compute. discriminate.
Defined.

(* ------------------------------------------------------------------------- *)
(** ** Outside code blocks a pass ends well *)

Lemma perform_outsideCode (c : Call) (h : Highlighter) :
  lineCall c -> outsideCode h -> outsideCode (fst (perform c h)).
Proof.
  intros Hc O. destruct c; try exact O.
  destruct b; simpl in Hc; try contradiction; unfold outsideCode.
  - change (fst (perform (BlockSetUserState Current s) h))
      with (setState Current s h).
    rewrite stateOf_setState_Current_Previous. exact O.
  - change (fst (perform (BlockSetUserState Previous s) h))
      with (setState Previous s h).
    rewrite stateOf_setState_same.
    destruct (isValidRef h Previous); [| reflexivity].
    destruct Hc; subst s; reflexivity.
Qed.

Lemma line_outsideCode {A : Type} (p : Prog A) :
  obeys (discipline lineCall False) p ->
  hoare outsideCode p (fun _ => outsideCode).
Proof. apply hoare_obeys. intros c h. apply perform_outsideCode. Qed.

Lemma pass_line {A : Type} (p : Prog A) :
  obeys pass p -> obeys (discipline lineCall False) p.
Proof. apply obeys_discipline; [unfold passCall; tauto | tauto]. Qed.

Lemma perform_formatsAre (t : FormatTable) (c : Call) (h : Highlighter) :
  passCall c -> formatsAre t h -> formatsAre t (fst (perform c h)).
Proof. intros [_ K]. apply perform_keepsFormats. exact K. Qed.

Lemma pass_formatsAre (t : FormatTable) {A : Type} (p : Prog A) :
  obeys pass p -> hoare (formatsAre t) p (fun _ => formatsAre t).
Proof. apply hoare_obeys. apply perform_formatsAre. Qed.

Section TotalPass.

Variable env : Environment.

Lemma highlightCodeBlock_fence_line (text : string) :
  QString.startsWith text "```" = true ->
  obeys (discipline lineCall False) (highlightCodeBlock env text).
Proof. intros F. unfold highlightCodeBlock. rewrite F. scan. Qed.

Lemma highlightBlock_fence_line (text : string) :
  QString.startsWith text "```" = true ->
  obeys (discipline lineCall False) (highlightBlock env text).
Proof.
  intros F.
  pose proof (pass_line _ (rules_and_headline_pass env text)).
  pose proof (pass_line _ (highlightCommentBlock_pass text)).
  pose proof (pass_line _ (highlightFrontmatterBlock_pass text)).
  pose proof (highlightCodeBlock_fence_line text F).
  unfold highlightBlock, highlightMarkdown.
  apply obeys_bind; [scan | intros _].
  apply obeys_bind; [scan | intros _].
  apply obeys_bind; [| intros _; scan].
  repeat (apply obeys_bind; [assumption | intros _]). assumption.
Qed.

Lemma highlightCodeBlock_outsideCode (text : string) :
  hoare outsideCode (highlightCodeBlock env text) (fun _ => outsideCode).
Proof.
  destruct (QString.startsWith text "```") eqn:F.
  - apply line_outsideCode, highlightCodeBlock_fence_line. exact F.
  - intros h O. unfold highlightCodeBlock. rewrite F.
    rewrite run_bind_previousBlockState. unfold outsideCode in O. rewrite O.
    exists tt. split; [reflexivity | exact O].
Qed.

Lemma highlightBlock_outsideCode (text : string) :
  hoare outsideCode (highlightBlock env text) (fun _ => outsideCode).
Proof.
  unfold highlightBlock.
  apply (hoare_bind _ (fun _ => outsideCode)); [apply line_outsideCode; scan |].
  intros _. apply (hoare_bind _ (fun _ => outsideCode));
    [apply line_outsideCode; scan | intros _].
  apply (hoare_bind _ (fun _ => outsideCode));
    [| intros _; apply line_outsideCode; scan].
  unfold highlightMarkdown.
  apply (hoare_bind _ (fun _ => outsideCode));
    [apply line_outsideCode, pass_line, rules_and_headline_pass | intros _].
  apply (hoare_bind _ (fun _ => outsideCode));
    [apply line_outsideCode, pass_line, highlightCommentBlock_pass | intros _].
  apply (hoare_bind _ (fun _ => outsideCode));
    [apply highlightCodeBlock_outsideCode | intros _].
  apply line_outsideCode, pass_line, highlightFrontmatterBlock_pass.
Qed.

(** X4.  A pass over a line whose previous line is in no code block, or over
    a line that starts with three backquotes, ends with a result: it reads
    inside the line only, and its loops end within their bounds. *)
Theorem highlightBlock_ends_outside_code (text : string) (h : Highlighter) :
  isCodeBlockState (stateOf h Previous) = false \/
  QString.startsWith text "```" = true ->
  snd (run (highlightBlock env text) h) = Done tt.
Proof.
  intros [O | F].
  - destruct (highlightBlock_outsideCode text h O) as [[] [E _]]. exact E.
  - destruct (obeys_done lineCall unit (highlightBlock env text) h
                         (highlightBlock_fence_line text F)) as [[] E].
    exact E.
Qed.

(** X5.  A pass over a line that starts with three backquotes sets the point
    size of the entry of [MaskedSyntax] in the format table to that of the
    entry of [CodeBlock], and leaves the rest of that entry. *)
Theorem fence_sets_masked_size (text : string) (h : Highlighter) :
  QString.startsWith text "```" = true ->
  lookupFormat (_formats (fst (run (highlightBlock env text) h))) MaskedSyntax =
  setFontPointSize (lookupFormat (_formats h) MaskedSyntax)
                   (fontPointSize (lookupFormat (_formats h) CodeBlock)).
Proof.
  intros F.
  set (t := insertFormat (_formats h) MaskedSyntax
              (setFontPointSize (lookupFormat (_formats h) MaskedSyntax)
                 (fontPointSize (lookupFormat (_formats h) CodeBlock)))).
  assert (H : hoare (formatsAre (_formats h)) (highlightBlock env text)
                    (fun _ => formatsAre t)).
  { unfold highlightBlock.
    apply (hoare_bind _ (fun _ => formatsAre (_formats h)));
      [apply pass_formatsAre; unfold pass, passCall; scan | intros _].
    apply (hoare_bind _ (fun _ => formatsAre (_formats h)));
      [apply pass_formatsAre; unfold pass, passCall; scan | intros _].
    apply (hoare_bind _ (fun _ => formatsAre t));
      [| intros _; apply pass_formatsAre; unfold pass, passCall; scan].
    unfold highlightMarkdown.
    apply (hoare_bind _ (fun _ => formatsAre (_formats h)));
      [apply pass_formatsAre, rules_and_headline_pass | intros _].
    apply (hoare_bind _ (fun _ => formatsAre (_formats h)));
      [apply pass_formatsAre, highlightCommentBlock_pass | intros _].
    apply (hoare_bind _ (fun _ => formatsAre t));
      [| intros _; apply pass_formatsAre, highlightFrontmatterBlock_pass].
    unfold highlightCodeBlock. rewrite F.
    apply (hoare_bind _ (fun _ => formatsAre (_formats h)));
      [apply pass_formatsAre; unfold pass, passCall; scan | intros pbs].
    apply (hoare_bind _ (fun _ => formatsAre (_formats h)));
      [apply pass_formatsAre; unfold pass, passCall; scan | intros _].
    intros h' E. unfold setFormat, call. cbn [bind]. rewrite !run_Do.
    cbn [run fst snd]. exists tt. split; [reflexivity |].
    unfold formatsAre in *. subst t. rewrite <- E. reflexivity. }
  destruct (H h eq_refl) as [_ [_ E]]. unfold formatsAre in E. rewrite E.
  apply lookupFormat_insertFormat_same.
Qed.

End TotalPass.

(** X4, witness: a fence inside a block of code. *)
Lemma highlightBlock_ends_outside_code_witness :
  snd (run (highlightBlock sampleEnvironment "```")
           (highlighterAt [("```cpp", CodeCpp); ("```", NoState)] 1)) = Done tt.
Proof.
  apply (highlightBlock_ends_outside_code sampleEnvironment).
  right. reflexivity.
Defined.

(** X5, witness: the fence that opens a block. *)
Lemma fence_sets_masked_size_witness :
  lookupFormat
    (_formats (fst (run (highlightBlock sampleEnvironment "```cpp")
                        (highlighterAt [("```cpp", NoState)] 0)))) MaskedSyntax =
  setFontPointSize
    (lookupFormat (_formats (highlighterAt [("```cpp", NoState)] 0)) MaskedSyntax)
    (fontPointSize
       (lookupFormat (_formats (highlighterAt [("```cpp", NoState)] 0)) CodeBlock)).
Proof.
  apply (fence_sets_masked_size sampleEnvironment). reflexivity.
Defined.

(* ------------------------------------------------------------------------- *)
(** ** The scanner of numeric literals stays inside the line *)

Lemma loopBound_length (text : string) :
  Z.of_nat (loopBound text) = 2 * QString.length text + 4.
Proof. unfold loopBound, QString.length. lia. Qed.

Lemma digitsLoop_total (text : string) (fuel : nat) :
  forall i, 0 <= i <= QString.length text ->
            QString.length text - i < Z.of_nat fuel ->
            exists j, digitsLoop fuel text i = Ret j /\
                      i <= j <= QString.length text.
Proof.
  induction fuel as [| fuel IH]; intros i Hi F; [lia |].
  cbn [digitsLoop].
  destruct (i <? QString.length text) eqn:L;
    [| exists i; split; [reflexivity | lia]].
  apply Z.ltb_lt in L.
  destruct (charAt_in_range text i) as [c C]; [lia |]. rewrite C. cbn [bind].
  destruct (negb (QChar.isNumber c) && negb (Ascii.eqb c "."));
    [exists i; split; [reflexivity | lia] |].
  destruct (IH (i + 1)) as [j [J1 J2]]; [lia | lia |].
  exists j. split; [exact J1 | lia].
Qed.

(** The run of [setFormat(start, count, _formats[k])] followed by a return. *)
Lemma run_setFormatOf_Ret {A : Type} (start count k : Z) (r : A) (h : Highlighter) :
  exists h',
    run (setFormatOf start count k ;; Ret r)%prog h = (h', Done r) /\
    formatChanges h' =
    formatChanges h ++ [mkAnnotation start count (formatOf (_formats h) k)].
Proof.
  unfold setFormatOf, setFormat, call. cbn [bind]. rewrite !run_Do.
  cbn [run]. eexists. split; reflexivity.
Qed.

(** X6.  Called inside the line, [highlightNumericLiterals] reads inside the
    line and ends; the position it returns is not before the one it was given
    and not behind the end of the line; and it sets no format or one, of the
    style [CodeNumLiteral], that starts at the position given and ends at the
    position returned. *)
Theorem highlightNumericLiterals_in_range (text : string) (i : Z) (h : Highlighter) :
  0 <= i < QString.length text ->
  exists r,
    snd (run (highlightNumericLiterals text i) h) = Done r /\
    i <= r <= QString.length text /\
    (formatChanges (fst (run (highlightNumericLiterals text i) h)) = formatChanges h \/
     exists n f,
       formatChanges (fst (run (highlightNumericLiterals text i) h)) =
       formatChanges h ++ [mkAnnotation i n f] /\
       styleId f = Some CodeNumLiteral /\ 0 < n /\ r = i + n).
Proof.
  intros Hi. unfold highlightNumericLiterals.
  assert (Set1 : forall (count r : Z),
             0 < count -> r = i + count -> r <= QString.length text ->
             exists r0,
               snd (run (setFormatOf i count CodeNumLiteral ;; Ret r)%prog h) = Done r0 /\
               i <= r0 <= QString.length text /\
               (formatChanges (fst (run (setFormatOf i count CodeNumLiteral ;; Ret r)%prog h))
                = formatChanges h \/
                exists n f,
                  formatChanges (fst (run (setFormatOf i count CodeNumLiteral ;; Ret r)%prog h))
                  = formatChanges h ++ [mkAnnotation i n f] /\
                  styleId f = Some CodeNumLiteral /\ 0 < n /\ r0 = i + n)).
  { intros count r C R L.
    destruct (run_setFormatOf_Ret i count CodeNumLiteral r h) as [h' [E1 E2]].
    rewrite E1. cbn [fst snd]. exists r. split; [reflexivity |].
    split; [lia |]. right. exists count, (formatOf (_formats h) CodeNumLiteral).
    repeat split; auto. }
  assert (Pre : exists b,
             (if i =? 0 then Ret true
              else c <- charAt text (i - 1) ;; Ret (isOneOf c "[({ ,=+-*/%<>"))%prog
             = Ret b).
  { destruct (i =? 0) eqn:Z0; [eauto |]. apply Z.eqb_neq in Z0.
    destruct (charAt_in_range text (i - 1)) as [c C]; [lia |].
    rewrite C. cbn [bind]. eauto. }
  destruct Pre as [b Pre]. rewrite Pre. cbn [bind].
  destruct b; cbn [negb].
  2: { exists (i + 1). cbn [run fst snd]. split; [reflexivity |].
       split; [lia | left; reflexivity]. }
  cbv zeta.
  destruct (i + 1 >=? QString.length text) eqn:G.
  { apply (Set1 1 (i + 1)); lia. }
  assert (G' : i + 1 < QString.length text).
  { unfold Z.geb in G. destruct (i + 1 ?= QString.length text) eqn:C;
      try discriminate. apply Z.compare_lt_iff in C. exact C. }
  destruct (charAt_in_range text (i + 1)) as [c1 C1]; [lia |].
  rewrite C1. cbn [bind].
  assert (Hex : exists b,
             (if Ascii.eqb c1 "x"
              then p <- charAt text (i + 1 - 1) ;; Ret (Ascii.eqb p "0")
              else Ret false)%prog = Ret b).
  { destruct (Ascii.eqb c1 "x"); [| eauto].
    destruct (charAt_in_range text (i + 1 - 1)) as [p P]; [lia |].
    rewrite P. cbn [bind]. eauto. }
  destruct Hex as [hex Hex]. rewrite Hex. cbn [bind].
  destruct (digitsLoop_total text (loopBound text)
                             (if hex then i + 1 + 1 else i + 1))
    as [j [J1 J2]].
  { destruct hex; lia. }
  { rewrite loopBound_length. destruct hex; lia. }
  rewrite J1. cbn [bind].
  assert (J3 : i + 1 <= j) by (destruct hex; lia).
  destruct (j - 1 + 1 =? QString.length text) eqn:E.
  { apply Z.eqb_eq in E. cbn [bind fst snd]. apply Set1; lia. }
  apply Z.eqb_neq in E.
  destruct (charAt_in_range text (j - 1 + 1)) as [c2 C2]; [lia |].
  rewrite C2. cbn [bind].
  destruct (isOneOf c2 "])} ,=+-*/%><;").
  { cbn [bind fst snd]. apply Set1; lia. }
  destruct (isOneOf c2 "ulfULF").
  { cbn [bind fst snd]. apply Set1; lia. }
  cbn [bind fst snd]. exists (j - 1). cbn [run fst snd].
  split; [reflexivity |]. split; [lia | left; reflexivity].
Qed.

(** X6, witness: the literal [42] at position 4 of [x = 42;]. *)
Lemma highlightNumericLiterals_in_range_witness :
  exists r,
    snd (run (highlightNumericLiterals "x = 42;" 4)
             (highlighterAt [("x = 42;", NoState)] 0)) = Done r /\
    4 <= r <= QString.length "x = 42;" /\
    (formatChanges (fst (run (highlightNumericLiterals "x = 42;" 4)
                             (highlighterAt [("x = 42;", NoState)] 0))) =
     formatChanges (highlighterAt [("x = 42;", NoState)] 0) \/
     exists n f,
       formatChanges (fst (run (highlightNumericLiterals "x = 42;" 4)
                               (highlighterAt [("x = 42;", NoState)] 0))) =
       formatChanges (highlighterAt [("x = 42;", NoState)] 0)
                     ++ [mkAnnotation 4 n f] /\
       styleId f = Some CodeNumLiteral /\ 0 < n /\ r = 4 + n).
Proof.
  apply highlightNumericLiterals_in_range. vm_compute. split; [discriminate | reflexivity].
Defined.

(* ------------------------------------------------------------------------- *)
(** ** Lines without markup *)

Lemma prefix_empty (s : string) : String.prefix "" s = true.
Proof. destruct s; reflexivity. Qed.

Lemma startsWith_char_false (c : ascii) (text : string) :
  QString.isEmpty text = false ->
  QString.startsWith text (QString.single c) = false ->
  exists a r, text = String a r /\ Ascii.eqb a c = false.
Proof.
  intros N S. destruct text as [| a r]; [discriminate |].
  exists a, r. split; [reflexivity |].
  unfold QString.startsWith, QString.single in S. cbn [String.prefix] in S.
  destruct (ascii_dec c a) as [E | E].
  - rewrite prefix_empty in S. discriminate.
  - apply Ascii.eqb_neq. congruence.
Qed.

Section LinesWithoutMarkup.

Variable env : Environment.

Lemma highlightRules_rejected (rules : list HighlightingRule)
      (masked : QTextCharFormat) (text : string) (h : Highlighter) :
  rejectsAll rules text = true ->
  run (highlightRules env rules masked text) h = (h, Done tt).
Proof.
  unfold rejectsAll. induction rules as [| rule rest IH]; intros R.
  - reflexivity.
  - cbn [forallb] in R. apply andb_true_iff in R. destruct R as [R1 R2].
    apply negb_true_iff in R1. cbn [highlightRules].
    rewrite run_bind_currentBlockState, R1. cbn [negb].
    destruct (disableIfCurrentStateIsSet rule && _); cbn [bind]; apply IH; exact R2.
Qed.

Lemma highlightAdditionalRules_none (rules : list HighlightingRule)
      (text : string) (h : Highlighter) :
  forallb (fun r => negb (ruleMayMatch r text)) rules = true ->
  run (highlightAdditionalRules env rules text) h = (h, Done tt).
Proof.
  intros R. unfold highlightAdditionalRules. rewrite run_bind_Formats.
  apply highlightRules_rejected. exact R.
Qed.

(** X7.  On a line that contains none of the substrings the rules of a list
    look for, [highlightAdditionalRules] changes nothing and ends at once:
    the regular expressions are not tried, whatever the engine. *)
Theorem highlightAdditionalRules_rejected (rules : list HighlightingRule)
        (text : string) (h : Highlighter) :
  rejectsAll rules text = true ->
  run (highlightAdditionalRules env rules text) h = (h, Done tt).
Proof.
  intros R. unfold highlightAdditionalRules. rewrite run_bind_Formats.
  apply highlightRules_rejected. exact R.
Qed.

Lemma highlightHeadline_plain (text : string) (h : Highlighter) :
  QString.isEmpty text = false ->
  QString.startsWith text "#" = false ->
  hasOnlyHeadChars text "=" = false -> hasOnlyHeadChars text "-" = false ->
  hasOnlyHeadChars (textOf h Next) "=" = false ->
  hasOnlyHeadChars (textOf h Next) "-" = false ->
  run (highlightHeadline text) h = (h, Done tt).
Proof.
  intros N S E1 E2 N1 N2.
  destruct (startsWith_char_false "#" text N S) as [a [r [T A]]].
  unfold highlightHeadline. rewrite E1, E2. rewrite T at 1.
  change (charAt (String a r) 0) with (Ret (A := ascii) a).
  cbn [bind]. cbv zeta. rewrite A. cbn [bind].
  change (0 <? 0) with false. cbv iota.
  unfold call. cbn [bind]. rewrite run_Do. cbn [perform fst snd]. fold_stateOf.
  rewrite N1, N2. reflexivity.
Qed.

Lemma highlightCommentBlock_none (text : string) (h : Highlighter) :
  QString.startsWith (QString.trimmed text) "<!--" = false ->
  QString.endsWith (QString.trimmed text) "-->" = false ->
  (stateOf h Previous =? Comment) = false ->
  run (highlightCommentBlock text) h = (h, Done tt).
Proof.
  intros S E C. unfold highlightCommentBlock. cbv zeta.
  rewrite S, E. cbn [andb orb negb]. rewrite run_bind_previousBlockState, C.
  reflexivity.
Qed.

Lemma highlightCodeBlock_none (text : string) (h : Highlighter) :
  QString.startsWith text "```" = false ->
  isCodeBlockState (stateOf h Previous) = false ->
  run (highlightCodeBlock env text) h = (h, Done tt).
Proof.
  intros F C. unfold highlightCodeBlock.
  rewrite F, run_bind_previousBlockState, C. reflexivity.
Qed.

Lemma not_dashes (text : string) :
  hasOnlyHeadChars text "-" = false -> String.eqb text "---" = false.
Proof.
  intros E. destruct (String.eqb text "---") eqn:D; [| reflexivity].
  apply String.eqb_eq in D. subst text. discriminate.
Qed.

Lemma highlightFrontmatterBlock_none (text : string) (h : Highlighter) :
  hasOnlyHeadChars text "-" = false ->
  inFrontmatter h = false ->
  run (highlightFrontmatterBlock text) h = (h, Done tt).
Proof.
  intros E F. unfold highlightFrontmatterBlock, inFrontmatter in *.
  unfold call. cbn [bind]. rewrite run_Do. cbn [perform fst snd]. fold_stateOf.
  destruct (String.eqb (textOf h First) "---"); cbn [negb andb] in *;
    [| reflexivity].
  rewrite (not_dashes text E).
  change (Do (BlockUserState Previous) (fun x => Ret x)) with previousBlockState.
  rewrite run_bind_previousBlockState, F. reflexivity.
Qed.

(** The pass over a line without markup, from the state it starts in. *)
Lemma highlightMarkdown_plain (text : string) (h : Highlighter) :
  rejectsAll (_highlightingRulesPre h ++ _highlightingRulesAfter h) text = true ->
  plainText text = true -> plainContext h = true ->
  run (highlightMarkdown env text) h = (h, Done tt).
Proof.
  unfold rejectsAll, plainText, plainContext. intros R T C.
  rewrite forallb_app in R.
  repeat match goal with
         | H : _ && _ = true |- _ => apply andb_true_iff in H; destruct H
         | H : negb _ = true |- _ => apply negb_true_iff in H
         end.
  unfold highlightMarkdown.
  assert (A : run (if negb (QString.isEmpty text) then
                     pre <- call HighlightingRulesPre ;;
                     highlightAdditionalRules env pre text ;;
                     highlightHeadline text ;;
                     after <- call HighlightingRulesAfter ;;
                     highlightAdditionalRules env after text
                   else Ret tt)%prog h = (h, Done tt)).
  { destruct (QString.isEmpty text) eqn:N; cbn [negb]; [reflexivity |].
    rewrite run_bind_rulesPre.
    rewrite (run_bind_done _ _ h h tt)
      by (apply highlightAdditionalRules_none; assumption).
    rewrite (run_bind_done _ _ h h tt)
      by (apply highlightHeadline_plain; assumption).
    rewrite run_bind_rulesAfter.
    apply highlightAdditionalRules_none; assumption. }
  rewrite (run_bind_done _ _ h h tt A).
  rewrite (run_bind_done _ _ h h tt)
    by (apply highlightCommentBlock_none; assumption).
  rewrite (run_bind_done _ _ h h tt)
    by (apply highlightCodeBlock_none; assumption).
  apply highlightFrontmatterBlock_none; assumption.
Qed.

(** The context of a line after the state of the line was set. *)
Lemma plainContext_setState (s : Z) (h : Highlighter) :
  plainContext (setState Current s h) = plainContext h.
Proof.
  unfold plainContext, inFrontmatter.
  rewrite !textOf_setState, !stateOf_setState_Current_Previous. reflexivity.
Qed.

(** X8.  A line without markup stays plain.  Let no rule of the two tables be
    tried on the line (it contains none of the substrings a rule looks for);
    let the line start with no [#] and with no three backquotes, be made
    neither of [=] alone nor of [-] alone, and let its trimmed text neither
    start with the opening [<!--] of a comment nor end with the closing [-->];
    let the next line be made neither of [=] alone nor of [-] alone, and the
    previous line be in neither the state [Comment] nor the state of a code
    block, nor in the state [FrontmatterBlock] of a document that starts
    with [---].  Then the line is given no format and the state [NoState],
    and the pass ends well: whatever the engine of regular expressions. *)
Theorem plain_line_stays_plain (h : Highlighter) :
  rejectsAll (_highlightingRulesPre h ++ _highlightingRulesAfter h)
             (textOf h Current) = true ->
  plainText (textOf h Current) = true -> plainContext h = true ->
  highlightCurrentBlock env h = ([], NoState, Done tt).
Proof.
  intros R T C. unfold highlightCurrentBlock.
  change (textOfBlock (document h) (blockNumber h Current)) with (textOf h Current).
  set (text := textOf h Current) in *.
  set (h1 := withFormatChanges h []).
  set (h2 := setState Current NoState (setState Current NoState h1)).
  assert (E : run (highlightMarkdown env text) h2 = (h2, Done tt)).
  { apply highlightMarkdown_plain; [exact R | exact T |].
    unfold h2. rewrite !plainContext_setState. exact C. }
  assert (Run : run (highlightBlock env text) h1 =
                (withHighlightingFinished h2 true, Done tt)).
  { unfold highlightBlock, setCurrentBlockState, call. cbn [bind].
    rewrite !run_Do. fold_setState. cbn [fst snd]. fold h2.
    rewrite (run_bind_done _ _ h2 h2 tt E). reflexivity. }
  rewrite Run.
  change (formatChanges (withHighlightingFinished h2 true)) with (formatChanges h2).
  change (userStateOfBlock (document (withHighlightingFinished h2 true))
            (blockNumber (withHighlightingFinished h2 true) Current))
    with (stateOf h2 Current).
  assert (F : formatChanges h2 = []) by reflexivity.
  assert (S : stateOf h2 Current = NoState).
  { unfold h2. rewrite stateOf_setState_same.
    destruct (isValidRef _ Current); reflexivity. }
  rewrite F, S. reflexivity.
Qed.

End LinesWithoutMarkup.

(** X7, witness: the rules of the constructor on a line of words. *)
Lemma highlightAdditionalRules_rejected_witness :
  run (highlightAdditionalRules sampleEnvironment initHighlightingRulesAfter
                                "plain words")
      (highlighterAt [("plain words", NoState)] 0) =
  (highlighterAt [("plain words", NoState)] 0, Done tt).
Proof.
  apply (highlightAdditionalRules_rejected sampleEnvironment).
  vm_compute. reflexivity.
Defined.

(** X8, witness: a line of words between two lines of words. *)
Lemma plain_line_stays_plain_witness :
  highlightCurrentBlock sampleEnvironment
    (highlighterAt [("one", NoState); ("plain words", H3); ("three", NoState)] 1) =
  ([], NoState, Done tt).
Proof.
  apply (plain_line_stays_plain sampleEnvironment); vm_compute; reflexivity.
Defined.

(* ------------------------------------------------------------------------- *)
(** ** A line of code stays in the language of the line above *)

Lemma leads_bind_total {A B : Type} (P R Q : Highlighter -> Prop) (p : Prog A)
      (f : A -> Prog B) :
  hoare P p (fun _ => R) -> (forall a, leads R (f a) Q) -> leads P (bind p f) Q.
Proof.
  intros Hp Hf h Ph. destruct (Hp h Ph) as [a [E Rh]]. rewrite run_bind.
  destruct (run p h) as [h1 r]. cbn [fst snd] in *. subst r. apply Hf. exact Rh.
Qed.

Lemma leads_bind_keeps {A B : Type} (P Q : Highlighter -> Prop) (p : Prog A)
      (f : A -> Prog B) :
  leads P p Q -> (forall a, keeps Q (f a)) -> leads P (bind p f) Q.
Proof.
  intros Hp Hf h Ph. apply keeps_bind_at; [apply Hp; exact Ph | exact Hf].
Qed.

(** The test [currentBlockState() % 2 == 0] is a test of parity. *)
Lemma rem2_even (a : Z) : (Z.rem a 2 =? 0) = Z.even a.
Proof.
  pose proof (Z.quot_rem' a 2) as E.
  assert (B : Z.abs (Z.rem a 2) < Z.abs 2) by (apply Z.rem_bound_abs; lia).
  destruct (Z.rem a 2 =? 0) eqn:R.
  - apply Z.eqb_eq in R. symmetry. apply Z.even_spec. exists (a ÷ 2). lia.
  - apply Z.eqb_neq in R. destruct (Z.even a) eqn:V; [| reflexivity].
    apply Z.even_spec in V. destruct V as [b V]. lia.
Qed.

Lemma even_plus_one (a : Z) : Z.even (a + 1) = negb (Z.even a).
Proof. rewrite Z.even_add. destruct (Z.even a); reflexivity. Qed.

Lemma even_minus_one (a : Z) : Z.even (a - 1) = negb (Z.even a).
Proof. rewrite Z.even_sub. destruct (Z.even a); reflexivity. Qed.

Lemma sameLanguage_cases (s c : Z) :
  sameLanguage s c = true <-> c = s \/ c = partnerState s.
Proof.
  unfold sameLanguage. rewrite orb_true_iff, !Z.eqb_eq. tauto.
Qed.

Lemma sameLanguage_refl (s : Z) : sameLanguage s s = true.
Proof. apply sameLanguage_cases. auto. Qed.

(** Into a comment: from an even state to the next one. *)
Lemma sameLanguage_up (s c : Z) :
  sameLanguage s c = true -> Z.even c = true -> sameLanguage s (c + 1) = true.
Proof.
  rewrite !sameLanguage_cases. unfold partnerState. intros [E | E] V; subst c.
  - rewrite V. auto.
  - destruct (Z.even s) eqn:S.
    + rewrite even_plus_one, S in V. discriminate.
    + left. lia.
Qed.

(** Out of a comment: from an odd state to the one before. *)
Lemma sameLanguage_down (s c : Z) :
  sameLanguage s c = true -> Z.even c = false -> sameLanguage s (c - 1) = true.
Proof.
  rewrite !sameLanguage_cases. unfold partnerState. intros [E | E] V; subst c.
  - rewrite V. auto.
  - destruct (Z.even s) eqn:S.
    + left. lia.
    + rewrite even_minus_one, S in V. discriminate.
Qed.

(** The two states of the language of a code block are states of a code
    block. *)
Lemma sameLanguage_code (s c : Z) :
  isCodeBlockState s = true -> sameLanguage s c = true ->
  isCodeBlockState c = true.
Proof.
  intros S L. apply sameLanguage_cases in L. destruct L as [L | L]; subst c;
    [exact S |].
  unfold isCodeBlockState in *. unfold partnerState.
  apply orb_true_iff in S. destruct S as [S | S].
  - apply orb_true_iff in S. destruct S as [S | S]; apply Z.eqb_eq in S; subst s;
      reflexivity.
  - assert (G : 200 <= s) by (apply Z.geb_le in S; exact S).
    assert (T : forall x, 200 <= x -> (x >=? CodeCpp) = true).
    { intros x X. apply Z.geb_le. exact X. }
    destruct (Z.even s) eqn:V.
    + rewrite (T (s + 1)) by lia. apply orb_true_r.
    + assert (s <> 200) by (intros ->; discriminate).
      rewrite (T (s - 1)) by lia. apply orb_true_r.
Qed.

(** Below a state of a code block the current block is a valid one, and not
    the first. *)
Lemma code_state_valid (h : Highlighter) :
  isCodeBlockState (stateOf h Previous) = true -> isValidRef h Current = true.
Proof.
  intros C. destruct (isValidRef h Current) eqn:V; [reflexivity |].
  rewrite (stateOf_invalid h Previous (blockNumber_Previous_invalid h V)) in C.
  discriminate.
Qed.

Lemma first_is_current (h : Highlighter) :
  (blockNumber h First =? blockNumber h Current) = true ->
  stateOf h Previous = -1.
Proof.
  intros E. apply Z.eqb_eq in E. apply stateOf_invalid.
  unfold blockNumber in *.
  destruct (isValidBlock (document h) (currentBlockNumber h)) eqn:V;
    [| reflexivity].
  destruct (isValidBlock (document h) 0);
    [rewrite <- E; reflexivity |].
  unfold isValidBlock, blockAt in V.
  destruct (currentBlockNumber h <? 0) eqn:N; [discriminate |].
  apply Z.ltb_ge in N. lia.
Qed.

Lemma inLanguage_setState (s c : Z) (h : Highlighter) :
  inLanguage s h -> sameLanguage s c = true ->
  inLanguage s (setState Current c h).
Proof.
  intros [P C] Hc. split.
  - rewrite stateOf_setState_Current_Previous. exact P.
  - rewrite stateOf_setState_same. destruct (isValidRef h Current) eqn:V;
      [exact Hc |].
    rewrite (stateOf_invalid h Current) in C; [exact C |].
    rewrite blockNumber_Current, V. reflexivity.
Qed.

Lemma perform_inLanguage (s : Z) (c : Call) (h : Highlighter) :
  keepsStates c -> inLanguage s h -> inLanguage s (fst (perform c h)).
Proof. intros Hc J. destruct c; simpl in Hc; try contradiction; exact J. Qed.

Lemma keeps_quiet (s : Z) {A : Type} (p : Prog A) :
  obeys quiet p -> keeps (inLanguage s) p.
Proof. apply (obeys_keeps keepsStates True). apply perform_inLanguage. Qed.

(** [if (currentBlockState() % 2 == 0)
       setCurrentBlockState(currentBlockState() + 1);] *)
Lemma keeps_enterComment (s : Z) {B : Type} (f : unit -> Prog B) :
  (forall x, keeps (inLanguage s) (f x)) ->
  keeps (inLanguage s)
        (bind currentBlockState
              (fun cbs =>
                 bind (if Z.rem cbs 2 =? 0
                       then bind currentBlockState
                                 (fun cbs' => setCurrentBlockState (cbs' + 1))
                       else Ret tt) f)).
Proof.
  intros Hf h J. rewrite run_bind_currentBlockState.
  apply keeps_bind_at; [| exact Hf].
  rewrite rem2_even. destruct (Z.even (stateOf h Current)) eqn:V; [| exact J].
  rewrite run_bind_currentBlockState.
  unfold setCurrentBlockState, call. rewrite run_Do. cbn [run fst snd].
  fold_setState. apply inLanguage_setState; [exact J |].
  apply sameLanguage_up; [apply J | exact V].
Qed.

(** [if (currentBlockState() % 2 != 0)
       setCurrentBlockState(currentBlockState() - 1);] *)
Lemma keeps_leaveComment (s : Z) {B : Type} (f : unit -> Prog B) :
  (forall x, keeps (inLanguage s) (f x)) ->
  keeps (inLanguage s)
        (bind currentBlockState
              (fun cbs =>
                 bind (if negb (Z.rem cbs 2 =? 0)
                       then bind currentBlockState
                                 (fun cbs' => setCurrentBlockState (cbs' - 1))
                       else Ret tt) f)).
Proof.
  intros Hf h J. rewrite run_bind_currentBlockState.
  apply keeps_bind_at; [| exact Hf].
  rewrite rem2_even. destruct (Z.even (stateOf h Current)) eqn:V; [exact J |].
  cbn [negb]. rewrite run_bind_currentBlockState.
  unfold setCurrentBlockState, call. rewrite run_Do. cbn [run fst snd].
  fold_setState. apply inLanguage_setState; [exact J |].
  apply sameLanguage_down; [apply J | exact V].
Qed.

(** One step through a scanner, for the language of the line. *)
Ltac language_step leaf :=
  first
    [ apply keeps_enterComment; intros ?
    | apply keeps_leaveComment; intros ?
    | match goal with
      | |- keeps _ (bind _ _) => apply keeps_bind; [ | intros ? ]
      | |- keeps _ (Ret _) => apply keeps_ret
      | |- keeps _ (if ?b then _ else _) => destruct b
      | |- keeps _ (match ?x with _ => _ end) => destruct x
      | |- keeps _ _ => first [ leaf | apply keeps_quiet; solve [scan] ]
      end ].

Section LinesOfCode.

Variable env : Environment.

(** *** The scanners that set no state *)

Lemma escapeLength_quiet text i c1 : obeys quiet (escapeLength text i c1).
Proof. unfold escapeLength. scan. Qed.

#[local] Hint Resolve escapeLength_quiet : scan.

Lemma stringLiteralLoop_quiet fuel strType text i :
  obeys quiet (stringLiteralLoop fuel strType text i).
Proof.
  revert i; induction fuel as [| fuel IH]; intros i; cbn [stringLiteralLoop].
  - exact I.
  - scan.
Qed.

#[local] Hint Resolve stringLiteralLoop_quiet : scan.

Lemma highlightStringLiterals_quiet strType text i :
  obeys quiet (highlightStringLiterals strType text i).
Proof. unfold highlightStringLiterals. scan. Qed.

Lemma digitsLoop_quiet fuel text i : obeys quiet (digitsLoop fuel text i).
Proof.
  revert i; induction fuel as [| fuel IH]; intros i; cbn [digitsLoop].
  - exact I.
  - scan.
Qed.

#[local] Hint Resolve digitsLoop_quiet : scan.

Lemma highlightNumericLiterals_quiet text i :
  obeys quiet (highlightNumericLiterals text i).
Proof. unfold highlightNumericLiterals. scan. Qed.

#[local] Hint Resolve highlightNumericLiterals_quiet
  highlightStringLiterals_quiet : scan.

Lemma applyWords_quiet words text fmt shift i :
  obeys quiet (applyWords words text fmt shift i).
Proof.
  revert i; induction words as [| word rest IH]; intros i; cbn [applyWords].
  - exact I.
  - scan.
Qed.

#[local] Hint Resolve applyWords_quiet : scan.

Lemma applyTable_quiet i data text fmt shift :
  obeys quiet (applyTable i data text fmt shift).
Proof. unfold applyTable. scan. Qed.

#[local] Hint Resolve applyTable_quiet : scan.

Lemma applyCodeFormat_quiet i data text fmt :
  obeys quiet (applyCodeFormat i data text fmt).
Proof. unfold applyCodeFormat. auto with scan. Qed.

Lemma notAtLetter_quiet text i : obeys quiet (notAtLetter text i).
Proof. unfold notAtLetter. scan. Qed.

#[local] Hint Resolve applyCodeFormat_quiet notAtLetter_quiet : scan.

Lemma taggerScriptLoop_quiet fuel text i :
  obeys quiet (taggerScriptLoop fuel text i).
Proof.
  revert i; induction fuel as [| fuel IH]; intros i; cbn [taggerScriptLoop].
  - exact I.
  - scan.
Qed.

Lemma ymlLoop_quiet fuel text colonNotFound i :
  obeys quiet (ymlLoop fuel text colonNotFound i).
Proof.
  revert colonNotFound i; induction fuel as [| fuel IH]; intros colonNotFound i;
    cbn [ymlLoop].
  - exact I.
  - scan.
Qed.

Lemma iniLoop_quiet fuel text i : obeys quiet (iniLoop fuel text i).
Proof.
  revert i; induction fuel as [| fuel IH]; intros i; cbn [iniLoop].
  - exact I.
  - scan.
Qed.

Lemma cssSkipSpaces_quiet fuel text i : obeys quiet (cssSkipSpaces fuel text i).
Proof.
  revert i; induction fuel as [| fuel IH]; intros i; cbn [cssSkipSpaces].
  - exact I.
  - scan.
Qed.

#[local] Hint Resolve cssSkipSpaces_quiet : scan.

Lemma cssLoop_quiet fuel text i : obeys quiet (cssLoop env fuel text i).
Proof.
  revert i; induction fuel as [| fuel IH]; intros i; cbn [cssLoop].
  - exact I.
  - scan.
Qed.

Lemma xmlStringLoop_quiet fuel text i cnt :
  obeys quiet (xmlStringLoop fuel text i cnt).
Proof.
  revert i cnt; induction fuel as [| fuel IH]; intros i cnt; cbn [xmlStringLoop].
  - exact I.
  - scan.
Qed.

#[local] Hint Resolve xmlStringLoop_quiet : scan.

Lemma xmlLoop_quiet fuel text i : obeys quiet (xmlLoop fuel text i).
Proof.
  revert i; induction fuel as [| fuel IH]; intros i; cbn [xmlLoop].
  - exact I.
  - scan.
Qed.

#[local] Hint Resolve taggerScriptLoop_quiet ymlLoop_quiet iniLoop_quiet
  cssLoop_quiet xmlLoop_quiet : scan.

Lemma taggerScriptHighlighter_quiet text :
  obeys quiet (taggerScriptHighlighter text).
Proof. unfold taggerScriptHighlighter. scan. Qed.

Lemma ymlHighlighter_quiet text : obeys quiet (ymlHighlighter text).
Proof. unfold ymlHighlighter. scan. Qed.

Lemma iniHighlighter_quiet text : obeys quiet (iniHighlighter text).
Proof. unfold iniHighlighter. scan. Qed.

Lemma cssHighlighter_quiet text : obeys quiet (cssHighlighter env text).
Proof. unfold cssHighlighter. scan. Qed.

Lemma xmlHighlighter_quiet text : obeys quiet (xmlHighlighter text).
Proof. unfold xmlHighlighter. scan. Qed.

#[local] Hint Resolve taggerScriptHighlighter_quiet ymlHighlighter_quiet
  iniHighlighter_quiet cssHighlighter_quiet xmlHighlighter_quiet : scan.

(** *** The generic scanner, which moves between the two states of a
    language *)

Lemma skipNonLetters_language (s : Z) fuel text comment fc entry i :
  keeps (inLanguage s) (skipNonLetters fuel text comment fc entry i).
Proof.
  revert entry i; induction fuel as [| fuel IH]; intros entry i;
    cbn [skipNonLetters].
  - apply keeps_quiet. exact I.
  - cbv zeta. repeat language_step ltac:(apply IH).
Qed.

Lemma syntaxLoop_language (s : Z) fuel text comment data f i :
  keeps (inLanguage s) (syntaxLoop fuel text comment data f i).
Proof.
  pose proof (skipNonLetters_language s) as K.
  revert i; induction fuel as [| fuel IH]; intros i; cbn [syntaxLoop].
  - apply keeps_quiet. exact I.
  - cbv zeta. repeat language_step ltac:(first [ apply IH | apply K ]).
Qed.

Lemma highlightSyntax_language (s : Z) text :
  keeps (inLanguage s) (highlightSyntax env text).
Proof.
  pose proof (syntaxLoop_language s) as K.
  unfold highlightSyntax. cbv zeta. repeat language_step ltac:(apply K).
Qed.

End LinesOfCode.

(** *** The pass over a line of code *)

(** An underline below a line that is no heading and has a state does
    nothing. *)
Lemma highlightSubHeadline_idle (text : string) (state : Z) (h : Highlighter) :
  (stateOf h Previous =? state) = false ->
  (stateOf h Previous =? NoState) = false ->
  run (highlightSubHeadline text state) h = (h, Done tt).
Proof.
  intros E1 E2. unfold highlightSubHeadline, previousBlockState. run_steps.
  rewrite E1, E2. reflexivity.
Qed.

(** Below a line whose state is none of [NoState], [H1] and [H2], the
    headline sets the state of no block but the current one. *)
Lemma highlightHeadline_around (h0 : Highlighter) (text : string) :
  QString.isEmpty text = false ->
  (stateOf h0 Previous =? NoState) = false ->
  (stateOf h0 Previous =? H1) = false ->
  (stateOf h0 Previous =? H2) = false ->
  hoare (around h0) (highlightHeadline text) (fun _ => around h0).
Proof.
  intros N E0 E1 E2. pose proof (length_not_empty text N) as L.
  unfold highlightHeadline.
  destruct (charAt_in_range text 0) as [c C]; [lia |]. rewrite C. cbn [bind].
  cbv zeta. apply (hoare_bind _ (fun _ => around h0)).
  - apply markup_around.
    destruct (Ascii.eqb c "#"); [| exact I].
    destruct (1 >=? QString.length text); [exact I |].
    destruct (headingMarks_total text 6 1) as [r [R1 R2]]; [lia | lia |].
    rewrite R1. cbn [bind].
    destruct (r <? QString.length text) eqn:E; [| exact I].
    apply Z.ltb_lt in E.
    destruct (charAt_in_range text r) as [c' C']; [lia |]. rewrite C'. exact I.
  - intros [l |]; [| apply hoare_ret].
    destruct (0 <? l); [apply markup_around; cbv zeta; scan |].
    destruct (hasOnlyHeadChars text "=").
    { intros h A. rewrite highlightSubHeadline_idle;
        [| rewrite (proj2 A); assumption | rewrite (proj2 A); assumption].
      exists tt. split; [reflexivity | exact A]. }
    destruct (hasOnlyHeadChars text "-").
    { intros h A. rewrite highlightSubHeadline_idle;
        [| rewrite (proj2 A); assumption | rewrite (proj2 A); assumption].
      exists tt. split; [reflexivity | exact A]. }
    apply markup_around. scan.
Qed.

Lemma code_state_other (s k : Z) :
  isCodeBlockState s = true -> isCodeBlockState k = false -> (s =? k) = false.
Proof.
  intros S K. apply Z.eqb_neq. intros E. subst k. congruence.
Qed.

(** Below a line whose state is none of [NoState], [H1] and [H2], the rules
    and the headline leave the state of the line above. *)
Lemma rules_and_headline_idle (env : Environment) (h0 : Highlighter)
      (text : string) :
  (stateOf h0 Previous =? NoState) = false ->
  (stateOf h0 Previous =? H1) = false ->
  (stateOf h0 Previous =? H2) = false ->
  hoare (around h0)
        (if negb (QString.isEmpty text) then
           pre <- call HighlightingRulesPre ;;
           highlightAdditionalRules env pre text ;;
           highlightHeadline text ;;
           after <- call HighlightingRulesAfter ;;
           highlightAdditionalRules env after text
         else Ret tt)%prog
        (fun _ => around h0).
Proof.
  intros E0 E1 E2.
  destruct (QString.isEmpty text) eqn:N; cbn [negb]; [apply hoare_ret |].
  apply (hoare_bind _ (fun _ => around h0)); [apply markup_around; scan | intros pre].
  apply (hoare_bind _ (fun _ => around h0));
    [apply markup_around, highlightAdditionalRules_markup | intros _].
  apply (hoare_bind _ (fun _ => around h0));
    [apply highlightHeadline_around; assumption | intros _].
  apply (hoare_bind _ (fun _ => around h0)); [apply markup_around; scan | intros after].
  apply markup_around, highlightAdditionalRules_markup.
Qed.

(** The first two statements of [highlightBlock]. *)
Lemma resetState_around (h0 : Highlighter) {B : Type} (f : Prog B)
      (Q : B -> Highlighter -> Prop) :
  hoare (around h0) f Q ->
  hoare (fun h => h = h0)
        (setCurrentBlockState NoState ;;
         call (BlockSetUserState Current NoState) ;; f)%prog Q.
Proof.
  intros Hf.
  apply (hoare_bind _ (fun _ => around h0)).
  { apply (hoare_consequence (around h0) _ (fun _ => around h0)).
    - intros h E. subst. apply around_refl.
    - auto.
    - apply markup_around. scan. }
  intros _. apply (hoare_bind _ (fun _ => around h0));
    [apply markup_around; scan | intros _].
  exact Hf.
Qed.

Section LineOfCode.

Variable env : Environment.
Variable h0 : Highlighter.
Variable text : string.

Hypothesis previous_code : isCodeBlockState (stateOf h0 Previous) = true.
Hypothesis no_fence : QString.startsWith text "```" = false.

(** The rules and the headline leave the state of the line above. *)
Lemma rules_and_headline_around :
  hoare (around h0)
        (if negb (QString.isEmpty text) then
           pre <- call HighlightingRulesPre ;;
           highlightAdditionalRules env pre text ;;
           highlightHeadline text ;;
           after <- call HighlightingRulesAfter ;;
           highlightAdditionalRules env after text
         else Ret tt)%prog
        (fun _ => around h0).
Proof. apply rules_and_headline_idle; apply code_state_other; auto. Qed.

Lemma highlightCodeBlock_language :
  leads (around h0) (highlightCodeBlock env text)
        (inLanguage (stateOf h0 Previous)).
Proof.
  intros h A. unfold highlightCodeBlock. rewrite no_fence.
  rewrite run_bind_previousBlockState, (proj2 A), previous_code.
  apply keeps_bind_at; [| intros _; apply highlightSyntax_language].
  unfold setCurrentBlockState, call. rewrite run_Do. cbn [run fst snd].
  fold_setState. split.
  - rewrite stateOf_setState_Current_Previous. apply A.
  - rewrite stateOf_setState_same, (around_isValidRef h0 h Current A).
    rewrite (code_state_valid h0 previous_code). apply sameLanguage_refl.
Qed.

(** The line above is in no front matter, and the line is not the first. *)
Lemma highlightFrontmatterBlock_language :
  keeps (inLanguage (stateOf h0 Previous)) (highlightFrontmatterBlock text).
Proof.
  intros h J.
  assert (F : (stateOf h Previous =? FrontmatterBlock) = false).
  { rewrite (proj1 J). apply code_state_other; auto. }
  unfold highlightFrontmatterBlock, call. cbn [bind]. rewrite run_Do.
  cbn [perform fst snd]. fold_stateOf.
  destruct (negb (String.eqb (textOf h First) "---")); [exact J |].
  destruct (String.eqb text "---").
  - change (Do (BlockUserState Previous) (fun x => Ret x)) with previousBlockState.
    rewrite run_bind_previousBlockState, F. rewrite run_Do.
    cbn [perform fst snd negb andb].
    destruct (blockNumber h First =? blockNumber h Current) eqn:E; [| exact J].
    apply first_is_current in E. rewrite (proj1 J) in E.
    rewrite E in previous_code. discriminate.
  - change (Do (BlockUserState Previous) (fun x => Ret x)) with previousBlockState.
    rewrite run_bind_previousBlockState, F. exact J.
Qed.

Lemma highlightBlock_language :
  leads (fun h => h = h0) (highlightBlock env text)
        (inLanguage (stateOf h0 Previous)).
Proof.
  unfold highlightBlock.
  apply (leads_bind_total _ (around h0)).
  { apply (hoare_consequence (around h0) _ (fun _ => around h0)).
    - intros h E. subst. apply around_refl.
    - auto.
    - apply markup_around. scan. }
  intros _. apply (leads_bind_total _ (around h0));
    [apply markup_around; scan | intros _].
  apply leads_bind_keeps; [| intros _; apply keeps_quiet; scan].
  unfold highlightMarkdown.
  apply (leads_bind_total _ (around h0));
    [apply rules_and_headline_around | intros _].
  apply (leads_bind_total _ (around h0));
    [apply markup_around, plain_markup, highlightCommentBlock_plain | intros _].
  apply leads_bind_keeps; [apply highlightCodeBlock_language | intros _].
  apply highlightFrontmatterBlock_language.
Qed.

End LineOfCode.

(** X9.  Below a line of a code block, a line that does not start with three
    backquotes ends in the state of the line above or in the other state,
    inside or outside a comment, of the same language: the code block goes
    on, in its language, whatever the line holds and however the scan of it
    ends. *)
Theorem code_line_keeps_language (env : Environment) (text : string)
        (h : Highlighter) :
  isCodeBlockState (stateOf h Previous) = true ->
  QString.startsWith text "```" = false ->
  sameLanguage (stateOf h Previous)
               (stateOf (fst (run (highlightBlock env text) h)) Current) = true /\
  isCodeBlockState (stateOf (fst (run (highlightBlock env text) h)) Current) = true.
Proof.
  intros C F.
  destruct (highlightBlock_language env h text C F h eq_refl) as [_ L].
  split; [exact L |]. apply (sameLanguage_code _ _ C L).
Qed.

(** X9, witness: a line that opens a comment in a block of C++. *)
Lemma code_line_keeps_language_witness :
  sameLanguage
    (stateOf (highlighterAt [("```cpp", CodeCpp); ("int x; /* to do", NoState)] 1)
             Previous)
    (stateOf (fst (run (highlightBlock sampleEnvironment "int x; /* to do")
                       (highlighterAt [("```cpp", CodeCpp);
                                       ("int x; /* to do", NoState)] 1)))
             Current) = true /\
  isCodeBlockState
    (stateOf (fst (run (highlightBlock sampleEnvironment "int x; /* to do")
                       (highlighterAt [("```cpp", CodeCpp);
                                       ("int x; /* to do", NoState)] 1)))
             Current) = true.
Proof.
  apply (code_line_keeps_language sampleEnvironment); reflexivity.
Defined.

(* ------------------------------------------------------------------------- *)
(** ** Lines inside a comment and inside a front matter *)

Lemma prefix_refl (p : string) : String.prefix p p = true.
Proof.
  induction p as [| a p IH]; [reflexivity |]. cbn [String.prefix].
  destruct (ascii_dec a a); [exact IH | congruence].
Qed.

Lemma drop_empty (n : nat) : QString.drop n EmptyString = EmptyString.
Proof. destruct n; reflexivity. Qed.

(** A string found at some position is found by the search. *)
Lemma findString_found (p : string) :
  forall (s : string) (i : Z) (n : nat),
    0 <= i -> String.prefix p (QString.drop n s) = true ->
    QString.findString p s i <> -1.
Proof.
  induction s as [| a r IH]; intros i n Hi P.
  - rewrite drop_empty in P. cbn [QString.findString]. rewrite P. lia.
  - cbn [QString.findString].
    destruct (String.prefix p (String a r)) eqn:E; [lia |].
    destruct n as [| n]; [cbn [QString.drop] in P; congruence |].
    cbn [QString.drop] in P. apply (IH (i + 1) n); [lia | exact P].
Qed.

Lemma endsWith_contains (s p : string) :
  QString.endsWith s p = true -> QString.contains s p = true.
Proof.
  unfold QString.endsWith, QString.contains, QString.indexOf. intros E.
  destruct (String.length p <=? String.length s)%nat; [| discriminate].
  apply String.eqb_eq in E. apply negb_true_iff, Z.eqb_neq.
  apply (findString_found p s 0 (String.length s - String.length p)); [lia |].
  rewrite E. apply prefix_refl.
Qed.

(** Below a line that has a state the current block is a valid one. *)
Lemma previous_state_valid (h : Highlighter) :
  stateOf h Previous <> -1 -> isValidRef h Current = true.
Proof.
  intros C. destruct (isValidRef h Current) eqn:V; [reflexivity |].
  rewrite (stateOf_invalid h Previous (blockNumber_Previous_invalid h V)) in C.
  congruence.
Qed.

(** Outside a front matter, and not on the first line,
    [highlightFrontmatterBlock] does nothing. *)
Lemma highlightFrontmatterBlock_idle (text : string) (h : Highlighter) :
  (stateOf h Previous =? FrontmatterBlock) = false ->
  stateOf h Previous <> -1 ->
  run (highlightFrontmatterBlock text) h = (h, Done tt).
Proof.
  intros F N.
  unfold highlightFrontmatterBlock, call. cbn [bind]. rewrite run_Do.
  cbn [perform fst snd]. fold_stateOf.
  destruct (negb (String.eqb (textOf h First) "---")); [reflexivity |].
  destruct (String.eqb text "---").
  - change (Do (BlockUserState Previous) (fun x => Ret x)) with previousBlockState.
    rewrite run_bind_previousBlockState, F. rewrite run_Do.
    cbn [perform fst snd negb andb].
    destruct (blockNumber h First =? blockNumber h Current) eqn:E; [| reflexivity].
    apply first_is_current in E. congruence.
  - change (Do (BlockUserState Previous) (fun x => Ret x)) with previousBlockState.
    rewrite run_bind_previousBlockState, F. reflexivity.
Qed.

(** Below a line that is in no code block, [highlightCodeBlock] sets the
    state of no block but the current one, and ends well. *)
Lemma highlightCodeBlock_around (env : Environment) (h0 : Highlighter)
      (text : string) :
  isCodeBlockState (stateOf h0 Previous) = false ->
  hoare (around h0) (highlightCodeBlock env text) (fun _ => around h0).
Proof.
  intros C. destruct (QString.startsWith text "```") eqn:F.
  - apply (hoare_obeys setsCurrentStateOnly).
    + intros c h Hc. apply perform_around. exact Hc.
    + unfold highlightCodeBlock. rewrite F. scan.
  - intros h A. rewrite highlightCodeBlock_none; [| exact F |].
    + exists tt. split; [reflexivity | exact A].
    + rewrite (proj2 A). exact C.
Qed.

Section CommentLine.

Variable env : Environment.
Variable h0 : Highlighter.
Variable text : string.

Hypothesis previous_comment : stateOf h0 Previous = Comment.
Hypothesis no_end : QString.contains (QString.trimmed text) "-->" = false.
Hypothesis no_fence : QString.startsWith text "```" = false.

Lemma comment_current_valid : isValidRef h0 Current = true.
Proof. apply previous_state_valid. rewrite previous_comment. discriminate. Qed.

Lemma highlightCommentBlock_comment :
  hoare (around h0) (highlightCommentBlock text)
        (fun _ h => around h0 h /\ stateOf h Current = Comment /\
                    endsWithAnnotation 0 (QString.length (QString.trimmed text))
                                       Comment h).
Proof.
  intros h A. unfold highlightCommentBlock. cbv zeta.
  assert (E : QString.endsWith (QString.trimmed text) "-->" = false).
  { destruct (QString.endsWith (QString.trimmed text) "-->") eqn:E;
      [| reflexivity].
    apply endsWith_contains in E. congruence. }
  rewrite no_end, E, andb_false_r.
  rewrite run_bind_previousBlockState, (proj2 A), previous_comment.
  change (Comment =? Comment) with true. cbn [negb andb]. rewrite orb_true_r.
  unfold setCurrentBlockState, setFormatOf, setFormat, call. cbn [bind].
  rewrite !run_Do. fold_setState. cbn [run fst snd].
  exists tt. split; [reflexivity |]. split; [| split].
  - repeat (apply perform_around; [exact Logic.I |]). exact A.
  - rewrite stateOf_perform_SetFormat.
    change (stateOf (fst (perform (Formats Comment) ?x)) Current)
      with (stateOf x Current).
    rewrite stateOf_setState_same, (around_isValidRef h0 h Current A).
    rewrite comment_current_valid. reflexivity.
  - eexists. eexists. split.
    + apply formatChanges_perform_SetFormat.
    + reflexivity.
Qed.

Lemma highlightBlock_comment :
  hoare (fun h => h = h0) (highlightBlock env text)
        (fun _ h => stateOf h Current = Comment /\
                    endsWithAnnotation 0 (QString.length (QString.trimmed text))
                                       Comment h).
Proof.
  unfold highlightBlock. apply resetState_around.
  apply (hoare_bind _ (fun _ h => around h0 h /\ stateOf h Current = Comment /\
                          endsWithAnnotation
                            0 (QString.length (QString.trimmed text)) Comment h)).
  - unfold highlightMarkdown.
    apply (hoare_bind _ (fun _ => around h0)).
    { apply rules_and_headline_idle; rewrite previous_comment; reflexivity. }
    intros _.
    apply (hoare_bind _ (fun _ h => around h0 h /\ stateOf h Current = Comment /\
                            endsWithAnnotation
                              0 (QString.length (QString.trimmed text)) Comment h));
      [apply highlightCommentBlock_comment | intros _].
    intros h (A & S & F).
    assert (P : stateOf h Previous = Comment)
      by (rewrite (proj2 A); exact previous_comment).
    rewrite (run_bind_done _ _ h h tt).
    + rewrite highlightFrontmatterBlock_idle; [| rewrite P; reflexivity
                                               | rewrite P; discriminate].
      exists tt. auto.
    + apply highlightCodeBlock_none; [exact no_fence | rewrite P; reflexivity].
  - intros _ h (_ & S & F). unfold call. rewrite run_Do. cbn [run fst snd].
    exists tt. split; [reflexivity |].
    rewrite stateOf_perform_SetHighlightingFinished. split; [exact S |].
    destruct F as [l [f [F1 F2]]]. exists l, f.
    rewrite formatChanges_perform_SetHighlightingFinished. auto.
Qed.

End CommentLine.

Section FrontmatterLine.

Variable env : Environment.
Variable h0 : Highlighter.
Variable text : string.

Hypothesis in_frontmatter : inFrontmatter h0 = true.

Lemma frontmatter_first : String.eqb (textOf h0 First) "---" = true.
Proof.
  unfold inFrontmatter in in_frontmatter.
  apply andb_true_iff in in_frontmatter. tauto.
Qed.

Lemma frontmatter_previous : stateOf h0 Previous = FrontmatterBlock.
Proof.
  unfold inFrontmatter in in_frontmatter.
  apply andb_true_iff in in_frontmatter. apply Z.eqb_eq. tauto.
Qed.

Lemma frontmatter_current_valid : isValidRef h0 Current = true.
Proof. apply previous_state_valid. rewrite frontmatter_previous. discriminate. Qed.

Lemma highlightFrontmatterBlock_inside :
  hoare (around h0) (highlightFrontmatterBlock text)
        (fun _ h => stateOf h Current = frontmatterState text /\
                    endsWithMasked text h).
Proof.
  intros h A. unfold highlightFrontmatterBlock, frontmatterState.
  cbn [bind call]. rewrite run_Do. cbn [perform fst snd]. fold_stateOf.
  rewrite (around_textOf h0 h First A), frontmatter_first. cbn [negb].
  assert (Step : forall s : Z,
             exists a,
               snd (run (setCurrentBlockState s ;;
                         setFormatOf 0 (QString.length text) MaskedSyntax)%prog h)
               = Done a /\
               stateOf (fst (run (setCurrentBlockState s ;;
                         setFormatOf 0 (QString.length text) MaskedSyntax)%prog h))
                       Current = s /\
               endsWithMasked text
                 (fst (run (setCurrentBlockState s ;;
                         setFormatOf 0 (QString.length text) MaskedSyntax)%prog h))).
  { intros s. unfold setCurrentBlockState, setFormatOf, setFormat, call.
    cbn [bind]. rewrite !run_Do. fold_setState. cbn [run fst snd].
    exists tt. split; [reflexivity |]. split.
    - rewrite stateOf_perform_SetFormat.
      change (stateOf (fst (perform (Formats MaskedSyntax) ?x)) Current)
        with (stateOf x Current).
      rewrite stateOf_setState_same, (around_isValidRef h0 h Current A).
      rewrite frontmatter_current_valid. reflexivity.
    - eexists. eexists. split.
      + apply formatChanges_perform_SetFormat.
      + reflexivity. }
  destruct (String.eqb text "---").
  - rewrite run_bind_previousBlockState, (proj2 A), frontmatter_previous.
    change (FrontmatterBlock =? FrontmatterBlock) with true.
    rewrite run_Do. cbn [perform fst snd negb andb]. apply Step.
  - rewrite run_bind_previousBlockState, (proj2 A), frontmatter_previous.
    change (FrontmatterBlock =? FrontmatterBlock) with true. cbv iota.
    apply Step.
Qed.

Lemma highlightBlock_frontmatter :
  hoare (fun h => h = h0) (highlightBlock env text)
        (fun _ h => stateOf h Current = frontmatterState text /\
                    endsWithMasked text h).
Proof.
  unfold highlightBlock. apply resetState_around.
  apply (hoare_bind _ (fun _ h => stateOf h Current = frontmatterState text /\
                                  endsWithMasked text h)).
  - unfold highlightMarkdown.
    apply (hoare_bind _ (fun _ => around h0)).
    { apply rules_and_headline_idle; rewrite frontmatter_previous; reflexivity. }
    intros _.
    apply (hoare_bind _ (fun _ => around h0));
      [apply markup_around, plain_markup, highlightCommentBlock_plain | intros _].
    apply (hoare_bind _ (fun _ => around h0)).
    { apply highlightCodeBlock_around. rewrite frontmatter_previous. reflexivity. }
    intros _. apply highlightFrontmatterBlock_inside.
  - intros _ h [S M]. unfold call. rewrite run_Do. cbn [run fst snd]. exists tt.
    split; [reflexivity |].
    rewrite stateOf_perform_SetHighlightingFinished. split; [exact S |].
    destruct M as [l [f [M1 M2]]]. exists l, f.
    rewrite formatChanges_perform_SetHighlightingFinished. auto.
Qed.

End FrontmatterLine.

(** X10.  Below a line inside a comment, a line that holds no [-->] and does
    not start with three backquotes stays inside the comment: the pass ends
    well, in the state [Comment], and the format set last is that of
    [Comment], from the start of the line and as long as the line without
    the spaces around it. *)
Theorem comment_line_stays_comment (env : Environment) (text : string)
        (h : Highlighter) :
  stateOf h Previous = Comment ->
  QString.contains (QString.trimmed text) "-->" = false ->
  QString.startsWith text "```" = false ->
  snd (run (highlightBlock env text) h) = Done tt /\
  stateOf (fst (run (highlightBlock env text) h)) Current = Comment /\
  endsWithAnnotation 0 (QString.length (QString.trimmed text)) Comment
                     (fst (run (highlightBlock env text) h)).
Proof.
  intros P E F.
  destruct (highlightBlock_comment env h text P E F h eq_refl) as [[] [D [S A]]].
  auto.
Qed.

(** X11.  Inside a front matter (the document starts with [---] and the line
    above is in the state [FrontmatterBlock]) every line is masked as a
    whole, whatever it holds; the line [---] ends the front matter, in the
    state [FrontmatterBlockEnd], and any other line goes on with it, in the
    state [FrontmatterBlock]. *)
Theorem frontmatter_line_is_masked (env : Environment) (text : string)
        (h : Highlighter) :
  inFrontmatter h = true ->
  snd (run (highlightBlock env text) h) = Done tt /\
  stateOf (fst (run (highlightBlock env text) h)) Current = frontmatterState text /\
  endsWithMasked text (fst (run (highlightBlock env text) h)).
Proof.
  intros F.
  destruct (highlightBlock_frontmatter env h text F h eq_refl) as [[] [D [S M]]].
  auto.
Qed.

(** X10, witness: the second line of a comment of three lines. *)
Lemma comment_line_stays_comment_witness :
  snd (run (highlightBlock sampleEnvironment "  # not a heading")
           (highlighterAt [("<!-- one", Comment); ("  # not a heading", NoState)] 1))
  = Done tt /\
  stateOf (fst (run (highlightBlock sampleEnvironment "  # not a heading")
                    (highlighterAt [("<!-- one", Comment);
                                    ("  # not a heading", NoState)] 1)))
          Current = Comment /\
  endsWithAnnotation
    0 (QString.length (QString.trimmed "  # not a heading")) Comment
    (fst (run (highlightBlock sampleEnvironment "  # not a heading")
              (highlighterAt [("<!-- one", Comment);
                              ("  # not a heading", NoState)] 1))).
Proof.
  apply (comment_line_stays_comment sampleEnvironment); reflexivity.
Defined.

(** X11, witness: the line that closes a front matter. *)
Lemma frontmatter_line_is_masked_witness :
  snd (run (highlightBlock sampleEnvironment "---")
           (highlighterAt [("---", FrontmatterBlock);
                           ("title: x", FrontmatterBlock); ("---", NoState)] 2))
  = Done tt /\
  stateOf (fst (run (highlightBlock sampleEnvironment "---")
                    (highlighterAt [("---", FrontmatterBlock);
                                    ("title: x", FrontmatterBlock);
                                    ("---", NoState)] 2)))
          Current = frontmatterState "---" /\
  endsWithMasked "---"
    (fst (run (highlightBlock sampleEnvironment "---")
              (highlighterAt [("---", FrontmatterBlock);
                              ("title: x", FrontmatterBlock);
                              ("---", NoState)] 2))).
Proof.
  apply (frontmatter_line_is_masked sampleEnvironment). reflexivity.
Defined.

(* ------------------------------------------------------------------------- *)
(** ** An underline makes the line above a heading *)

Lemma perform_aroundWithFormats (h0 : Highlighter) (c : Call) (h : Highlighter) :
  markupCall c -> aroundWithFormats h0 h ->
  aroundWithFormats h0 (fst (perform c h)).
Proof.
  intros (C & F & _) [A E]. split.
  - apply perform_around; assumption.
  - apply perform_keepsFormats; assumption.
Qed.

Lemma markup_aroundWithFormats (h0 : Highlighter) {A : Type} (p : Prog A) :
  obeys markup p ->
  hoare (aroundWithFormats h0) p (fun _ => aroundWithFormats h0).
Proof. apply hoare_obeys. apply perform_aroundWithFormats. Qed.

Lemma perform_underlined (state : Z) (a : Annotation) (c : Call)
      (h : Highlighter) :
  setsCurrentStateOnly c -> underlined state a h ->
  underlined state a (fst (perform c h)).
Proof.
  intros Hc [S F]. split.
  - rewrite (proj2 (perform_around h c h Hc (around_refl h))). exact S.
  - destruct (ext_formats _ _ (perform_Extends c h)) as [l E]. rewrite E.
    apply in_or_app. left. exact F.
Qed.

Lemma markup_underlined (state : Z) (a : Annotation) {A : Type} (p : Prog A) :
  obeys markup p ->
  hoare (underlined state a) p (fun _ => underlined state a).
Proof.
  intros Hp. apply (hoare_obeys setsCurrentStateOnly).
  - apply perform_underlined.
  - revert Hp. apply obeys_discipline; [unfold markupCall; tauto | tauto].
Qed.

Lemma hasOnlyHeadChars_first (text : string) (c : ascii) :
  hasOnlyHeadChars text c = true -> exists r, text = String c r.
Proof.
  unfold hasOnlyHeadChars. destruct text as [| a r]; [discriminate |].
  cbn [QString.isEmpty allChars]. intros E. apply andb_true_iff in E.
  destruct E as [E _]. apply Ascii.eqb_eq in E. subst a. eauto.
Qed.

Lemma underlineState_first (text : string) (state : Z) :
  underlineState text = Some state ->
  exists c r, text = String c r /\ (c = "="%char \/ c = "-"%char).
Proof.
  unfold underlineState. intros E.
  destruct (hasOnlyHeadChars text "=") eqn:E1.
  - destruct (hasOnlyHeadChars_first _ _ E1) as [r R]. eauto.
  - destruct (hasOnlyHeadChars text "-") eqn:E2; [| discriminate].
    destruct (hasOnlyHeadChars_first _ _ E2) as [r R]. eauto.
Qed.

(** On an underline, [highlightHeadline] is [highlightSubHeadline]. *)
Lemma highlightHeadline_underline (text : string) (state : Z) :
  underlineState text = Some state ->
  highlightHeadline text = highlightSubHeadline text state.
Proof.
  intros E. destruct (underlineState_first text state E) as [c [r [T C]]].
  unfold underlineState in E. unfold highlightHeadline.
  rewrite T at 1. change (charAt (String c r) 0) with (Ret (A := ascii) c).
  cbn [bind]. cbv zeta.
  assert (H : Ascii.eqb c "#" = false) by (destruct C; subst c; reflexivity).
  rewrite H. cbn [bind]. change (0 <? 0) with false. cbv iota.
  destruct (hasOnlyHeadChars text "="); [congruence |].
  destruct (hasOnlyHeadChars text "-"); [congruence | discriminate].
Qed.

(** The underline below a line of text that is no heading yet, or is one of
    the level of the underline. *)
Lemma highlightSubHeadline_marks (text : string) (state : Z) (h : Highlighter) :
  stateOf h Previous = NoState \/ stateOf h Previous = state ->
  QString.isEmpty (textOf h Previous) = false ->
  snd (run (highlightSubHeadline text state) h) = Done tt /\
  underlined state
             (mkAnnotation 0 (QString.length text)
                           (underlineFormat (_formats h) state))
             (fst (run (highlightSubHeadline text state) h)).
Proof.
  intros P T. rewrite highlightSubHeadline_run.
  assert (L : (0 <? QString.length (textOf h Previous)) = true).
  { apply Z.ltb_lt. apply length_not_empty. exact T. }
  assert (C : ((stateOf h Previous =? state) || (stateOf h Previous =? NoState))
              = true).
  { destruct P as [P | P]; rewrite P, Z.eqb_refl; [apply orb_true_r | reflexivity]. }
  unfold highlightSubHeadlineDirect, previousBlockState, setCurrentBlockState,
    setFormat.
  run_steps. rewrite C, L. cbn [andb]. run_steps.
  unfold call. rewrite run_Do. fold_setState. cbn [run fst snd].
  split; [reflexivity |]. split.
  - rewrite stateOf_setState_same, isValidRef_setState.
    match goal with
    | |- context [isValidRef (withFormatChanges h ?l) Previous] =>
        change (isValidRef (withFormatChanges h l) Previous)
          with (isValidRef h Previous)
    end.
    rewrite (textOf_valid h Previous L). reflexivity.
  - unfold setState.
    cbn [perform fst withDocument withFormatChanges formatChanges].
    apply in_or_app. right. left. reflexivity.
Qed.

Section Underline.

Variable env : Environment.
Variable h0 : Highlighter.
Variable text : string.
Variable state : Z.

Hypothesis level : underlineState text = Some state.
Hypothesis previous_state :
  stateOf h0 Previous = NoState \/ stateOf h0 Previous = state.
Hypothesis title : QString.isEmpty (textOf h0 Previous) = false.

Lemma underline_heading_state : state = H1 \/ state = H2.
Proof.
  unfold underlineState in level.
  destruct (hasOnlyHeadChars text "="); [left; congruence |].
  destruct (hasOnlyHeadChars text "-"); [right; congruence | discriminate].
Qed.

Lemma underline_not_empty : QString.isEmpty text = false.
Proof.
  destruct (underlineState_first text state level) as [c [r [T _]]].
  rewrite T. reflexivity.
Qed.

Lemma underline_no_fence : QString.startsWith text "```" = false.
Proof.
  destruct (underlineState_first text state level) as [c [r [T C]]].
  rewrite T. destruct C; subst c; reflexivity.
Qed.

Lemma highlightHeadline_marks :
  hoare (aroundWithFormats h0) (highlightHeadline text)
        (fun _ => underlined state
                    (mkAnnotation 0 (QString.length text)
                                  (underlineFormat (_formats h0) state))).
Proof.
  intros h [A F]. rewrite (highlightHeadline_underline text state level).
  destruct (highlightSubHeadline_marks text state h) as [D U].
  - rewrite (proj2 A). exact previous_state.
  - rewrite (around_textOf h0 h Previous A). exact title.
  - exists tt. split; [exact D |]. rewrite F in U. exact U.
Qed.

Lemma highlightCodeBlock_underlined (a : Annotation) :
  hoare (underlined state a) (highlightCodeBlock env text)
        (fun _ => underlined state a).
Proof.
  intros h U. rewrite highlightCodeBlock_none.
  - exists tt. split; [reflexivity | exact U].
  - exact underline_no_fence.
  - rewrite (proj1 U). destruct underline_heading_state as [E | E]; rewrite E;
      reflexivity.
Qed.

Lemma highlightBlock_underline :
  hoare (fun h => h = h0) (highlightBlock env text)
        (fun _ => underlined state
                    (mkAnnotation 0 (QString.length text)
                                  (underlineFormat (_formats h0) state))).
Proof.
  set (a := mkAnnotation 0 (QString.length text)
                         (underlineFormat (_formats h0) state)).
  unfold highlightBlock.
  apply (hoare_bind _ (fun _ => aroundWithFormats h0)).
  { apply (hoare_consequence (aroundWithFormats h0) _
                             (fun _ => aroundWithFormats h0)).
    - intros h E. subst. split; [apply around_refl | reflexivity].
    - auto.
    - apply markup_aroundWithFormats. scan. }
  intros _. apply (hoare_bind _ (fun _ => aroundWithFormats h0));
    [apply markup_aroundWithFormats; scan | intros _].
  apply (hoare_bind _ (fun _ => underlined state a));
    [| intros _; apply markup_underlined; scan].
  unfold highlightMarkdown. rewrite underline_not_empty. cbn [negb].
  apply (hoare_bind _ (fun _ => underlined state a)).
  { apply (hoare_bind _ (fun _ => aroundWithFormats h0));
      [apply markup_aroundWithFormats; scan | intros pre].
    apply (hoare_bind _ (fun _ => aroundWithFormats h0));
      [apply markup_aroundWithFormats, highlightAdditionalRules_markup | intros _].
    apply (hoare_bind _ (fun _ => underlined state a));
      [apply highlightHeadline_marks | intros _].
    apply (hoare_bind _ (fun _ => underlined state a));
      [apply markup_underlined; scan | intros after].
    apply markup_underlined, highlightAdditionalRules_markup. }
  intros _.
  apply (hoare_bind _ (fun _ => underlined state a));
    [apply markup_underlined, plain_markup, highlightCommentBlock_plain | intros _].
  apply (hoare_bind _ (fun _ => underlined state a));
    [apply highlightCodeBlock_underlined | intros _].
  apply markup_underlined, plain_markup, highlightFrontmatterBlock_plain.
Qed.

End Underline.

(** X12.  A line made of [=] alone, or of [-] alone, below a line of text
    that has no state yet or is a heading of that level already, makes the
    line above a heading: the pass ends well, the line above is left in the
    state [H1], or [H2], and the underline is given the format of
    [MaskedSyntax] at the size of that heading, over the whole of it. *)
Theorem underline_marks_title (env : Environment) (text : string) (state : Z)
        (h : Highlighter) :
  underlineState text = Some state ->
  stateOf h Previous = NoState \/ stateOf h Previous = state ->
  QString.isEmpty (textOf h Previous) = false ->
  snd (run (highlightBlock env text) h) = Done tt /\
  stateOf (fst (run (highlightBlock env text) h)) Previous = state /\
  In (mkAnnotation 0 (QString.length text) (underlineFormat (_formats h) state))
     (formatChanges (fst (run (highlightBlock env text) h))).
Proof.
  intros L P T.
  destruct (highlightBlock_underline env h text state L P T h eq_refl)
    as [[] [D [S A]]].
  auto.
Qed.

(** X12, witness: a line of [-] below a line of text. *)
Lemma underline_marks_title_witness :
  snd (run (highlightBlock sampleEnvironment "-----")
           (highlighterAt [("Title", NoState); ("-----", NoState)] 1)) = Done tt /\
  stateOf (fst (run (highlightBlock sampleEnvironment "-----")
                    (highlighterAt [("Title", NoState); ("-----", NoState)] 1)))
          Previous = H2 /\
  In (mkAnnotation 0 (QString.length "-----")
        (underlineFormat
           (_formats (highlighterAt [("Title", NoState); ("-----", NoState)] 1))
           H2))
     (formatChanges
        (fst (run (highlightBlock sampleEnvironment "-----")
                  (highlighterAt [("Title", NoState); ("-----", NoState)] 1)))).
Proof.
  apply (underline_marks_title sampleEnvironment).
  - reflexivity.
  - left. reflexivity.
  - reflexivity.
Defined.

(* ------------------------------------------------------------------------- *)
(** ** The line above an underline is a heading *)

(** A part of a pass that does nothing keeps what holds. *)
Lemma hoare_idle {A : Type} (Q : Highlighter -> Prop) (p : Prog A) (a : A) :
  (forall h, Q h -> run p h = (h, Done a)) -> hoare Q p (fun _ => Q).
Proof.
  intros H h Qh. rewrite (H h Qh). exists a. split; [reflexivity | exact Qh].
Qed.

Lemma run_done {A : Type} (p : Prog A) (h : Highlighter) (a : A) :
  snd (run p h) = Done a -> run p h = (fst (run p h), Done a).
Proof. destruct (run p h); simpl; intros ->; reflexivity. Qed.

Lemma underlineState_H1_or_H2 (text : string) (state : Z) :
  underlineState text = Some state ->
  (state = H1 /\ hasOnlyHeadChars text "=" = true) \/
  (state = H2 /\ hasOnlyHeadChars text "=" = false /\
   hasOnlyHeadChars text "-" = true).
Proof.
  unfold underlineState. intros E.
  destruct (hasOnlyHeadChars text "="); [left; split; congruence |].
  destruct (hasOnlyHeadChars text "-"); [| discriminate].
  right. repeat split; congruence.
Qed.

Lemma not_both_underlines (text : string) :
  hasOnlyHeadChars text "=" = true -> hasOnlyHeadChars text "-" = false.
Proof.
  intros E. destruct (hasOnlyHeadChars_first _ _ E) as [r R]. subst text.
  reflexivity.
Qed.

(** On a line that starts with no [#] and is no underline,
    [highlightHeadline] looks at the next line only. *)
Lemma highlightHeadline_not_heading (text : string) :
  QString.isEmpty text = false ->
  QString.startsWith text "#" = false ->
  hasOnlyHeadChars text "=" = false -> hasOnlyHeadChars text "-" = false ->
  highlightHeadline text =
  (nextBlockText <- call (BlockText Next) ;;
   (if hasOnlyHeadChars nextBlockText "=" then
      setFormatOf 0 (QString.length text) H1 ;;
      setCurrentBlockState H1 ;;
      call (BlockSetUserState Current H1)
    else Ret tt) ;;
   (if hasOnlyHeadChars nextBlockText "-" then
      setFormatOf 0 (QString.length text) H2 ;;
      setCurrentBlockState H2 ;;
      call (BlockSetUserState Current H2)
    else Ret tt))%prog.
Proof.
  intros N P1 P2 P3.
  destruct (startsWith_char_false "#" text N P1) as [a [r [T A]]].
  unfold highlightHeadline. rewrite P2, P3. rewrite T at 1.
  change (charAt (String a r) 0) with (Ret (A := ascii) a).
  cbn [bind]. cbv zeta. rewrite A. cbn [bind].
  change (0 <? 0) with false. cbv iota. reflexivity.
Qed.

Section TitleLine.

Variable env : Environment.
Variable h0 : Highlighter.
Variable text : string.
Variable state : Z.

Hypothesis current_valid : isValidRef h0 Current = true.
Hypothesis next_underline : underlineState (textOf h0 Next) = Some state.
Hypothesis not_empty : QString.isEmpty text = false.
Hypothesis plain : plainText text = true.
Hypothesis rules_after : rulesKeepState (_highlightingRulesAfter h0).
Hypothesis outside : outsideBlocks h0 = true.

Lemma title_plain :
  QString.startsWith text "#" = false /\
  hasOnlyHeadChars text "=" = false /\ hasOnlyHeadChars text "-" = false /\
  QString.startsWith (QString.trimmed text) "<!--" = false /\
  QString.endsWith (QString.trimmed text) "-->" = false /\
  QString.startsWith text "```" = false.
Proof.
  unfold plainText in plain.
  repeat match goal with
         | H : _ && _ = true |- _ => apply andb_true_iff in H; destruct H
         | H : negb _ = true |- _ => apply negb_true_iff in H
         end.
  auto 10.
Qed.

Lemma title_outside :
  (stateOf h0 Previous =? Comment) = false /\
  isCodeBlockState (stateOf h0 Previous) = false /\
  inFrontmatter h0 = false.
Proof.
  unfold outsideBlocks in outside.
  repeat match goal with
         | H : _ && _ = true |- _ => apply andb_true_iff in H; destruct H
         | H : negb _ = true |- _ => apply negb_true_iff in H
         end.
  auto.
Qed.

Lemma highlightHeadline_title :
  hoare (around h0) (highlightHeadline text)
        (fun _ => headed h0 state (QString.length text)).
Proof.
  intros h Ar. destruct title_plain as (P1 & P2 & P3 & _).
  rewrite (highlightHeadline_not_heading text not_empty P1 P2 P3).
  unfold call. cbn [bind]. rewrite run_Do. cbn [perform fst snd]. fold_stateOf.
  rewrite (around_textOf h0 h Next Ar).
  assert (Step : forall s : Z,
             exists a0,
               snd (run (setFormatOf 0 (QString.length text) s ;;
                         setCurrentBlockState s ;;
                         Do (BlockSetUserState Current s) (fun x => Ret x))%prog h)
               = Done a0 /\
               headed h0 s (QString.length text)
                 (fst (run (setFormatOf 0 (QString.length text) s ;;
                            setCurrentBlockState s ;;
                            Do (BlockSetUserState Current s) (fun x => Ret x))%prog
                           h))).
  { intros s. unfold setFormatOf, setFormat, setCurrentBlockState, call.
    cbn [bind]. rewrite !run_Do. fold_setState. cbn [run fst snd].
    exists tt. split; [reflexivity |].
    assert (Ar' : around h0 (fst (perform
                                    (SetFormat 0 (QString.length text)
                                               (snd (perform (Formats s) h)))
                                    (fst (perform (Formats s) h))))).
    { repeat (apply perform_around; [exact Logic.I |]). exact Ar. }
    assert (Ar'' : around h0 (setState Current s
                                (fst (perform
                                    (SetFormat 0 (QString.length text)
                                               (snd (perform (Formats s) h)))
                                    (fst (perform (Formats s) h)))))).
    { apply (perform_around h0 (BlockSetUserState Current s) _ Logic.I Ar'). }
    split; [| split].
    - apply (perform_around h0 (BlockSetUserState Current s) _ Logic.I Ar'').
    - apply (stateOf_after_set h0 current_valid). exact Ar''.
    - rewrite !formatChanges_setState.
      exists (snd (perform (Formats s) h)). split; [| reflexivity].
      rewrite formatChanges_perform_SetFormat. apply in_or_app. right. left.
      reflexivity. }
  destruct (underlineState_H1_or_H2 _ _ next_underline)
    as [[S E1] | [S [E1 E2]]]; subst state.
  - rewrite E1, (not_both_underlines _ E1).
    destruct (Step H1) as [[] [D Hd]].
    rewrite (run_bind_done _ _ h _ tt (run_done _ _ _ D)). cbn [run fst snd].
    exists tt. split; [reflexivity | exact Hd].
  - rewrite E1, E2. cbn [bind]. apply Step.
Qed.

Lemma rules_and_headline_title :
  hoare (around h0)
        (if negb (QString.isEmpty text) then
           pre <- call HighlightingRulesPre ;;
           highlightAdditionalRules env pre text ;;
           highlightHeadline text ;;
           after <- call HighlightingRulesAfter ;;
           highlightAdditionalRules env after text
         else Ret tt)%prog
        (fun _ => headed h0 state (QString.length text)).
Proof.
  rewrite not_empty. cbn [negb].
  apply (hoare_bind _ (fun _ => around h0)); [apply markup_around; scan | intros pre].
  apply (hoare_bind _ (fun _ => around h0));
    [apply markup_around, highlightAdditionalRules_markup | intros _].
  apply (hoare_bind _ (fun _ => headed h0 state (QString.length text)));
    [apply highlightHeadline_title | intros _].
  intros h Hd. rewrite run_bind_rulesAfter.
  rewrite (ext_after _ _ (proj1 (proj1 Hd))).
  apply (keepingStates_headed h0 state (QString.length text)); [| exact Hd].
  apply highlightAdditionalRules_keepingStates. exact rules_after.
Qed.

(** The blocks leave the line alone. *)
Lemma blocks_title :
  hoare (headed h0 state (QString.length text))
        (highlightCommentBlock text ;;
         highlightCodeBlock env text ;;
         highlightFrontmatterBlock text)%prog
        (fun _ => headed h0 state (QString.length text)).
Proof.
  destruct title_plain as (_ & _ & P3 & P4 & P5 & P6).
  destruct title_outside as (O1 & O2 & O3).
  apply (hoare_idle _ _ tt). intros h Hd.
  assert (P : stateOf h Previous = stateOf h0 Previous) by apply Hd.
  rewrite (run_bind_done _ _ h h tt)
    by (apply highlightCommentBlock_none; [| | rewrite P]; assumption).
  rewrite (run_bind_done _ _ h h tt)
    by (apply highlightCodeBlock_none; [| rewrite P]; assumption).
  apply highlightFrontmatterBlock_none; [assumption |].
  unfold inFrontmatter in *.
  rewrite (around_textOf h0 h First (proj1 Hd)), P. exact O3.
Qed.

Lemma highlightBlock_title :
  hoare (fun h => h = h0) (highlightBlock env text)
        (fun _ => headed h0 state (QString.length text)).
Proof.
  unfold highlightBlock. apply resetState_around.
  apply (hoare_bind _ (fun _ => headed h0 state (QString.length text)));
    [| intros _; apply keepingStates_headed; scan].
  unfold highlightMarkdown.
  apply (hoare_bind _ (fun _ => headed h0 state (QString.length text)));
    [apply rules_and_headline_title | intros _; apply blocks_title].
Qed.

End TitleLine.

(** X13.  A line of text above an underline is a heading.  Let the current
    block be a block of the document and the next line be made of [=] alone
    (for [H1]) or of [-] alone (for [H2]); let the line not be empty, start
    with no [#] and with no three backquotes, be made neither of [=] alone
    nor of [-] alone, and let its trimmed text neither start with the opening
    [<!--] of a comment nor end with the closing [-->]; let the previous line
    be in neither the state [Comment] nor the state of a code block, nor in
    the state [FrontmatterBlock] of a document that starts with [---]; and
    let no rule tried after the headline set the state of the line (as is
    the case of the rules of the constructor).  Then the line ends in the
    state [H1], or [H2], a format of the style of that heading is set over
    the whole of it, and the pass ends well. *)
Theorem title_line_is_heading (env : Environment) (text : string) (state : Z)
        (h : Highlighter) :
  isValidRef h Current = true ->
  underlineState (textOf h Next) = Some state ->
  QString.isEmpty text = false -> plainText text = true ->
  rulesKeepState (_highlightingRulesAfter h) ->
  outsideBlocks h = true ->
  snd (run (highlightBlock env text) h) = Done tt /\
  stateOf (fst (run (highlightBlock env text) h)) Current = state /\
  hasAnnotation 0 (QString.length text) state
                (formatChanges (fst (run (highlightBlock env text) h))).
Proof.
  intros V U N P R O.
  destruct (highlightBlock_title env h text state V U N P R O h eq_refl)
    as [[] [D [_ [S A]]]].
  auto.
Qed.

(** X13, witness: the line [Title] above a line of [=]. *)
Lemma title_line_is_heading_witness :
  snd (run (highlightBlock sampleEnvironment "Title")
           (highlighterAt [("Title", NoState); ("=====", NoState)] 0)) = Done tt /\
  stateOf (fst (run (highlightBlock sampleEnvironment "Title")
                    (highlighterAt [("Title", NoState); ("=====", NoState)] 0)))
          Current = H1 /\
  hasAnnotation 0 (QString.length "Title") H1
    (formatChanges
       (fst (run (highlightBlock sampleEnvironment "Title")
                 (highlighterAt [("Title", NoState); ("=====", NoState)] 0)))).
Proof.
  apply (title_line_is_heading sampleEnvironment); try reflexivity.
  vm_compute. repeat constructor.
Defined.

(* ------------------------------------------------------------------------- *)
(** ** The INI highlighter reads inside the line and ends *)

Lemma get_drop (s : string) :
  forall n a, String.get n s = Some a -> exists r, QString.drop n s = String a r.
Proof.
  induction s as [| b r IH]; intros [| n] a G; simpl in *; try discriminate.
  - inversion G. eauto.
  - apply IH. exact G.
Qed.

Lemma get_length (s : string) :
  forall n a, String.get n s = Some a -> (n < String.length s)%nat.
Proof.
  induction s as [| b r IH]; intros [| n] a G; simpl in *; try discriminate.
  - lia.
  - apply IH in G. lia.
Qed.

Lemma length_drop (s : string) :
  forall n, (n <= String.length s)%nat ->
            String.length (QString.drop n s) = (String.length s - n)%nat.
Proof.
  induction s as [| b r IH]; intros [| n] L; simpl in *; try lia.
  apply IH. lia.
Qed.

Lemma findChar_range (c : ascii) (s : string) :
  forall i, 0 <= i ->
            QString.findChar c s i = -1 \/
            i <= QString.findChar c s i < i + Z.of_nat (String.length s).
Proof.
  induction s as [| a r IH]; intros i Hi; cbn [QString.findChar String.length].
  - left. reflexivity.
  - destruct (Ascii.eqb a c); [right; lia |].
    destruct (IH (i + 1)) as [E | E]; [lia | left; exact E | right; lia].
Qed.

(** The search for a character from a position that holds another one finds
    nothing, or a position behind it and inside the string. *)
Lemma indexOfChar_behind (s : string) (c a : ascii) (from : Z) :
  QString.charAt s from = Some a -> Ascii.eqb a c = false ->
  QString.indexOfChar s c from = -1 \/
  from < QString.indexOfChar s c from < QString.length s.
Proof.
  unfold QString.charAt, QString.indexOfChar, QString.length. intros G E.
  destruct (from <? 0) eqn:N; [discriminate |]. apply Z.ltb_ge in N.
  pose proof (get_length _ _ _ G) as L.
  destruct (get_drop _ _ _ G) as [r D].
  destruct (from <? Z.of_nat (String.length s)); [| left; reflexivity].
  rewrite D. cbn [QString.findChar]. rewrite E.
  pose proof (length_drop s (Z.to_nat from) ltac:(lia)) as LD.
  rewrite D in LD. cbn [String.length] in LD.
  destruct (findChar_range c r (from + 1)) as [F | F]; [lia | left; exact F |].
  right. lia.
Qed.

Lemma charAt_Ret (text : string) (i : Z) (c : ascii) :
  charAt text i = Ret c -> QString.charAt text i = Some c.
Proof.
  unfold charAt. destruct (QString.charAt text i); intros E;
    [inversion E; reflexivity | discriminate].
Qed.

Lemma geb_false (x y : Z) : (x >=? y) = false -> x < y.
Proof. rewrite Z.geb_leb. apply Z.leb_gt. Qed.

Lemma letter_is_no_equals (c : ascii) :
  QChar.isLetter c = true -> Ascii.eqb c "=" = false.
Proof.
  intros L. destruct (Ascii.eqb c "=") eqn:E; [| reflexivity].
  apply Ascii.eqb_eq in E. subst c. discriminate.
Qed.

(** The calls of a program, which all answer. *)
Ltac answered :=
  repeat first
    [ progress unfold setFormat, setFormatOf
    | apply obeys_bind_call; [exact Logic.I | intros ? ?]
    | apply obeys_call; exact Logic.I ].

Lemma iniLoop_faultless (text : string) :
  forall (fuel : nat) (i : Z),
    0 <= i <= QString.length text ->
    QString.length text - i < Z.of_nat fuel ->
    obeys faultless (iniLoop fuel text i).
Proof.
  induction fuel as [| fuel IH]; intros i Hi F; [lia |].
  cbn [iniLoop]. cbv zeta.
  destruct (i <? QString.length text) eqn:L; [| exact I].
  apply Z.ltb_lt in L.
  destruct (charAt_in_range text i) as [c C]; [lia |]. rewrite C. cbn [bind].
  apply charAt_Ret in C.
  destruct (Ascii.eqb c "[") eqn:E1.
  { apply Ascii.eqb_eq in E1. subst c. answered.
    destruct (indexOfChar_behind text "]" "[" i C eq_refl) as [R | R].
    - rewrite R. change (-1 =? -1) with true. cbv iota.
      destruct (QString.length text + 1 >=? QString.length text) eqn:G;
        [exact I | apply geb_false in G; lia].
    - destruct (QString.indexOfChar text "]" i =? -1) eqn:M;
        [apply Z.eqb_eq in M; lia |].
      destruct (QString.indexOfChar text "]" i + 1 >=? QString.length text) eqn:G;
        [exact I |].
      apply geb_false in G. apply IH; lia. }
  destruct (Ascii.eqb c ";"); [answered |].
  destruct (QChar.isLetter c) eqn:E3.
  { answered.
    destruct (indexOfChar_behind text "=" c i C (letter_is_no_equals c E3))
      as [R | R].
    - rewrite R. change (-1 =? -1) with true. cbv iota.
      destruct (QString.length text - 1 >=? QString.length text) eqn:G;
        [exact I |].
      apply IH; lia.
    - destruct (QString.indexOfChar text "=" i =? -1) eqn:M;
        [apply Z.eqb_eq in M; lia |].
      destruct (QString.indexOfChar text "=" i - 1 >=? QString.length text) eqn:G;
        [exact I |].
      apply IH; lia. }
  destruct (Ascii.eqb c "=") eqn:E4; [| apply IH; lia].
  apply Ascii.eqb_eq in E4. subst c.
  destruct (indexOfChar_behind text ";" "=" i C eq_refl) as [R | R].
  - rewrite R. exact I.
  - destruct (QString.indexOfChar text ";" i =? -1) eqn:M;
      [apply Z.eqb_eq in M; lia |].
    apply IH; lia.
Qed.

Lemma iniHighlighter_faultless (text : string) :
  obeys faultless (iniHighlighter text).
Proof.
  unfold iniHighlighter. destruct (QString.isEmpty text); [exact I |].
  apply iniLoop_faultless.
  - unfold QString.length. lia.
  - rewrite loopBound_length. unfold QString.length. lia.
Qed.

(** A program that obeys two disciplines obeys both at once. *)
Lemma obeys_both (ok1 ok2 : Call -> Prop) (f1 f2 : Prop) {A : Type} (p : Prog A) :
  obeys (discipline ok1 f1) p -> obeys (discipline ok2 f2) p ->
  obeys (discipline (fun c => ok1 c /\ ok2 c) (f1 /\ f2)) p.
Proof.
  unfold obeys. induction p as [a | | | c k IH]; simpl; intros H1 H2; auto.
  destruct H1 as [C1 K1]. destruct H2 as [C2 K2]. split; [auto |].
  intros x Hx. apply IH; auto.
Qed.

Lemma perform_keepsStates_stateOf (c : Call) (h : Highlighter) (b : BlockRef) :
  keepsStates c -> stateOf (fst (perform c h)) b = stateOf h b.
Proof. intros Hc. destruct c; simpl in Hc; try contradiction; reflexivity. Qed.

Lemma keepsStates_currentOnly (c : Call) : keepsStates c -> setsCurrentStateOnly c.
Proof. destruct c; simpl; auto. intros []. Qed.

(** A program that sets no state and has no fault, in the course of a pass. *)
Lemma quiet_faultless_around (h0 : Highlighter) (s : Z) {A : Type} (p : Prog A) :
  obeys quiet p -> obeys faultless p ->
  hoare (fun h => around h0 h /\ stateOf h Current = s) p
        (fun _ h => around h0 h /\ stateOf h Current = s).
Proof.
  intros Q F. apply (hoare_obeys (fun c => keepsStates c /\ True)).
  - intros c h [K _] [Ar S]. split.
    + apply perform_around; [apply keepsStates_currentOnly; exact K | exact Ar].
    + rewrite perform_keepsStates_stateOf; assumption.
  - apply (obeys_discipline (fun c => keepsStates c /\ True)
                             (fun c => keepsStates c /\ True) (True /\ False) False);
      [tauto | tauto |].
    apply (obeys_both keepsStates (fun _ => True) True False p Q F).
Qed.

(** A block of code whose language has a highlighter of its own, [p]. *)
Section LineOfOwnHighlighter.

Variable env : Environment.
Variable h0 : Highlighter.
Variable text : string.
Variable s : Z.
Variable p : Prog unit.

Hypothesis previous_state : stateOf h0 Previous = s.
Hypothesis code_state : isCodeBlockState s = true.
Hypothesis no_fence : QString.startsWith text "```" = false.
Hypothesis selects :
  forall h, stateOf h Current = s ->
            run (highlightSyntax env text) h = run p h.
Hypothesis p_quiet : obeys quiet p.
Hypothesis p_faultless : obeys faultless p.

Lemma own_current_valid : isValidRef h0 Current = true.
Proof. apply code_state_valid. rewrite previous_state. exact code_state. Qed.

Lemma highlightSyntax_own :
  hoare (fun h => around h0 h /\ stateOf h Current = s)
        (highlightSyntax env text)
        (fun _ h => around h0 h /\ stateOf h Current = s).
Proof.
  intros h [Ar S]. rewrite (selects h S).
  apply (quiet_faultless_around h0 s); auto.
Qed.

Lemma highlightCodeBlock_own :
  hoare (around h0) (highlightCodeBlock env text)
        (fun _ h => around h0 h /\ stateOf h Current = s).
Proof.
  intros h Ar. unfold highlightCodeBlock. rewrite no_fence.
  rewrite run_bind_previousBlockState, (proj2 Ar), previous_state, code_state.
  assert (H : hoare (fun h' => h' = h)
                    (setCurrentBlockState s ;; highlightSyntax env text)%prog
                    (fun _ h' => around h0 h' /\ stateOf h' Current = s)).
  { apply (hoare_bind _ (fun _ h' => around h0 h' /\ stateOf h' Current = s));
      [| intros _; apply highlightSyntax_own].
    intros h' E. subst h'.
    unfold setCurrentBlockState, call. rewrite run_Do. cbn [run fst snd].
    fold_setState. exists tt. split; [reflexivity |]. split.
    - apply (perform_around h0 (BlockSetUserState Current s) _ Logic.I Ar).
    - apply (stateOf_after_set h0 own_current_valid). exact Ar. }
  exact (H h eq_refl).
Qed.

Lemma highlightBlock_own :
  hoare (fun h => h = h0) (highlightBlock env text)
        (fun _ h => stateOf h Current = s).
Proof.
  unfold highlightBlock. apply resetState_around.
  apply (hoare_bind _ (fun _ h => stateOf h Current = s)).
  - unfold highlightMarkdown.
    apply (hoare_bind _ (fun _ => around h0)).
    { apply rules_and_headline_idle; rewrite previous_state;
        apply code_state_other; auto. }
    intros _.
    apply (hoare_bind _ (fun _ => around h0));
      [apply markup_around, plain_markup, highlightCommentBlock_plain | intros _].
    apply (hoare_bind _ (fun _ h => around h0 h /\ stateOf h Current = s));
      [apply highlightCodeBlock_own | intros _].
    intros h [Ar S].
    assert (P : stateOf h Previous = s)
      by (rewrite (proj2 Ar); exact previous_state).
    rewrite highlightFrontmatterBlock_idle.
    + exists tt. auto.
    + rewrite P. apply code_state_other; auto.
    + rewrite P. intros E. rewrite E in code_state. discriminate.
  - intros _ h S. unfold call. rewrite run_Do. cbn [run fst snd]. exists tt.
    split; [reflexivity |].
    rewrite stateOf_perform_SetHighlightingFinished. exact S.
Qed.

End LineOfOwnHighlighter.

Lemma highlightSyntax_selects_ini (env : Environment) (text : string)
      (h : Highlighter) :
  stateOf h Current = CodeINI ->
  run (highlightSyntax env text) h = run (iniHighlighter text) h.
Proof.
  intros S. unfold highlightSyntax, iniHighlighter.
  destruct (QString.isEmpty text); [reflexivity |].
  cbv zeta. rewrite run_bind_currentBlockState, S. reflexivity.
Qed.

(** X14.  Inside a block of INI code every line is highlighted to its end:
    the scanner reads inside the line only and its loop moves forward at
    every round, so the pass ends well whatever the line holds, and the line
    that is no fence stays in the state [CodeINI]. *)
Theorem ini_line_ends_well (env : Environment) (text : string) (h : Highlighter) :
  stateOf h Previous = CodeINI ->
  QString.startsWith text "```" = false ->
  snd (run (highlightBlock env text) h) = Done tt /\
  stateOf (fst (run (highlightBlock env text) h)) Current = CodeINI.
Proof.
  intros P F.
  destruct (highlightBlock_own env h text CodeINI (iniHighlighter text) P eq_refl F
                               (highlightSyntax_selects_ini env text)
                               (iniHighlighter_quiet text)
                               (iniHighlighter_faultless text) h eq_refl)
    as [[] [D S]].
  auto.
Qed.

(** X14, witness: a section with no closing bracket. *)
Lemma ini_line_ends_well_witness :
  snd (run (highlightBlock sampleEnvironment "[section ; key = 1")
           (highlighterAt [("```ini", CodeINI); ("[section ; key = 1", NoState)] 1))
  = Done tt /\
  stateOf (fst (run (highlightBlock sampleEnvironment "[section ; key = 1")
                    (highlighterAt [("```ini", CodeINI);
                                    ("[section ; key = 1", NoState)] 1)))
          Current = CodeINI.
Proof.
  apply (ini_line_ends_well sampleEnvironment); reflexivity.
Defined.

(* ------------------------------------------------------------------------- *)
(** ** The tick of the timer *)

Lemma run_bind_Done_inv {A B : Type} (p : Prog A) (f : A -> Prog B)
      (h : Highlighter) (b : B) :
  snd (run (bind p f) h) = Done b ->
  exists a, snd (run p h) = Done a /\
            run (bind p f) h = run (f a) (fst (run p h)).
Proof.
  rewrite run_bind. destruct (run p h) as [h1 [a | |]]; cbn [fst snd];
    intros D; try discriminate.
  exists a. split; reflexivity.
Qed.

(** What holds after the second part of a program that ends well, whatever
    the first part left. *)
Lemma run_then {A B : Type} (p : Prog A) (f : A -> Prog B) (h : Highlighter)
      (b : B) (P : Highlighter -> Prop) :
  (forall a h1, snd (run (f a) h1) = Done b -> P (fst (run (f a) h1))) ->
  snd (run (bind p f) h) = Done b -> P (fst (run (bind p f) h)).
Proof.
  intros H D. destruct (run_bind_Done_inv p f h b D) as [a [_ E]].
  rewrite E in D. rewrite E. apply H. exact D.
Qed.

Lemma sameTexts_updateBlock(doc : list QTextBlock) (n : Z)
      (f : QTextBlock -> QTextBlock) :
  (forall b, blockText (f b) = blockText b) ->
  sameTexts doc (updateBlock doc n f).
Proof.
  intros H. unfold sameTexts, updateBlock.
  destruct (n <? 0); [reflexivity |]. symmetry. apply map_updateNth. exact H.
Qed.

Lemma isValidBlock_length (doc : list QTextBlock) (n : Z) :
  isValidBlock doc n = true -> List.length doc <> O.
Proof.
  unfold isValidBlock, blockAt. destruct (n <? 0); [discriminate |].
  destruct doc; [destruct (Z.to_nat n); discriminate | discriminate].
Qed.

Section Tick.

Variable env : Environment.

(** A pass that ends well has set the flag. *)
Lemma highlightBlock_finished (text : string) (h : Highlighter) :
  snd (run (highlightBlock env text) h) = Done tt ->
  _highlightingFinished (fst (run (highlightBlock env text) h)) = true.
Proof.
  unfold highlightBlock.
  apply (run_then _ _ _ _ (fun h' => _highlightingFinished h' = true)).
  intros _ h1.
  apply (run_then _ _ _ _ (fun h' => _highlightingFinished h' = true)).
  intros _ h2.
  apply (run_then _ _ _ _ (fun h' => _highlightingFinished h' = true)).
  intros _ h3 _. reflexivity.
Qed.

Lemma reformatBlock_finished (block : Z) (h : Highlighter) :
  snd (reformatBlock env block h) = Done tt ->
  _highlightingFinished (fst (reformatBlock env block h)) = true.
Proof.
  unfold reformatBlock.
  pose proof (highlightBlock_finished
                (textOfBlock
                   (document (withFormatChanges (withCurrentBlockNumber h block) []))
                   block)
                (withFormatChanges (withCurrentBlockNumber h block) [])) as F.
  destruct (run _ (withFormatChanges (withCurrentBlockNumber h block) []))
    as [h' r].
  cbn [fst snd] in *. exact F.
Qed.

Lemma reformatBlock_texts (block : Z) (h : Highlighter) :
  sameTexts (document h) (document (fst (reformatBlock env block h))).
Proof.
  unfold reformatBlock.
  pose proof (ext_texts _ _
                (run_Extends
                   (highlightBlock env
                      (textOfBlock
                         (document (withFormatChanges
                                      (withCurrentBlockNumber h block) []))
                         block))
                   (withFormatChanges (withCurrentBlockNumber h block) []))) as T.
  destruct (run _ (withFormatChanges (withCurrentBlockNumber h block) []))
    as [h' r].
  cbn [fst snd] in *. unfold sameTexts in *.
  change (document (withFormatChanges (withCurrentBlockNumber h block) []))
    with (document h) in T.
  rewrite T. unfold applyFormatChanges.
  change (document (withCurrentBlockNumber
                      (withDocument h'
                         (updateBlock (document h') (currentBlockNumber h')
                            (fun b => mkBlock (blockText b) (userState b)
                                              (formatChanges h')))) (-1)))
    with (updateBlock (document h') (currentBlockNumber h')
            (fun b => mkBlock (blockText b) (userState b) (formatChanges h'))).
  apply sameTexts_updateBlock. reflexivity.
Qed.

Lemma reformatBlocks_texts (count : nat) :
  forall block h,
    sameTexts (document h) (document (fst (reformatBlocks env count block h))).
Proof.
  induction count as [| count IH]; intros block h; cbn [reformatBlocks];
    [reflexivity |].
  destruct (isValidBlock (document h) block); [| reflexivity].
  pose proof (reformatBlock_texts block h) as T.
  destruct (reformatBlock env block h) as [h' r]. cbn [fst] in T.
  destruct r as [[] | |]; cbn [fst]; try exact T.
  destruct (userStateOfBlock (document h') block =?
            userStateOfBlock (document h) block); [exact T |].
  unfold sameTexts in *. rewrite T. apply IH.
Qed.

Lemma reformatBlocks_finished (count : nat) :
  forall block h,
    snd (reformatBlocks env count block h) = Done tt ->
    _highlightingFinished (fst (reformatBlocks env count block h)) =
    _highlightingFinished h ||
    (negb (Nat.eqb count 0) && isValidBlock (document h) block).
Proof.
  induction count as [| count IH]; intros block h; cbn [reformatBlocks].
  - intros _. cbn [fst Nat.eqb negb andb]. rewrite orb_false_r. reflexivity.
  - cbn [Nat.eqb negb andb].
    destruct (isValidBlock (document h) block);
      [| intros _; cbn [fst]; rewrite orb_false_r; reflexivity].
    pose proof (reformatBlock_finished block h) as F.
    destruct (reformatBlock env block h) as [h' r]. cbn [fst snd] in F.
    rewrite orb_true_r.
    destruct r as [[] | |]; cbn [fst snd]; try discriminate.
    specialize (F eq_refl).
    destruct (userStateOfBlock (document h') block =?
              userStateOfBlock (document h) block); [intros _; exact F |].
    intros D. rewrite (IH _ _ D), F. reflexivity.
Qed.

Lemma rehighlightBlock_texts (block : Z) (h : Highlighter) :
  sameTexts (document h) (document (fst (rehighlightBlock env block h))).
Proof.
  unfold rehighlightBlock.
  pose proof (reformatBlocks_texts (List.length (document h)) block h) as T.
  destruct (reformatBlocks env (List.length (document h)) block h) as [h' r].
  exact T.
Qed.

Lemma rehighlightBlock_finished (block : Z) (h : Highlighter) :
  snd (rehighlightBlock env block h) = Done tt ->
  _highlightingFinished (fst (rehighlightBlock env block h)) =
  _highlightingFinished h || isValidBlock (document h) block.
Proof.
  unfold rehighlightBlock.
  pose proof (reformatBlocks_finished (List.length (document h)) block h) as F.
  destruct (reformatBlocks env (List.length (document h)) block h) as [h' r].
  cbn [fst snd] in *. intros D.
  change (_highlightingFinished (withFormatChanges h' []))
    with (_highlightingFinished h').
  rewrite (F D).
  destruct (isValidBlock (document h) block) eqn:V;
    [| rewrite andb_false_r; reflexivity].
  apply isValidBlock_length in V. apply Nat.eqb_neq in V. rewrite V. reflexivity.
Qed.

Lemma existsb_valid (d1 d2 : list QTextBlock) (q : list Z) :
  sameTexts d1 d2 -> existsb (isValidBlock d2) q = existsb (isValidBlock d1) q.
Proof.
  intros T. induction q as [| n q IH]; [reflexivity |]. cbn [existsb].
  rewrite IH, (sameTexts_valid _ _ n T). reflexivity.
Qed.

(** A drain that ends well leaves an empty queue, and the flag is up after
    it when it was up before or when a block of the queue was a block of the
    document. *)
Lemma reHighlightDirtyBlocks_finished (fuel : nat) :
  forall h,
    snd (snd (reHighlightDirtyBlocks env fuel h)) = Done tt ->
    _dirtyTextBlocks (fst (snd (reHighlightDirtyBlocks env fuel h))) = [] /\
    _highlightingFinished (fst (snd (reHighlightDirtyBlocks env fuel h))) =
    _highlightingFinished h ||
    existsb (isValidBlock (document h)) (_dirtyTextBlocks h).
Proof.
  induction fuel as [| fuel IH]; intros h; cbn [reHighlightDirtyBlocks];
    [discriminate |].
  destruct (_dirtyTextBlocks h) as [| block q] eqn:Q.
  - intros _. cbn [fst snd existsb]. rewrite orb_false_r. auto.
  - pose proof (rehighlightBlock_queue env block h) as E. rewrite Q in E.
    pose proof (rehighlightBlock_finished block h) as F.
    pose proof (rehighlightBlock_texts block h) as T.
    destruct (rehighlightBlock env block h) as [h1 r]. cbn [fst snd] in E, F, T.
    destruct r as [[] | |]; cbn [fst snd]; try discriminate.
    specialize (F eq_refl).
    assert (Q' : _dirtyTextBlocks (removeFirst h1) = q).
    { unfold removeFirst. simpl. rewrite E. reflexivity. }
    specialize (IH (removeFirst h1)).
    destruct (reHighlightDirtyBlocks env fuel (removeFirst h1))
      as [events [h' r']].
    cbn [fst snd] in *. intros D. destruct (IH D) as [I1 I2].
    split; [exact I1 |]. rewrite I2, Q'.
    change (_highlightingFinished (removeFirst h1))
      with (_highlightingFinished h1).
    change (document (removeFirst h1)) with (document h1).
    rewrite F, (existsb_valid _ _ q T). cbn [existsb].
    rewrite orb_assoc. reflexivity.
Qed.

End Tick.

(** X15.  A tick of the timer ends after one round of its drain for each
    block of the queue: with more fuel than the queue is long, and when the
    re-highlighting of each block of the queue in its turn ends well, the
    tick ends well, and it leaves the queue of dirty blocks empty and the
    flag [_highlightingFinished] down; the signal [highlightingFinished]
    is emitted when the flag was up, or when a block of the queue was a block
    of the document (and so was highlighted), and in no other case. *)
Theorem timerTick_emits (env : Environment) (fuel : nat) (h : Highlighter) :
  (List.length (_dirtyTextBlocks h) < fuel)%nat ->
  rehighlightsFinish env (_dirtyTextBlocks h) h ->
  snd (snd (timerTick env fuel h)) = Done tt /\
  _dirtyTextBlocks (fst (snd (timerTick env fuel h))) = [] /\
  _highlightingFinished (fst (snd (timerTick env fuel h))) = false /\
  fst (timerTick env fuel h) =
  _highlightingFinished h ||
  existsb (isValidBlock (document h)) (_dirtyTextBlocks h).
Proof.
  intros L R. unfold timerTick.
  pose proof (reHighlightDirtyBlocks_finished env fuel h) as F.
  rewrite (reHighlightDirtyBlocks_all env fuel h L R) in F |- *.
  cbn [fst snd] in F. destruct (F eq_refl) as [Q E].
  destruct (_highlightingFinished
              (afterRehighlights env (_dirtyTextBlocks h) h)) eqn:V;
    cbn [fst snd].
  - repeat split; [exact Q | exact E].
  - repeat split; [exact Q | exact V | exact E].
Qed.

(** X15, witness: the tick after a line and its underline were queued. *)
Lemma timerTick_emits_witness :
  snd (snd (timerTick sampleEnvironment 3 queuedUnderline)) = Done tt /\
  _dirtyTextBlocks (fst (snd (timerTick sampleEnvironment 3 queuedUnderline))) = [] /\
  _highlightingFinished (fst (snd (timerTick sampleEnvironment 3 queuedUnderline)))
  = false /\
  fst (timerTick sampleEnvironment 3 queuedUnderline) =
  _highlightingFinished queuedUnderline ||
  existsb (isValidBlock (document queuedUnderline))
          (_dirtyTextBlocks queuedUnderline).
Proof.
  apply (timerTick_emits sampleEnvironment).
  - vm_compute. lia.
  - vm_compute. repeat split.
Defined.

(* ------------------------------------------------------------------------- *)
(** ** Italics between underscores are looked for on lines with an asterisk *)

Lemma run_bind_same {A B : Type} (p : Prog A) (f g : A -> Prog B)
      (h : Highlighter) :
  (forall a h1, run (f a) h1 = run (g a) h1) ->
  run (bind p f) h = run (bind p g) h.
Proof.
  intros E. rewrite !run_bind. destruct (run p h) as [h1 [a | |]]; auto.
Qed.

Lemma patternGuarded_rejected (p needle text : string) (r : HighlightingRule) :
  patternGuarded p needle r = true ->
  QString.contains text needle = false ->
  pattern r = p -> ruleMayMatch r text = false.
Proof.
  unfold patternGuarded, ruleMayMatch. intros G C P.
  rewrite P, String.eqb_refl in G. cbn [negb orb] in G.
  apply andb_true_iff in G. destruct G as [G G2].
  apply andb_true_iff in G. destruct G as [G0 G1].
  apply String.eqb_eq in G0. rewrite G0, C, G1, G2. reflexivity.
Qed.

(** The rules of a list whose rules of the pattern [p] ask for [needle], on
    a line without [needle]: the engine is not asked for [p]. *)
Lemma highlightRules_agree (p needle text : string) (env1 env2 : Environment)
      (masked : QTextCharFormat) :
  agreeBut p env1 env2 ->
  QString.contains text needle = false ->
  forall rules,
    forallb (patternGuarded p needle) rules = true ->
    forall h, run (highlightRules env1 rules masked text) h =
              run (highlightRules env2 rules masked text) h.
Proof.
  intros A C. induction rules as [| rule rest IH]; intros G h; [reflexivity |].
  cbn [forallb] in G. apply andb_true_iff in G. destruct G as [G1 G2].
  cbn [highlightRules]. rewrite !run_bind_currentBlockState.
  destruct (disableIfCurrentStateIsSet rule && negb (stateOf h Current =? NoState));
    [cbn [bind]; apply IH; exact G2 |].
  destruct (ruleMayMatch rule text) eqn:M; cbn [negb];
    [| cbn [bind]; apply IH; exact G2].
  assert (P : pattern rule <> p).
  { intros P. rewrite (patternGuarded_rejected p needle text rule G1 C P) in M.
    discriminate. }
  cbv zeta. rewrite (A (pattern rule) text P).
  apply run_bind_same. intros _ h1. apply IH. exact G2.
Qed.

(** X16.  The second rule of italics, for text between underscores, is put
    into the table before its substring is set, so it asks for an asterisk
    as the first does: on a line that holds no asterisk the engine of regular
    expressions is never asked for its pattern, and what the rules applied
    after the headline do is the same whatever that pattern would match. *)
Theorem underscore_italic_needs_asterisk (env1 env2 : Environment)
        (text : string) (h : Highlighter) :
  agreeBut underscoreItalic env1 env2 ->
  QString.contains text "*" = false ->
  (exists r, In r initHighlightingRulesAfter /\ pattern r = underscoreItalic /\
             state r = Italic /\ shouldContain0 r = "*") /\
  run (highlightAdditionalRules env1 initHighlightingRulesAfter text) h =
  run (highlightAdditionalRules env2 initHighlightingRulesAfter text) h.
Proof.
  intros A C. split.
  - exists (nth 1 initHighlightingRulesAfter (newRule NoState)).
    split; [right; left; reflexivity |]. repeat split.
  - unfold highlightAdditionalRules. rewrite !run_bind_Formats.
    apply (highlightRules_agree underscoreItalic "*"); [exact A | exact C |].
    vm_compute. reflexivity.
Qed.

(** X16, witness: the line [_word_] and an engine that finds the italics. *)
Lemma underscore_italic_needs_asterisk_witness :
  (exists r, In r initHighlightingRulesAfter /\ pattern r = underscoreItalic /\
             state r = Italic /\ shouldContain0 r = "*") /\
  run (highlightAdditionalRules underscoreEnvironment initHighlightingRulesAfter
                                "_a_")
      (highlighterAt [("_a_", NoState)] 0) =
  run (highlightAdditionalRules sampleEnvironment initHighlightingRulesAfter
                                "_a_")
      (highlighterAt [("_a_", NoState)] 0).
Proof.
  apply underscore_italic_needs_asterisk.
  - intros q text Q. unfold underscoreEnvironment. cbn [globalMatch].
    destruct (String.eqb q underscoreItalic) eqn:E; [| reflexivity].
    apply String.eqb_eq in E. contradiction.
  - reflexivity.
Defined.

(* ------------------------------------------------------------------------- *)
(** ** The Tagger Script highlighter and the line that ends with [%] *)

Lemma indexOfChar_range (s : string) (c : ascii) (from : Z) :
  0 <= from ->
  QString.indexOfChar s c from = -1 \/
  from <= QString.indexOfChar s c from < QString.length s.
Proof.
  unfold QString.indexOfChar, QString.length. intros N.
  destruct (from <? 0) eqn:E; [apply Z.ltb_lt in E; lia |].
  destruct (from <? Z.of_nat (String.length s)) eqn:L; [| left; reflexivity].
  apply Z.ltb_lt in L.
  pose proof (length_drop s (Z.to_nat from) ltac:(lia)) as LD.
  destruct (findChar_range c (QString.drop (Z.to_nat from) s) from N) as [F | F];
    [left; exact F | right; lia].
Qed.

Lemma length_zero_empty (s : string) : String.length s = O -> s = EmptyString.
Proof. destruct s; [reflexivity | discriminate]. Qed.

(** A character of a line that does not end with it is not the last one. *)
Lemma charAt_not_last (text : string) (c : ascii) (i : Z) :
  QString.endsWith text (QString.single c) = false ->
  QString.charAt text i = Some c -> i + 1 < QString.length text.
Proof.
  unfold QString.charAt, QString.endsWith, QString.length, QString.single.
  intros E G. destruct (i <? 0) eqn:N; [discriminate |]. apply Z.ltb_ge in N.
  pose proof (get_length _ _ _ G) as L.
  destruct (get_drop _ _ _ G) as [r D].
  pose proof (length_drop text (Z.to_nat i) ltac:(lia)) as LD.
  rewrite D in LD. cbn [String.length] in LD, E.
  destruct (Z.eq_dec (i + 1) (Z.of_nat (String.length text))) as [Last | ]; [| lia].
  assert (R : r = EmptyString) by (apply length_zero_empty; lia).
  assert (I : (String.length text - 1)%nat = Z.to_nat i) by lia.
  rewrite I, D, R in E.
  destruct (1 <=? String.length text)%nat eqn:O;
    [| apply Nat.leb_gt in O; lia].
  rewrite String.eqb_refl in E. discriminate.
Qed.

Lemma eqb_true_charAt (text : string) (i : Z) (c d : ascii) :
  QString.charAt text i = Some c -> Ascii.eqb c d = true ->
  QString.charAt text i = Some d.
Proof. intros G E. apply Ascii.eqb_eq in E. subst d. exact G. Qed.

(** A call, which answers. *)
Ltac answer :=
  cbn [bind call]; split; [exact Logic.I | intros ? ?]; cbn [bind].

Section TaggerScript.

Variable text : string.

Hypothesis no_percent_last : QString.endsWith text "%" = false.

(** The function at [i]. *)
Lemma tagger_function (i : Z) (c : ascii) :
  0 <= i < QString.length text -> QString.charAt text i = Some c ->
  obeysTo faultless (positionFrom text i)
          (if Ascii.eqb c "$" && negb (String.eqb (QString.mid text i 5) "$noop")
           then
             let next := QString.indexOfChar text "(" i in
             if next =? -1 then Ret None
             else setFormatOf i (next - i) CodeKeyWord ;; Ret (Some next)
           else Ret (Some i))%prog.
Proof.
  intros Hi C.
  destruct (Ascii.eqb c "$" && negb (String.eqb (QString.mid text i 5) "$noop"));
    [| cbn [obeysTo positionFrom]; lia].
  cbv zeta. destruct (indexOfChar_range text "(" i (proj1 Hi)) as [R | R].
  - rewrite R. exact I.
  - destruct (QString.indexOfChar text "(" i =? -1); [exact I |].
    unfold setFormatOf, setFormat. answer. answer. exact R.
Qed.

(** The variable at [j]. *)
Lemma tagger_variable (j : Z) (c : ascii) :
  0 <= j < QString.length text -> QString.charAt text j = Some c ->
  obeysTo faultless (fun k => j <= k < QString.length text)
          (if Ascii.eqb c "%" then
             let next := QString.indexOfChar text "%" (j + 1) in
             let start := j in
             let i := j + 1 in
             if negb (next =? -1) then
               setFormatOf start (next - start + 1) CodeType ;;
               Ret next
             else
               noStateFormat <- call (Formats NoState) ;;
               let errorFormat :=
                 setUnderlineStyle (setUnderlineColor noStateFormat red)
                                   WaveUnderline in
               setFormat start 1 errorFormat ;;
               Ret i
           else Ret j)%prog.
Proof.
  intros Hj C. destruct (Ascii.eqb c "%") eqn:E; [| cbn [obeysTo]; lia].
  pose proof (charAt_not_last text "%" j no_percent_last
                              (eqb_true_charAt text j c "%" C E)) as L.
  cbv zeta. unfold setFormatOf, setFormat.
  destruct (indexOfChar_range text "%" (j + 1) ltac:(lia)) as [R | R].
  - rewrite R. change (negb (-1 =? -1)) with false. cbv iota.
    answer. answer. cbn [obeysTo]. lia.
  - destruct (QString.indexOfChar text "%" (j + 1) =? -1); cbn [negb];
      answer; answer; cbn [obeysTo]; lia.
Qed.

(** The comment at [k]. *)
Lemma tagger_comment (k : Z) :
  0 <= k < QString.length text ->
  obeysTo faultless (positionFrom text k)
          (if String.eqb (QString.mid text k 5) "$noop" then
             let next := QString.indexOfChar text ")" k in
             if next =? -1 then Ret None
             else setFormatOf k (next - k + 1) CodeComment ;; Ret (Some next)
           else Ret (Some k))%prog.
Proof.
  intros Hk. destruct (String.eqb (QString.mid text k 5) "$noop");
    [| cbn [obeysTo positionFrom]; lia].
  cbv zeta. destruct (indexOfChar_range text ")" k (proj1 Hk)) as [R | R].
  - rewrite R. exact I.
  - destruct (QString.indexOfChar text ")" k =? -1); [exact I |].
    unfold setFormatOf, setFormat. answer. answer. exact R.
Qed.

Lemma taggerScriptLoop_faultless :
  forall (fuel : nat) (i : Z),
    0 <= i <= QString.length text + 1 ->
    QString.length text + 1 - i < Z.of_nat fuel ->
    obeys faultless (taggerScriptLoop fuel text i).
Proof.
  induction fuel as [| fuel IH]; intros i Hi F; [lia |].
  cbn [taggerScriptLoop].
  destruct (i <? QString.length text) eqn:L; [| exact I].
  apply Z.ltb_lt in L.
  destruct (charAt_in_range text i) as [c C]; [lia |]. rewrite C. cbn [bind].
  apply charAt_Ret in C.
  apply (obeysTo_bind faultless (positionFrom text i));
    [apply (tagger_function i c); [lia | exact C] |].
  intros [j |] Hj; [| exact I]. cbn [positionFrom] in Hj.
  destruct (charAt_in_range text j) as [c1 C1]; [lia |]. rewrite C1. cbn [bind].
  apply charAt_Ret in C1.
  apply (obeysTo_bind faultless (fun k => j <= k < QString.length text));
    [apply (tagger_variable j c1); [lia | exact C1] |].
  intros k Hk.
  apply (obeysTo_bind faultless (positionFrom text k));
    [apply (tagger_comment k); lia |].
  intros [m |] Hm; [| exact I]. cbn [positionFrom] in Hm.
  destruct (charAt_in_range text m) as [c2 C2]; [lia |]. rewrite C2. cbn [bind].
  destruct (Ascii.eqb c2 QChar.backslash).
  - unfold setFormatOf, setFormat. answer. answer. apply IH; lia.
  - cbn [bind]. apply IH; lia.
Qed.

Lemma taggerScriptHighlighter_faultless :
  obeys faultless (taggerScriptHighlighter text).
Proof.
  unfold taggerScriptHighlighter. destruct (QString.isEmpty text); [exact I |].
  apply taggerScriptLoop_faultless.
  - unfold QString.length. lia.
  - rewrite loopBound_length. unfold QString.length. lia.
Qed.

End TaggerScript.

Lemma highlightSyntax_selects_tagger (env : Environment) (text : string)
      (h : Highlighter) :
  stateOf h Current = CodeTaggerScript ->
  run (highlightSyntax env text) h = run (taggerScriptHighlighter text) h.
Proof.
  intros S. unfold highlightSyntax, taggerScriptHighlighter.
  destruct (QString.isEmpty text); [reflexivity |].
  cbv zeta. rewrite run_bind_currentBlockState, S. reflexivity.
Qed.

(** X17.  Inside a block of Tagger Script every line that does not end with
    [%] is highlighted to its end and stays in the state [CodeTaggerScript]:
    the highlighter reads behind a variable that is not closed, which is
    outside the line only when that [%] is the last character. *)
Theorem tagger_line_ends_well (env : Environment) (text : string)
        (h : Highlighter) :
  stateOf h Previous = CodeTaggerScript ->
  QString.startsWith text "```" = false ->
  QString.endsWith text "%" = false ->
  snd (run (highlightBlock env text) h) = Done tt /\
  stateOf (fst (run (highlightBlock env text) h)) Current = CodeTaggerScript.
Proof.
  intros P F E.
  destruct (highlightBlock_own env h text CodeTaggerScript
                               (taggerScriptHighlighter text) P eq_refl F
                               (highlightSyntax_selects_tagger env text)
                               (taggerScriptHighlighter_quiet text)
                               (taggerScriptHighlighter_faultless text E)
                               h eq_refl)
    as [[] [D S]].
  auto.
Qed.

(** X17, witness: a variable that is not closed, inside the line. *)
Lemma tagger_line_ends_well_witness :
  snd (run (highlightBlock sampleEnvironment "$set(a,%b) \n")
           (highlighterAt [("```taggerscript", CodeTaggerScript);
                           ("$set(a,%b) \n", NoState)] 1))
  = Done tt /\
  stateOf (fst (run (highlightBlock sampleEnvironment "$set(a,%b) \n")
                    (highlighterAt [("```taggerscript", CodeTaggerScript);
                                    ("$set(a,%b) \n", NoState)] 1)))
          Current = CodeTaggerScript.
Proof.
  apply (tagger_line_ends_well sampleEnvironment); reflexivity.
Defined.

(* ------------------------------------------------------------------------- *)
(** ** The XML highlighter and the line that ends with [<] *)

Lemma get_drop_plus (s : string) :
  forall m n, String.get n (QString.drop m s) = String.get (m + n) s.
Proof.
  induction s as [| a r IH]; intros [| m] n; cbn [QString.drop Nat.add];
    try reflexivity.
  cbn [String.get]. apply IH.
Qed.

(** The character at the position a search finds is the one looked for. *)
Lemma findChar_char (c : ascii) (s : string) :
  forall i, 0 <= i -> QString.findChar c s i <> -1 ->
            String.get (Z.to_nat (QString.findChar c s i - i)) s = Some c.
Proof.
  induction s as [| a r IH]; intros i Hi F; cbn [QString.findChar] in *;
    [congruence |].
  destruct (Ascii.eqb a c) eqn:E.
  - rewrite Z.sub_diag. apply Ascii.eqb_eq in E. subst a. reflexivity.
  - destruct (findChar_range c r (i + 1)) as [R | R]; [lia | congruence |].
    replace (Z.to_nat (QString.findChar c r (i + 1) - i))
      with (S (Z.to_nat (QString.findChar c r (i + 1) - (i + 1)))) by lia.
    cbn [String.get]. apply IH; [lia | exact F].
Qed.

Lemma indexOfChar_char (s : string) (c : ascii) (from : Z) :
  0 <= from -> QString.indexOfChar s c from <> -1 ->
  QString.charAt s (QString.indexOfChar s c from) = Some c.
Proof.
  intros N F. destruct (indexOfChar_range s c from N) as [R | R]; [congruence |].
  unfold QString.charAt.
  destruct (QString.indexOfChar s c from <? 0) eqn:E;
    [apply Z.ltb_lt in E; lia |].
  unfold QString.indexOfChar, QString.length in *.
  destruct (from <? 0) eqn:E0; [apply Z.ltb_lt in E0; lia |].
  destruct (from <? Z.of_nat (String.length s)); [| congruence].
  pose proof (findChar_char c (QString.drop (Z.to_nat from) s) from N F) as G.
  rewrite get_drop_plus in G.
  replace (Z.to_nat from +
           Z.to_nat (QString.findChar c (QString.drop (Z.to_nat from) s) from - from))%nat
    with (Z.to_nat (QString.findChar c (QString.drop (Z.to_nat from) s) from))
    in G by lia.
  exact G.
Qed.

Lemma xmlStringLoop_faultless (text : string) :
  forall (fuel : nat) (i cnt : Z),
    0 <= i <= QString.length text ->
    QString.length text - i < Z.of_nat fuel ->
    obeysTo faultless (fun r => i <= fst r <= QString.length text)
            (xmlStringLoop fuel text i cnt).
Proof.
  induction fuel as [| fuel IH]; intros i cnt Hi F; [lia |].
  cbn [xmlStringLoop]. cbv zeta.
  destruct (i <? QString.length text) eqn:L;
    [| cbn [obeysTo fst]; lia].
  apply Z.ltb_lt in L.
  destruct (charAt_in_range text i) as [c C]; [lia |]. rewrite C. cbn [bind].
  destruct (Ascii.eqb c QChar.dquote); [cbn [obeysTo fst]; lia |].
  destruct (i + 1 + 1 >=? QString.length text); [cbn [obeysTo fst]; lia |].
  apply (obeysTo_weaken faultless faultless
                        (fun r => i + 1 <= fst r <= QString.length text)).
  - auto.
  - intros c0 x Hx. exact Hx.
  - auto.
  - intros r Hr. lia.
  - apply IH; lia.
Qed.

Section Xml.

Variable text : string.

Hypothesis no_tag_last : QString.endsWith text "<" = false.

(** Whether a tag starts at [i]. *)
Lemma xml_isTag (i : Z) (c : ascii) :
  QString.charAt text i = Some c ->
  obeysTo faultless (fun b => b = true -> Ascii.eqb c "<" = true)
          (if Ascii.eqb c "<"
           then c1 <- charAt text (i + 1) ;; Ret (negb (Ascii.eqb c1 "!"))
           else Ret false)%prog.
Proof.
  intros C. destruct (Ascii.eqb c "<") eqn:E; [| cbn [obeysTo]; discriminate].
  pose proof (charAt_not_last text "<" i no_tag_last
                              (eqb_true_charAt text i c "<" C E)) as L.
  assert (N : 0 <= i).
  { unfold QString.charAt in C. destruct (i <? 0) eqn:I0; [discriminate |].
    apply Z.ltb_ge in I0. exact I0. }
  destruct (charAt_in_range text (i + 1)) as [c1 C1]; [lia |]. rewrite C1.
  cbn [bind obeysTo]. auto.
Qed.

(** The name of the tag at [i]. *)
Lemma xml_tag (i : Z) (c : ascii) (isTag : bool) :
  0 <= i < QString.length text -> QString.charAt text i = Some c ->
  (isTag = true -> Ascii.eqb c "<" = true) ->
  obeysTo faultless (fun j => i <= j < QString.length text)
          (if isTag then
             let found := QString.indexOfChar text ">" i in
             if 0 <? found then
               let i := i + 1 in
               c <- charAt text i ;;
               let i := if Ascii.eqb c "/" then i + 1 else i in
               setFormatOf i (found - i) CodeKeyWord ;;
               Ret i
             else Ret i
           else Ret i)%prog.
Proof.
  intros Hi C T. destruct isTag; [| cbn [obeysTo]; lia].
  specialize (T eq_refl). apply Ascii.eqb_eq in T. subst c. cbv zeta.
  destruct (indexOfChar_behind text ">" "<" i C eq_refl) as [R | R].
  - rewrite R. change (0 <? -1) with false. cbn [obeysTo]. lia.
  - destruct (0 <? QString.indexOfChar text ">" i); [| cbn [obeysTo]; lia].
    destruct (charAt_in_range text (i + 1)) as [c1 C1]; [lia |]. rewrite C1.
    cbn [bind]. apply charAt_Ret in C1.
    assert (G : QString.charAt text (QString.indexOfChar text ">" i) = Some ">"%char)
      by (apply indexOfChar_char; lia).
    unfold setFormatOf, setFormat.
    destruct (Ascii.eqb c1 "/") eqn:S.
    + assert (QString.indexOfChar text ">" i <> i + 1).
      { intros Q. rewrite Q, C1 in G. apply Ascii.eqb_eq in S. subst c1.
        discriminate. }
      answer. answer. cbn [obeysTo]. lia.
    + answer. answer. cbn [obeysTo]. lia.
Qed.

Lemma xmlLoop_faultless :
  forall (fuel : nat) (i : Z),
    0 <= i <= QString.length text + 1 ->
    QString.length text + 1 - i < Z.of_nat fuel ->
    obeys faultless (xmlLoop fuel text i).
Proof.
  induction fuel as [| fuel IH]; intros i Hi F; [lia |].
  cbn [xmlLoop]. cbv zeta.
  destruct (i <? QString.length text) eqn:L; [| exact I].
  apply Z.ltb_lt in L.
  destruct (charAt_in_range text i) as [c C]; [lia |]. rewrite C. cbn [bind].
  apply charAt_Ret in C.
  apply (obeysTo_bind faultless (fun b => b = true -> Ascii.eqb c "<" = true));
    [apply (xml_isTag i c C) |].
  intros isTag T.
  apply (obeysTo_bind faultless (fun j => i <= j < QString.length text));
    [apply (xml_tag i c isTag); [lia | exact C | exact T] |].
  intros j Hj.
  destruct (charAt_in_range text j) as [c1 C1]; [lia |]. rewrite C1. cbn [bind].
  apply (obeysTo_bind faultless (fun _ => True)).
  { destruct (Ascii.eqb c1 "="); [| exact Logic.I]. cbv zeta.
    match goal with
    | |- obeysTo _ _ (if ?b then _ else _) => destruct b; [| exact Logic.I]
    end.
    unfold setFormatOf, setFormat. answer. answer. exact Logic.I. }
  intros _ _. cbn [bind].
  destruct (Ascii.eqb c1 QChar.dquote); [| apply IH; lia].
  destruct (j + 1 + 1 >=? QString.length text) eqn:G; [exact Logic.I |].
  apply geb_false in G.
  apply (obeysTo_bind faultless (fun r => j + 1 <= fst r <= QString.length text)).
  - apply xmlStringLoop_faultless; [lia |].
    rewrite loopBound_length. lia.
  - intros r Hr. unfold setFormatOf, setFormat. answer. answer.
    apply IH; lia.
Qed.

Lemma xmlHighlighter_faultless : obeys faultless (xmlHighlighter text).
Proof.
  unfold xmlHighlighter. destruct (QString.isEmpty text); [exact I |].
  unfold setFormatOf, setFormat. answer. answer.
  apply xmlLoop_faultless.
  - unfold QString.length. lia.
  - rewrite loopBound_length. unfold QString.length. lia.
Qed.

End Xml.

Lemma highlightSyntax_selects_xml (env : Environment) (text : string)
      (h : Highlighter) :
  stateOf h Current = CodeXML ->
  run (highlightSyntax env text) h = run (xmlHighlighter text) h.
Proof.
  intros S. unfold highlightSyntax, xmlHighlighter.
  destruct (QString.isEmpty text); [reflexivity |].
  cbv zeta. rewrite run_bind_currentBlockState, S. reflexivity.
Qed.

(** X18.  Inside a block of XML every line that does not end with [<] is
    highlighted to its end and stays in the state [CodeXML]: the highlighter
    reads the character behind a [<], which is outside the line only when
    the [<] is the last character, and its loops move forward. *)
Theorem xml_line_ends_well (env : Environment) (text : string)
        (h : Highlighter) :
  stateOf h Previous = CodeXML ->
  QString.startsWith text "```" = false ->
  QString.endsWith text "<" = false ->
  snd (run (highlightBlock env text) h) = Done tt /\
  stateOf (fst (run (highlightBlock env text) h)) Current = CodeXML.
Proof.
  intros P F E.
  destruct (highlightBlock_own env h text CodeXML (xmlHighlighter text)
                               P eq_refl F
                               (highlightSyntax_selects_xml env text)
                               (xmlHighlighter_quiet text)
                               (xmlHighlighter_faultless text E)
                               h eq_refl)
    as [[] [D S]].
  auto.
Qed.

(** X18, witness: a closing tag, an attribute and a string that is left
    open. *)
Lemma xml_line_ends_well_witness :
  snd (run (highlightBlock sampleEnvironment sampleXmlLine)
           (highlighterAt [("```xml", CodeXML); (sampleXmlLine, NoState)] 1))
  = Done tt /\
  stateOf (fst (run (highlightBlock sampleEnvironment sampleXmlLine)
                    (highlighterAt [("```xml", CodeXML);
                                    (sampleXmlLine, NoState)] 1)))
          Current = CodeXML.
Proof.
  apply (xml_line_ends_well sampleEnvironment); reflexivity.
Defined.

(* ------------------------------------------------------------------------- *)
(** ** The YAML highlighter reads outside the line on blank lines only *)

(** The test of the character before [i]. *)
Lemma charBefore_Ret (text : string) (i : Z) (q : ascii) :
  0 <= i <= QString.length text ->
  exists b,
    (if negb (i =? 0)
     then p <- charAt text (i - 1) ;; Ret (Ascii.eqb p q)
     else Ret false)%prog = Ret b.
Proof.
  intros Hi. destruct (i =? 0) eqn:Z0; cbn [negb]; [eauto |].
  apply Z.eqb_neq in Z0.
  destruct (charAt_in_range text (i - 1)) as [p P]; [lia |]. rewrite P.
  cbn [bind]. eauto.
Qed.

Lemma ymlLoop_faultless (text : string) :
  forall (fuel : nat) (colonNotFound : bool) (i : Z),
    0 <= i <= QString.length text + 1 ->
    QString.length text + 1 - i < Z.of_nat fuel ->
    obeys faultless (ymlLoop fuel text colonNotFound i).
Proof.
  induction fuel as [| fuel IH]; intros cnf i Hi F; [lia |].
  cbn [ymlLoop]. cbv zeta.
  destruct (i <? QString.length text) eqn:L; [| exact I].
  apply Z.ltb_lt in L.
  destruct (charAt_in_range text i) as [c C]; [lia |]. rewrite !C. cbn [bind].
  destruct (negb (QChar.isLetter c)); [apply IH; lia |].
  destruct (cnf && negb (Ascii.eqb c "h")); [apply IH; lia |].
  destruct (charBefore_Ret text i QChar.dquote) as [b1 B1]; [lia |].
  rewrite B1. cbn [bind]. destruct b1.
  { destruct (indexOfChar_range text QChar.dquote i) as [R | R]; [lia | |].
    - rewrite R. exact I.
    - destruct (QString.indexOfChar text QChar.dquote i =? -1);
        [exact I | apply IH; lia]. }
  destruct (charBefore_Ret text i QChar.squote) as [b2 B2]; [lia |].
  rewrite B2. cbn [bind]. destruct b2.
  { destruct (indexOfChar_range text QChar.squote i) as [R | R]; [lia | |].
    - rewrite R. exact I.
    - destruct (QString.indexOfChar text QChar.squote i =? -1);
        [exact I | apply IH; lia]. }
  assert (Link : forall cnf' : bool,
             obeys faultless
                   (if Ascii.eqb c "h" &&
                       (String.eqb (QString.mid text i 5) "https" ||
                        String.eqb (QString.mid text i 4) "http")
                    then
                      codeString <- call (Formats CodeString) ;;
                      setFormat i
                        ((if QString.indexOfChar text " " i =? -1
                          then QString.length text
                          else QString.indexOfChar text " " i) - i)
                        (setUnderlineStyle codeString SingleUnderline) ;;
                      ymlLoop fuel text cnf'
                        ((if QString.indexOfChar text " " i =? -1
                          then QString.length text
                          else QString.indexOfChar text " " i) + 1)
                    else ymlLoop fuel text cnf' (i + 1))%prog).
  { intros cnf'.
    destruct (Ascii.eqb c "h" &&
              (String.eqb (QString.mid text i 5) "https" ||
               String.eqb (QString.mid text i 4) "http")); [| apply IH; lia].
    unfold setFormat. answer. answer.
    destruct (indexOfChar_range text " " i) as [R | R]; [lia | |].
    - rewrite R. change (-1 =? -1) with true. cbv iota. apply IH; lia.
    - destruct (QString.indexOfChar text " " i =? -1); apply IH; lia. }
  apply (obeysTo_bind faultless (fun _ => True)).
  - destruct (indexOfChar_range text ":" i) as [R | R]; [lia | |].
    + rewrite R. exact I.
    + destruct (QString.indexOfChar text ":" i =? -1); [exact I |].
      destruct cnf; cbn [negb]; [exact I |].
      destruct (QString.indexOfChar text ":" i + 1 =? QString.length text) eqn:E.
      * unfold setFormatOf, setFormat. answer. answer. exact I.
      * apply Z.eqb_neq in E.
        destruct (charAt_in_range text (QString.indexOfChar text ":" i + 1))
          as [a A]; [lia |].
        rewrite !A. cbn [bind].
        destruct (negb (Ascii.eqb a QChar.backslash && Ascii.eqb a "/"));
          [unfold setFormatOf, setFormat; answer; answer; exact I | exact I].
  - intros [[] |] _; [apply Link | exact I].
Qed.

(** X19.  The YAML highlighter ends well on every line but a line that is
    not empty and holds nothing but spaces, on which it reads the first
    character of an empty string: its scan of the line stays inside the line
    and moves forward, whatever the line holds. *)
Theorem ymlHighlighter_faults_on_blank_lines_only (text : string)
        (h : Highlighter) :
  snd (run (ymlHighlighter text) h) =
  if negb (QString.isEmpty text) && QString.isEmpty (QString.trimmed text)
  then ReadOutOfRange else Done tt.
Proof.
  unfold ymlHighlighter. destruct (QString.isEmpty text); [reflexivity |].
  cbn [negb andb].
  destruct (QString.isEmpty (QString.trimmed text)) eqn:T.
  - destruct (QString.trimmed text); [reflexivity | discriminate].
  - destruct (charAt_in_range (QString.trimmed text) 0) as [c C].
    { pose proof (length_not_empty _ T). lia. }
    rewrite C. cbn [bind].
    destruct (Ascii.eqb c "#"); [reflexivity |].
    destruct (obeys_done (fun _ => True) unit
                         (ymlLoop (loopBound text) text false 0) h) as [[] D].
    + apply ymlLoop_faultless.
      * unfold QString.length. lia.
      * rewrite loopBound_length. unfold QString.length. lia.
    + exact D.
Qed.

(* ------------------------------------------------------------------------- *)
(** ** What the rules set on the line of a heading *)

Lemma perform_inHeading (s : Z) (b : bool) (fc : list Annotation) (c : Call)
      (h : Highlighter) :
  headingCall s b c -> inHeading s b fc h -> inHeading s b fc (fst (perform c h)).
Proof.
  intros Hc [S [l [E F]]]. destruct c; simpl in Hc; try contradiction;
    try (split; [exact S | exists l; split; [exact E | exact F]]).
  split; [exact S |]. exists (l ++ [mkAnnotation start count format]). split.
  - cbn [perform fst]. change (formatChanges (withFormatChanges h ?x)) with x.
    rewrite E, app_assoc. reflexivity.
  - apply Forall_app. split; [exact F |]. constructor; [exact Hc | constructor].
Qed.

Lemma heading_keeps (s : Z) (b : bool) (fc : list Annotation) {A : Type}
      (p : Prog A) :
  obeys (discipline (headingCall s b) False) p -> keeps (inHeading s b fc) p.
Proof. apply (obeys_keeps (headingCall s b) False). apply perform_inHeading. Qed.

(** The formats of [setHeadingStyles], once the state of the line is read. *)
Lemma setHeadingStyles_styles (s rule : Z) (b : bool)
      (m : QRegularExpressionMatch) (g : Z) :
  obeys (discipline (headingCall s b) False)
        (f <- call (Formats s) ;;
         if rule =? Italic then
           setFormat (capturedStart m g) (capturedLength m g) (setFontItalic f true)
         else if rule =? Bold then
           setFormat (capturedStart m g) (capturedLength m g) f
         else if rule =? Link then
           link <- call (Formats Link) ;;
           let link := setFontPointSize link (fontPointSize f) in
           if g =? 1 then setFormat (capturedStart m g) (capturedLength m g) link
           else Ret tt
         else Ret tt)%prog.
Proof.
  apply obeys_bind_call; [exact I | intros f Hf; simpl in Hf].
  destruct (rule =? Italic); [apply obeys_call; left; exact Hf |].
  destruct (rule =? Bold); [apply obeys_call; left; exact Hf |].
  destruct (rule =? Link); [| exact I].
  apply obeys_bind_call; [exact I | intros link Hl; simpl in Hl].
  cbv zeta. destruct (g =? 1); [| exact I].
  apply obeys_call. right. left. exact Hl.
Qed.

Section RulesOnAHeading.

Variable env : Environment.
Variable s : Z.
Variable inlineCode : bool.
Variable formats : list Annotation.

Hypothesis heading : isHeadingState s = true.

Lemma formatMatches_inHeading rule masked format matches :
  styleId masked = Some MaskedSyntax -> styleId format = Some (state rule) ->
  ((state rule =? InlineCodeBlock) = true -> inlineCode = true) ->
  keeps (inHeading s inlineCode formats)
        (formatMatches rule masked format matches).
Proof.
  intros M F B. induction matches as [| m rest IH]; cbn [formatMatches].
  - apply keeps_ret.
  - intros h J. apply keeps_bind_at; [| intros _].
    + destruct (0 <? capturingGroup rule); [| exact J].
      cbv zeta. rewrite run_bind_currentBlockState, (proj1 J), heading.
      cbn [andb].
      destruct (state rule =? InlineCodeBlock) eqn:E; cbn [negb]; [| exact J].
      apply (heading_keeps s inlineCode formats); [| exact J].
      apply obeys_call. right. right. split; [apply B; reflexivity |]. right.
      destruct (negb _); [exact M | exact M].
    + intros h1 J1. rewrite run_bind_currentBlockState, (proj1 J1), heading.
      cbn [andb].
      apply keeps_bind_at; [| intros _; exact IH].
      destruct (state rule =? InlineCodeBlock) eqn:E; cbn [negb].
      * apply (heading_keeps s inlineCode formats); [| exact J1].
        apply obeys_call. right. right. split; [apply B; reflexivity |]. left.
        apply Z.eqb_eq in E. rewrite F, E. reflexivity.
      * unfold setHeadingStyles.
        rewrite run_bind_currentBlockState, (proj1 J1).
        apply (heading_keeps s inlineCode formats); [| exact J1].
        apply setHeadingStyles_styles.
Qed.

Lemma highlightRules_inHeading rules masked text :
  rulesKeepState rules ->
  Forall (fun r => (state r =? InlineCodeBlock) = true -> inlineCode = true)
         rules ->
  styleId masked = Some MaskedSyntax ->
  keeps (inHeading s inlineCode formats) (highlightRules env rules masked text).
Proof.
  intros K. induction K as [| rule rest Hr Hrest IH]; intros B M;
    cbn [highlightRules].
  - apply keeps_ret.
  - inversion B as [| r0 l0 B1 B2]; subst.
    intros h J. rewrite run_bind_currentBlockState.
    apply keeps_bind_at; [| intros _; apply IH; assumption].
    destruct (disableIfCurrentStateIsSet rule && _); [exact J |].
    destruct (ruleMayMatch rule text); [| exact J].
    cbn [negb]. cbv zeta. rewrite run_bind_Formats.
    apply keeps_bind; [| intros _ | exact J].
    + rewrite Hr, andb_false_r. apply keeps_ret.
    + apply formatMatches_inHeading; auto using styleId_formatOf.
Qed.

End RulesOnAHeading.

Lemma hasInlineCodeRule_each (rules : list HighlightingRule) :
  Forall (fun r => (state r =? InlineCodeBlock) = true ->
                   hasInlineCodeRule rules = true) rules.
Proof.
  apply Forall_forall. intros r In E. unfold hasInlineCodeRule.
  apply existsb_exists. exists r. auto.
Qed.

(** X20.  On the line of a heading the rules set the heading's own format on
    bold and on italics and the format of links on the first group of a
    link, and nothing else: no mark is masked and no other rule shows, but
    for the rule of inline code, which sets its format and masks its marks
    as on any line.  The state of the line stays, and the rules end well. *)
Theorem heading_rules_styles (env : Environment)
        (rules : list HighlightingRule) (text : string) (h : Highlighter) :
  isHeadingState (stateOf h Current) = true ->
  rulesKeepState rules ->
  snd (run (highlightAdditionalRules env rules text) h) = Done tt /\
  stateOf (fst (run (highlightAdditionalRules env rules text) h)) Current =
  stateOf h Current /\
  exists l,
    formatChanges (fst (run (highlightAdditionalRules env rules text) h)) =
    formatChanges h ++ l /\
    Forall (fun a => headingRuleStyle (stateOf h Current)
                                      (hasInlineCodeRule rules) (annFormat a)) l.
Proof.
  intros H K. split.
  - destruct (obeys_done markupCall unit (highlightAdditionalRules env rules text)
                         h (highlightAdditionalRules_markup env rules text))
      as [[] D].
    exact D.
  - assert (J : inHeading (stateOf h Current) (hasInlineCodeRule rules)
                          (formatChanges h)
                          (fst (run (highlightAdditionalRules env rules text) h))).
    { unfold highlightAdditionalRules. rewrite run_bind_Formats.
      apply (highlightRules_inHeading env (stateOf h Current)
                                      (hasInlineCodeRule rules)
                                      (formatChanges h) H).
      - exact K.
      - apply hasInlineCodeRule_each.
      - apply styleId_formatOf.
      - split; [reflexivity |]. exists []. split; [| constructor].
        rewrite app_nil_r. reflexivity. }
    exact J.
Qed.

(** X20, witness: the rules of the constructor on an [H2] line, with an
    engine that finds a match for every pattern. *)
Lemma heading_rules_styles_witness :
  snd (run (highlightAdditionalRules eagerEnvironment initHighlightingRulesAfter
                                     "## *a* ~~b~~ `c`")
           (highlighterAt [("## *a* ~~b~~ `c`", H2)] 0)) = Done tt /\
  stateOf (fst (run (highlightAdditionalRules eagerEnvironment
                                              initHighlightingRulesAfter
                                              "## *a* ~~b~~ `c`")
                    (highlighterAt [("## *a* ~~b~~ `c`", H2)] 0))) Current =
  stateOf (highlighterAt [("## *a* ~~b~~ `c`", H2)] 0) Current /\
  exists l,
    formatChanges (fst (run (highlightAdditionalRules eagerEnvironment
                                                      initHighlightingRulesAfter
                                                      "## *a* ~~b~~ `c`")
                            (highlighterAt [("## *a* ~~b~~ `c`", H2)] 0))) =
    formatChanges (highlighterAt [("## *a* ~~b~~ `c`", H2)] 0) ++ l /\
    Forall (fun a => headingRuleStyle
                       (stateOf (highlighterAt [("## *a* ~~b~~ `c`", H2)] 0) Current)
                       (hasInlineCodeRule initHighlightingRulesAfter)
                       (annFormat a)) l.
Proof.
  apply heading_rules_styles.
  - reflexivity.
  - vm_compute. repeat constructor.
Defined.

(* ------------------------------------------------------------------------- *)
(** ** The tick of the timer on a document without code *)

Lemma forallb_updateNth {A : Type} (P : A -> bool) (f : A -> A) :
  (forall x, P x = true -> P (f x) = true) ->
  forall l n, forallb P l = true -> forallb P (updateNth l n f) = true.
Proof.
  intros H. induction l as [| x r IH]; intros [| n] E;
    cbn [updateNth forallb] in *; try reflexivity;
    apply andb_true_iff in E; destruct E as [E1 E2];
    apply andb_true_iff; split; auto.
Qed.

Lemma forallb_updateBlock (P : QTextBlock -> bool) (f : QTextBlock -> QTextBlock)
      (doc : list QTextBlock) (n : Z) :
  (forall x, P x = true -> P (f x) = true) ->
  forallb P doc = true -> forallb P (updateBlock doc n f) = true.
Proof.
  intros H E. unfold updateBlock. destruct (n <? 0); [exact E |].
  apply forallb_updateNth; assumption.
Qed.

Lemma codeFree_parts (h : Highlighter) :
  codeFree h = true ->
  forallb blockOutsideCode (document h) = true /\
  forallb ruleOutsideCode (_highlightingRulesPre h) = true /\
  forallb ruleOutsideCode (_highlightingRulesAfter h) = true.
Proof.
  unfold codeFree. intros J.
  apply andb_true_iff in J. destruct J as [J J3].
  apply andb_true_iff in J. destruct J as [J1 J2]. auto.
Qed.

(** The blocks of a document without code. *)
Lemma codeFree_block (h : Highlighter) (n : Z) (b : QTextBlock) :
  codeFree h = true -> blockAt (document h) n = Some b ->
  QString.startsWith (blockText b) "```" = false /\
  isCodeBlockState (userState b) = false.
Proof.
  intros J E. destruct (codeFree_parts h J) as [J1 _].
  unfold blockAt in E. destruct (n <? 0); [discriminate |].
  apply nth_error_In in E.
  pose proof (proj1 (forallb_forall _ _) J1 b E) as B.
  unfold blockOutsideCode in B. apply andb_true_iff in B. destruct B as [B1 B2].
  apply negb_true_iff in B1. apply negb_true_iff in B2. auto.
Qed.

Lemma codeFree_state (h : Highlighter) (n : Z) :
  codeFree h = true -> isCodeBlockState (userStateOfBlock (document h) n) = false.
Proof.
  intros J. unfold userStateOfBlock.
  destruct (blockAt (document h) n) as [b |] eqn:E; [| reflexivity].
  apply (codeFree_block h n b J E).
Qed.

Lemma codeFree_text (h : Highlighter) (n : Z) :
  codeFree h = true ->
  QString.startsWith (textOfBlock (document h) n) "```" = false.
Proof.
  intros J. unfold textOfBlock.
  destruct (blockAt (document h) n) as [b |] eqn:E; [| reflexivity].
  apply (codeFree_block h n b J E).
Qed.

Lemma perform_codeFree (c : Call) (h : Highlighter) :
  noCodeCall c -> codeFree h = true -> codeFree (fst (perform c h)) = true.
Proof.
  intros Hc J. destruct c; try exact J.
  destruct (codeFree_parts h J) as [J1 [J2 J3]].
  unfold codeFree. cbn [perform fst].
  change (document (withDocument h ?d)) with d.
  change (_highlightingRulesPre (withDocument h ?d)) with (_highlightingRulesPre h).
  change (_highlightingRulesAfter (withDocument h ?d))
    with (_highlightingRulesAfter h).
  rewrite J2, J3, !andb_true_r. unfold setUserStateOfBlock.
  apply forallb_updateBlock; [| exact J1].
  intros x Hx. unfold blockOutsideCode in *. cbn [blockText userState].
  cbn [noCodeCall] in Hc. rewrite Hc.
  apply andb_true_iff in Hx. destruct Hx as [Hx _]. rewrite Hx. reflexivity.
Qed.

Lemma outsideOfCode_keeps {A : Type} (p : Prog A) :
  obeys outsideOfCode p -> keeps (fun h => codeFree h = true) p.
Proof.
  apply (obeys_keeps noCodeCall True (fun h => codeFree h = true)).
  apply perform_codeFree.
Qed.

Lemma keepingStates_outsideOfCode {A : Type} (p : Prog A) :
  obeys markupKeepingStates p -> obeys outsideOfCode p.
Proof.
  apply obeys_discipline; [| tauto].
  intros c [_ K]. destruct c; simpl in *; auto; contradiction.
Qed.

Lemma heading_state_outside (level : Z) :
  0 < level <= 6 -> isCodeBlockState (H1 + level - 1) = false.
Proof.
  intros L. unfold isCodeBlockState.
  change H1 with 12. change CodeBlock with 4. change CodeBlockComment with 5.
  change CodeCpp with 200.
  destruct (Z.eqb_spec (12 + level - 1) 4); [lia |].
  destruct (Z.eqb_spec (12 + level - 1) 5); [lia |].
  rewrite Z.geb_leb. cbn [orb]. apply Z.leb_gt. lia.
Qed.

(** A call is permitted: the state it sets is no state of a code block. *)
Ltac outside_call :=
  cbn [callOk outsideOfCode discipline noCodeCall];
  first [ exact Logic.I | assumption | reflexivity
        | match goal with
          | |- context [if ?b then _ else _] => destruct b; reflexivity
          end ].

Ltac outside_step :=
  match goal with
  | |- obeys _ (Ret _) => exact Logic.I
  | |- obeys _ OutOfFuel => exact Logic.I
  | |- obeys _ OutOfRange => exact Logic.I
  | |- obeys _ (bind (Ret _) _) => cbn [bind]
  | |- obeys _ (bind (call _) _) =>
      apply obeys_bind_call; [ outside_call | intros ? ? ]
  | |- obeys _ (call _) => apply obeys_call; outside_call
  | |- obeys _ (bind (charAt _ _) _) =>
      apply obeys_bind; [ apply obeys_charAt; exact Logic.I | intros ? ]
  | |- obeys _ (bind (if _ then _ else _) _) => apply obeys_bind; [ | intros ? ]
  | |- obeys _ (bind (bind _ _) _) => apply obeys_bind; [ | intros ? ]
  | |- obeys _ (bind _ _) => apply obeys_bind; [ solve [eauto 10] | intros ? ]
  | |- obeys _ (if ?b then _ else _) => destruct b
  | |- obeys _ (match ?x with _ => _ end) => destruct x
  | |- obeys _ _ => solve [eauto 10]
  end.

Ltac outside := repeat first [ progress scan_unfold | outside_step ].

Section WithoutCode.

Variable env : Environment.

Lemma highlightRules_outside (rules : list HighlightingRule)
      (masked : QTextCharFormat) (text : string) :
  forallb ruleOutsideCode rules = true ->
  obeys outsideOfCode (highlightRules env rules masked text).
Proof.
  induction rules as [| rule rest IH]; intros R; cbn [highlightRules];
    [exact I |].
  cbn [forallb] in R. apply andb_true_iff in R. destruct R as [R1 R2].
  specialize (IH R2).
  pose proof (fun format matches =>
                keepingStates_outsideOfCode
                  _ (formatMatches_markup rule masked format matches)) as M.
  unfold ruleOutsideCode in R1.
  destruct (useStateAsCurrentBlockState rule).
  - cbn [negb orb] in R1. apply negb_true_iff in R1. outside.
  - rewrite andb_false_r. outside.
Qed.

Lemma highlightAdditionalRules_outside (rules : list HighlightingRule)
      (text : string) :
  forallb ruleOutsideCode rules = true ->
  obeys outsideOfCode (highlightAdditionalRules env rules text).
Proof.
  intros R. pose proof (fun masked => highlightRules_outside rules masked text R).
  unfold highlightAdditionalRules. outside.
Qed.

Lemma addDirtyBlock_outside (b : BlockRef) : obeys outsideOfCode (addDirtyBlock b).
Proof. unfold addDirtyBlock. outside. Qed.

Lemma highlightSubHeadline_outside (text : string) (state : Z) :
  isCodeBlockState state = false ->
  obeys outsideOfCode (highlightSubHeadline text state).
Proof.
  intros S. pose proof addDirtyBlock_outside.
  unfold highlightSubHeadline. outside.
Qed.

Lemma headingMarks_outside (text : string) (fuel : nat) :
  forall i, i <= 6 ->
            obeysTo outsideOfCode (fun r => r <= 6) (headingMarks fuel text i).
Proof.
  induction fuel as [| fuel IH]; intros i Hi; cbn [headingMarks]; [exact I |].
  destruct (i <? QString.length text); [| exact Hi].
  apply (obeysTo_bind outsideOfCode (fun _ => True));
    [apply obeys_charAt; exact I | intros c _].
  destruct (Ascii.eqb c "#" && (i <? 6)) eqn:E; [| exact Hi].
  apply andb_true_iff in E. destruct E as [_ E]. apply Z.ltb_lt in E.
  apply IH. lia.
Qed.

Lemma highlightHeadline_outside (text : string) :
  obeys outsideOfCode (highlightHeadline text).
Proof.
  unfold highlightHeadline.
  apply obeys_bind; [apply obeys_charAt; exact I | intros c]. cbv zeta.
  apply (obeysTo_bind outsideOfCode
                      (fun r => match r with
                                | FallThrough level => level <= 6
                                | Return => True
                                end)).
  - destruct (Ascii.eqb c "#"); [| cbn [obeysTo]; lia].
    destruct (1 >=? QString.length text); [exact I |].
    apply (obeysTo_bind outsideOfCode (fun r => r <= 6));
      [apply headingMarks_outside; lia | intros r Hr].
    destruct (r <? QString.length text); [| cbn [obeysTo]; lia].
    apply (obeysTo_bind outsideOfCode (fun _ => True));
      [apply obeys_charAt; exact I | intros c' _].
    cbn [obeysTo]. destruct (Ascii.eqb c' " "); lia.
  - intros [level |] L; [| exact I].
    pose proof (highlightSubHeadline_outside text H1 eq_refl).
    pose proof (highlightSubHeadline_outside text H2 eq_refl).
    destruct (0 <? level) eqn:P.
    + apply Z.ltb_lt in P.
      assert (S : isCodeBlockState (H1 + level - 1) = false)
        by (apply heading_state_outside; lia).
      change (obeys outsideOfCode
                (setFormatOf 0 (QString.length text) (H1 + level - 1) ;;
                 setCurrentBlockMargin (H1 + level - 1) ;;
                 setCurrentBlockState (H1 + level - 1))%prog).
      outside.
    + change (obeys outsideOfCode
                (if hasOnlyHeadChars text "=" then highlightSubHeadline text H1
                 else if hasOnlyHeadChars text "-"
                      then highlightSubHeadline text H2
                      else
                        nextBlockText <- call (BlockText Next) ;;
                        (if hasOnlyHeadChars nextBlockText "=" then
                           setFormatOf 0 (QString.length text) H1 ;;
                           setCurrentBlockState H1 ;;
                           call (BlockSetUserState Current H1)
                         else Ret tt) ;;
                        (if hasOnlyHeadChars nextBlockText "-" then
                           setFormatOf 0 (QString.length text) H2 ;;
                           setCurrentBlockState H2 ;;
                           call (BlockSetUserState Current H2)
                         else Ret tt))%prog).
      destruct (hasOnlyHeadChars text "="); [assumption |].
      destruct (hasOnlyHeadChars text "-"); [assumption |].
      outside.
Qed.

Lemma highlightCommentBlock_outside (text : string) :
  obeys outsideOfCode (highlightCommentBlock text).
Proof. unfold highlightCommentBlock. outside. Qed.

Lemma highlightFrontmatterBlock_outside (text : string) :
  obeys outsideOfCode (highlightFrontmatterBlock text).
Proof. unfold highlightFrontmatterBlock. outside. Qed.

(** A pass over a line that starts no fence leaves a document without code
    as such. *)
Lemma highlightBlock_codeFree (text : string) :
  QString.startsWith text "```" = false ->
  keeps (fun h => codeFree h = true) (highlightBlock env text).
Proof.
  intros F. unfold highlightBlock, highlightMarkdown.
  apply keeps_bind; [apply outsideOfCode_keeps; outside | intros _].
  apply keeps_bind; [apply outsideOfCode_keeps; outside | intros _].
  apply keeps_bind; [| intros _; apply outsideOfCode_keeps; outside].
  apply keeps_bind; [| intros _].
  { destruct (negb (QString.isEmpty text)); [| apply keeps_ret].
    intros h J. rewrite run_bind_rulesPre.
    apply keeps_bind_at; [| intros _].
    - apply outsideOfCode_keeps; [| exact J].
      apply highlightAdditionalRules_outside. apply (codeFree_parts h J).
    - apply keeps_bind;
        [apply outsideOfCode_keeps, highlightHeadline_outside | intros _].
      intros h1 J1. rewrite run_bind_rulesAfter.
      apply outsideOfCode_keeps; [| exact J1].
      apply highlightAdditionalRules_outside. apply (codeFree_parts h1 J1). }
  apply keeps_bind;
    [apply outsideOfCode_keeps, highlightCommentBlock_outside | intros _].
  apply keeps_bind;
    [| intros _; apply outsideOfCode_keeps, highlightFrontmatterBlock_outside].
  intros h J. rewrite highlightCodeBlock_none; [exact J | exact F |].
  apply codeFree_state. exact J.
Qed.

Lemma reformatBlock_codeFree (block : Z) (h : Highlighter) :
  codeFree h = true ->
  snd (reformatBlock env block h) = Done tt /\
  codeFree (fst (reformatBlock env block h)) = true.
Proof.
  intros J. unfold reformatBlock.
  assert (J1 : codeFree (withFormatChanges (withCurrentBlockNumber h block) [])
               = true) by exact J.
  pose proof (highlightBlock_outsideCode
                env
                (textOfBlock
                   (document (withFormatChanges (withCurrentBlockNumber h block) []))
                   block)
                (withFormatChanges (withCurrentBlockNumber h block) [])
                (codeFree_state _ _ J1)) as [[] [D _]].
  pose proof (highlightBlock_codeFree
                (textOfBlock
                   (document (withFormatChanges (withCurrentBlockNumber h block) []))
                   block)
                (codeFree_text _ block J1)
                (withFormatChanges (withCurrentBlockNumber h block) []) J1) as K.
  destruct (run _ (withFormatChanges (withCurrentBlockNumber h block) []))
    as [h' r].
  cbn [fst snd] in *. split; [exact D |].
  destruct (codeFree_parts h' K) as [K1 [K2 K3]].
  unfold codeFree, applyFormatChanges.
  change (forallb blockOutsideCode
            (updateBlock (document h') (currentBlockNumber h')
               (fun b => mkBlock (blockText b) (userState b) (formatChanges h')))
          && forallb ruleOutsideCode (_highlightingRulesPre h')
          && forallb ruleOutsideCode (_highlightingRulesAfter h') = true).
  rewrite K2, K3, !andb_true_r.
  apply forallb_updateBlock; [| exact K1]. intros x Hx. exact Hx.
Qed.

Lemma reformatBlocks_codeFree (count : nat) :
  forall block h,
    codeFree h = true ->
    snd (reformatBlocks env count block h) = Done tt /\
    codeFree (fst (reformatBlocks env count block h)) = true.
Proof.
  induction count as [| count IH]; intros block h J; cbn [reformatBlocks];
    [auto |].
  destruct (isValidBlock (document h) block); [| auto].
  destruct (reformatBlock_codeFree block h J) as [D K].
  destruct (reformatBlock env block h) as [h' r]. cbn [fst snd] in D, K.
  subst r.
  destruct (userStateOfBlock (document h') block =?
            userStateOfBlock (document h) block); [auto |].
  apply IH. exact K.
Qed.

Lemma rehighlightBlock_codeFree (block : Z) (h : Highlighter) :
  codeFree h = true ->
  snd (rehighlightBlock env block h) = Done tt /\
  codeFree (fst (rehighlightBlock env block h)) = true.
Proof.
  intros J. unfold rehighlightBlock.
  destruct (reformatBlocks_codeFree (List.length (document h)) block h J)
    as [D K].
  destruct (reformatBlocks env (List.length (document h)) block h) as [h' r].
  cbn [fst snd] in *. split; [exact D | exact K].
Qed.

(** In a document without code every re-highlighting ends well, and leaves
    a document without code. *)
Lemma codeFree_rehighlights (blocks : list Z) :
  forall h, codeFree h = true ->
            rehighlightsFinish env blocks h /\
            codeFree (afterRehighlights env blocks h) = true.
Proof.
  induction blocks as [| block rest IH]; intros h J;
    cbn [rehighlightsFinish afterRehighlights]; [auto |].
  destruct (rehighlightBlock_codeFree block h J) as [D K].
  assert (K' : codeFree (removeFirst (fst (rehighlightBlock env block h))) = true)
    by exact K.
  destruct (IH _ K') as [R C]. auto.
Qed.

End WithoutCode.

(** X21.  In a document without code a tick of the timer always ends well.
    When no line of the document starts with three backquotes, no block is
    in the state of a code block and no rule of the two tables sets such a
    state (as is the case of the rules of the constructor), a tick with more
    fuel than the queue is long ends well, without a read outside of a line
    and without a loop that does not end, whatever the engine of regular
    expressions finds; it leaves the queue empty, and the document is still
    without code: so the next tick ends well too. *)
Theorem timerTick_ends_without_code (env : Environment) (fuel : nat)
        (h : Highlighter) :
  codeFree h = true ->
  (List.length (_dirtyTextBlocks h) < fuel)%nat ->
  snd (snd (timerTick env fuel h)) = Done tt /\
  _dirtyTextBlocks (fst (snd (timerTick env fuel h))) = [] /\
  codeFree (fst (snd (timerTick env fuel h))) = true.
Proof.
  intros J L.
  destruct (codeFree_rehighlights env (_dirtyTextBlocks h) h J) as [R K].
  unfold timerTick.
  pose proof (reHighlightDirtyBlocks_finished env fuel h) as F.
  rewrite (reHighlightDirtyBlocks_all env fuel h L R) in F |- *.
  cbn [fst snd] in F. destruct (F eq_refl) as [Q _].
  destruct (_highlightingFinished
              (afterRehighlights env (_dirtyTextBlocks h) h));
    cbn [fst snd]; repeat split; try exact Q; exact K.
Qed.

(** X21, witness: a heading, a paragraph, a title and its underline, with the
    rules of the constructor and three blocks in the queue. *)
Lemma timerTick_ends_without_code_witness :
  snd (snd (timerTick sampleEnvironment 4 queuedNotes)) = Done tt /\
  _dirtyTextBlocks (fst (snd (timerTick sampleEnvironment 4 queuedNotes))) = [] /\
  codeFree (fst (snd (timerTick sampleEnvironment 4 queuedNotes))) = true.
Proof.
  apply (timerTick_ends_without_code sampleEnvironment).
  - vm_compute. reflexivity.
  - vm_compute. lia.
Defined.
